(* ===== verification/_CoqProject ===== *)
-Q . S2P
Prelude.v
Effects.v
Primitives.v
Frames.v
Blobs.v
FastLz.v
Channels.v
Upgrades.v
SystemConfig.v
Rollup.v
L1Info.v
SingleBatches.v
SpanBits.v
SpanTxData.v
SpanTxs.v
CodecModels.v
SpanCodec.v
SpanChecks.v
Pipeline.v
StageModels.v
Traversal.v
Sources.v
FrameQueues.v
ChannelBanks.v
ChannelAssemblers.v
ChannelStages.v
Brotlis.v
BatchReaders.v
Compressors.v
EncoderChannels.v
Egress.v
EgressRuns.v
BatchEncoders.v
EncoderProofs.v
EncoderRuns.v
BatchStreams.v
BatchValidators.v
BatchQueues.v
BatchProviders.v
Attributes.v
Derivation.v
Composition.v
Tries.v
TrieProofs.v
TrieReveals.v
TrieCodecs.v
TrieDecodes.v
TrieWalkers.v
TrieModels.v
Preimages.v
OracleProviders.v
OracleModels.v
Policies.v
PolicyProofs.v
Stablecoins.v
StablecoinProofs.v
StablecoinModels.v
