(* ===== verification/Prelude.v ===== *)
(** * Verification of the Base derivation pipeline, batcher and proof data

    Base is an L2 chain.  A batcher compresses L2 blocks into channels, cuts the
    channels into frames and sends these to L1; every node derives the L2 chain
    back from L1; and a proof program derives it from an oracle of hash preimages,
    through Merkle Patricia tries.  Tokens with account policies are contracts that
    every node executes natively.  This library models the derivation, the encoder
    of the batcher, the tries and the oracle of the proof program, the policy
    registry and the stablecoin, and the configuration they depend on, in Rocq
    functions that follow the Rust sources under [src/crates], and proves what
    makes them correct.

    ** The program and the files

    Derivation is a stack of stages, each pulling from the one below it:
    L1 traversal, L1 retrieval over a data source, frame queue, channel provider
    (bank or assembler), channel reader, batch stream, batch provider (queue or
    validator), attributes queue, and the pipeline that steps and resets them.
    The encoder of the batcher goes the other way: blocks become batches, batches
    go into the open channel, channels are cut into frames, frames are packed into
    blobs or calldata, and these are leased to submissions until they are safe.
    The proof program runs derivation on chain providers that read headers, tries
    and receipts by their hashes.  Sources are relative to [src/crates].

    Shared: [Prelude] (bytes, machine integers, results, lists, tactics and hints)
    and [Effects] (the monad of the methods that change their object).

    Configuration:
    - [Primitives]: block references, logs and receipts.
    - [Upgrades]: network upgrades, their activation times and the registry of
      runtime overrides ([common/genesis], upgrade configuration).
    - [SystemConfig]: the L1 system config and its update events
      ([common/genesis/src/system]).
    - [Rollup]: the rollup config and the L2 block schedule with the change to
      sub-second blocks at Denim ([common/genesis/src/rollup.rs]).
    - [L1Info]: the calldata of the L1 block info deposit
      ([common/consensus/src/info]).

    Data formats ([consensus/protocol/src]):
    - [Frames]: [frame.rs]; [Channels]: [channel.rs].
    - [SingleBatches]: [batch/single.rs] and [batch/validity.rs].
    - [SpanBits], [SpanTxData], [SpanTxs], [SpanCodec]: the span batch codec
      ([batch/bits.rs], [batch/tx_data], [batch/transactions.rs],
      [batch/prefix.rs], [batch/payload.rs], [batch/raw.rs], [batch/span.rs]).
    - [SpanChecks]: validation of span batches and their split
      ([batch/span.rs]).
    - [Brotlis]: [brotli.rs].
    - [Blobs]: the blob codecs of the batcher ([batcher/blobs/src]) and of
      derivation ([consensus/derive/src/sources/blob_data.rs]).
    - [FastLz]: the estimate of compressed sizes ([common/flz/src/flz.rs]).
    - [CodecModels]: concrete codecs for the evaluated examples only.

    Stages ([consensus/derive/src]):
    - [Pipeline]: errors ([errors]), the methods of a stage, and a type class per
      trait ([traits]).
    - [StageModels]: a scripted stage and a fixed L2 chain for the examples.
    - [Traversal]: [stages/traversal/polling.rs], [stages/l1_retrieval.rs].
    - [Sources]: the calldata and blob sources ([sources]).
    - [FrameQueues]: [stages/frame_queue.rs].
    - [ChannelBanks], [ChannelAssemblers], [ChannelStages]: [stages/channel].
    - [BatchReaders]: the batch codec and the channel reader
      ([batch/core.rs], [batch/reader.rs] of the protocol crate and
      [stages/channel/channel_reader.rs]).
    - [BatchStreams], [BatchValidators], [BatchQueues], [BatchProviders]:
      [stages/batch].
    - [Attributes]: [stages/attributes_queue.rs] and the attribute records.
    - [Derivation]: [pipeline/core.rs].
    - [Composition]: the stack of [pipeline/types.rs] and a theorem across it.

    Batcher ([batcher]):
    - [Compressors]: channel compression ([comp/src]).
    - [EncoderChannels]: the channels of the encoder and its configuration
      ([encoder/src/channel.rs], [config.rs]).
    - [Egress], [EgressRuns]: artifacts, submissions and the packing of frames
      ([artifact.rs], [submission.rs], [egress.rs]), and what packing uses up.
    - [BatchEncoders]: the state machine ([encoder.rs], [composer.rs],
      [buffered_block.rs], [pipeline.rs]); [EncoderProofs]: its invariant;
      [EncoderRuns]: its runs and the properties of every state it reaches.

    Proof program ([proof]):
    - [Tries]: the nodes of a partially revealed trie and its operations
      ([mpt/src/node.rs]); [TrieProofs], [TrieReveals]: the operations on revealed
      and on blinded tries; [TrieCodecs], [TrieDecodes]: commitments, encodings and
      decoding; [TrieWalkers]: ordered lists ([mpt/src/list_walker.rs]);
      [TrieModels]: concrete codecs and tries for the examples.
    - [Preimages]: keys, the client and host protocol and the caching client
      ([preimage/src], [host/src/server.rs], [proof/src/caching_oracle.rs]).
    - [OracleProviders]: the L1 and L2 chain providers, hints and the history
      lookup of EIP-2935 ([proof/src]); [OracleModels]: two concrete chains.

    Tokens ([common/precompiles/src]):
    - [Policies]: the policy registry in its third version ([policy]);
      [PolicyProofs]: its invariant and properties.
    - [Stablecoins]: the B-20 stablecoin in its third version and its creation
      ([b20_stablecoin], [common], [b20_factory/logic/v1.rs]); [StablecoinProofs]:
      its properties; [StablecoinModels]: a sample token.

    Every Rust type with operations is a [Module] with a record [t] that has the
    fields of the struct; an operation has the name of its function, or a name
    with the module's prefix where Rocq needs one.

    ** How the code is modelled

    - Integers are [Z]; the arithmetic of a width is written out ([u64_add] wraps
      as in a release build, [u64_saturating_add] saturates).
    - A fallible call returns [result]; [Panic] is a panic or an index out of
      range, so a theorem that excludes it excludes both.
    - A stage method is a state transformer [op]: state changes made before an
      error stay, as with [&mut self].  Asynchronous calls are run to completion.
    - A stage is generic in the stage below it through the type classes of
      [Pipeline].  Theorems about a stage hold for every stage below, or name
      what they need of it: [delivers] for frames, [LinkedBatches] for batches,
      which the queue, the validator and the provider satisfy.
    - Code of other crates is a parameter with named laws: RLP and the
      transaction envelopes ([Rlp], [RlpLaws], [Varint], [VarintLaws],
      [Envelope]), zlib and brotli ([Zlib], [BrotliDecoder], [BrotliContract],
      [BrotliFormat]), the chain providers ([ChainProvider], [L2ChainProvider],
      [L2ChainLaws], [BatchValidationProvider], [BlobProvider]), the attributes
      builder ([AttributesBuilder]), the Brotli encoder ([BrotliEncoder],
      [BrotliEncoderLaws]), the random channel identifiers ([ChannelRng]), the
      hash, RLP of trie nodes and hexadecimal ([Keccak], [KeccakLaws], [TrieRlp],
      [TrieRlpLaws], [Hex], [HexLaws]), the preimages and what serves them
      ([TrieProvider], [PreimageOracle], [PreimageServerBackend], [CommsClient],
      [OracleClient]), the cache ([Cache], [CacheLaws]), the header and transaction
      codecs of the chains ([ChainCodec]) and the recovery of signers
      ([SignerRecoverable], [SignatureRecovery]).  Each law holds of a concrete
      instance, in a file of examples or beside the theorem that uses it.
    - The interface between the token and the registry is [PolicyLogic]; the
      registry implements it by [registry_logic], and the theorems on tokens hold
      for every implementation.
    - A native contract call is a state transformer whose changes an error undoes
      ([frame]); gas is left out.
    - Client and host of the preimage protocol are processes; their interleavings
      are the steps of a network.
    - A Rust function that is long is several definitions here; constants and
      one-line accessors are definitions without a map entry of their own.
    - Logging and metrics are left out.

    ** What is proved

    - Formats: frames, span batches, bitlists, system config events and L1 info
      calldata are recovered from their encodings, and decoding arbitrary bytes
      does not panic ([parse_frames_encode], [parse_frames_total],
      [span_batch_round_trip], [span_batch_decode_total], [decode_encode_bits],
      [build_config_event], [decode_encode_calldata], [decode_calldata_total]).
    - Channels: frames in any order reassemble, every reachable channel satisfies
      its invariant, the bank reads the first ready channel within its limits,
      and the assembler refines an abstract one ([reassembly],
      [channel_invariant], [ready_channel_data], [bank_next_data],
      [assembler_refines]).
    - Blobs and sources: payloads come back from their blobs, exactly the encodings
      are accepted, the two decoders agree, and the blob source delivers the blobs
      of the batcher in order ([blob_round_trip], [blob_accepted_canonical],
      [blob_decoders_agree], [blob_source_delivers], [blob_count_mismatch]).
    - Batcher: a compression stream is one channel within its bound, a cut channel
      carries its batches, the encoder covers its blocks without gaps or
      repetition, draining ends with everything submitted, and derivation decodes
      every submission; the one panic is a channel without frame numbers left
      ([stream_is_channel], [channel_carries_batches], [encoder_keeps_blocks],
      [encode_and_drain_complete], [submissions_decode],
      [flz_compress_len_bound]).
    - Tries and oracle: updates of a partially revealed trie are those of the map it
      commits to, the root is determined by the map, nodes come back from their
      encodings, decoding is total, and lists are walked in order; the preimage
      protocol ends with the right answers under every schedule, the cache is
      invisible, and the chain providers read the chain
      ([stateless_updates], [root_commits_map], [node_round_trip],
      [node_decode_total], [walker_in_order], [oracle_exchange],
      [caching_transparent], [block_by_number_reads], [l1_block_lists]).
    - Tokens: the books of a token balance from its creation on, a balance goes
      down only by right, a transfer is specified in full, authorization has its
      meaning, and what nobody administrates is frozen ([token_books],
      [balance_debits], [transfer_from_exact], [authorization_meaning],
      [adminless_frozen], [renounced_policy_frozen], [created_list_policy]).
    - Validity: single batches are accepted exactly by their specification, a
      verdict is stable, an accepted span batch extends the safe chain, and the
      checks do not panic ([check_batch_Accept], [check_batch_stable],
      [accepted_span_sound], [span_check_no_panic]).
    - Stages: frames are pruned into order; channels are read into batches; span
      batches are streamed; the queue derives the first acceptable batch; the
      validator returns only justified batches, and an interrupted call is
      invisible after its retry; the multiplexers run the stage that the upgrade
      schedule calls for; a batch becomes attributes exactly once; a reset
      restarts at the right ancestor ([prune_orders_queue],
      [channel_to_batches], [span_streams], [derives_first_accepted],
      [derived_span_splits], [validator_sound], [retry_is_invisible],
      [provider_runs_active_stage], [batch_provider_runs_active],
      [batch_becomes_attributes], [initial_reset_restarts],
      [advance_origin_moves]).
    - Composition: a batcher transaction yields the batches that were put into
      it ([transaction_to_batches]).
    - Configuration: the block schedule is monotone and activation by number and
      by time agree; upgrades are ordered; overrides are applied newest first;
      receipts update the config in order ([l2_block_timestamp_mono],
      [denim_activation_agrees], [upgrade_ladder], [registry_keeps_newest],
      [runtime_overrides_materialised], [update_with_receipts_spec],
      [l1_info_of_block]).
    - Surprises: a channel of 65536 frames is never ready, pruning can drop a
      finished channel, an empty preimage upsets the protocol, a cached value of
      another length panics, and a block hash with a leading zero is not found in
      the history ([full_channel_never_ready], [prune_drops_finished_channel],
      [empty_preimage_panics], [cached_length_panics],
      [trimmed_hash_not_found]).

    ** Fuel

    Loops that are not structural take fuel, and the theorems show it is enough.
    [Frame.parse_frames] takes the length of its input and
    [FrameQueue.prune_queue] twice that of the queue; [Brotli.loop_fuel] is 66 because the buffer doubles up to a 64-bit
    limit; [DerivationPipeline.walk_back] takes one more than the number of the
    safe head, since parents count down; the LEB128 example codec takes ten
    bytes for 64 bits.  A blob has 1024 rounds.  The FastLZ loops take the length of
    the input.  [BatchEncoder.step_until_idle] takes three steps per block left and
    three more: a block is encoded, or closes a channel, or opens one; planning a
    blob takes its room divided by the 23 bytes of a frame header; and building
    blobs takes their maximum number.  Trie operations take twice the number of
    nibbles of the key plus three, node decoding the length of its input, a walk the
    height of the trie.  [header_by_number] takes the distance to the head.  An
    authorization takes four calls: a negated composite of negated lists.

    ** Not modelled

    The attributes builder and deposit decoding, the pipeline builder and metrics,
    output roots, the services around the encoder of the batcher, the block
    builder, the consensus node around derivation (engine, network, RPC), the
    execution client, the EVM and the transaction types, the other native contracts
    and the earlier versions of the two modelled ones, the boot data, the driver and
    the executor of the proof program, its host and services, and the operational
    tools.  Most of these are asynchronous services or extend crates whose code is
    not part of the sources; the builder appears as an interface of the stage that
    uses it.
    Cancelling a future in the middle of a stage method is not modelled either. *)

From coqutil Require Export Byte Word.LittleEndianList.
From stdpp Require Export base gmap list strings countable numbers.
From stdpp Require Export list_relations.

Global Set Default Goal Selector "!".
#[global] Open Scope Z_scope.

(** ** Automation *)

Create HintDb base_db.
Create Rewrite HintDb base_len.

(** ** Results

    [result E A] is the outcome of a Rust call of type [Result<A, E>]:
    [Ok] and [Err] are the two variants, [Panic] is a panic of the thread
    (an index out of range, an [expect] on [None], ...).  A loop that is
    modelled with fuel also ends in [Panic] when the fuel runs out, so a
    theorem that excludes [Panic] excludes both. *)
Inductive result (E A : Type) : Type :=
| Ok (a : A)
| Err (e : E)
| Panic.
Arguments Ok {E A} a.
Arguments Err {E A} e.
Arguments Panic {E A}.

#[global] Instance result_ret {E} : MRet (result E) := fun A a => Ok a.
#[global] Instance result_bind {E} : MBind (result E) :=
  fun A B k m =>
    match m with
    | Ok a => k a
    | Err e => Err e
    | Panic => Panic
    end.
#[global] Instance result_fmap {E} : FMap (result E) :=
  fun A B f m =>
    match m with
    | Ok a => Ok (f a)
    | Err e => Err e
    | Panic => Panic
    end.

(** [map_err f r] is Rust's [r.map_err(f)]. *)
Definition map_err {E F A} (f : E -> F) (r : result E A) : result F A :=
  match r with
  | Ok a => Ok a
  | Err e => Err (f e)
  | Panic => Panic
  end.

(** [ok_or e o] is Rust's [o.ok_or(e)]. *)
Definition ok_or {E A} (e : E) (o : option A) : result E A :=
  match o with
  | Some a => Ok a
  | None => Err e
  end.

(** [or_panic o] is Rust's [o.expect(..)], and indexing once the access has
    been turned into an option. *)
Definition or_panic {E A} (o : option A) : result E A :=
  match o with
  | Some a => Ok a
  | None => Panic
  end.

Definition is_ok {E A} (r : result E A) : bool :=
  match r with
  | Ok _ => true
  | _ => false
  end.

Definition panics {E A} (r : result E A) : bool :=
  match r with
  | Panic => true
  | _ => false
  end.

(** A computation panics only if one of its steps does. *)
Lemma bind_no_panic {E A B} (m : result E A) (k : A -> result E B) :
  m <> Panic -> (forall a, m = Ok a -> k a <> Panic) -> m ≫= k <> Panic.
Proof. destruct m; cbn; [auto|discriminate|congruence]. Qed.

Lemma bind_Ok {E A B} (m : result E A) (k : A -> result E B) b :
  m ≫= k = Ok b -> exists a, m = Ok a /\ k a = Ok b.
Proof. destruct m; cbn; [eauto|discriminate..]. Qed.

Lemma ok_or_no_panic {E A} (e : E) (o : option A) : ok_or e o <> Panic.
Proof. by destruct o. Qed.

(** ** Machine integers

    Unsigned integers are values of [Z] with their width written in the
    operation.  The plain operators wrap around: the release profile of the
    workspace leaves overflow checks off. *)
Definition wrap (w z : Z) : Z := z mod 2 ^ w.

Definition u16_max : Z := 65535.
Definition u32_max : Z := 4294967295.
Definition u64_max : Z := 18446744073709551615.

Definition u16_add (a b : Z) : Z := wrap 16 (a + b).
Definition u64_add (a b : Z) : Z := wrap 64 (a + b).
Definition u64_sub (a b : Z) : Z := wrap 64 (a - b).
Definition u64_mul (a b : Z) : Z := wrap 64 (a * b).
Definition u64_saturating_add (a b : Z) : Z := Z.min (a + b) u64_max.
Definition u64_saturating_sub (a b : Z) : Z := Z.max (a - b) 0.
Definition u64_saturating_mul (a b : Z) : Z := Z.min (a * b) u64_max.
Definition u64_checked_add (a b : Z) : option Z :=
  if decide (a + b <= u64_max) then Some (a + b) else None.

(** [div_ceil a b] is Rust's [a.div_ceil(b)]. *)
Definition div_ceil (a b : Z) : Z :=
  if decide (0 < a mod b) then a / b + 1 else a / b.

Abbreviation is_u16 z := (0 <= z <= u16_max).
Abbreviation is_u32 z := (0 <= z <= u32_max).
Abbreviation is_u64 z := (0 <= z <= u64_max).

(** ** Bytes *)

Abbreviation bytes := (list byte).

#[global] Instance byte_eq_decision : EqDecision byte := Byte.byte_eq_dec.

#[global] Instance byte_countable : Countable byte.
Proof.
  refine (inj_countable Byte.to_N Byte.of_N _).
  exact Byte.of_to_N.
Defined.

(** Length of a byte string as a [usize] value. *)
Definition len {A} (l : list A) : Z := Z.of_nat (length l).

(** [index l i] is [l[i]] and [slice l i j] is [&l[i..j]]; [None] where Rust
    panics. *)
Definition index {A} (l : list A) (i : Z) : option A :=
  if decide (0 <= i) then l !! Z.to_nat i else None.

Definition slice {A} (l : list A) (i j : Z) : option (list A) :=
  if decide (0 <= i <= j /\ j <= len l)
  then Some (take (Z.to_nat (j - i)) (drop (Z.to_nat i) l))
  else None.

(** Big-endian integers: [to_be_bytes] and [from_be_bytes] at [n] bytes. *)
Definition to_be_bytes (n : nat) (z : Z) : bytes := rev (le_split n z).
Definition from_be_bytes (b : bytes) : Z := le_combine (rev b).

Definition byte_of_bool (b : bool) : byte := if b then Byte.x01 else Byte.x00.

(** All-zero byte strings ([B256::ZERO], [vec![0; n]]). *)
Definition zeros (n : nat) : bytes := replicate n Byte.x00.

(** ** Generic lemmas *)

Lemma len_nonneg {A} (l : list A) : 0 <= len l.
Proof. unfold len; lia. Qed.

Lemma len_nil (A : Type) : len (@nil A) = 0.
Proof. reflexivity. Qed.

Lemma len_cons {A} (a : A) l : len (a :: l) = len l + 1.
Proof. unfold len; simpl length; lia. Qed.

Lemma len_app {A} (l k : list A) : len (l ++ k) = len l + len k.
Proof. unfold len; rewrite length_app; lia. Qed.

Lemma len_zero_nil {A} (l : list A) : len l = 0 -> l = [].
Proof. unfold len; destruct l; simpl; [done | lia]. Qed.

Lemma length_to_be_bytes n z : length (to_be_bytes n z) = n.
Proof. unfold to_be_bytes; rewrite length_rev; apply length_le_split. Qed.

Lemma len_to_be_bytes n z : len (to_be_bytes n z) = Z.of_nat n.
Proof. unfold len; by rewrite length_to_be_bytes. Qed.

Lemma from_to_be_bytes n z :
  0 <= z < 2 ^ (Z.of_nat n * 8) -> from_be_bytes (to_be_bytes n z) = z.
Proof.
  intros H. unfold from_be_bytes, to_be_bytes.
  rewrite rev_involutive, le_combine_split. by apply Z.mod_small.
Qed.

Lemma to_from_be_bytes b : to_be_bytes (length b) (from_be_bytes b) = b.
Proof.
  unfold from_be_bytes, to_be_bytes.
  rewrite <- (length_rev b), split_le_combine. apply rev_involutive.
Qed.

Lemma from_be_bytes_bound b : 0 <= from_be_bytes b < 2 ^ (8 * len b).
Proof.
  unfold from_be_bytes. pose proof (le_combine_bound (rev b)) as H.
  rewrite length_rev in H. exact H.
Qed.

Lemma lor_shiftl_add a b n :
  0 <= n -> 0 <= a < 2 ^ n -> Z.lor a (Z.shiftl b n) = a + b * 2 ^ n.
Proof.
  intros Hn Ha. assert (Z.land a (Z.shiftl b n) = 0) as Hd.
  { apply Z.bits_inj'. intros k Hk. rewrite Z.land_spec, Z.bits_0.
    destruct (decide (k < n)).
    - by rewrite Z.shiftl_spec_low, andb_false_r.
    - rewrite <- (Z.mod_small a (2 ^ n)) by done.
      rewrite Z.mod_pow2_bits_high by lia. done. }
  rewrite <- Z.lxor_lor, <- Z.add_nocarry_lxor by done. by rewrite Z.shiftl_mul_pow2.
Qed.

Lemma from_be_bytes_app a b :
  from_be_bytes (a ++ b) = from_be_bytes a * 2 ^ (8 * len b) + from_be_bytes b.
Proof.
  pose proof (from_be_bytes_bound b) as Hb. unfold from_be_bytes, len in *.
  rewrite rev_app_distr, le_combine_app, length_rev.
  replace (Z.of_nat (length b) * 8) with (8 * Z.of_nat (length b)) by lia.
  rewrite lor_shiftl_add by lia. lia.
Qed.

Lemma from_be_bytes_zeros n : from_be_bytes (zeros n) = 0.
Proof.
  unfold from_be_bytes, zeros. rewrite rev_alt. change (rev_append (replicate n Byte.x00) []) with (reverse (replicate n Byte.x00)).
  rewrite reverse_replicate.
  induction n as [|n IH]; [done|].
  rewrite <- (app_nil_r (replicate _ _)), replicate_S_end, <- app_assoc; simpl.
  rewrite le_combine_snoc_0. exact IH.
Qed.

Lemma from_be_bytes_inj a b :
  length a = length b -> from_be_bytes a = from_be_bytes b -> a = b.
Proof.
  intros Hl He. rewrite <- (to_from_be_bytes a), <- (to_from_be_bytes b). by rewrite Hl, He.
Qed.

Lemma from_be_bytes_zero_iff b : from_be_bytes b = 0 <-> b = zeros (length b).
Proof.
  split; [|intros ->; apply from_be_bytes_zeros].
  intros H. apply from_be_bytes_inj; [unfold zeros; by rewrite length_replicate|].
  by rewrite from_be_bytes_zeros.
Qed.

Lemma length_zeros n : length (zeros n) = n.
Proof. apply length_replicate. Qed.

#[export] Hint Resolve len_nonneg ok_or_no_panic : base_db.
#[export] Hint Rewrite @len_nil @len_cons @len_app @len_to_be_bytes : base_len.

Lemma slice_spec {A} (l pre mid post : list A) i j :
  l = pre ++ mid ++ post -> i = len pre -> j = i + len mid ->
  slice l i j = Some mid.
Proof.
  intros -> -> ->. unfold slice.
  rewrite decide_True by (rewrite !len_app; pose proof (len_nonneg pre);
    pose proof (len_nonneg mid); pose proof (len_nonneg post); lia).
  f_equal. unfold len.
  rewrite Nat2Z.id, drop_app_length.
  replace (Z.to_nat _) with (length mid) by lia.
  by rewrite take_app_length.
Qed.

Lemma index_spec {A} (l pre post : list A) x i :
  l = pre ++ x :: post -> i = len pre -> index l i = Some x.
Proof.
  intros -> ->. unfold index, len.
  rewrite decide_True by lia. rewrite Nat2Z.id.
  by apply list_lookup_middle.
Qed.

Lemma slice_Some {A} (l s : list A) i j :
  slice l i j = Some s ->
  0 <= i <= j /\ j <= len l /\ len s = j - i.
Proof.
  unfold slice. case_decide as H; [|done]. intros [= <-].
  split; [lia|]. split; [lia|].
  unfold len in *. rewrite length_take, length_drop. lia.
Qed.

(** Consecutive reads cut the list into consecutive pieces. *)
Lemma slice_drop {A} (l s : list A) i j :
  slice l i j = Some s -> drop (Z.to_nat i) l = s ++ drop (Z.to_nat j) l.
Proof.
  unfold slice. case_decide as H; [|done]. intros [= <-].
  rewrite <- (take_drop (Z.to_nat (j - i)) (drop (Z.to_nat i) l)) at 1.
  f_equal. rewrite drop_drop. f_equal. lia.
Qed.

Lemma index_drop {A} (l : list A) x i :
  index l i = Some x -> drop (Z.to_nat i) l = x :: drop (S (Z.to_nat i)) l.
Proof.
  unfold index. case_decide; [|done]. intros Hx. by apply drop_S.
Qed.

Lemma index_Some {A} (l : list A) x i : index l i = Some x -> 0 <= i < len l.
Proof.
  unfold index, len. case_decide; [|done]. intros Hx%lookup_lt_Some. lia.
Qed.

Lemma slice_to_end {A} (l : list A) i :
  0 <= i <= len l -> slice l i (len l) = Some (drop (Z.to_nat i) l).
Proof.
  intros H. unfold slice. rewrite decide_True by lia. f_equal.
  apply take_ge. rewrite length_drop. unfold len in *. lia.
Qed.

Lemma drop_len_app {A} (l k : list A) : drop (Z.to_nat (len l)) (l ++ k) = k.
Proof. unfold len. by rewrite Nat2Z.id, drop_app_length. Qed.

Lemma slice_in_range {A} (l : list A) i j :
  0 <= i <= j -> j <= len l -> exists s, slice l i j = Some s.
Proof. intros. unfold slice. rewrite decide_True by lia. eauto. Qed.

Lemma index_in_range {A} (l : list A) i :
  0 <= i < len l -> exists x, index l i = Some x.
Proof.
  intros H. unfold index. rewrite decide_True by lia.
  apply lookup_lt_is_Some. unfold len in H. lia.
Qed.

Fixpoint sumZ {A} (f : A -> Z) (l : list A) : Z :=
  match l with
  | [] => 0
  | a :: l => f a + sumZ f l
  end.

Lemma sumZ_app {A} (f : A -> Z) l k : sumZ f (l ++ k) = sumZ f l + sumZ f k.
Proof. induction l; simpl; lia. Qed.

Lemma sumZ_nonneg {A} (f : A -> Z) l : (forall a, 0 <= f a) -> 0 <= sumZ f l.
Proof. intros H. induction l as [|a l IH]; simpl; [lia | specialize (H a); lia]. Qed.

Lemma sumZ_perm {A} (f : A -> Z) l k : l ≡ₚ k -> sumZ f l = sumZ f k.
Proof. induction 1; simpl; lia. Qed.

Lemma wrap_small w z : 0 <= z < 2 ^ w -> wrap w z = z.
Proof. apply Z.mod_small. Qed.

Lemma wrap_range w z : 0 <= w -> 0 <= wrap w z < 2 ^ w.
Proof. intros. apply Z.mod_pos_bound. lia. Qed.

Lemma wrap_add_wrap_l w a b : wrap w (wrap w a + b) = wrap w (a + b).
Proof. apply Zplus_mod_idemp_l. Qed.

Lemma wrap_sub_wrap_l w a b : wrap w (wrap w a - b) = wrap w (a - b).
Proof. apply Zminus_mod_idemp_l. Qed.

(** Sums over the values of a finite map. *)
Definition map_sumZ `{Countable K} {A} (f : A -> Z) (m : gmap K A) : Z :=
  sumZ (fun kv : K * A => f kv.2) (map_to_list m).

Section map_sum.
Context `{Countable K} {A : Type} (f : A -> Z).
Implicit Types m n : gmap K A.

Lemma map_sumZ_empty : map_sumZ f (∅ : gmap K A) = 0.
Proof. unfold map_sumZ. by rewrite map_to_list_empty. Qed.

Lemma map_sumZ_insert m k a :
  m !! k = None -> map_sumZ f (<[k := a]> m) = f a + map_sumZ f m.
Proof.
  intros Hk. unfold map_sumZ. by rewrite (sumZ_perm _ _ _ (map_to_list_insert m k a Hk)).
Qed.

Lemma map_sumZ_delete m k a :
  m !! k = Some a -> map_sumZ f m = f a + map_sumZ f (delete k m).
Proof.
  intros Hk. rewrite <- (insert_delete_id m k a Hk) at 1.
  by rewrite map_sumZ_insert by apply lookup_delete_eq.
Qed.

Lemma map_sumZ_union m n :
  m ##ₘ n -> map_sumZ f (m ∪ n) = map_sumZ f m + map_sumZ f n.
Proof.
  induction m as [|k a m Hk IH] using map_ind; intros Hd.
  - by rewrite (left_id_L ∅ (∪)).
  - apply map_disjoint_insert_l in Hd as [Hn Hd].
    rewrite <- insert_union_l, !map_sumZ_insert, IH; [lia|done|done|].
    by apply lookup_union_None.
Qed.

Lemma map_sumZ_filter (P : K * A -> Prop) `{!forall x, Decision (P x)} m :
  map_sumZ f m = map_sumZ f (filter P m) + map_sumZ f (filter (fun v => ~ P v) m).
Proof.
  rewrite <- map_sumZ_union by apply map_disjoint_filter_complement.
  by rewrite map_filter_union_complement.
Qed.

(** Adding or subtracting the measure of every entry, one by one, at width 64. *)
Lemma map_fold_u64_sub m z :
  map_fold (fun _ a acc => u64_sub acc (f a)) (wrap 64 z) m = wrap 64 (z - map_sumZ f m).
Proof.
  rewrite map_fold_foldr. unfold map_sumZ.
  induction (map_to_list m) as [|[k a] l IH]; simpl.
  - f_equal. lia.
  - rewrite IH. unfold u64_sub. rewrite wrap_sub_wrap_l. f_equal. lia.
Qed.

Lemma map_fold_u64_add m z :
  map_fold (fun _ a acc => u64_add acc (f a)) (wrap 64 z) m = wrap 64 (z + map_sumZ f m).
Proof.
  rewrite map_fold_foldr. unfold map_sumZ.
  induction (map_to_list m) as [|[k a] l IH]; simpl.
  - f_equal. lia.
  - rewrite IH. unfold u64_add. rewrite wrap_add_wrap_l. f_equal. lia.
Qed.

End map_sum.

(** A map whose keys are exactly [0 .. n-1] has [n] entries. *)
Lemma map_size_seqZ {A} (m : gmap Z A) n :
  0 <= n -> (forall k, is_Some (m !! k) <-> 0 <= k < n) -> Z.of_nat (size m) = n.
Proof.
  intros Hn Hk. rewrite <- size_dom.
  assert (dom m = list_to_set (seqZ 0 n)) as ->.
  { apply set_eq. intros k. rewrite elem_of_dom, Hk, elem_of_list_to_set, elem_of_seqZ. lia. }
  rewrite size_list_to_set by apply NoDup_seqZ. rewrite length_seqZ. lia.
Qed.

(** Reading the keys [0 .. n-1] one by one. *)
Lemma mapM_seqZ {B} (g : Z -> option B) l :
  (forall i b, l !! i = Some b -> g (Z.of_nat i) = Some b) ->
  mapM g (seqZ 0 (len l)) = Some l.
Proof.
  intros H. apply mapM_Some_2, Forall2_same_length_lookup.
  unfold len. rewrite length_seqZ. split; [lia|].
  intros i x y Hx Hy. apply lookup_seqZ in Hx as [-> Hi].
  rewrite Z.add_0_l. by apply H.
Qed.

Lemma len_zeros n : len (zeros n) = Z.of_nat n.
Proof. unfold len. by rewrite length_zeros. Qed.

#[export] Hint Rewrite len_zeros : base_len.

(** Zero extension of a big-endian integer. *)
Lemma to_be_bytes_pad n k z :
  0 <= z < 2 ^ (Z.of_nat k * 8) -> to_be_bytes (n + k) z = zeros n ++ to_be_bytes k z.
Proof.
  intros Hz. apply from_be_bytes_inj.
  - by rewrite length_app, length_zeros, !length_to_be_bytes.
  - rewrite from_be_bytes_app, from_be_bytes_zeros, !from_to_be_bytes; [lia|done|].
    split; [lia|]. eapply Z.lt_le_trans; [apply Hz|]. apply Z.pow_le_mono_r; lia.
Qed.

(** Reading the [k]-th field of a concatenated layout. *)
Lemma slice_concat {A} (fs : list (list A)) k f i j :
  fs !! k = Some f -> i = sumZ len (take k fs) -> j = i + len f ->
  slice (concat fs) i j = Some f.
Proof.
  intros Hk Hi Hj. apply (slice_spec _ (concat (take k fs)) f (concat (drop (S k) fs))); [| |done].
  - rewrite <- (take_drop_middle fs k f Hk) at 1. by rewrite concat_app.
  - subst i. clear. induction (take k fs) as [|l ls IH]; [done|].
    cbn [sumZ concat]. by rewrite len_app, IH.
Qed.

(** ** Tactics *)

(** Destruct the guard a result is stuck on. *)
Ltac case_cond :=
  match goal with
  | |- context [if decide ?P then _ else _] => destruct (decide P)
  | |- context [if ?b then _ else _] => destruct b eqn:?
  | |- context [match ?r with Ok _ => _ | Err _ => _ | Panic => _ end] =>
      destruct r eqn:?
  end.

Ltac zify_lens := autorewrite with base_len in *.

(** Adds [0 <= len l] for every length in sight. *)
Ltac pose_len l :=
  lazymatch goal with
  | _ : 0 <= len l |- _ => fail
  | _ => pose proof (len_nonneg l)
  end.

Ltac pose_lens :=
  repeat match goal with
  | |- context [len ?l] => pose_len l
  | _ : context [len ?l] |- _ => pose_len l
  end.
