(* ===== verification/Effects.v ===== *)
(** * Methods that change their object

    A Rust method with a [&mut self] receiver of type [S] and a result of type
    [Result<A, E>] is a function from the state to the result and the new state.
    The changes made before an error stay. *)

From S2P Require Import Prelude.

Definition eff (E S A : Type) : Type := S -> result E A * S.

Section Ops.
Context {E S : Type}.

#[global] Instance op_ret : MRet (eff E S) := fun A a s => (Ok a, s).
#[global] Instance op_bind : MBind (eff E S) := fun A B k m s =>
  match m s with
  | (Ok a, s) => k a s
  | (Err e, s) => (Err e, s)
  | (Panic, s) => (Panic, s)
  end.

(** [return Err(e)], and a pure result followed by [?]. *)
Definition fail {A} (e : E) : eff E S A := fun s => (Err e, s).
Definition lift {A} (r : result E A) : eff E S A := fun s => (r, s).

(** Reading and writing the fields of [self]. *)
Definition gets {A} (f : S -> A) : eff E S A := fun s => (Ok (f s), s).
Definition modify (f : S -> S) : eff E S () := fun s => (Ok (), f s).

(** The outcome of a call as a value, for a [match] on it. *)
Definition attempt {A} (m : eff E S A) : eff E S (E + A) := fun s =>
  match m s with
  | (Ok a, s) => (Ok (inr a), s)
  | (Err e, s) => (Ok (inl e), s)
  | (Panic, s) => (Panic, s)
  end.

(** A method of a component of [self]. *)
Definition within {P A} (get : S -> P) (set : P -> S -> S) (m : eff E P A) : eff E S A := fun s =>
  let '(r, p) := m (get s) in (r, set p s).

End Ops.

(** Running a method that is a sequence of steps. *)
Ltac run_ops :=
  unfold mbind, op_bind, mret, op_ret, fail, lift, gets, modify, attempt, within in *;
  cbn beta iota in *.

Lemma bind_run {E S A B} (m : eff E S A) (k : A -> eff E S B) s :
  (m ≫= k) s =
    match m s with
    | (Ok a, s) => k a s
    | (Err e, s) => (Err e, s)
    | (Panic, s) => (Panic, s)
    end.
Proof. reflexivity. Qed.

(** Calling a method [n] times in a row: the results and the final state. *)
Fixpoint calls {E S A} (n : nat) (m : eff E S A) (s : S) : list (result E A) * S :=
  match n with
  | O => ([], s)
  | Datatypes.S n =>
      let '(r, s) := m s in
      let '(rs, s) := calls n m s in (r :: rs, s)
  end.

Lemma calls_S {E S A} n (m : eff E S A) s :
  calls (Datatypes.S n) m s =
    let '(r, s) := m s in let '(rs, s) := calls n m s in (r :: rs, s).
Proof. reflexivity. Qed.

Lemma calls_app {E S A} n k (m : eff E S A) s :
  calls (n + k) m s =
    let '(rs, s) := calls n m s in let '(rs', s) := calls k m s in (rs ++ rs', s).
Proof.
  revert s. induction n as [|n IH]; intros s.
  - cbn. by destruct (calls k m s).
  - cbn [calls Nat.add]. destruct (m s) as [r s1]. rewrite IH. destruct (calls n m s1) as [rs s2].
    by destruct (calls k m s2).
Qed.

(** Calling several methods in a row. *)
Fixpoint run_all {E S A} (ms : list (eff E S A)) (s : S) : list (result E A) * S :=
  match ms with
  | [] => ([], s)
  | m :: ms =>
      let '(r, s) := m s in
      let '(rs, s) := run_all ms s in (r :: rs, s)
  end.
