(* ===== verification/Primitives.v ===== *)
(** * Chain primitives

    The plain data of the alloy crates the modelled code reads (hashes,
    addresses, block ids, logs, receipts), and the block references of
    [src/crates/consensus/protocol/src/block.rs]. *)

From S2P Require Import Prelude.

(** Hashes and addresses are byte strings; the Rust types fix their length
    ([B256]: 32, [Address]: 20). *)
Abbreviation B256 := bytes (only parsing).
Abbreviation Address := bytes (only parsing).

Definition B256_ZERO : B256 := zeros 32.
Definition Address_ZERO : Address := zeros 20.

(** [alloy_eips::BlockNumHash]. *)
Module BlockNumHash.

Record t : Type := mk { number : Z; hash : B256 }.

#[global] Instance eq_decision : EqDecision t.
Proof. solve_decision. Defined.

End BlockNumHash.

(** [alloy_primitives::Log]: address, topics and data. *)
Module Log.

Record t : Type := mk { address : Address; topics : list B256; data : bytes }.

End Log.

(** [alloy_consensus::Receipt]: the fields the derivation reads.  [status] is
    [false] exactly for [Eip658Value::Eip658(false)]. *)
Module Receipt.

Record t : Type := mk { status : bool; logs : list Log.t }.

End Receipt.

(** [alloy_consensus::TxEnvelope], the transactions of L1: what the data sources
    read.  A blob transaction may come with its sidecar; [hash] identifies the
    transaction with its signature. *)
Module L1Tx.

Inductive body : Type :=
| Legacy (to : option Address) (input : bytes)
| Eip2930 (to : option Address) (input : bytes)
| Eip1559 (to : option Address) (input : bytes)
| Eip4844 (with_sidecar : bool) (to : Address) (input : bytes) (blob_versioned_hashes : list B256)
| Eip7702 (to : Address) (input : bytes).

Record t : Type := mk { tx : body; hash : B256 }.

End L1Tx.

(** [BlockInfo]. *)
Module BlockInfo.

Record t : Type := mk {
  hash : B256;
  number : Z;
  parent_hash : B256;
  timestamp : Z
}.

#[global] Instance eq_decision : EqDecision t.
Proof. solve_decision. Defined.

(** [BlockInfo::default()]. *)
Definition default : t := mk B256_ZERO 0 B256_ZERO 0.

(** [BlockInfo::id]. *)
Definition id (b : t) : BlockNumHash.t := BlockNumHash.mk (number b) (hash b).

(** [BlockInfo::is_parent_of]. *)
Definition is_parent_of (self block : t) : bool :=
  bool_decide (u64_add (number self) 1 = number block) &&
  bool_decide (hash self = parent_hash block).

End BlockInfo.

(** [L2BlockInfo]. *)
Module L2BlockInfo.

Record t : Type := mk {
  block_info : BlockInfo.t;
  l1_origin : BlockNumHash.t;
  seq_num : Z
}.

#[global] Instance eq_decision : EqDecision t.
Proof. solve_decision. Defined.

(** [L2BlockInfo::default()]. *)
Definition default : t := mk BlockInfo.default (BlockNumHash.mk 0 B256_ZERO) 0.

End L2BlockInfo.
