(* ===== verification/Frames.v ===== *)
(** * Channel frames

    Models [src/crates/consensus/protocol/src/frame.rs]: the frame record, its
    binary codec ([encode], [decode]) and the parser of the frames of an L1
    transaction ([parse_frames]). *)

From S2P Require Import Prelude.

Definition DERIVATION_VERSION_0 : byte := Byte.x00.

Inductive FrameDecodingError : Set :=
| DataTooLarge (n : Z)
| DataTooShort (n : Z)
| InvalidId
| InvalidNumber
| InvalidDataLength.

Inductive FrameParseError : Set :=
| FrameParse_FrameDecodingError (e : FrameDecodingError)
| NoFrames
| UnsupportedVersion
| DataLengthMismatch
| NoFramesDecoded.

Module Frame.

(** ** Data *)

Record t : Type := mk {
  id : bytes;
  number : Z;
  data : bytes;
  is_last : bool
}.

(** [Frame::ENCODED_OVERHEAD], [Frame::OVERHEAD], [Frame::MAX_LEN]. *)
Definition ENCODED_OVERHEAD : Z := 16 + 2 + 4 + 1.
Definition OVERHEAD : Z := 200.
Definition MAX_LEN : Z := 1000000.

(** ** Operations *)

Definition encoded_len (f : t) : Z := ENCODED_OVERHEAD + len (data f).

(** [Frame::encode_into]; [self.data.len() as u32] truncates to 32 bits. *)
Definition encode_into (f : t) (encoded : bytes) : bytes :=
  encoded ++ id f ++ to_be_bytes 2 (number f)
    ++ to_be_bytes 4 (wrap 32 (len (data f)))
    ++ data f ++ [byte_of_bool (is_last f)].

Definition encode (f : t) : bytes := encode_into f [].

(** [Frame::decode]: the number of bytes consumed and the frame. *)
Definition decode (encoded : bytes) : result FrameDecodingError (Z * t) :=
  if decide (len encoded < ENCODED_OVERHEAD)
  then Err (DataTooShort (len encoded))
  else
    id ← or_panic (slice encoded 0 16);
    number ← or_panic (slice encoded 16 18);
    data_len ← or_panic (slice encoded 18 22);
    let data_len := from_be_bytes data_len in
    if decide (data_len > MAX_LEN \/ data_len >= len encoded - (ENCODED_OVERHEAD - 1))
    then Err (DataTooLarge data_len)
    else
      data ← or_panic (slice encoded 22 (22 + data_len));
      last ← or_panic (index encoded (22 + data_len));
      Ok (ENCODED_OVERHEAD + data_len,
          mk id (from_be_bytes number) data (bool_decide (last = Byte.x01))).

(** The loop of [Frame::parse_frames], from [offset] on. *)
Fixpoint parse_frames_loop (fuel : nat) (data : bytes) (offset : Z)
    (frames : list t) : result FrameParseError (Z * list t) :=
  if decide (offset < len data) then
    match fuel with
    | O => Panic
    | S fuel =>
        rest ← or_panic (slice data offset (len data));
        '(frame_length, frame) ← map_err FrameParse_FrameDecodingError (decode rest);
        parse_frames_loop fuel data (offset + frame_length) (frames ++ [frame])
    end
  else Ok (offset, frames).

(** [Frame::parse_frames].  A decoded frame takes at least one byte, so the
    loop runs at most [data.len()] times. *)
Definition parse_frames (encoded : bytes) : result FrameParseError (list t) :=
  match encoded with
  | [] => Err NoFrames
  | v :: data =>
      if decide (v <> DERIVATION_VERSION_0) then Err UnsupportedVersion
      else
        '(offset, frames) ← parse_frames_loop (length data) data 0 [];
        if decide (offset <> len data) then Err DataLengthMismatch
        else match frames with
             | [] => Err NoFramesDecoded
             | _ => Ok frames
             end
  end.

(** [Frame::size]. *)
Definition size (f : t) : Z := len (data f) + OVERHEAD.

(** ** Well-formedness

    What the Rust types say of a frame: a 16-byte id and a [u16] number.
    [sendable] adds the payload limit the decoder enforces. *)
Definition wf (f : t) : Prop := length (id f) = 16%nat /\ is_u16 (number f).

Definition sendable (f : t) : Prop := wf f /\ len (data f) <= MAX_LEN.

(** ** Lemmas *)

Lemma encode_len f : wf f -> len (encode f) = encoded_len f.
Proof.
  intros [Hid _]. unfold encode, encode_into, encoded_len, ENCODED_OVERHEAD.
  assert (len (id f) = 16) by (unfold len; lia).
  zify_lens. lia.
Qed.

Lemma size_nonneg f : 0 <= size f.
Proof. unfold size, OVERHEAD. pose proof (len_nonneg (data f)). lia. Qed.

(** The five reads of [decode] on a frame's layout. *)
Lemma layout_reads i num dl d b rest :
  length i = 16%nat ->
  let bs := i ++ to_be_bytes 2 num ++ to_be_bytes 4 dl ++ d ++ b :: rest in
  slice bs 0 16 = Some i /\
  slice bs 16 18 = Some (to_be_bytes 2 num) /\
  slice bs 18 22 = Some (to_be_bytes 4 dl) /\
  slice bs 22 (22 + len d) = Some d /\
  index bs (22 + len d) = Some b.
Proof.
  intros Hid bs.
  assert (len i = 16) as Hl by (unfold len; lia).
  pose proof (len_to_be_bytes 2 num) as H2.
  pose proof (len_to_be_bytes 4 dl) as H4.
  split_and!.
  - apply (slice_spec bs [] i (to_be_bytes 2 num ++ to_be_bytes 4 dl ++ d ++ b :: rest));
      [done | done | lia].
  - apply (slice_spec bs i (to_be_bytes 2 num) (to_be_bytes 4 dl ++ d ++ b :: rest));
      [done | lia | lia].
  - apply (slice_spec bs (i ++ to_be_bytes 2 num) (to_be_bytes 4 dl) (d ++ b :: rest));
      [unfold bs; by rewrite <- app_assoc | rewrite len_app; lia | lia].
  - apply (slice_spec bs (i ++ to_be_bytes 2 num ++ to_be_bytes 4 dl) d (b :: rest));
      [unfold bs; by rewrite <- !app_assoc | rewrite !len_app; lia | lia].
  - apply (index_spec bs (i ++ to_be_bytes 2 num ++ to_be_bytes 4 dl ++ d) rest);
      [unfold bs; by rewrite <- !app_assoc | rewrite !len_app; lia].
Qed.

Lemma encode_layout f rest :
  encode f ++ rest =
    id f ++ to_be_bytes 2 (number f) ++ to_be_bytes 4 (wrap 32 (len (data f)))
      ++ data f ++ byte_of_bool (is_last f) :: rest.
Proof. unfold encode, encode_into. rewrite app_nil_l, <- !app_assoc. done. Qed.

Lemma sendable_len_u32 f : sendable f -> wrap 32 (len (data f)) = len (data f).
Proof.
  intros [_ H]. unfold MAX_LEN, wrap in *. pose proof (len_nonneg (data f)).
  apply Z.mod_small. lia.
Qed.

Lemma decode_encode_app f rest :
  sendable f -> decode (encode f ++ rest) = Ok (encoded_len f, f).
Proof.
  intros Hs. pose proof (sendable_len_u32 f Hs) as Hu. destruct Hs as [Hwf Hmax].
  pose proof (encode_len f Hwf) as Hlen.
  destruct Hwf as [Hid Hnum]. unfold MAX_LEN, u16_max in *.
  pose proof (len_nonneg (data f)). pose proof (len_nonneg rest).
  unfold encoded_len, ENCODED_OVERHEAD in *.
  unfold decode. rewrite decide_False by (rewrite len_app; unfold ENCODED_OVERHEAD; lia).
  rewrite len_app, encode_layout, Hu.
  destruct (layout_reads (id f) (number f) (len (data f)) (data f)
    (byte_of_bool (is_last f)) rest Hid) as (-> & -> & -> & Hd & Hb).
  cbn [or_panic mbind result_bind]. rewrite !from_to_be_bytes by lia.
  rewrite decide_False by (unfold MAX_LEN, ENCODED_OVERHEAD; lia).
  rewrite Hd, Hb. cbn [or_panic mbind result_bind].
  destruct f as [? ? ? []]; reflexivity.
Qed.

(** The bytes behind a decoded frame: its layout, with a final byte that is
    [1] exactly when the frame is the last one. *)
Lemma decode_Ok bs n f :
  decode bs = Ok (n, f) ->
  n = encoded_len f /\ sendable f /\ n <= len bs /\
  exists b rest, bs = id f ++ to_be_bytes 2 (number f) ++ to_be_bytes 4 (len (data f))
                   ++ data f ++ b :: rest /\ is_last f = bool_decide (b = Byte.x01).
Proof.
  unfold decode. case_decide as H1; [done|].
  destruct (slice bs 0 16) as [i|] eqn:Ei; [|done].
  destruct (slice bs 16 18) as [nb|] eqn:En; [|done].
  destruct (slice bs 18 22) as [lb|] eqn:El; [|done].
  cbn [or_panic mbind result_bind].
  case_decide as H2; [done|].
  destruct (slice bs 22 (22 + from_be_bytes lb)) as [d|] eqn:Ed; [|done].
  destruct (index bs (22 + from_be_bytes lb)) as [b|] eqn:Eb; [|done].
  cbn [or_panic mbind result_bind]. intros [= <- <-].
  unfold sendable, wf, encoded_len; cbn [id number data is_last].
  unfold MAX_LEN, ENCODED_OVERHEAD, u16_max in *.
  pose proof (from_be_bytes_bound lb). pose proof (from_be_bytes_bound nb) as Hnb.
  pose proof (slice_Some _ _ _ _ Ei) as (_ & _ & Hi).
  pose proof (slice_Some _ _ _ _ En) as (_ & _ & Hn).
  pose proof (slice_Some _ _ _ _ El) as (_ & _ & Hl).
  pose proof (slice_Some _ _ _ _ Ed) as (_ & _ & Hd).
  pose proof (index_Some _ _ _ Eb).
  rewrite Hn in Hnb. change (2 ^ (8 * (18 - 16))) with 65536 in Hnb.
  split_and!; try (unfold len in *; lia).
  exists b, (drop (S (Z.to_nat (22 + from_be_bytes lb))) bs). split; [|done].
  replace (len d) with (from_be_bytes lb) by lia.
  pose proof (to_from_be_bytes nb) as Hnb2.
  replace (length nb) with 2%nat in Hnb2 by (unfold len in Hn; lia).
  pose proof (to_from_be_bytes lb) as Hlb4.
  replace (length lb) with 4%nat in Hlb4 by (unfold len in Hl; lia).
  rewrite Hnb2, Hlb4.
  rewrite <- (index_drop _ _ _ Eb), <- (slice_drop _ _ _ _ Ed).
  rewrite <- (slice_drop _ _ _ _ El), <- (slice_drop _ _ _ _ En), <- (slice_drop _ _ _ _ Ei).
  by rewrite drop_0.
Qed.

Lemma decode_no_panic bs : decode bs <> Panic.
Proof.
  unfold decode. case_decide as H1; [done|]. unfold ENCODED_OVERHEAD in *.
  destruct (slice_in_range bs 0 16) as [? ->]; [lia | lia |].
  destruct (slice_in_range bs 16 18) as [? ->]; [lia | lia |].
  destruct (slice_in_range bs 18 22) as [lb ->]; [lia | lia |].
  cbn [or_panic mbind result_bind]. case_decide as H2; [done|].
  unfold ENCODED_OVERHEAD in *. pose proof (from_be_bytes_bound lb).
  destruct (slice_in_range bs 22 (22 + from_be_bytes lb)) as [? ->]; [lia | lia |].
  destruct (index_in_range bs (22 + from_be_bytes lb)) as [? ->]; [lia |].
  done.
Qed.

Lemma encoded_len_pos f : 23 <= encoded_len f.
Proof. unfold encoded_len, ENCODED_OVERHEAD. pose proof (len_nonneg (data f)). lia. Qed.

(** One turn of the parser's loop. *)
Lemma parse_frames_loop_step fuel bs off acc :
  0 <= off < len bs ->
  parse_frames_loop (S fuel) bs off acc =
    ('(n, f) ← map_err FrameParse_FrameDecodingError (decode (drop (Z.to_nat off) bs));
     parse_frames_loop fuel bs (off + n) (acc ++ [f])).
Proof.
  intros H. simpl. rewrite decide_True by lia. by rewrite slice_to_end by lia.
Qed.

Lemma parse_frames_loop_done fuel bs off acc :
  len bs <= off -> parse_frames_loop fuel bs off acc = Ok (off, acc).
Proof. intros H. destruct fuel; simpl; by rewrite decide_False by lia. Qed.

Lemma parse_frames_loop_encode fs : forall fuel pre acc,
  Forall sendable fs -> (length fs <= fuel)%nat ->
  let bs := pre ++ concat (map encode fs) in
  parse_frames_loop fuel bs (len pre) acc = Ok (len bs, acc ++ fs).
Proof.
  induction fs as [|f fs IH]; intros fuel pre acc Hs Hfuel bs.
  - rewrite parse_frames_loop_done.
    + unfold bs. simpl. by rewrite !app_nil_r.
    + unfold bs. simpl. rewrite app_nil_r. lia.
  - apply Forall_cons_iff in Hs as [Hf Hs]. destruct fuel as [|fuel]; [simpl in Hfuel; lia|].
    pose proof (encoded_len_pos f). pose proof (encode_len f (proj1 Hf)) as Hlen.
    unfold bs. simpl map. simpl concat. pose proof (len_nonneg pre).
    rewrite parse_frames_loop_step by (rewrite !len_app, Hlen;
      pose proof (len_nonneg (concat (map encode fs))); lia).
    rewrite drop_len_app, decode_encode_app by done.
    cbn [map_err mbind result_bind].
    replace (len pre + encoded_len f) with (len (pre ++ encode f)) by (rewrite len_app; lia).
    rewrite (app_assoc pre (encode f)).
    rewrite (IH fuel (pre ++ encode f) (acc ++ [f])) by (done || (simpl in Hfuel; lia)).
    by rewrite <- (app_assoc acc).
Qed.

Lemma parse_frames_loop_Ok fuel : forall bs off acc off' fs,
  0 <= off <= len bs ->
  parse_frames_loop fuel bs off acc = Ok (off', fs) ->
  off' = len bs /\
  exists new, fs = acc ++ new /\ Forall sendable new /\ off' = off + sumZ encoded_len new.
Proof.
  induction fuel as [|fuel IH]; intros bs off acc off' fs Hoff Hrun.
  - simpl in Hrun. case_decide; [done|]. injection Hrun as <- <-.
    split; [lia|]. exists []. rewrite app_nil_r. simpl. split_and!; [done | done | lia].
  - destruct (decide (off < len bs)) as [Hlt|Hge].
    + rewrite parse_frames_loop_step in Hrun by lia.
      destruct (decode _) as [[n f]| |] eqn:Hd; [|done|done].
      cbn [map_err mbind result_bind] in Hrun.
      apply decode_Ok in Hd as (Hn & Hf & Hle & _).
      assert (len (drop (Z.to_nat off) bs) = len bs - off) as Hdrop
        by (unfold len; rewrite length_drop; unfold len in *; lia).
      pose proof (encoded_len_pos f).
      apply IH in Hrun as (-> & new & -> & Hnew & Hsum); [|lia].
      split; [done|]. exists (f :: new). rewrite <- app_assoc. simpl.
      split_and!; [done | by constructor | lia].
    + rewrite parse_frames_loop_done in Hrun by lia. injection Hrun as <- <-.
      split; [lia|]. exists []. rewrite app_nil_r. simpl. split_and!; [done | done | lia].
Qed.

Lemma parse_frames_loop_no_panic fuel : forall bs off acc,
  0 <= off -> len bs - off <= Z.of_nat fuel -> parse_frames_loop fuel bs off acc <> Panic.
Proof.
  induction fuel as [|fuel IH]; intros bs off acc Hoff Hfuel.
  - rewrite parse_frames_loop_done by lia. done.
  - destruct (decide (off < len bs)) as [Hlt|Hge].
    + rewrite parse_frames_loop_step by lia.
      destruct (decode _) as [[n f]| |] eqn:Hd; [|done|by apply decode_no_panic in Hd].
      cbn [map_err mbind result_bind]. apply decode_Ok in Hd as (Hn & _).
      pose proof (encoded_len_pos f). apply IH; lia.
    + rewrite parse_frames_loop_done by lia. done.
Qed.

Lemma parse_frames_loop_Err fuel : forall bs off acc e,
  0 <= off -> parse_frames_loop fuel bs off acc = Err e ->
  exists d, e = FrameParse_FrameDecodingError d.
Proof.
  induction fuel as [|fuel IH]; intros bs off acc e Hoff Hrun.
  - simpl in Hrun. by case_decide.
  - destruct (decide (off < len bs)) as [Hlt|Hge].
    + rewrite parse_frames_loop_step in Hrun by lia.
      destruct (decode _) as [[n f]|d|] eqn:Hd; [|naive_solver|done].
      apply decode_Ok in Hd as (Hn & _). pose proof (encoded_len_pos f).
      eapply IH in Hrun; [done | lia].
    + by rewrite parse_frames_loop_done in Hrun by lia.
Qed.

Lemma parse_encoded (fs : list t) :
  fs <> [] -> Forall sendable fs ->
  parse_frames (DERIVATION_VERSION_0 :: concat (map encode fs)) = Ok fs.
Proof.
  intros Hne Hs. unfold parse_frames. rewrite decide_False by naive_solver.
  assert (length fs <= length (concat (map encode fs)))%nat as Hfuel.
  { clear Hne. induction Hs as [|f fs Hf _ IH]; simpl; [lia|].
    pose proof (encode_len f (proj1 Hf)). pose proof (encoded_len_pos f).
    rewrite length_app. unfold len in *. lia. }
  pose proof (parse_frames_loop_encode fs _ [] [] Hs Hfuel) as H.
  change (len []) with 0 in H. rewrite app_nil_l in H. rewrite H.
  cbn [mbind result_bind]. rewrite decide_False by auto.
  by destruct fs.
Qed.

(** ** Properties *)

(** C22: every non-empty list of frames whose payloads are within [MAX_LEN]
    is recovered, in order, from its on-chain serialization: the version byte
    followed by the concatenated encodings. *)
Theorem parse_frames_encode (fs : list t) :
  fs <> [] -> Forall sendable fs ->
  parse_frames (DERIVATION_VERSION_0 :: concat (map encode fs)) = Ok fs.
Proof. apply parse_encoded. Qed.

Lemma parse_frames_encode_witness :
  parse_frames (DERIVATION_VERSION_0 ::
    concat (map encode [mk (zeros 16) 7 [Byte.x2a; Byte.xff] false; mk (zeros 16) 8 [] true]))
  = Ok [mk (zeros 16) 7 [Byte.x2a; Byte.xff] false; mk (zeros 16) 8 [] true].
Proof.
  apply parse_frames_encode; [done|].
  repeat constructor; by vm_compute.
Defined.

(** Parsing never panics and its loop terminates, whatever bytes L1
    carries; a successful parse yields at least one frame, only frames with a
    16-byte id, a [u16] number and a bounded payload, and accounts for every
    byte of the input; a length mismatch is never reported. *)
Theorem parse_frames_total (bs : bytes) :
  match parse_frames bs with
  | Ok fs => fs <> [] /\ Forall sendable fs /\ len bs = 1 + sumZ encoded_len fs
  | Err DataLengthMismatch => False
  | Err _ => True
  | Panic => False
  end.
Proof.
  unfold parse_frames. destruct bs as [|v bs]; [done|].
  case_decide; [done|].
  pose proof (parse_frames_loop_no_panic (length bs) bs 0 []) as Hnp.
  destruct (parse_frames_loop (length bs) bs 0 []) as [[off fs]| |] eqn:Hrun.
  - cbn [mbind result_bind].
    apply parse_frames_loop_Ok in Hrun as (-> & new & -> & Hs & Hsum);
      [|pose proof (len_nonneg bs); lia].
    rewrite decide_False by auto. rewrite app_nil_l.
    destruct new as [|f new]; [done|]. split_and!; [done | done |].
    rewrite len_cons. lia.
  - apply parse_frames_loop_Err in Hrun as [d ->]; [done | lia].
  - apply Hnp; [lia | unfold len; lia | done].
Qed.

End Frame.
