(* ===== verification/Blobs.v ===== *)
(** * The blob codec

    Models [src/crates/batcher/blobs/src/encoder.rs] and
    [src/crates/batcher/blobs/src/decoder.rs], the codec of the batcher, and
    [src/crates/consensus/derive/src/sources/blob_data.rs], the decoder of
    derivation.  A blob is 4096 field elements of 32 bytes, the two highest bits
    of which cannot be used; four elements carry 127 bytes of payload, three of
    them split into six-bit chunks in the first bytes of the elements. *)

From S2P Require Import Prelude Frames.

(** [alloy_eips::eip4844]: [BYTES_PER_BLOB], [VERSIONED_HASH_VERSION_KZG]. *)
Definition BYTES_PER_BLOB : Z := 131072.
Definition VERSIONED_HASH_VERSION_KZG : Z := 1.

Definition BLOB_MAX_DATA_SIZE : Z := (4 * 31 + 3) * 1024 - 4.
Definition BLOB_DERIVATION_PREFIX_SIZE : Z := 1.
Definition MAX_BLOB_FRAME_SIZE : Z := BLOB_MAX_DATA_SIZE - BLOB_DERIVATION_PREFIX_SIZE.

Definition BLOB_ENCODING_VERSION : byte := Byte.x00.
Definition BLOB_ENCODING_ROUNDS : nat := 1024.

(** [buf[i..i + src.len()].copy_from_slice(src)]; [None] where Rust panics. *)
Definition copy_from_slice (buf : bytes) (i : Z) (src : bytes) : option bytes :=
  if decide (0 <= i /\ i + len src <= len buf)
  then Some (take (Z.to_nat i) buf ++ src ++ drop (Z.to_nat (i + len src)) buf)
  else None.

(** Operations on [u8]. *)
Definition u8_and (b : byte) (mask : Z) : byte := byte.of_Z (Z.land (byte.unsigned b) mask).
Definition u8_or (a b : byte) : byte := byte.of_Z (Z.lor (byte.unsigned a) (byte.unsigned b)).
Definition u8_shl (b : byte) (n : Z) : byte := byte.of_Z (Z.shiftl (byte.unsigned b) n).
Definition u8_shr (b : byte) (n : Z) : byte := byte.of_Z (Z.shiftr (byte.unsigned b) n).

(** ** Encoding *)

Inductive BlobEncodeError : Set := DataTooLarge (size : Z).

Module BlobEncoder.

(** [BlobEncoder::FRAME_OVERHEAD]. *)
Definition FRAME_OVERHEAD : Z := 23.

(** The first bytes of the four elements of a round. *)
Definition high0 (x : byte) : byte := u8_and x 63.
Definition high1 (x y : byte) : byte := u8_or (u8_shl (u8_and (u8_shr x 6) 3) 4) (u8_and y 15).
Definition high2 (z : byte) : byte := u8_and z 63.
Definition high3 (y z : byte) : byte := u8_or (u8_and (u8_shr y 4) 15) (u8_shl (u8_and (u8_shr z 6) 3) 4).

(** A round after the payload of its first element: three bytes of the input are
    spread over the first bytes of the elements, the 31 bytes after each go into
    an element. *)
Definition encode_tail (input out : bytes) (blob_pos ipos : Z) : option bytes :=
  x ← index input ipos;
  p1 ← slice input (ipos + 1) (ipos + 32);
  out ← copy_from_slice out (blob_pos + 33) p1;
  y ← index input (ipos + 32);
  p2 ← slice input (ipos + 33) (ipos + 64);
  out ← copy_from_slice out (blob_pos + 65) p2;
  z ← index input (ipos + 64);
  p3 ← slice input (ipos + 65) (ipos + 96);
  out ← copy_from_slice out (blob_pos + 97) p3;
  out ← copy_from_slice out blob_pos [high0 x];
  out ← copy_from_slice out (blob_pos + 32) [high1 x y];
  out ← copy_from_slice out (blob_pos + 64) [high2 z];
  copy_from_slice out (blob_pos + 96) [high3 y z].

(** The rounds after the first. *)
Fixpoint encode_rounds (rounds : nat) (data_len : Z) (input out : bytes) (blob_pos ipos : Z) : option bytes :=
  match rounds with
  | O => Some out
  | S rounds =>
      if decide (data_len <= ipos) then Some out
      else
        p0 ← slice input ipos (ipos + 31);
        out ← copy_from_slice out (blob_pos + 1) p0;
        out ← encode_tail input out blob_pos (ipos + 31);
        encode_rounds rounds data_len input out (blob_pos + 128) (ipos + 127)
  end.

(** [BlobEncoder::encode]. *)
Definition encode (data : bytes) : result BlobEncodeError bytes :=
  if decide (BLOB_MAX_DATA_SIZE < len data) then Err (DataTooLarge (len data))
  else or_panic (
    input ← copy_from_slice (zeros (Z.to_nat BLOB_MAX_DATA_SIZE)) 0 data;
    let out := zeros (Z.to_nat BYTES_PER_BLOB) in
    let len_be := to_be_bytes 4 (wrap 32 (len data)) in
    out ← copy_from_slice out VERSIONED_HASH_VERSION_KZG [BLOB_ENCODING_VERSION];
    out ← copy_from_slice out 2 (drop 1 len_be);
    p0 ← slice input 0 27;
    out ← copy_from_slice out 5 p0;
    out ← encode_tail input out 0 27;
    encode_rounds (pred BLOB_ENCODING_ROUNDS) (len data) input out 128 123).

(** [BlobEncoder::encode_packed]. *)
Definition encode_packed (frames : list Frame.t) : result BlobEncodeError bytes :=
  encode (DERIVATION_VERSION_0 :: concat (map Frame.encode frames)).

End BlobEncoder.

(** ** Decoding in derivation *)

Inductive BlobDecodingError : Set :=
| InvalidFieldElement
| InvalidEncodingVersion
| InvalidLength
| MissingData.

Module BlobData.

Record t : Type := mk {
  data : option bytes;
  calldata : option bytes
}.

(** [BlobData::default()]. *)
Definition default : t := mk None None.

(** The bytes reassembled from the first bytes of four elements. *)
Definition reassembled_x (e0 e1 : byte) : byte := u8_or (u8_and e0 63) (u8_shl (u8_and e1 48) 2).
Definition reassembled_y (e1 e3 : byte) : byte := u8_or (u8_and e1 15) (u8_shl (u8_and e3 15) 4).
Definition reassembled_z (e2 e3 : byte) : byte := u8_or (u8_and e2 63) (u8_shl (u8_and e3 48) 2).

(** [BlobData::decode_field_element]: the first byte and the buffer; the
    positions move on by 32. *)
Definition decode_field_element (data : bytes) (output_pos input_pos : Z) (output : bytes)
    : result BlobDecodingError (byte * bytes) :=
  b ← or_panic (index data input_pos);
  if decide (Z.land (byte.unsigned b) 192 <> 0) then Err InvalidFieldElement
  else
    p ← or_panic (slice data (input_pos + 1) (input_pos + 32));
    output ← or_panic (copy_from_slice output output_pos p);
    Ok (b, output).

(** [BlobData::reassemble_bytes]; [output_pos] is decremented by one. *)
Definition reassemble_bytes (output_pos : Z) (e0 e1 e2 e3 : byte) (output : bytes) : option bytes :=
  let output_pos := output_pos - 1 in
  output ← copy_from_slice output (output_pos - 32) [reassembled_z e2 e3];
  output ← copy_from_slice output (output_pos - 64) [reassembled_y e1 e3];
  copy_from_slice output (output_pos - 96) [reassembled_x e0 e1].

(** The last three elements of a round and the reassembly. *)
Definition decode_tail (data : bytes) (e0 : byte) (output_pos input_pos : Z) (output : bytes)
    : result BlobDecodingError bytes :=
  '(e1, output) ← decode_field_element data output_pos input_pos output;
  '(e2, output) ← decode_field_element data (output_pos + 32) (input_pos + 32) output;
  '(e3, output) ← decode_field_element data (output_pos + 64) (input_pos + 64) output;
  or_panic (reassemble_bytes (output_pos + 96) e0 e1 e2 e3 output).

(** The rounds after the first: the buffer and the position reached in the
    input. *)
Fixpoint decode_rounds (rounds : nat) (length : Z) (data : bytes) (output_pos input_pos : Z) (output : bytes)
    : result BlobDecodingError (bytes * Z) :=
  match rounds with
  | O => Ok (output, input_pos)
  | S rounds =>
      if decide (length <= output_pos) then Ok (output, input_pos)
      else
        '(e0, output) ← decode_field_element data output_pos input_pos output;
        output ← decode_tail data e0 (output_pos + 32) (input_pos + 32) output;
        decode_rounds rounds length data (output_pos + 127) (input_pos + 128) output
  end.

(** The end of [decode]: nothing but zeros in the rest of the buffer and of the
    blob. *)
Definition finish (length : Z) (data output : bytes) (input_pos : Z) : result BlobDecodingError bytes :=
  if decide (Exists (fun o => o <> Byte.x00) (drop (Z.to_nat length) output))
  then Err InvalidFieldElement
  else
    let rest := take (Z.to_nat (BYTES_PER_BLOB - input_pos)) (drop (Z.to_nat input_pos) data) in
    if decide (Exists (fun b => b <> Byte.x00) rest) then Err InvalidFieldElement
    else if decide (len data < BYTES_PER_BLOB) then Panic
    else Ok (take (Z.to_nat length) output).

(** [BlobData::decode]. *)
Definition decode (self : t) : result BlobDecodingError bytes :=
  data ← ok_or MissingData (data self);
  version ← or_panic (index data VERSIONED_HASH_VERSION_KZG);
  if decide (version <> BLOB_ENCODING_VERSION) then Err InvalidEncodingVersion
  else
    l ← or_panic (slice data 2 5);
    let length := from_be_bytes (Byte.x00 :: l) in
    if decide (BLOB_MAX_DATA_SIZE < length) then Err InvalidLength
    else
      p0 ← or_panic (slice data 5 32);
      output ← or_panic (copy_from_slice (zeros (Z.to_nat BLOB_MAX_DATA_SIZE)) 0 p0);
      e0 ← or_panic (index data 0);
      output ← decode_tail data e0 28 32 output;
      '(output, input_pos) ← decode_rounds (pred BLOB_ENCODING_ROUNDS) length data 123 128 output;
      finish length data output input_pos.

End BlobData.

(** ** Decoding in the batcher *)

Inductive BlobDecodeError : Type :=
| DecodeInvalidFieldElement (offset : Z)
| DecodeInvalidEncodingVersion (version : byte)
| DecodeInvalidLength (length : Z)
| NonZeroPadding (offset : Z).

Module BlobDecoder.

(** [BlobDecoder::decode_field_element]. *)
Definition decode_field_element (data : bytes) (output_pos input_pos : Z) (output : bytes)
    : result BlobDecodeError (byte * bytes) :=
  b ← or_panic (index data input_pos);
  if decide (Z.land (byte.unsigned b) 192 <> 0) then Err (DecodeInvalidFieldElement input_pos)
  else
    p ← or_panic (slice data (input_pos + 1) (input_pos + 32));
    output ← or_panic (copy_from_slice output output_pos p);
    Ok (b, output).

(** [BlobDecoder::reassemble_bytes], the batcher's own copy of the function. *)
Definition reassemble_bytes (output_pos : Z) (e0 e1 e2 e3 : byte) (output : bytes) : option bytes :=
  let output_pos := output_pos - 1 in
  let x := u8_or (u8_and e0 63) (u8_shl (u8_and e1 48) 2) in
  let y := u8_or (u8_and e1 15) (u8_shl (u8_and e3 15) 4) in
  let z := u8_or (u8_and e2 63) (u8_shl (u8_and e3 48) 2) in
  output ← copy_from_slice output (output_pos - 32) [z];
  output ← copy_from_slice output (output_pos - 32 * 2) [y];
  copy_from_slice output (output_pos - 32 * 3) [x].

(** The last three elements of a round and the reassembly. *)
Definition decode_tail (data : bytes) (e0 : byte) (output_pos input_pos : Z) (output : bytes)
    : result BlobDecodeError bytes :=
  '(e1, output) ← decode_field_element data output_pos input_pos output;
  '(e2, output) ← decode_field_element data (output_pos + 32) (input_pos + 32) output;
  '(e3, output) ← decode_field_element data (output_pos + 64) (input_pos + 64) output;
  or_panic (reassemble_bytes (output_pos + 96) e0 e1 e2 e3 output).

Fixpoint decode_rounds (rounds : nat) (length : Z) (data : bytes) (output_pos input_pos : Z) (output : bytes)
    : result BlobDecodeError (bytes * Z) :=
  match rounds with
  | O => Ok (output, input_pos)
  | S rounds =>
      if decide (length <= output_pos) then Ok (output, input_pos)
      else
        '(e0, output) ← decode_field_element data output_pos input_pos output;
        output ← decode_tail data e0 (output_pos + 32) (input_pos + 32) output;
        decode_rounds rounds length data (output_pos + 127) (input_pos + 128) output
  end.

(** The first byte other than zero, from the offset on. *)
Fixpoint nonzero_from (offset : Z) (l : bytes) : option Z :=
  match l with
  | [] => None
  | b :: l => if decide (b <> Byte.x00) then Some offset else nonzero_from (offset + 1) l
  end.

(** [BlobDecoder::decode]. *)
Definition decode (blob : bytes) : result BlobDecodeError bytes :=
  version ← or_panic (index blob VERSIONED_HASH_VERSION_KZG);
  if decide (version <> Byte.x00) then Err (DecodeInvalidEncodingVersion version)
  else
    l ← or_panic (slice blob 2 5);
    let length := from_be_bytes (Byte.x00 :: l) in
    if decide (BLOB_MAX_DATA_SIZE < length) then Err (DecodeInvalidLength length)
    else
      p0 ← or_panic (slice blob 5 32);
      output ← or_panic (copy_from_slice (zeros (Z.to_nat BLOB_MAX_DATA_SIZE)) 0 p0);
      e0 ← or_panic (index blob 0);
      output ← decode_tail blob e0 28 32 output;
      '(output, input_pos) ← decode_rounds (pred BLOB_ENCODING_ROUNDS) length blob 123 128 output;
      match nonzero_from length (drop (Z.to_nat length) output) with
      | Some i => Err (NonZeroPadding i)
      | None =>
          match nonzero_from input_pos (drop (Z.to_nat input_pos) blob) with
          | Some i => Err (NonZeroPadding i)
          | None => Ok (take (Z.to_nat length) output)
          end
      end.

End BlobDecoder.

(** ** Bytes and their bits *)

Definition all_bytes : bytes := map (fun n => byte.of_Z (Z.of_nat n)) (seq 0 256).

Lemma In_all_bytes b : In b all_bytes.
Proof.
  apply in_map_iff. exists (Z.to_nat (byte.unsigned b)). pose proof (byte.unsigned_range b).
  split; [|apply in_seq; lia]. rewrite Z2Nat.id by lia. apply byte.of_Z_unsigned.
Qed.

(** A property of all bytes is decided by trying them. *)
Lemma all_bytes_satisfy (P : byte -> Prop) `{!forall b, Decision (P b)} :
  forallb (fun b => bool_decide (P b)) all_bytes = true -> forall b, P b.
Proof.
  rewrite forallb_forall. intros Hall b. exact (bool_decide_eq_true_1 _ (Hall b (In_all_bytes b))).
Qed.

Ltac try_byte b :=
  revert b; match goal with |- forall b, @?P b => apply (all_bytes_satisfy P) end; vm_compute; reflexivity.

(** The two highest bits of a byte are clear. *)
Definition six_bits (b : byte) : Prop := Z.land (byte.unsigned b) 192 = 0.

Section Reassembly.
Import BlobEncoder BlobData.

Local Abbreviation U := byte.unsigned.

Lemma six_bits_lt b : six_bits b <-> U b < 64.
Proof. unfold six_bits. try_byte b. Qed.

(** Masks and shifts of one byte as arithmetic. *)
Lemma u8_arith b :
  U (u8_and b 63) = U b mod 64 /\ U (u8_and b 15) = U b mod 16 /\
  U (u8_shl (u8_and b 48) 2) = U b / 16 mod 4 * 64 /\
  U (u8_shl (u8_and b 15) 4) = U b mod 16 * 16 /\
  U (u8_shl (u8_and (u8_shr b 6) 3) 4) = U b / 64 * 16 /\
  U (u8_and (u8_shr b 4) 15) = U b / 16.
Proof. try_byte b. Qed.

(** An or of disjoint bits is an addition. *)
Lemma u8_or_add a b n :
  0 <= n -> U a < 2 ^ n -> U b mod 2 ^ n = 0 -> U a + U b < 256 -> U (u8_or a b) = U a + U b.
Proof.
  intros Hn Ha Hb Hs. pose proof (byte.unsigned_range a). pose proof (byte.unsigned_range b).
  unfold u8_or. rewrite byte.unsigned_of_Z. unfold byte.wrap.
  rewrite (Z.div_mod (U b) (2 ^ n)), Hb, Z.add_0_r, Z.mul_comm, <- Z.shiftl_mul_pow2 by lia.
  rewrite lor_shiftl_add by lia. rewrite Z.shiftl_mul_pow2 by lia. rewrite Z.mod_small; [done|].
  pose proof (Z.div_mod (U b) (2 ^ n)). lia.
Qed.

Lemma u8_or_comm a b : u8_or a b = u8_or b a.
Proof. unfold u8_or. by rewrite Z.lor_comm. Qed.

Local Ltac dlia := change (2 ^ 4) with 16; change (2 ^ 6) with 64; Z.div_mod_to_equations; lia.

Local Ltac byte_arith b :=
  let H := fresh in pose proof (byte.unsigned_range b);
  destruct (u8_arith b) as (?H & ?H & ?H & ?H & ?H & ?H).

Lemma high_arith x y z :
  U (high0 x) = U x mod 64 /\ U (high1 x y) = U x / 64 * 16 + U y mod 16 /\
  U (high2 z) = U z mod 64 /\ U (high3 y z) = U y / 16 + U z / 64 * 16.
Proof.
  byte_arith x. byte_arith y. byte_arith z. unfold high0, high1, high2, high3.
  rewrite (u8_or_comm (u8_shl _ _)). split_and!; [done| |done|];
    rewrite (u8_or_add _ _ 4) by dlia; dlia.
Qed.

Lemma reassembled_arith e0 e1 e2 e3 :
  U (reassembled_x e0 e1) = U e0 mod 64 + U e1 / 16 mod 4 * 64 /\
  U (reassembled_y e1 e3) = U e1 mod 16 + U e3 mod 16 * 16 /\
  U (reassembled_z e2 e3) = U e2 mod 64 + U e3 / 16 mod 4 * 64.
Proof.
  byte_arith e0. byte_arith e1. byte_arith e2. byte_arith e3.
  unfold reassembled_x, reassembled_y, reassembled_z.
  rewrite (u8_or_add _ (u8_shl (u8_and e1 48) 2) 6), (u8_or_add _ (u8_shl (u8_and e3 15) 4) 4),
    (u8_or_add _ (u8_shl (u8_and e3 48) 2) 6) by dlia. dlia.
Qed.

Lemma high_six_bits x y z :
  six_bits (high0 x) /\ six_bits (high1 x y) /\ six_bits (high2 z) /\ six_bits (high3 y z).
Proof.
  pose proof (byte.unsigned_range x). pose proof (byte.unsigned_range y). pose proof (byte.unsigned_range z).
  destruct (high_arith x y z) as (? & ? & ? & ?). rewrite !six_bits_lt. dlia.
Qed.

(** The three bytes are recovered from the first bytes of the elements. *)
Lemma reassemble_high x y z :
  reassembled_x (high0 x) (high1 x y) = x /\
  reassembled_y (high1 x y) (high3 y z) = y /\
  reassembled_z (high2 z) (high3 y z) = z.
Proof.
  pose proof (byte.unsigned_range x). pose proof (byte.unsigned_range y). pose proof (byte.unsigned_range z).
  destruct (high_arith x y z) as (? & ? & ? & ?).
  destruct (reassembled_arith (high0 x) (high1 x y) (high2 z) (high3 y z)) as (? & ? & ?).
  split_and!; apply byte.unsigned_inj; dlia.
Qed.

(** First bytes of six bits are recovered from the three bytes; of the first
    one the two highest bits are lost. *)
Lemma high_reassembled e0 e1 e2 e3 :
  six_bits e1 -> six_bits e2 -> six_bits e3 ->
  let x := reassembled_x e0 e1 in let y := reassembled_y e1 e3 in let z := reassembled_z e2 e3 in
  high0 x = u8_and e0 63 /\ high1 x y = e1 /\ high2 z = e2 /\ high3 y z = e3.
Proof.
  rewrite !six_bits_lt. intros H1 H2 H3 x y z. byte_arith e0.
  pose proof (byte.unsigned_range e1). pose proof (byte.unsigned_range e2). pose proof (byte.unsigned_range e3).
  destruct (high_arith x y z) as (? & ? & ? & ?).
  destruct (reassembled_arith e0 e1 e2 e3) as (Hx & Hy & Hz). fold x y z in Hx, Hy, Hz.
  split_and!; apply byte.unsigned_inj; dlia.
Qed.

End Reassembly.

(** ** Reading and writing fields of a layout *)

Lemma index_concat {A} (fs : list (list A)) k x i :
  fs !! k = Some [x] -> i = sumZ len (take k fs) -> index (concat fs) i = Some x.
Proof.
  intros Hk ->. apply (index_spec _ (concat (take k fs)) (concat (drop (S k) fs))).
  - rewrite <- (take_drop_middle fs k [x] Hk) at 1. by rewrite concat_app.
  - clear. induction (take k fs) as [|l ls IH]; [done|]. cbn [sumZ concat]. by rewrite len_app, IH.
Qed.

Lemma copy_concat (fs : list bytes) k f i src :
  fs !! k = Some f -> i = sumZ len (take k fs) -> len src = len f ->
  copy_from_slice (concat fs) i src = Some (concat (<[k := src]> fs)).
Proof.
  intros Hk -> Hs. pose proof (lookup_lt_Some _ _ _ Hk) as Hlt.
  assert (forall ls : list bytes, len (concat ls) = sumZ len ls) as Hlen.
  { induction ls as [|l ls IH]; [done|]. cbn [sumZ concat]. by rewrite len_app, IH. }
  rewrite insert_take_drop by done. rewrite <- (take_drop_middle fs k f Hk) at 1.
  rewrite !concat_app. cbn [concat]. rewrite <- !Hlen. unfold copy_from_slice.
  pose proof (len_nonneg (concat (take k fs))). pose proof (len_nonneg (concat (drop (S k) fs))).
  rewrite decide_True by (rewrite !len_app; lia). unfold len in *. f_equal. f_equal.
  - rewrite Nat2Z.id. by apply take_app_length.
  - f_equal. rewrite app_assoc. apply drop_app_length'. rewrite length_app. lia.
Qed.

(** The payload of a round: four pieces with three bytes between them. *)
Definition chunk (p0 : bytes) (x : byte) (p1 : bytes) (y : byte) (p2 : bytes) (z : byte) (p3 : bytes) : bytes :=
  p0 ++ x :: p1 ++ y :: p2 ++ z :: p3.

(** Its four elements, the first of which holds [q0]. *)
Definition elements (q0 : bytes) (x : byte) (p1 : bytes) (y : byte) (p2 : bytes) (z : byte) (p3 : bytes) : bytes :=
  chunk (BlobEncoder.high0 x :: q0) (BlobEncoder.high1 x y) p1 (BlobEncoder.high2 z) p2
    (BlobEncoder.high3 y z) p3.

Lemma split_piece (l : bytes) n :
  0 <= n < len l -> exists p x r, l = p ++ x :: r /\ len p = n.
Proof.
  intros Hn. exists (take (Z.to_nat n) l).
  destruct (lookup_lt_is_Some_2 l (Z.to_nat n)) as [x Hx]; [unfold len in *; lia|].
  exists x, (drop (S (Z.to_nat n)) l). split; [by rewrite take_drop_middle|].
  unfold len in *. rewrite length_take. lia.
Qed.

Lemma split_chunk (l : bytes) n :
  0 <= n -> len l = n + 96 -> exists p0 x p1 y p2 z p3, l = chunk p0 x p1 y p2 z p3 /\
    len p0 = n /\ len p1 = 31 /\ len p2 = 31 /\ len p3 = 31.
Proof.
  intros Hn Hl. destruct (split_piece l n) as (p0 & x & r0 & -> & H0); [lia|].
  rewrite len_app, len_cons in Hl. destruct (split_piece r0 31) as (p1 & y & r1 & -> & H1); [lia|].
  rewrite len_app, len_cons in Hl. destruct (split_piece r1 31) as (p2 & z & p3 & -> & H2); [lia|].
  rewrite len_app, len_cons in Hl. exists p0, x, p1, y, p2, z, p3. unfold chunk. split_and!; auto; lia.
Qed.

Lemma len_chunk p0 x p1 y p2 z p3 :
  len (chunk p0 x p1 y p2 z p3) = len p0 + len p1 + len p2 + len p3 + 3.
Proof. unfold chunk. rewrite !len_app, !len_cons, !len_app, !len_cons, !len_app, !len_cons. lia. Qed.

Lemma chunk_fields pre p0 x p1 y p2 z p3 post :
  pre ++ chunk p0 x p1 y p2 z p3 ++ post = concat [pre; p0; [x]; p1; [y]; p2; [z]; p3; post].
Proof. unfold chunk. cbn [concat app]. by rewrite app_nil_r, <- !app_assoc; cbn; rewrite <- !app_assoc; cbn; rewrite <- !app_assoc. Qed.

Lemma elements_fields pre a q0 x p1 y p2 z p3 post :
  pre ++ chunk (a :: q0) x p1 y p2 z p3 ++ post = concat [pre; [a]; q0; [x]; p1; [y]; p2; [z]; p3; post].
Proof. by rewrite chunk_fields. Qed.

(** Evaluates a read or a write of the [k]-th field. *)
Ltac field_len := cbn [sumZ take insert list_insert]; rewrite ?len_cons, ?len_nil; lia.
Lemma option_step {A B} (o : option A) (f : A -> option B) a r : o = Some a -> f a = r -> o ≫= f = r.
Proof. by intros ->. Qed.

Ltac read_byte k := eapply option_step; [eapply (index_concat _ k); [reflexivity|field_len]|cbv beta].
Ltac read_slice k := eapply option_step; [eapply (slice_concat _ k); [reflexivity|field_len..]|cbv beta].
Ltac copied k := eapply (copy_concat _ k); [reflexivity|field_len..].
Ltac write_last k := erewrite (copy_concat _ k); [reflexivity|reflexivity|field_len..].
Ltac write_field k := eapply option_step; [copied k|cbn [insert list_insert]].

Lemma encode_tail_spec pre x p1 y p2 z p3 post bpre a0 q0 a1 q1 a2 q2 a3 q3 bpost ipos blob_pos :
  ipos = len pre -> blob_pos = len bpre ->
  len p1 = 31 -> len p2 = 31 -> len p3 = 31 -> len q0 = 31 -> len q1 = 31 -> len q2 = 31 -> len q3 = 31 ->
  BlobEncoder.encode_tail (pre ++ chunk [] x p1 y p2 z p3 ++ post)
    (bpre ++ chunk (a0 :: q0) a1 q1 a2 q2 a3 q3 ++ bpost) blob_pos ipos =
  Some (bpre ++ elements q0 x p1 y p2 z p3 ++ bpost).
Proof.
  intros. unfold BlobEncoder.encode_tail, elements. rewrite chunk_fields, !elements_fields.
  read_byte 2%nat. read_slice 3%nat. write_field 4%nat. read_byte 4%nat. read_slice 5%nat. write_field 6%nat.
  read_byte 6%nat. read_slice 7%nat. write_field 8%nat.
  write_field 1%nat. write_field 3%nat. write_field 5%nat. write_last 7%nat.
Qed.

Section Fields.
Import BlobData.

Lemma decode_field_element_spec data output_pos input_pos output e q output' :
  index data input_pos = Some e -> slice data (input_pos + 1) (input_pos + 32) = Some q ->
  copy_from_slice output output_pos q = Some output' ->
  decode_field_element data output_pos input_pos output =
    if decide (six_bits e) then Ok (e, output') else Err InvalidFieldElement.
Proof.
  intros He Hq Ho. unfold decode_field_element, six_bits. rewrite He. cbn [or_panic mbind result_bind].
  destruct (decide (Z.land _ _ = 0)) as [Hz|Hz].
  - rewrite decide_False by auto. rewrite Hq. cbn [or_panic mbind result_bind]. by rewrite Ho.
  - by rewrite decide_True.
Qed.

Ltac decode_element k :=
  erewrite decode_field_element_spec;
    [|eapply (index_concat _ k); [reflexivity|field_len]
     |eapply (slice_concat _ (S k)); [reflexivity|field_len..]
     |eapply (copy_concat _ (S k)); [reflexivity|field_len..]].

Lemma reassemble_spec opre ox q1 oy q2 oz q3 opost output_pos e0 e1 e2 e3 :
  output_pos = len opre + 97 -> len q1 = 31 -> len q2 = 31 ->
  reassemble_bytes output_pos e0 e1 e2 e3 (concat [opre; []; [ox]; q1; [oy]; q2; [oz]; q3; opost]) =
  Some (concat [opre; []; [reassembled_x e0 e1]; q1; [reassembled_y e1 e3]; q2; [reassembled_z e2 e3]; q3; opost]).
Proof. intros. write_field 6%nat. write_field 4%nat. write_last 2%nat. Qed.

Lemma decode_tail_spec bpre e0 e1 q1 e2 q2 e3 q3 bpost opre ox o1 oy o2 oz o3 opost output_pos input_pos :
  input_pos = len bpre -> output_pos = len opre + 1 ->
  len q1 = 31 -> len q2 = 31 -> len q3 = 31 -> len o1 = 31 -> len o2 = 31 -> len o3 = 31 ->
  decode_tail (bpre ++ chunk [] e1 q1 e2 q2 e3 q3 ++ bpost) e0 output_pos input_pos
    (opre ++ chunk [] ox o1 oy o2 oz o3 ++ opost) =
  if decide (six_bits e1 /\ six_bits e2 /\ six_bits e3)
  then Ok (opre ++ chunk [] (reassembled_x e0 e1) q1 (reassembled_y e1 e3) q2 (reassembled_z e2 e3) q3 ++ opost)
  else Err InvalidFieldElement.
Proof.
  intros. unfold decode_tail. rewrite !chunk_fields.
  decode_element 2%nat. destruct (decide (six_bits e1)); [|rewrite decide_False by tauto; done].
  cbn [insert list_insert mbind result_bind].
  decode_element 4%nat. destruct (decide (six_bits e2)); [|rewrite decide_False by tauto; done].
  cbn [insert list_insert mbind result_bind].
  decode_element 6%nat. destruct (decide (six_bits e3)); [|rewrite decide_False by tauto; done].
  cbn [insert list_insert mbind result_bind]. rewrite decide_True by done.
  by rewrite reassemble_spec by (done || lia).
Qed.

End Fields.

(** ** The format *)

(** Rounds after the first. *)
Inductive packed : bytes -> bytes -> Prop :=
| packed_nil : packed [] []
| packed_round p0 x p1 y p2 z p3 c b :
    len p0 = 31 -> len p1 = 31 -> len p2 = 31 -> len p3 = 31 -> packed c b ->
    packed (chunk p0 x p1 y p2 z p3 ++ c) (elements p0 x p1 y p2 z p3 ++ b).

(** The payload is filled up with zeros to the end of the last round that is
    needed, the blob with zeros to its end. *)
Definition covers (data_len : Z) (start : Z) (c : bytes) : Prop :=
  data_len <= start + len c /\ (c = [] \/ start + len c - 127 < data_len).

Definition header (data : bytes) : bytes := BLOB_ENCODING_VERSION :: to_be_bytes 3 (len data).

Inductive layout (data : bytes) : bytes -> Prop :=
| layout_intro p0 x p1 y p2 z p3 c b k j :
    len p0 = 27 -> len p1 = 31 -> len p2 = 31 -> len p3 = 31 -> packed c b ->
    covers (len data) 123 c -> data ++ zeros k = chunk p0 x p1 y p2 z p3 ++ c ->
    128 + len b + Z.of_nat j = BYTES_PER_BLOB ->
    layout data (elements (header data ++ p0) x p1 y p2 z p3 ++ b ++ zeros j).

Lemma len_elements q0 x p1 y p2 z p3 :
  len (elements q0 x p1 y p2 z p3) = len q0 + len p1 + len p2 + len p3 + 4.
Proof. unfold elements. rewrite len_chunk, len_cons. lia. Qed.

Lemma packed_len c b : packed c b -> 128 * len c = 127 * len b.
Proof.
  induction 1 as [|p0 x p1 y p2 z p3 c b]; [done|].
  rewrite !len_app, len_chunk, len_elements. lia.
Qed.

Lemma split_front {A} (l : list A) n k :
  0 <= n -> 0 <= k -> len l = n + k -> exists f r, l = f ++ r /\ len f = n /\ len r = k.
Proof.
  intros Hn Hk Hl. exists (take (Z.to_nat n) l), (drop (Z.to_nat n) l).
  split; [by rewrite take_drop|]. unfold len in *. rewrite length_take, length_drop. lia.
Qed.

(** One round of the encoder. *)
Lemma encode_round_spec pre p0 x p1 y p2 z p3 post bpre old bpost ipos blob_pos :
  ipos = len pre -> blob_pos = len bpre -> len old = 128 ->
  len p0 = 31 -> len p1 = 31 -> len p2 = 31 -> len p3 = 31 ->
  let input := pre ++ chunk p0 x p1 y p2 z p3 ++ post in
  (p0 ← slice input ipos (ipos + 31);
   out ← copy_from_slice (bpre ++ old ++ bpost) (blob_pos + 1) p0;
   BlobEncoder.encode_tail input out blob_pos (ipos + 31)) =
  Some (bpre ++ elements p0 x p1 y p2 z p3 ++ bpost).
Proof.
  intros Hi Hb Ho H0 H1 H2 H3 input.
  destruct (split_chunk old 32) as (a & a1 & q1 & a2 & q2 & a3 & q3 & -> & Ha & Hq1 & Hq2 & Hq3); [lia..|].
  destruct a as [|a0 q0]; [done|]. rewrite len_cons in Ha. subst input.
  rewrite elements_fields, chunk_fields. read_slice 1%nat. write_field 2%nat.
  rewrite <- elements_fields, <- chunk_fields.
  change (chunk p0 x p1 y p2 z p3) with (p0 ++ chunk [] x p1 y p2 z p3). rewrite <- app_assoc, (app_assoc pre).
  apply encode_tail_spec; rewrite ?len_app; lia.
Qed.

Lemma covers_nil data_len start : data_len <= start -> covers data_len start [].
Proof. intros H. split; [rewrite len_nil; lia|by left]. Qed.

Lemma covers_round data_len start c c' :
  len c = 127 -> start < data_len -> covers data_len (start + 127) c' -> covers data_len start (c ++ c').
Proof.
  intros Hc Hs [H1 H2]. split; [rewrite len_app; lia|right]. rewrite len_app.
  destruct H2 as [->|]; [rewrite len_nil; lia|lia].
Qed.

Lemma covers_tail data_len start c c' :
  len c = 127 -> covers data_len start (c ++ c') -> covers data_len (start + 127) c'.
Proof.
  intros Hc [H1 H2]. rewrite len_app in *. split; [lia|right]. destruct H2 as [Hnil|]; [|lia].
  apply (f_equal len) in Hnil. rewrite len_app, len_nil in Hnil. pose proof (len_nonneg c'). lia.
Qed.

Lemma encode_rounds_spec n data_len : forall pre rest bpre old ipos blob_pos,
  ipos = len pre -> blob_pos = len bpre -> len rest = 127 * Z.of_nat n -> len old = 128 * Z.of_nat n ->
  data_len <= ipos + len rest ->
  exists c b rest' old',
    BlobEncoder.encode_rounds n data_len (pre ++ rest) (bpre ++ old) blob_pos ipos = Some (bpre ++ b ++ old') /\
    rest = c ++ rest' /\ packed c b /\ covers data_len ipos c /\ old' = drop (length b) old.
Proof.
  induction n as [|n IH]; intros pre rest bpre old ipos blob_pos Hi Hb Hr Ho Hd;
    [|cbn [BlobEncoder.encode_rounds]; destruct (decide (data_len <= ipos)) as [Hle|Hgt]].
  - exists [], [], rest, old. split_and!; [done|done|constructor|apply covers_nil; lia|done].
  - exists [], [], rest, old. split_and!; [done|done|constructor|apply covers_nil; lia|done].
  - destruct (split_front rest 127 (127 * Z.of_nat n)) as (l & r & -> & Hl & Hr'); [lia..|].
    destruct (split_front old 128 (128 * Z.of_nat n)) as (o & ro & -> & Hol & Hro); [lia..|].
    destruct (split_chunk l 31) as (p0 & x & p1 & y & p2 & z & p3 & -> & H0 & H1 & H2 & H3); [lia..|].
    pose proof (encode_round_spec pre p0 x p1 y p2 z p3 r bpre o ro ipos blob_pos Hi Hb Hol H0 H1 H2 H3) as Hround.
    cbn zeta in Hround. revert Hround.
    destruct (slice _ _ _) as [p0'|]; [|done]. cbn [mbind option_bind].
    destruct (copy_from_slice _ _ _) as [out|]; [|done]. cbn [mbind option_bind].
    intros Hround. rewrite Hround. cbn [mbind option_bind].
    destruct (IH (pre ++ chunk p0 x p1 y p2 z p3) r (bpre ++ elements p0 x p1 y p2 z p3) ro
      (ipos + 127) (blob_pos + 128)) as (c & b & rest' & old' & He & -> & Hp & [Hc1 Hc2] & ->);
      [rewrite len_app, len_chunk; lia | rewrite len_app, len_elements; lia | done | done | |].
    { rewrite !len_app, !len_chunk in *. lia. }
    rewrite <- !app_assoc in He. rewrite He.
    exists (chunk p0 x p1 y p2 z p3 ++ c), (elements p0 x p1 y p2 z p3 ++ b), rest', (drop (length b) ro).
    rewrite <- !app_assoc. split_and!; [done | done | by constructor | |].
    + apply covers_round; [rewrite len_chunk; lia|lia|by split].
    + rewrite length_app, <- drop_drop, drop_app_length'; [done|].
      pose proof (len_elements p0 x p1 y p2 z p3). unfold len in *. lia.
Qed.

Lemma app_inj_len {A} (l1 l2 k1 k2 : list A) :
  len l1 = len k1 -> l1 ++ l2 = k1 ++ k2 -> l1 = k1 /\ l2 = k2.
Proof. unfold len. intros Hl He. apply app_inj_1 in He; [done|lia]. Qed.

Lemma chunk_inj p0 x p1 y p2 z p3 q0 a q1 b q2 c q3 r s :
  len p0 = len q0 -> len p1 = len q1 -> len p2 = len q2 -> len p3 = len q3 ->
  chunk p0 x p1 y p2 z p3 ++ r = chunk q0 a q1 b q2 c q3 ++ s ->
  p0 = q0 /\ x = a /\ p1 = q1 /\ y = b /\ p2 = q2 /\ z = c /\ p3 = q3 /\ r = s.
Proof.
  intros H0 H1 H2 H3 He. unfold chunk in He. rewrite <- !app_assoc in He.
  apply app_inj_len in He as [-> He]; [|done]. injection He as -> He. rewrite <- !app_assoc in He.
  apply app_inj_len in He as [-> He]; [|done]. injection He as -> He. rewrite <- !app_assoc in He.
  apply app_inj_len in He as [-> He]; [|done]. injection He as -> He.
  apply app_inj_len in He as [-> He]; [|done]. done.
Qed.

Lemma chunk_app p0 x p1 y p2 z p3 post :
  chunk p0 x p1 y p2 z p3 ++ post = p0 ++ chunk [] x p1 y p2 z p3 ++ post.
Proof. unfold chunk. by rewrite <- app_assoc. Qed.

Section Rounds.
Import BlobEncoder BlobData.

(** Four elements with payload [q0 .. q3] are those of the bytes they reassemble
    to if their first bytes have six bits. *)
Lemma elements_reassembled e0 q0 e1 q1 e2 q2 e3 q3 :
  six_bits e1 -> six_bits e2 -> six_bits e3 ->
  elements q0 (reassembled_x e0 e1) q1 (reassembled_y e1 e3) q2 (reassembled_z e2 e3) q3 =
  chunk (u8_and e0 63 :: q0) e1 q1 e2 q2 e3 q3.
Proof.
  intros H1 H2 H3. destruct (high_reassembled e0 e1 e2 e3 H1 H2 H3) as (Hx & Hy & Hz & Hw).
  cbn zeta in *. unfold elements. by rewrite Hx, Hy, Hz, Hw.
Qed.

Lemma six_bits_and e : six_bits e -> u8_and e 63 = e.
Proof. rewrite six_bits_lt. intros He. apply byte.unsigned_inj. destruct (u8_arith e) as [-> _].
  apply Z.mod_small. pose proof (byte.unsigned_range e). lia. Qed.

(** One round of the decoder. *)
Lemma decode_round_spec bpre e0 q0 e1 q1 e2 q2 e3 q3 bpost opre old opost input_pos output_pos :
  input_pos = len bpre -> output_pos = len opre -> len old = 127 ->
  len q0 = 31 -> len q1 = 31 -> len q2 = 31 -> len q3 = 31 ->
  let data := bpre ++ chunk (e0 :: q0) e1 q1 e2 q2 e3 q3 ++ bpost in
  ('(e0, output) ← decode_field_element data output_pos input_pos (opre ++ old ++ opost);
   decode_tail data e0 (output_pos + 32) (input_pos + 32) output) =
  if decide (six_bits e0 /\ six_bits e1 /\ six_bits e2 /\ six_bits e3)
  then Ok (opre ++ chunk q0 (reassembled_x e0 e1) q1 (reassembled_y e1 e3) q2 (reassembled_z e2 e3) q3 ++ opost)
  else Err InvalidFieldElement.
Proof.
  intros Hi Ho Hold H0 H1 H2 H3 data.
  destruct (split_chunk old 31) as (o0 & ox & o1 & oy & o2 & oz & o3 & -> & Ho0 & Ho1 & Ho2 & Ho3); [lia..|].
  subst data. erewrite decode_field_element_spec;
    [|rewrite elements_fields; eapply (index_concat _ 1); [reflexivity|field_len]
     |rewrite elements_fields; eapply (slice_concat _ 2); [reflexivity|field_len..]
     |rewrite chunk_fields; eapply (copy_concat _ 1); [reflexivity|field_len..]].
  destruct (decide (six_bits e0)); [|rewrite decide_False by tauto; done].
  cbn [insert list_insert mbind result_bind]. rewrite <- chunk_fields.
  rewrite (chunk_app (e0 :: q0)), (chunk_app q0 ox), (app_assoc bpre), (app_assoc opre q0 (chunk _ ox _ _ _ _ _ ++ _)).
  rewrite decode_tail_spec by (rewrite ?len_app, ?len_cons; lia).
  destruct (decide (six_bits e1 /\ _)).
  - rewrite decide_True by tauto. by rewrite (chunk_app q0), <- app_assoc.
  - by rewrite decide_False by tauto.
Qed.

Lemma decode_rounds_spec n length : forall bpre brest opre old input_pos output_pos,
  input_pos = len bpre -> output_pos = len opre -> len brest = 128 * Z.of_nat n -> len old = 127 * Z.of_nat n ->
  length <= output_pos + len old ->
  match decode_rounds n length (bpre ++ brest) output_pos input_pos (opre ++ old) with
  | Ok (output, ip) => exists c b brest', brest = b ++ brest' /\ packed c b /\ covers length output_pos c /\
      output = opre ++ c ++ drop (List.length c) old /\ ip = input_pos + len b
  | Err e => e = InvalidFieldElement /\
      forall c b brest', packed c b -> covers length output_pos c -> brest <> b ++ brest'
  | Panic => False
  end.
Proof.
  induction n as [|n IH]; intros bpre brest opre old input_pos output_pos Hi Ho Hb Hol Hl;
    [|cbn [decode_rounds]; destruct (decide (length <= output_pos)) as [Hle|Hgt]].
  - exists [], [], brest. rewrite len_nil. split_and!; [done|constructor|apply covers_nil; lia|done|lia].
  - exists [], [], brest. rewrite len_nil. split_and!; [done|constructor|apply covers_nil; lia|done|lia].
  - destruct (split_front brest 128 (128 * Z.of_nat n)) as (l & r & -> & Hlen & Hr); [lia..|].
    destruct (split_front old 127 (127 * Z.of_nat n)) as (o & ro & -> & Holen & Hro); [lia..|].
    destruct (split_chunk l 32) as (a & e1 & q1 & e2 & q2 & e3 & q3 & -> & Ha & H1 & H2 & H3); [lia..|].
    destruct a as [|e0 q0]; [done|]. rewrite len_cons in Ha.
    pose proof (decode_round_spec bpre e0 q0 e1 q1 e2 q2 e3 q3 r opre o ro input_pos output_pos
      Hi Ho Holen ltac:(lia) H1 H2 H3) as Hround. cbn zeta in Hround. revert Hround.
    match goal with |- (?m ≫= _ = ?res) -> _ => intros Hround;
      assert (forall K : bytes -> result BlobDecodingError (bytes * Z),
        (m ≫= fun '(e0', out) => decode_tail (bpre ++ chunk (e0 :: q0) e1 q1 e2 q2 e3 q3 ++ r) e0'
          (output_pos + 32) (input_pos + 32) out ≫= K) = res ≫= K) as HK;
        [intros K; rewrite <- Hround; by destruct m as [[]| |]|] end.
    rewrite HK. clear HK Hround.
    destruct (decide _) as [(S0 & S1 & S2 & S3)|Hbad]; cbn [mbind result_bind].
    + set (x := reassembled_x e0 e1). set (y := reassembled_y e1 e3). set (z := reassembled_z e2 e3).
      pose proof (elements_reassembled e0 q0 e1 q1 e2 q2 e3 q3 S1 S2 S3) as Hel. rewrite six_bits_and in Hel by done.
      fold x y z in Hel. rewrite <- Hel. clear Hel.
      specialize (IH (bpre ++ elements q0 x q1 y q2 z q3) r (opre ++ chunk q0 x q1 y q2 z q3) ro
        (input_pos + 128) (output_pos + 127)). rewrite <- !app_assoc in IH.
      rewrite len_app, len_elements, len_app, len_chunk in IH.
      specialize (IH ltac:(lia) ltac:(lia) Hr Hro ltac:(rewrite len_app in Hl; lia)). revert IH.
      destruct (decode_rounds _ _ _ _ _ _) as [[output ip]|e|]; [| |done].
      * intros (c & b & brest' & -> & Hp & Hc & -> & ->).
        exists (chunk q0 x q1 y q2 z q3 ++ c), (elements q0 x q1 y q2 z q3 ++ b), brest'.
        rewrite <- !app_assoc. split_and!; [done|constructor; (done || lia)| | |].
        -- apply covers_round; [rewrite len_chunk; lia|lia|done].
        -- do 3 f_equal. rewrite length_app, <- drop_drop, drop_app_length'; [done|].
           pose proof (len_chunk q0 x q1 y q2 z q3). unfold len in *. lia.
        -- rewrite len_app, len_elements. lia.
      * intros [-> Hno]. split; [done|]. intros c b brest' Hp Hc He.
        destruct Hp as [|p0 x' p1 y' p2 z' p3 c b Hp0 Hp1 Hp2 Hp3 Hp].
        { destruct Hc as [Hc _]. rewrite len_nil in Hc. lia. }
        rewrite <- app_assoc in He. apply app_inj_len in He as [_ He]; [|rewrite !len_elements; lia].
        apply (Hno c b brest' Hp); [|done]. apply (covers_tail _ _ (chunk p0 x' p1 y' p2 z' p3)); [|done].
        rewrite len_chunk. lia.
    + split; [done|]. intros c b brest' Hp Hc He. destruct Hp as [|p0 x p1 y p2 z p3 c b Hp0 Hp1 Hp2 Hp3 Hp].
      { destruct Hc as [Hc _]. rewrite len_nil in Hc. lia. }
      rewrite <- app_assoc in He. unfold elements in He.
      apply chunk_inj in He as ([= -> ->] & -> & -> & -> & -> & -> & -> & _); [|rewrite ?len_cons; lia..].
      apply Hbad. pose proof (high_six_bits x y z). tauto.
Qed.

End Rounds.

(** ** The encoder produces the layout *)

Lemma drop_zeros n k : drop n (zeros k) = zeros (k - n).
Proof. apply drop_replicate. Qed.

Lemma zeros_app n k : zeros (n + k) = zeros n ++ zeros k.
Proof. apply replicate_add. Qed.

Lemma copy_to_front n d :
  len d <= Z.of_nat n -> copy_from_slice (zeros n) 0 d = Some (d ++ zeros (n - length d)).
Proof.
  intros Hd. unfold copy_from_slice. rewrite decide_True by (rewrite len_zeros; lia).
  rewrite drop_zeros. change (take (Z.to_nat 0) (zeros n)) with (@nil byte).
  replace (Z.to_nat (0 + len d)) with (length d) by (unfold len; lia). done.
Qed.

Lemma zero_padded_front d k a b :
  d ++ zeros k = a ++ b -> len d <= len a -> exists k', d ++ zeros k' = a.
Proof.
  intros He Hl. apply app_eq_inv in He as [(l & -> & ->)|(l & -> & Hz)].
  - rewrite len_app in Hl. pose proof (len_nonneg l). rewrite (len_zero_nil l) by lia.
    exists 0%nat. change (zeros 0) with (@nil byte). by rewrite !app_nil_r.
  - exists (length l `min` k)%nat. f_equal. apply (f_equal (take (length l))) in Hz.
    rewrite take_app_length in Hz. rewrite <- Hz at 2. symmetry. apply take_replicate.
Qed.

(** The header and the first payload, written into the blob of zeros. *)
Lemma write_header (data p0 rest : bytes) n j :
  len p0 = 27 -> n = (2 + (3 + (27 + j)))%nat -> len data <= BLOB_MAX_DATA_SIZE ->
  (out ← copy_from_slice (zeros n) VERSIONED_HASH_VERSION_KZG [BLOB_ENCODING_VERSION];
   out ← copy_from_slice out 2 (drop 1 (to_be_bytes 4 (wrap 32 (len data))));
   p0 ← slice (p0 ++ rest) 0 27;
   copy_from_slice out 5 p0) = Some ((Byte.x00 :: header data ++ p0) ++ zeros j).
Proof.
  intros Hp -> Hd. pose proof (len_nonneg data). unfold BLOB_MAX_DATA_SIZE in Hd.
  rewrite wrap_small, (to_be_bytes_pad 1 3) by lia.
  change (drop 1 (zeros 1 ++ to_be_bytes 3 (len data))) with (to_be_bytes 3 (len data)).
  pose proof (len_to_be_bytes 3 (len data)).
  rewrite (zeros_app 2), (zeros_app 3), (zeros_app 27).
  replace (zeros 2 ++ zeros 3 ++ zeros 27 ++ zeros j) with
    (concat [[Byte.x00]; [Byte.x00]; zeros 3; zeros 27; zeros j]) by (cbn [concat]; by rewrite app_nil_r).
  pose proof (len_zeros 3). pose proof (len_zeros 27). change VERSIONED_HASH_VERSION_KZG with 1.
  write_field 1%nat. write_field 2%nat.
  eapply option_step; [apply (slice_spec _ [] p0 rest); [done|done|lia]|].
  erewrite (copy_concat _ 3); [|reflexivity|field_len..].
  cbn [insert list_insert concat]. rewrite app_nil_r. unfold header. cbn [app]. by rewrite <- app_assoc.
Qed.

(** The body of the encoder, for buffers of the sizes [m] and [j] and [n]
    rounds. *)
Lemma encode_body_layout data m j n :
  len data <= BLOB_MAX_DATA_SIZE -> Z.of_nat m = BLOB_MAX_DATA_SIZE -> Z.of_nat j = BYTES_PER_BLOB ->
  Z.of_nat n = 1023 ->
  exists blob,
    (input ← copy_from_slice (zeros m) 0 data;
     out ← copy_from_slice (zeros j) VERSIONED_HASH_VERSION_KZG [BLOB_ENCODING_VERSION];
     out ← copy_from_slice out 2 (drop 1 (to_be_bytes 4 (wrap 32 (len data))));
     p0 ← slice input 0 27;
     out ← copy_from_slice out 5 p0;
     out ← BlobEncoder.encode_tail input out 0 27;
     BlobEncoder.encode_rounds n (len data) input out 128 123) = Some blob /\ layout data blob.
Proof.
  intros Hd Hm Hj Hn. pose proof Hd as Hd'. rewrite copy_to_front by lia.
  unfold BLOB_MAX_DATA_SIZE, BYTES_PER_BLOB in *. pose proof (len_nonneg data). cbn [mbind option_bind].
  set (k := (m - length data)%nat). assert (len (data ++ zeros k) = 130044) as Hin.
  { rewrite len_app, len_zeros. unfold len in *. lia. }
  destruct (split_front (data ++ zeros k) 123 129921) as (f & r & Hfr & Hf & Hr); [lia..|].
  destruct (split_chunk f 27) as (p0 & x & p1 & y & p2 & z & p3 & -> & H0 & H1 & H2 & H3); [lia..|].
  rewrite Hfr, chunk_app. pose proof (write_header data p0 (chunk [] x p1 y p2 z p3 ++ r) j (j - 32)%nat H0
    ltac:(lia) Hd') as Hw.
  destruct (copy_from_slice (zeros j) _ _) as [o1|]; [|done]. cbn [mbind option_bind] in Hw |- *.
  destruct (copy_from_slice o1 _ _) as [o2|]; [|done]. cbn [mbind option_bind] in Hw |- *.
  destruct (slice _ 0 27) as [p0'|]; [|done]. cbn [mbind option_bind] in Hw |- *. rewrite Hw. clear Hw o1 o2 p0'.
  cbn [mbind option_bind].
  destruct (split_front (zeros (j - 32)) 96 130944) as (ol & ro & Hz & Hol & Hro); [lia|lia|rewrite len_zeros; lia|].
  destruct (split_chunk ol 0) as (a & a1 & q1 & a2 & q2 & a3 & q3 & -> & Ha & Hq1 & Hq2 & Hq3); [lia..|].
  apply len_zero_nil in Ha as ->. assert (ro = zeros (length ro)) as Hzr.
  { apply (f_equal (drop 96)) in Hz. rewrite drop_zeros, drop_app_length' in Hz
      by (pose proof (len_chunk [] a1 q1 a2 q2 a3 q3); unfold len in *; lia).
    rewrite <- Hz. by rewrite length_zeros. }
  rewrite Hz, <- (chunk_app _ a1). change (chunk _ a1 q1 a2 q2 a3 q3 ++ ro)
    with ([] ++ chunk (Byte.x00 :: header data ++ p0) a1 q1 a2 q2 a3 q3 ++ ro).
  assert (len (header data) = 4) as Hh by (unfold header; rewrite len_cons, len_to_be_bytes; lia).
  rewrite (encode_tail_spec p0 x p1 y p2 z p3 r) by (rewrite ?len_nil, ?len_app; lia).
  cbn [mbind option_bind]. rewrite <- (chunk_app p0), app_nil_l.
  destruct (encode_rounds_spec n (len data) (chunk p0 x p1 y p2 z p3) r (elements (header data ++ p0) x p1 y p2 z p3)
    ro 123 128) as (c & b & r' & o' & -> & -> & Hp & Hc & ->);
    [rewrite len_chunk; lia|rewrite len_elements, len_app; lia|lia..|].
  destruct Hc as [Hc1 Hc2]. eexists. split; [done|].
  rewrite app_assoc in Hfr. apply zero_padded_front in Hfr as [k' Hk]; [|rewrite len_app, len_chunk; lia].
  rewrite Hzr, drop_zeros. eapply layout_intro; [done..| | done |].
  - by split.
  - apply packed_len in Hp. unfold BYTES_PER_BLOB, len in *. rewrite length_app in Hr. lia.
Qed.

Lemma blob_layout data :
  len data <= BLOB_MAX_DATA_SIZE -> exists blob, BlobEncoder.encode data = Ok blob /\ layout data blob.
Proof.
  intros Hd. destruct (encode_body_layout data (Z.to_nat BLOB_MAX_DATA_SIZE) (Z.to_nat BYTES_PER_BLOB)
    (pred BLOB_ENCODING_ROUNDS)) as (blob & He & Hl);
    [done|apply Z2Nat.id; by vm_compute|apply Z2Nat.id; by vm_compute|by vm_compute|].
  exists blob. split; [|done]. unfold BlobEncoder.encode. rewrite decide_False by lia. cbn zeta. by rewrite He.
Qed.

(** ** The decoder accepts exactly the layout *)

Lemma packed_inv c b :
  packed c b -> c = [] /\ b = [] \/
  exists p0 x p1 y p2 z p3 c' b', c = chunk p0 x p1 y p2 z p3 ++ c' /\ b = elements p0 x p1 y p2 z p3 ++ b' /\
    len p0 = 31 /\ len p1 = 31 /\ len p2 = 31 /\ len p3 = 31 /\ packed c' b'.
Proof. destruct 1; [by left|right]. repeat eexists; done. Qed.

Lemma packed_inj c b : packed c b -> forall c', packed c' b -> c = c'.
Proof.
  induction 1 as [|p0 x p1 y p2 z p3 c b H0 H1 H2 H3 Hp IH]; intros c' Hp'.
  - apply packed_len in Hp'. rewrite len_nil in Hp'. symmetry. apply len_zero_nil. lia.
  - apply packed_inv in Hp' as [[_ Hnil]|(q0 & x' & q1 & y' & q2 & z' & q3 & d & e & -> & He & G0 & G1 & G2 & G3 & Hq)];
      [done|]. unfold elements in He.
    apply chunk_inj in He as ([= Hx ->] & Hxy & -> & Hz & -> & Hyz & -> & ->); [|rewrite ?len_cons; lia..].
    rewrite (IH d Hq). destruct (reassemble_high x y z) as (Ex & Ey & Ez), (reassemble_high x' y' z') as (Ex' & Ey' & Ez').
    rewrite Hx, Hxy, Ex' in Ex. rewrite Hxy, Hyz, Ey' in Ey. rewrite Hz, Hyz, Ez' in Ez. by subst.
Qed.

Lemma packed_rounds c b : packed c b -> exists r, len c = 127 * r /\ len b = 128 * r.
Proof.
  induction 1 as [|p0 x p1 y p2 z p3 c b H0 H1 H2 H3 Hp (r & Hc & Hb)]; [by exists 0|].
  exists (r + 1). rewrite !len_app, len_chunk, len_elements. lia.
Qed.

(** The rounds of a payload are determined by its length. *)
Lemma packed_unique data_len start c b r c' b' r' :
  packed c b -> packed c' b' -> covers data_len start c -> covers data_len start c' ->
  b ++ r = b' ++ r' -> c = c' /\ b = b' /\ r = r'.
Proof.
  intros Hp Hp' [H1 H2] [H1' H2'] He.
  destruct (packed_rounds _ _ Hp) as (n & Hc & Hb), (packed_rounds _ _ Hp') as (n' & Hc' & Hb').
  apply app_inj_len in He as [-> ->].
  - split; [|done]. exact (packed_inj _ _ Hp _ Hp').
  - pose proof (len_nonneg c). pose proof (len_nonneg c').
    destruct H2 as [->|], H2' as [->|]; rewrite ?len_nil in *; lia.
Qed.

Lemma zeros_iff (l : bytes) : ~ Exists (fun b => b <> Byte.x00) l <-> l = zeros (length l).
Proof.
  split.
  - induction l as [|b l IH]; intros Hn; [done|]. cbn. destruct (decide (b = Byte.x00)) as [->|Hb].
    + f_equal. apply IH. intros He. by apply Hn, Exists_cons_tl.
    + by destruct Hn; left.
  - intros ->. generalize (length l). intros n He. apply Exists_exists in He as (b & Hb & Hne).
    unfold zeros in Hb. apply elem_of_replicate in Hb as [-> _]. done.
Qed.

(** The first byte without its two highest bits, which the decoder ignores. *)
Definition canonical (blob : bytes) : bytes :=
  match blob with
  | b :: rest => u8_and b 63 :: rest
  | [] => []
  end.

Lemma layout_inv d blob :
  layout d blob -> exists p0 x p1 y p2 z p3 c b k j,
    blob = elements (header d ++ p0) x p1 y p2 z p3 ++ b ++ zeros j /\
    len p0 = 27 /\ len p1 = 31 /\ len p2 = 31 /\ len p3 = 31 /\ packed c b /\
    covers (len d) 123 c /\ d ++ zeros k = chunk p0 x p1 y p2 z p3 ++ c /\
    128 + len b + Z.of_nat j = BYTES_PER_BLOB.
Proof. destruct 1 as [p0 x p1 y p2 z p3 c b k j]. by exists p0, x, p1, y, p2, z, p3, c, b, k, j. Qed.

(** The payload [d] is in the elements with these fields. *)
Definition holds (d : bytes) (e0 : byte) (p0 : bytes) (e1 : byte) (q1 : bytes) (e2 : byte) (q2 : bytes) (e3 : byte)
    (q3 brest : bytes) : Prop :=
  six_bits e1 /\ six_bits e2 /\ six_bits e3 /\
  exists c b k j, packed c b /\ covers (len d) 123 c /\ brest = b ++ zeros j /\
    d ++ zeros k = chunk p0 (BlobData.reassembled_x e0 e1) q1 (BlobData.reassembled_y e1 e3) q2
      (BlobData.reassembled_z e2 e3) q3 ++ c.

(** What the layout says of a blob that is given by its fields. *)
Lemma layout_fields d e0 v l p0 e1 q1 e2 q2 e3 q3 brest :
  len l = 3 -> len p0 = 27 -> len q1 = 31 -> len q2 = 31 -> len q3 = 31 -> len brest = BYTES_PER_BLOB - 128 ->
  layout d (chunk (u8_and e0 63 :: v :: l ++ p0) e1 q1 e2 q2 e3 q3 ++ brest) <->
  v = BLOB_ENCODING_VERSION /\ from_be_bytes (Byte.x00 :: l) = len d /\ holds d e0 p0 e1 q1 e2 q2 e3 q3 brest.
Proof.
  intros Hl H0 H1 H2 H3 Hb. split.
  - intros Hlay. apply layout_inv in Hlay as (p0' & x & p1 & y & p2 & z & p3 & c & b & k & j & He & G0 & G1 & G2 & G3 &
      Hp & Hc & Hd & Hj).
    unfold elements, header in He. cbn [app] in He. remember (to_be_bytes 3 (len d)) as be eqn:Hbe.
    assert (len be = 3) as Hlbe by (subst be; apply len_to_be_bytes). apply chunk_inj in He as ([= Hx -> Hlp] & -> & -> & -> & -> & -> & -> & ->);
      [|rewrite ?len_cons, ?len_app; lia|lia..].
    destruct (packed_rounds _ _ Hp) as (n & Hcn & Hbn). destruct Hc as [Hc1 Hc2].
    unfold BYTES_PER_BLOB in *. pose proof (len_nonneg d).
    apply app_inj_len in Hlp as [-> ->]; [|lia]. subst be.
    unfold holds. split_and!; [done| | | | |].
    + change (Byte.x00 :: to_be_bytes 3 (len d)) with (zeros 1 ++ to_be_bytes 3 (len d)).
      rewrite <- (to_be_bytes_pad 1 3), from_to_be_bytes by lia. done.
    + apply (high_six_bits x y z).
    + apply (high_six_bits x y z).
    + apply (high_six_bits x y z).
    + exists c, b, k, j. split_and!; [done|by split|done|].
      assert (BlobData.reassembled_x e0 (BlobEncoder.high1 x y) = x) as ->.
      { pose proof (reassemble_high x y z) as [Ex _]. rewrite <- Ex at 2. rewrite <- Hx.
        unfold BlobData.reassembled_x. f_equal. apply byte.unsigned_inj.
        destruct (u8_arith (u8_and e0 63)) as [-> _], (u8_arith e0) as [-> _]. by rewrite Z.mod_mod. }
      destruct (reassemble_high x y z) as (_ & -> & ->). done.
  - intros (-> & Hlen & S1 & S2 & S3 & c & b & k & j & Hp & Hc & -> & Hd).
    rewrite <- elements_reassembled by done.
    replace (BLOB_ENCODING_VERSION :: l ++ p0) with (header d ++ p0).
    + eapply layout_intro; [done..|]. rewrite len_app, len_zeros in Hb. lia.
    + unfold header. cbn [app]. do 2 f_equal. rewrite <- Hlen.
      change (Byte.x00 :: l) with (zeros 1 ++ l). rewrite from_be_bytes_app, from_be_bytes_zeros.
      rewrite Z.mul_0_l, Z.add_0_l. replace 3%nat with (length l) by (unfold len in Hl; lia).
      apply to_from_be_bytes.
Qed.

Section Decode.
Import BlobData.

Lemma finish_spec length bpre brest output input_pos :
  0 <= length <= len output -> len (bpre ++ brest) = BYTES_PER_BLOB -> input_pos = len bpre ->
  match finish length (bpre ++ brest) output input_pos with
  | Ok d => len d = length /\ (exists k, output = d ++ zeros k) /\ exists j, brest = zeros j
  | Err e => e = InvalidFieldElement /\
      ~ ((exists d k, len d = length /\ output = d ++ zeros k) /\ exists j, brest = zeros j)
  | Panic => False
  end.
Proof.
  intros Hl Hb ->. unfold finish. rewrite drop_len_app, take_ge by (rewrite len_app in Hb; unfold len in *; lia).
  assert (forall l : bytes, (exists j, l = zeros j) -> ~ Exists (fun b => b <> Byte.x00) l) as Hz.
  { intros l [j ->]. apply zeros_iff. by rewrite length_zeros. }
  destruct (decide _) as [He|He]; [|destruct (decide (Exists _ brest)) as [He'|He']].
  - split; [done|]. intros [(d & k & Hd & ->) _]. revert He. rewrite <- Hd, drop_len_app. apply Hz. by exists k.
  - split; [done|]. intros [_ Hr]. by apply Hz in He'.
  - rewrite decide_False by lia. apply zeros_iff in He, He'. split_and!; [| |by eexists].
    + unfold len in *. rewrite length_take. lia.
    + eexists. rewrite <- He. by rewrite take_drop.
Qed.
(** The body of the decoder, for [n] rounds and a buffer of [m] bytes. *)
Lemma decode_body_spec e0 v l p0 e1 q1 e2 q2 e3 q3 brest n m length :
  len l = 3 -> len p0 = 27 -> len q1 = 31 -> len q2 = 31 -> len q3 = 31 -> len brest = BYTES_PER_BLOB - 128 ->
  Z.of_nat n = 1023 -> Z.of_nat m = BLOB_MAX_DATA_SIZE -> 0 <= length <= BLOB_MAX_DATA_SIZE ->
  let blob := chunk (e0 :: v :: l ++ p0) e1 q1 e2 q2 e3 q3 ++ brest in
  match
    output ← decode_tail blob e0 28 32 (p0 ++ zeros (m - 27));
    '(output, input_pos) ← decode_rounds n length blob 123 128 output;
    finish length blob output input_pos
  with
  | Ok d => len d = length /\ holds d e0 p0 e1 q1 e2 q2 e3 q3 brest
  | Err e => e = InvalidFieldElement /\ forall d, len d = length -> ~ holds d e0 p0 e1 q1 e2 q2 e3 q3 brest
  | Panic => False
  end.
Proof.
  intros Hl H0 H1 H2 H3 Hb Hn Hm Hlen blob. unfold BYTES_PER_BLOB, BLOB_MAX_DATA_SIZE in *.
  destruct (split_front (zeros (m - 27)) 96 129921) as (o & ro & Hz & Ho & Hro); [lia|lia|rewrite len_zeros; lia|].
  assert (ro = zeros (List.length ro)) as Hzr.
  { apply (f_equal (drop 96)) in Hz. rewrite drop_zeros, drop_app_length' in Hz by (unfold len in *; lia).
    rewrite <- Hz. by rewrite length_zeros. }
  destruct (split_chunk o 0) as (a & ox & o1 & oy & o2 & oz & o3 & -> & Ha & Ho1 & Ho2 & Ho3); [lia..|].
  apply len_zero_nil in Ha as ->. rewrite Hz. subst blob. rewrite chunk_app.
  rewrite decode_tail_spec by (rewrite ?len_cons, ?len_app; lia).
  destruct (decide _) as [(S1 & S2 & S3)|Hbad]; cbn [mbind result_bind]; [|by split; [|unfold holds; tauto]].
  set (x := reassembled_x e0 e1). set (y := reassembled_y e1 e3). set (z := reassembled_z e2 e3).
  rewrite <- !chunk_app. set (first := chunk (e0 :: v :: l ++ p0) e1 q1 e2 q2 e3 q3).
  assert (len first = 128) as Hf by (unfold first; rewrite len_chunk, !len_cons, len_app; lia).
  assert (len (chunk p0 x q1 y q2 z q3) = 123) as Hc0 by (rewrite len_chunk; lia).
  pose proof (decode_rounds_spec n length first brest (chunk p0 x q1 y q2 z q3) ro 128 123 ltac:(lia) ltac:(lia)
    ltac:(lia) ltac:(lia) ltac:(lia)) as Hrounds.
  destruct (decode_rounds _ _ _ _ _ _) as [[output ip]|e|]; cbn [mbind result_bind]; [| |done].
  - destruct Hrounds as (c & b & brest' & -> & Hp & Hc & -> & ->). rewrite app_assoc. rewrite Hzr, drop_zeros.
    rewrite len_app in Hb. pose proof (packed_len _ _ Hp). destruct Hc as [Hc1 Hc2].
    pose proof (finish_spec length (first ++ b) brest' (chunk p0 x q1 y q2 z q3 ++ c ++
      zeros (List.length ro - List.length c)) (128 + len b)) as Hfin. rewrite !len_app in Hfin.
    pose proof (len_nonneg (zeros (List.length ro - List.length c))).
    specialize (Hfin ltac:(lia) ltac:(unfold BYTES_PER_BLOB; lia) ltac:(lia)).
    destruct (finish _ _ _ _) as [d|e|]; [| |done].
    + destruct Hfin as (Hd & [k Hk] & [j ->]). split; [done|]. split_and!; [done..|].
      exists c, b. rewrite app_assoc in Hk. symmetry in Hk. apply zero_padded_front in Hk as [k' Hk']; [|rewrite len_app; lia].
      exists k', j. split_and!; [done|rewrite Hd; by split|done|done].
    + destruct Hfin as [-> Hno]. split; [done|]. intros d Hd (_ & _ & _ & c' & b' & k & j & Hp' & Hc' & He & Hk).
      apply Hno. rewrite Hd in Hc'.
      destruct (packed_unique length 123 c b brest' c' b' (zeros j)) as (<- & <- & ->); [done..|by split|done|done|].
      split; [|by exists j]. exists d, (k + (List.length ro - List.length c))%nat. split; [done|].
      fold x y z in Hk. rewrite app_assoc, <- Hk, <- app_assoc. by rewrite zeros_app.
  - destruct Hrounds as [-> Hno]. split; [done|]. intros d Hd (_ & _ & _ & c & b & k & j & Hp & Hc & He & Hk).
    rewrite Hd in Hc. exact (Hno c b (zeros j) Hp Hc He).
Qed.

End Decode.

(** A blob in terms of the fields of its first four elements. *)
Lemma blob_fields blob :
  len blob = BYTES_PER_BLOB -> exists e0 v l p0 e1 q1 e2 q2 e3 q3 brest,
    blob = chunk (e0 :: v :: l ++ p0) e1 q1 e2 q2 e3 q3 ++ brest /\
    len l = 3 /\ len p0 = 27 /\ len q1 = 31 /\ len q2 = 31 /\ len q3 = 31 /\ len brest = BYTES_PER_BLOB - 128.
Proof.
  unfold BYTES_PER_BLOB. intros Hb. destruct (split_front blob 128 (131072 - 128)) as (f & r & -> & Hf & Hr); [lia..|].
  destruct (split_chunk f 32) as (a & e1 & q1 & e2 & q2 & e3 & q3 & -> & Ha & H1 & H2 & H3); [lia..|].
  destruct a as [|e0 [|v a]]; [done|by rewrite len_cons, len_nil in Ha|]. rewrite !len_cons in Ha.
  destruct (split_front a 3 27) as (l & p0 & -> & Hl & H0); [lia..|].
  exists e0, v, l, p0, e1, q1, e2, q2, e3, q3, r. split_and!; done.
Qed.

Lemma layout_len d blob : layout d blob -> len d <= BLOB_MAX_DATA_SIZE /\ len blob = BYTES_PER_BLOB.
Proof.
  intros (p0 & x & p1 & y & p2 & z & p3 & c & b & k & j & -> & H0 & H1 & H2 & H3 & Hp & [Hc _] & Hd & Hj)%layout_inv.
  destruct (packed_rounds _ _ Hp) as (r & Hrc & Hrb). unfold BLOB_MAX_DATA_SIZE, BYTES_PER_BLOB, header in *.
  rewrite !len_app, len_elements, len_app, len_cons, len_to_be_bytes, len_zeros. lia.
Qed.

Lemma decode_spec blob c :
  len blob = BYTES_PER_BLOB ->
  match BlobData.decode (BlobData.mk (Some blob) c) with
  | Ok d => layout d (canonical blob)
  | Err e => e <> MissingData /\ forall d, ~ layout d (canonical blob)
  | Panic => False
  end.
Proof.
  intros Hb. destruct (blob_fields blob Hb) as (e0 & v & l & p0 & e1 & q1 & e2 & q2 & e3 & q3 & brest & -> & Hl & H0 &
    H1 & H2 & H3 & Hr).
  change (canonical _) with (chunk (u8_and e0 63 :: v :: l ++ p0) e1 q1 e2 q2 e3 q3 ++ brest).
  unfold BlobData.decode. cbn [ok_or BlobData.data mbind result_bind].
  pose proof (decode_body_spec e0 v l p0 e1 q1 e2 q2 e3 q3 brest (pred BLOB_ENCODING_ROUNDS)
    (Z.to_nat BLOB_MAX_DATA_SIZE) (from_be_bytes (Byte.x00 :: l)) Hl H0 H1 H2 H3 Hr ltac:(by vm_compute)
    ltac:(apply Z2Nat.id; by vm_compute)) as Hbody. cbn zeta in Hbody.
  set (blob := chunk (e0 :: v :: l ++ p0) e1 q1 e2 q2 e3 q3 ++ brest) in *.
  assert (blob = concat [[e0]; [v]; l; p0; chunk [] e1 q1 e2 q2 e3 q3 ++ brest]) as Hblob.
  { unfold blob. rewrite chunk_app. cbn [concat app]. by rewrite app_nil_r, <- app_assoc. }
  assert (index blob VERSIONED_HASH_VERSION_KZG = Some v /\ index blob 0 = Some e0 /\
          slice blob 2 5 = Some l /\ slice blob 5 32 = Some p0) as (-> & -> & -> & ->).
  { rewrite Hblob. split_and!; [eapply (index_concat _ 1)|eapply (index_concat _ 0)|eapply (slice_concat _ 2)
      |eapply (slice_concat _ 3)]; first [reflexivity|field_len]. }
  cbn [or_panic mbind result_bind].
  pose proof (fun d => layout_fields d e0 v l p0 e1 q1 e2 q2 e3 q3 brest Hl H0 H1 H2 H3 Hr) as Hiff.
  destruct (decide (v <> _)) as [Hv|Hv]; [by split; [|intros d [? _]%Hiff]|]. apply dec_stable in Hv.
  destruct (decide (_ < _)) as [Hlt|Hle].
  { split; [done|]. intros d Hd. pose proof (layout_len _ _ Hd). apply Hiff in Hd as (_ & Hd & _). lia. }
  pose proof (from_be_bytes_bound (Byte.x00 :: l)) as [Hpos _]. specialize (Hbody ltac:(lia)).
  rewrite copy_to_front by (rewrite Z2Nat.id; [unfold BLOB_MAX_DATA_SIZE; lia|by vm_compute]).
  cbn [or_panic mbind result_bind]. replace (length p0) with 27%nat by (unfold len in H0; lia).
  revert Hbody. destruct (_ ≫= _) as [d|e|]; [| |done].
  - intros [Hd Hh]. apply Hiff. auto.
  - intros [-> Hno]. split; [done|]. intros d (_ & Hd & Hh)%Hiff. exact (Hno d (eq_sym Hd) Hh).
Qed.

Lemma header_inj d d' :
  len d <= BLOB_MAX_DATA_SIZE -> len d' <= BLOB_MAX_DATA_SIZE -> header d = header d' -> len d = len d'.
Proof.
  unfold BLOB_MAX_DATA_SIZE, header. intros H1 H2 He. pose proof (len_nonneg d). pose proof (len_nonneg d').
  apply (f_equal (drop 1)) in He. change (to_be_bytes 3 (len d) = to_be_bytes 3 (len d')) in He.
  rewrite <- (from_to_be_bytes 3 (len d)), <- (from_to_be_bytes 3 (len d')) by lia. by rewrite He.
Qed.

Lemma layout_inj d d' blob : layout d blob -> layout d' blob -> d = d'.
Proof.
  intros Hd Hd'. pose proof (proj1 (layout_len _ _ Hd)) as Hl. pose proof (proj1 (layout_len _ _ Hd')) as Hl'.
  apply layout_inv in Hd as (p0 & x & p1 & y & p2 & z & p3 & c & b & k & j & -> & H0 & H1 & H2 & H3 & Hp & Hc & Hd & Hj).
  apply layout_inv in Hd' as (q0 & x' & q1 & y' & q2 & z' & q3 & c' & b' & k' & j' & He & G0 & G1 & G2 & G3 & Hp' & Hc' &
    Hd' & Hj').
  assert (len (header d) = len (header d')) as Hh by (unfold header; by rewrite !len_cons, !len_to_be_bytes).
  unfold elements in He.
  apply chunk_inj in He as (Hhp & Hxy & -> & Hz & -> & Hyz & -> & Hb); [|rewrite ?len_cons, ?len_app; lia..].
  pose proof (f_equal head Hhp) as Hx. injection Hx as Hx. apply (f_equal (drop 1)) in Hhp.
  change (header d ++ p0 = header d' ++ q0) in Hhp. apply app_inj_len in Hhp as [Hinj ->]; [|done].
  apply header_inj in Hinj; [|done..].
  destruct (reassemble_high x y z) as (Ex & Ey & Ez), (reassemble_high x' y' z') as (Ex' & Ey' & Ez').
  rewrite Hx, Hxy, Ex' in Ex. rewrite Hxy, Hyz, Ey' in Ey. rewrite Hz, Hyz, Ez' in Ez. subst x' y' z'.
  rewrite <- Hinj in Hc'. destruct (packed_unique _ _ _ _ _ _ _ _ Hp Hp' Hc Hc' Hb) as (<- & _).
  rewrite <- Hd' in Hd. by apply app_inj_len in Hd as [-> _].
Qed.

Lemma packed_fun c b : packed c b -> forall b', packed c b' -> b = b'.
Proof.
  induction 1 as [|p0 x p1 y p2 z p3 c b H0 H1 H2 H3 Hp IH]; intros b' Hp'.
  - apply packed_len in Hp'. rewrite len_nil in Hp'. symmetry. apply len_zero_nil. lia.
  - apply packed_inv in Hp' as [[Hnil _]|(q0 & x' & q1 & y' & q2 & z' & q3 & d & e & He & -> & G0 & G1 & G2 & G3 & Hq)].
    { apply (f_equal len) in Hnil. rewrite len_app, len_chunk, len_nil in Hnil. pose proof (len_nonneg c). lia. }
    apply chunk_inj in He as (-> & -> & -> & -> & -> & -> & -> & ->); [|lia..]. by rewrite (IH e Hq).
Qed.

Lemma layout_fun d blob blob' : layout d blob -> layout d blob' -> blob = blob'.
Proof.
  intros (p0 & x & p1 & y & p2 & z & p3 & c & b & k & j & -> & H0 & H1 & H2 & H3 & Hp & Hc & Hd & Hj)%layout_inv.
  intros (q0 & x' & q1 & y' & q2 & z' & q3 & c' & b' & k' & j' & -> & G0 & G1 & G2 & G3 & Hp' & Hc' & Hd' & Hj')%layout_inv.
  destruct (packed_rounds _ _ Hp) as (r & Hrc & Hrb), (packed_rounds _ _ Hp') as (r' & Hrc' & Hrb').
  assert (r = r') as <-.
  { destruct Hc as [Hc1 Hc2], Hc' as [Hc1' Hc2']. pose proof (len_nonneg c). pose proof (len_nonneg c').
    destruct Hc2 as [->|], Hc2' as [->|]; rewrite ?len_nil in *; lia. }
  assert (k = k') as <-.
  { apply (f_equal len) in Hd, Hd'. rewrite !len_app, len_chunk, len_zeros in Hd, Hd'. lia. }
  rewrite Hd in Hd'. apply chunk_inj in Hd' as (-> & -> & -> & -> & -> & -> & -> & ->); [|lia..].
  rewrite (packed_fun _ _ Hp _ Hp'). by replace j' with j by lia.
Qed.

Lemma layout_canonical d blob : layout d blob -> canonical blob = blob.
Proof.
  intros (p0 & x & p1 & y & p2 & z & p3 & c & b & k & j & -> & _)%layout_inv. cbn. f_equal.
  apply six_bits_and, (high_six_bits x y z).
Qed.

(** ** Properties *)

(** The two decoders make the same checks in the same order. *)
Definition same_error (e : BlobDecodeError) : BlobDecodingError :=
  match e with
  | DecodeInvalidFieldElement _ | NonZeroPadding _ => InvalidFieldElement
  | DecodeInvalidEncodingVersion _ => InvalidEncodingVersion
  | DecodeInvalidLength _ => InvalidLength
  end.

Lemma result_map_bind {E F A B} (f : E -> F) (m : result E A) (k : A -> result E B) :
  map_err f (m ≫= k) = map_err f m ≫= fun a => map_err f (k a).
Proof. by destruct m. Qed.

Lemma map_err_or_panic {E F A} (f : E -> F) (o : option A) : map_err f (or_panic o) = or_panic o.
Proof. by destruct o. Qed.

Lemma same_field_element data op ip output :
  map_err same_error (BlobDecoder.decode_field_element data op ip output) =
  BlobData.decode_field_element data op ip output.
Proof.
  unfold BlobDecoder.decode_field_element, BlobData.decode_field_element.
  destruct (index data ip) as [b|]; [|done]. cbn [or_panic mbind result_bind]. case_decide; [done|].
  destruct (slice _ _ _); [|done]. cbn [or_panic mbind result_bind]. by destruct (copy_from_slice _ _ _).
Qed.

Lemma same_tail data e0 op ip output :
  map_err same_error (BlobDecoder.decode_tail data e0 op ip output) = BlobData.decode_tail data e0 op ip output.
Proof.
  unfold BlobDecoder.decode_tail, BlobData.decode_tail. rewrite result_map_bind, same_field_element.
  destruct (BlobData.decode_field_element _ _ _ _) as [[e1 o1]|e|]; [|done..]. cbn [mbind result_bind].
  rewrite result_map_bind, same_field_element.
  destruct (BlobData.decode_field_element _ _ _ o1) as [[e2 o2]|e|]; [|done..]. cbn [mbind result_bind].
  rewrite result_map_bind, same_field_element.
  destruct (BlobData.decode_field_element _ _ _ o2) as [[e3 o3]|e|]; [|done..]. apply map_err_or_panic.
Qed.

Lemma same_rounds n length data : forall op ip output,
  map_err same_error (BlobDecoder.decode_rounds n length data op ip output) =
  BlobData.decode_rounds n length data op ip output.
Proof.
  induction n as [|n IH]; intros op ip output; [done|]. cbn. case_decide; [done|].
  rewrite result_map_bind, same_field_element.
  destruct (BlobData.decode_field_element _ _ _ _) as [[e0 o0]|e|]; [|done..]. cbn [mbind result_bind].
  rewrite result_map_bind, same_tail. destruct (BlobData.decode_tail _ _ _ _ _) as [o1|e|]; [|done..].
  apply IH.
Qed.

Lemma nonzero_from_spec i l :
  match BlobDecoder.nonzero_from i l with
  | Some _ => Exists (fun b => b <> Byte.x00) l
  | None => ~ Exists (fun b => b <> Byte.x00) l
  end.
Proof.
  revert i. induction l as [|b l IH]; intros i; cbn; [by intros ?%Exists_nil|].
  case_decide; [by left|]. specialize (IH (i + 1)).
  destruct (BlobDecoder.nonzero_from _ _); [by right|]. by intros [|]%Exists_cons.
Qed.

Lemma encoded_decodes (data : bytes) :
  len data <= BLOB_MAX_DATA_SIZE ->
  exists blob, BlobEncoder.encode data = Ok blob /\ len blob = BYTES_PER_BLOB /\
    forall c, BlobData.decode (BlobData.mk (Some blob) c) = Ok data.
Proof.
  intros Hle. destruct (blob_layout data) as (blob & -> & Hl); [lia|]. pose proof (proj2 (layout_len _ _ Hl)) as Hb.
  exists blob. split_and!; [done|done|]. intros c. pose proof (decode_spec blob c Hb) as Hd. rewrite (layout_canonical _ _ Hl) in Hd.
  destruct (BlobData.decode _) as [d|e|]; [by rewrite (layout_inj _ _ _ Hd Hl)|by destruct (proj2 Hd data)|done].
Qed.

(** C26: a payload of up to [BLOB_MAX_DATA_SIZE] bytes is encoded into a blob of
    the right size, and the decoder of derivation recovers it; a larger one is
    refused. *)
Theorem blob_round_trip (data : bytes) c :
  match BlobEncoder.encode data with
  | Ok blob => len data <= BLOB_MAX_DATA_SIZE /\ len blob = BYTES_PER_BLOB /\
      BlobData.decode (BlobData.mk (Some blob) c) = Ok data
  | Err e => BLOB_MAX_DATA_SIZE < len data /\ e = DataTooLarge (len data)
  | Panic => False
  end.
Proof.
  destruct (decide (BLOB_MAX_DATA_SIZE < len data)) as [Hgt|Hle].
  - unfold BlobEncoder.encode. by rewrite decide_True.
  - destruct (encoded_decodes data) as (blob & -> & Hb & Hd); [lia|]. split_and!; [lia|done|apply Hd].
Qed.

(** C29: derivation accepts a blob exactly if it is the encoding of a payload, up
    to the two highest bits of its first byte, which are ignored; it never
    panics on a blob, and reports the payload it accepts. *)
Theorem blob_accepted_canonical (blob : bytes) c :
  len blob = BYTES_PER_BLOB ->
  match BlobData.decode (BlobData.mk (Some blob) c) with
  | Ok data => BlobEncoder.encode data = Ok (canonical blob)
  | Err e => e <> MissingData /\ forall data, BlobEncoder.encode data <> Ok (canonical blob)
  | Panic => False
  end.
Proof.
  intros Hb. pose proof (decode_spec blob c Hb) as Hd.
  assert (forall data, BlobEncoder.encode data = Ok (canonical blob) -> layout data (canonical blob)) as Henc.
  { intros data He. destruct (decide (BLOB_MAX_DATA_SIZE < len data)).
    - unfold BlobEncoder.encode in He. by rewrite decide_True in He.
    - destruct (blob_layout data) as (b & He' & Hl); [lia|]. rewrite He' in He. by injection He as <-. }
  destruct (BlobData.decode _) as [d|e|]; [| |done].
  2:{ split; [apply Hd|]. intros data He. exact (proj2 Hd data (Henc data He)). }
  destruct (blob_layout d) as (b & He & Hl); [apply (layout_len _ _ Hd)|]. rewrite He. f_equal.
  exact (layout_fun _ _ _ Hl Hd).
Qed.

(** The decoder the batcher uses to check its own blobs is the decoder of
    derivation: it accepts the same blobs with the same payload, and refuses the
    others for the same reason. *)
Theorem blob_decoders_agree (blob : bytes) c :
  len blob = BYTES_PER_BLOB ->
  map_err same_error (BlobDecoder.decode blob) = BlobData.decode (BlobData.mk (Some blob) c).
Proof.
  intros Hb. unfold BlobDecoder.decode, BlobData.decode. cbn [ok_or BlobData.data mbind result_bind].
  destruct (index blob VERSIONED_HASH_VERSION_KZG) as [v|]; [|done]. cbn [or_panic mbind result_bind].
  change BLOB_ENCODING_VERSION with Byte.x00. case_decide; [done|].
  destruct (slice blob 2 5) as [l|]; [|done]. cbn [or_panic mbind result_bind]. case_decide; [done|].
  destruct (slice blob 5 32) as [p0|]; [|done]. cbn [or_panic mbind result_bind].
  destruct (copy_from_slice _ _ _) as [o0|]; [|done]. cbn [or_panic mbind result_bind].
  destruct (index blob 0) as [e0|]; [|done]. cbn [or_panic mbind result_bind].
  rewrite result_map_bind, same_tail. destruct (BlobData.decode_tail _ _ _ _ _) as [o1|e|]; [|done..].
  cbn [mbind result_bind]. rewrite result_map_bind, same_rounds.
  destruct (BlobData.decode_rounds _ _ _ _ _ _) as [[o2 ip]|e|]; [|done..]. cbn [mbind result_bind].
  unfold BlobData.finish. rewrite (decide_False (P := len blob < _)) by lia.
  rewrite (take_ge (drop (Z.to_nat ip) blob)) by (rewrite length_drop; unfold len in Hb; lia).
  pose proof (nonzero_from_spec (from_be_bytes (Byte.x00 :: l)) (drop (Z.to_nat (from_be_bytes (Byte.x00 :: l))) o2)) as Ho.
  pose proof (nonzero_from_spec ip (drop (Z.to_nat ip) blob)) as Hi.
  destruct (BlobDecoder.nonzero_from _ (drop _ o2)); [by rewrite decide_True|]. rewrite decide_False by done.
  destruct (BlobDecoder.nonzero_from _ (drop _ blob)); [by rewrite decide_True|]. by rewrite decide_False.
Qed.

(** The blob of zeros, which is the encoding of the empty payload. *)
Lemma blob_accepted_canonical_witness :
  match BlobData.decode (BlobData.mk (Some (zeros (Z.to_nat BYTES_PER_BLOB))) None) with
  | Ok data => BlobEncoder.encode data = Ok (canonical (zeros (Z.to_nat BYTES_PER_BLOB)))
  | Err e => e <> MissingData /\
      forall data, BlobEncoder.encode data <> Ok (canonical (zeros (Z.to_nat BYTES_PER_BLOB)))
  | Panic => False
  end.
Proof.
  apply (blob_accepted_canonical (zeros (Z.to_nat BYTES_PER_BLOB)) None).
  rewrite len_zeros. by apply Z2Nat.id.
Defined.

Lemma blob_decoders_agree_witness :
  map_err same_error (BlobDecoder.decode (zeros (Z.to_nat BYTES_PER_BLOB))) =
  BlobData.decode (BlobData.mk (Some (zeros (Z.to_nat BYTES_PER_BLOB))) None).
Proof.
  apply (blob_decoders_agree (zeros (Z.to_nat BYTES_PER_BLOB)) None).
  rewrite len_zeros. by apply Z2Nat.id.
Defined.

