(* ===== verification/FastLz.v ===== *)
(** * Compressed size estimate

    Models [src/crates/common/flz/src/flz.rs]: the length of the FastLZ
    compression of a transaction, and the estimates of its size and data gas on
    L1 that Fjord derives from it.  The batcher measures its backlog with them. *)

From S2P Require Import Prelude.

Definition ZERO_BYTE_COST : Z := 4.
Definition NON_ZERO_BYTE_COST : Z := 16.
Definition L1_COST_FASTLZ_COEF : Z := 836500.
Definition L1_COST_INTERCEPT : Z := 42585600.
Definition MIN_TX_SIZE_SCALED : Z := 100 * 1000000.

Definition u32_add (a b : Z) : Z := wrap 32 (a + b).
Definition u32_sub (a b : Z) : Z := wrap 32 (a - b).
Definition u32_mul (a b : Z) : Z := wrap 32 (a * b).

Module Flz.

(** The code has no errors but indexes into its input. *)
Abbreviation checked A := (result Empty_set A).

(** Three bytes at [idx], little endian. *)
Definition u24 (input : bytes) (idx : Z) : checked Z :=
  a ← or_panic (index input idx);
  b ← or_panic (index input (u32_add idx 1));
  c ← or_panic (index input (u32_add idx 2));
  Ok (byte.unsigned a + Z.shiftl (byte.unsigned b) 8 + Z.shiftl (byte.unsigned c) 16).

Definition hash (v : Z) : Z := Z.land (wrap 16 (Z.shiftr (u64_mul v 2654435769) 19)) 8191.

(** The table of 8192 positions: those that were never written are 0, and every
    index is a [hash]. *)
Definition table : Type := gmap Z Z.
Definition at_hash (htab : table) (h : Z) : Z := default 0 (htab !! h).

Definition set_next_hash (htab : table) (input : bytes) (idx : Z) : checked (table * Z) :=
  seq ← u24 input idx;
  Ok (<[hash seq := idx]> htab, u32_add idx 1).

(** The size after a run of [r] literals. *)
Definition literals (r size : Z) : Z :=
  let size := u32_add size (u32_mul 33 (r / 32)) in
  let r := r mod 32 in
  if decide (r <> 0) then u32_add (u32_add size r) 1 else size.

(** The size after a match of length [l]. *)
Definition flz_match (l size : Z) : Z :=
  let l := u32_sub l 1 in
  let size := u32_add size (u32_mul 3 (l / 262)) in
  if decide (6 <= l mod 262) then u32_add size 3 else u32_add size 2.

(** The loop of [cmp]. *)
Fixpoint cmp_loop (fuel : nat) (input : bytes) (p q l r : Z) : checked Z :=
  if decide (l < r) then
    match fuel with
    | O => Panic
    | S fuel =>
        a ← or_panic (index input (u32_add p l));
        b ← or_panic (index input (u32_add q l));
        cmp_loop fuel input p q (u32_add l 1) (if decide (a <> b) then 0 else r)
    end
  else Ok l.

Definition cmp (input : bytes) (p q r : Z) : checked Z :=
  let r := u32_sub r q in
  cmp_loop (Z.to_nat r) input p q 0 r.

(** The inner loop: the position after the one it stopped at, or the limit, and
    the earlier position with the same hash. *)
Fixpoint find_match (fuel : nat) (input : bytes) (idx_limit : Z) (htab : table) (idx : Z)
    : checked (table * Z * Z) :=
  match fuel with
  | O => Panic
  | S fuel =>
      seq ← u24 input idx;
      let r := at_hash htab (hash seq) in
      let htab := <[hash seq := idx]> htab in
      let distance := u32_sub idx r in
      if decide (idx_limit <= idx) then Ok (htab, idx, r)
      else
        let idx := u32_add idx 1 in
        same ← (if decide (distance < 8192)
                then earlier ← u24 input r; Ok (bool_decide (seq = earlier))
                else Ok false);
        if same : bool then Ok (htab, idx, r) else find_match fuel input idx_limit htab idx
  end.

(** The outer loop: the anchor and the size it ends with. *)
Fixpoint compress_loop (fuel : nat) (input : bytes) (idx_limit : Z) (htab : table) (idx anchor size : Z)
    : checked (Z * Z) :=
  if decide (idx < idx_limit) then
    match fuel with
    | O => Panic
    | S fuel =>
        '(htab, idx, r) ← find_match (S (Z.to_nat (idx_limit - idx))) input idx_limit htab idx;
        if decide (idx_limit <= idx) then Ok (anchor, size)
        else
          let idx := u32_sub idx 1 in
          let size := if decide (anchor < idx) then literals (u32_sub idx anchor) size else size in
          len ← cmp input (u32_add r 3) (u32_add idx 3) (u32_add idx_limit 9);
          let size := flz_match len size in
          '(htab, idx) ← set_next_hash htab input (u32_add idx len);
          '(htab, idx) ← set_next_hash htab input idx;
          compress_loop fuel input idx_limit htab idx idx size
    end
  else Ok (anchor, size).

(** [flz_compress_len].  The position grows with every turn of both loops, so
    the distance to the limit bounds their number. *)
Definition flz_compress_len (input : bytes) : checked Z :=
  let idx_limit := if decide (len input < 13) then 0 else u32_sub (wrap 32 (len input)) 13 in
  '(anchor, size) ← compress_loop (Z.to_nat idx_limit) input idx_limit ∅ 2 0 0;
  Ok (literals (u32_sub (wrap 32 (len input)) anchor) size).

End Flz.

(** [tx_estimated_size_fjord], [tx_estimated_size_fjord_bytes], [data_gas_fjord]. *)
Definition tx_estimated_size_fjord (input : bytes) : result Empty_set Z :=
  fastlz_size ← Flz.flz_compress_len input;
  Ok (Z.max (u64_saturating_sub (u64_saturating_mul fastlz_size L1_COST_FASTLZ_COEF) L1_COST_INTERCEPT)
        MIN_TX_SIZE_SCALED).

Definition tx_estimated_size_fjord_bytes (input : bytes) : result Empty_set Z :=
  estimated_size ← tx_estimated_size_fjord input;
  Ok (estimated_size / 1000000).

Definition data_gas_fjord (input : bytes) : result Empty_set Z :=
  estimated_size ← tx_estimated_size_fjord input;
  Ok (u64_saturating_mul estimated_size NON_ZERO_BYTE_COST / 1000000).

(** ** It terminates, stays in range and never expands by more than 1/32 *)

Module FlzBounds.
Import Flz.

Lemma u32_small z : 0 <= z < 2 ^ 32 -> wrap 32 z = z.
Proof. apply wrap_small. Qed.

Ltac u32 :=
  unfold u32_add, u32_sub, u32_mul in *;
  repeat match goal with
  | |- context [wrap 32 ?z] =>
      lazymatch z with
      | context [wrap 32 _] => fail
      | _ => rewrite (u32_small z) by lia
      end
  end.

Lemma literals_spec r size :
  0 <= r -> 0 <= size -> size + 2 * r + 2 < 2 ^ 32 ->
  literals r size = size + r + (if decide (r mod 32 = 0) then r / 32 else r / 32 + 1).
Proof.
  intros Hr Hs Hb. unfold literals. pose proof (Z.div_mod r 32). pose proof (Z.mod_pos_bound r 32).
  u32. repeat case_decide; lia.
Qed.

Lemma literals_bound r size x :
  0 <= r -> 0 <= size -> 32 * size <= 33 * x -> 0 <= x -> x + r < 2 ^ 30 ->
  size + r <= literals r size /\ 32 * literals r size <= 33 * (x + r) + 31.
Proof.
  intros Hr Hs Hx H0 Hb. rewrite literals_spec by lia. pose proof (Z.div_mod r 32). pose proof (Z.mod_pos_bound r 32).
  case_decide; lia.
Qed.

Lemma match_bound l size :
  1 <= l -> 0 <= size -> size + l + 3 < 2 ^ 32 -> size + 2 <= flz_match l size <= size + l + 1.
Proof.
  intros Hl Hs Hb. unfold flz_match. u32. pose proof (Z.div_mod (l - 1) 262). pose proof (Z.mod_pos_bound (l - 1) 262).
  u32. case_decide; u32; lia.
Qed.

Section Input.
Context (input : bytes) (Hinput : len input < 2 ^ 30).

Lemma u24_ok idx : 0 <= idx -> idx + 2 < len input -> exists v, u24 input idx = Ok v.
Proof.
  intros H0 H2. unfold u24. u32.
  destruct (index_in_range input idx) as [? ->]; [lia|].
  destruct (index_in_range input (idx + 1)) as [? ->]; [lia|].
  destruct (index_in_range input (idx + 2)) as [? ->]; [lia|]. eauto.
Qed.

Lemma cmp_loop_ok fuel p q l r :
  0 <= p <= q -> 0 <= l -> q + r <= len input -> r - l <= Z.of_nat fuel ->
  exists n, cmp_loop fuel input p q l r = Ok n /\ l <= n <= Z.max l r /\ (l < r -> l < n).
Proof.
  revert l r. induction fuel as [|fuel IH]; intros l r Hp Hl Hr Hf; cbn [cmp_loop].
  - rewrite decide_False by lia. exists l. split; [done|lia].
  - case_decide; [|exists l; split; [done|lia]]. u32.
    destruct (index_in_range input (p + l)) as [a ->]; [lia|].
    destruct (index_in_range input (q + l)) as [b ->]; [lia|]. cbn [or_panic mbind result_bind].
    destruct (IH (l + 1) (if decide (a <> b) then 0 else r)) as (n & -> & Hn & _); [lia|lia|case_decide; lia..|].
    exists n. split; [done|]. case_decide; lia.
Qed.

(** Every recorded position is at most [idx]. *)
Definition below (htab : table) (idx : Z) : Prop := map_Forall (fun _ v => 0 <= v <= idx) htab.

Lemma below_at htab idx h : below htab idx -> 0 <= idx -> 0 <= at_hash htab h <= idx.
Proof. intros Hb Hi. unfold at_hash. destruct (htab !! h) eqn:Hh; cbn; [by eapply Hb|lia]. Qed.

Lemma below_insert htab idx idx' h v : below htab idx -> idx <= idx' -> 0 <= v <= idx' -> below (<[h := v]> htab) idx'.
Proof. intros Hb Hi Hv. apply map_Forall_insert_2; [done|]. eapply map_Forall_impl; [exact Hb|]. cbn. lia. Qed.

Context (idx_limit : Z) (Hlimit : idx_limit + 13 <= len input).

Lemma set_next_hash_ok htab idx :
  0 <= idx <= idx_limit + 7 -> 0 <= idx_limit -> below htab idx ->
  exists htab', set_next_hash htab input idx = Ok (htab', idx + 1) /\ below htab' (idx + 1).
Proof.
  intros Hi H0 Hb. unfold set_next_hash. destruct (u24_ok idx) as [v ->]; [lia|lia|]. cbn [mbind result_bind]. u32.
  eexists. split; [done|]. eapply below_insert; [done|lia..].
Qed.

Lemma find_match_ok fuel htab idx :
  0 <= idx <= idx_limit -> below htab idx -> idx_limit - idx < Z.of_nat fuel ->
  exists htab' idx' r, find_match fuel input idx_limit htab idx = Ok (htab', idx', r) /\
    below htab' idx' /\ idx <= idx' <= idx_limit /\ (idx' < idx_limit -> idx < idx' /\ 0 <= r < idx').
Proof.
  revert htab idx. induction fuel as [|fuel IH]; intros htab idx Hi Hb Hf; [lia|]. cbn [find_match].
  destruct (u24_ok idx) as [v ->]; [lia|lia|]. cbn [mbind result_bind].
  pose proof (below_at htab idx (hash v) Hb ltac:(lia)) as Hr. set (r := at_hash _ _) in *.
  case_decide as Hl.
  { eexists _, idx, r. split; [done|]. split; [eapply below_insert; [done|lia..]|lia]. }
  destruct (u24_ok r) as [e ->]; [lia|lia|]. cbn [mbind result_bind]. u32.
  assert (below (<[hash v := idx]> htab) (idx + 1)) as Hb' by (eapply below_insert; [done|lia..]).
  assert (exists same, (if decide (idx - r < 8192) then Ok (bool_decide (v = e)) else Ok false) = Ok same
    :> checked bool) as [same ->] by (case_decide; eauto).
  destruct same.
  { eexists _, (idx + 1), r. split; [done|]. split; [done|lia]. }
  destruct (IH (<[hash v := idx]> htab) (idx + 1)) as (htab' & idx' & r' & -> & Hb2 & Hi' & Hr'); [lia|done|lia|].
  exists htab', idx', r'. split; [done|]. split; [done|]. split; [lia|]. intros Hlt. specialize (Hr' Hlt). lia.
Qed.

Lemma compress_loop_ok fuel htab idx anchor size :
  0 <= anchor <= idx -> idx <= idx_limit + 8 -> 0 <= size -> 32 * size <= 33 * anchor -> below htab idx ->
  0 <= idx_limit -> idx_limit - idx <= Z.of_nat fuel -> (size = 0 -> anchor = 0) ->
  exists a s, compress_loop fuel input idx_limit htab idx anchor size = Ok (a, s) /\
    0 <= a <= len input /\ 0 <= s /\ 32 * s <= 33 * a /\ (s = 0 -> a = 0).
Proof.
  revert htab idx anchor size.
  induction fuel as [|fuel IH]; intros htab idx anchor size Ha Hi Hs Hsa Hb Hl Hf Hz; cbn [compress_loop].
  { rewrite decide_False by lia. exists anchor, size. split; [done|lia]. }
  case_decide as Hlt; [|exists anchor, size; split; [done|lia]].
  destruct (find_match_ok (S (Z.to_nat (idx_limit - idx))) htab idx) as (h1 & i1 & r & -> & Hb1 & Hi1 & Hr);
    [lia|done|lia|]. cbn [mbind result_bind].
  case_decide as Hend; [exists anchor, size; split; [done|lia]|]. specialize (Hr ltac:(lia)). u32.
  destruct (cmp_loop_ok (Z.to_nat (idx_limit + 9 - (i1 - 1 + 3))) (r + 3) (i1 - 1 + 3) 0
    (idx_limit + 9 - (i1 - 1 + 3))) as (n & Hn & Hn1 & Hn2); [lia..|].
  unfold cmp. u32. rewrite Hn. cbn [mbind result_bind]. specialize (Hn2 ltac:(lia)). u32.
  set (size1 := if decide (anchor < i1 - 1) then literals (i1 - 1 - anchor) size else size).
  assert (0 <= size1 /\ 32 * size1 <= 33 * (i1 - 1) + 31) as [Hs1 Hs2].
  { unfold size1. case_decide; [|lia]. destruct (literals_bound (i1 - 1 - anchor) size anchor); lia. }
  pose proof (match_bound n size1 ltac:(lia) Hs1 ltac:(lia)) as Hm.
  assert (below h1 (i1 - 1 + n)) as Hb2 by (eapply map_Forall_impl; [exact Hb1|]; cbn; lia).
  destruct (set_next_hash_ok h1 (i1 - 1 + n)) as (h2 & -> & Hh2); [lia|lia|done|]. cbn [mbind result_bind].
  destruct (set_next_hash_ok h2 (i1 - 1 + n + 1)) as (h3 & -> & Hh3); [lia|lia|done|]. cbn [mbind result_bind].
  apply IH; first [done | lia].
Qed.

End Input.

(** The FastLZ length of an input below 1 GiB is computed without leaving the
    input, its loops end, and the length is at most one byte in 32 above the
    length of the input; it is zero for the empty input only. *)
Theorem flz_compress_len_bound (input : bytes) :
  len input < 2 ^ 30 ->
  exists n, flz_compress_len input = Ok n /\ 0 <= n <= len input + div_ceil (len input) 32 /\
    (n = 0 <-> input = []).
Proof.
  intros Hin. unfold flz_compress_len. pose proof (len_nonneg input).
  set (limit := if decide (len input < 13) then 0 else u32_sub (wrap 32 (len input)) 13).
  assert (0 <= limit /\ (limit = 0 \/ limit + 13 <= len input)) as [Hl0 Hl].
  { unfold limit. case_decide; [lia|]. u32. lia. }
  assert (exists a s, compress_loop (Z.to_nat limit) input limit ∅ 2 0 0 = Ok (a, s) /\
    0 <= a <= len input /\ 0 <= s /\ 32 * s <= 33 * a /\ (s = 0 -> a = 0)) as (a & s & -> & Ha & Hs & Hsa & Hz).
  { destruct Hl as [Hl|Hl].
    - rewrite Hl. exists 0, 0. split; [reflexivity|lia].
    - apply compress_loop_ok; first [done | lia | apply map_Forall_empty]. }
  cbn [mbind result_bind]. u32. eexists. split; [done|].
  destruct (literals_bound (len input - a) s a) as [Hlo Hhi]; [lia..|].
  split; [split; [lia|]|].
  - unfold div_ceil. pose proof (Z.div_mod (len input) 32). pose proof (Z.mod_pos_bound (len input) 32).
    case_decide; lia.
  - split; [intros Hn; apply len_zero_nil; lia|].
    intros ->. rewrite len_nil in *. rewrite literals_spec by lia. assert (a = 0) as -> by lia.
    assert (s = 0) as -> by lia. done.
Qed.

Lemma flz_compress_len_bound_witness :
  exists n, flz_compress_len (zeros 100) = Ok n /\ 0 <= n <= 104 /\ (n = 0 <-> zeros 100 = []).
Proof. apply (flz_compress_len_bound (zeros 100)). reflexivity. Defined.

End FlzBounds.
