(* ===== verification/Channels.v ===== *)
(** * Channels

    Models [src/crates/consensus/protocol/src/channel.rs]: a channel collects
    the frames of one channel id in any order and, once the closing frame and
    every frame before it have arrived, yields their concatenated payloads. *)

From S2P Require Import Prelude Primitives Frames.

Inductive ChannelError : Set :=
| FrameIdMismatch
| ChannelClosed
| FrameNumberExists (n : Z)
| FrameBeyondEndFrame (n : Z).

Module Channel.

(** ** State *)

Record t : Type := mk {
  id : bytes;
  open_block : BlockInfo.t;
  estimated_size : Z;
  closed : bool;
  highest_frame_number : Z;
  last_frame_number : Z;
  inputs : gmap Z Frame.t;
  highest_l1_inclusion_block : BlockInfo.t
}.

(** ** Operations *)

(** [Channel::MAX_RLP_BYTES] and [Channel::FJORD_MAX_RLP_BYTES]. *)
Definition MAX_RLP_BYTES : Z := 10000000.
Definition FJORD_MAX_RLP_BYTES : Z := 100000000.

Definition new (id : bytes) (open_block : BlockInfo.t) : t :=
  mk id open_block 0 false 0 0 ∅ BlockInfo.default.

Definition len (c : t) : Z := Z.of_nat (base.size (inputs c)).

Definition is_empty (c : t) : bool := bool_decide (inputs c = ∅).

(** The closing branch of [add_frame]: record the last frame number and, when
    frames beyond it are buffered, drop them ([inputs.retain(..)]). *)
Definition close_at (c : t) (n : Z) : t :=
  let c := mk (id c) (open_block c) (estimated_size c) true
              (highest_frame_number c) n (inputs c) (highest_l1_inclusion_block c) in
  if decide (last_frame_number c < highest_frame_number c) then
    let keep := filter (fun kv : Z * Frame.t => kv.1 < last_frame_number c) (inputs c) in
    let dropped := filter (fun kv : Z * Frame.t => ~ kv.1 < last_frame_number c) (inputs c) in
    mk (id c) (open_block c)
       (map_fold (fun _ f acc => u64_sub acc (Frame.size f)) (estimated_size c) dropped)
       true (last_frame_number c) (last_frame_number c) keep (highest_l1_inclusion_block c)
  else c.

(** The tail of [add_frame], after the guards and the closing branch. *)
Definition insert_frame (c : t) (frame : Frame.t) (l1_inclusion_block : BlockInfo.t) : t :=
  let highest := if decide (highest_frame_number c < Frame.number frame)
                 then Frame.number frame else highest_frame_number c in
  let inclusion :=
    if decide (BlockInfo.number (highest_l1_inclusion_block c)
                 < BlockInfo.number l1_inclusion_block)
    then l1_inclusion_block else highest_l1_inclusion_block c in
  mk (id c) (open_block c)
     (u64_add (estimated_size c) (Frame.size frame))
     (closed c) highest (last_frame_number c)
     (<[Frame.number frame := frame]> (inputs c)) inclusion.

(** [Channel::add_frame]; on [Err] the channel is unchanged. *)
Definition add_frame (c : t) (frame : Frame.t) (l1_inclusion_block : BlockInfo.t)
    : result ChannelError t :=
  if decide (Frame.id frame <> id c) then Err FrameIdMismatch
  else if Frame.is_last frame && closed c then Err ChannelClosed
  else if decide (is_Some (inputs c !! Frame.number frame))
  then Err (FrameNumberExists (Frame.number frame))
  else if closed c && bool_decide (last_frame_number c <= Frame.number frame)
  then Err (FrameBeyondEndFrame (Frame.number frame))
  else
    let c := if Frame.is_last frame then close_at c (Frame.number frame) else c in
    Ok (insert_frame c frame l1_inclusion_block).

Definition open_block_number (c : t) : Z := BlockInfo.number (open_block c).

Definition size (c : t) : Z := estimated_size c.

(** [Channel::is_ready]; [self.last_frame_number + 1] is a [u16] addition. *)
Definition is_ready (c : t) : bool :=
  if negb (closed c) then false
  else if decide (len c <> u16_add (last_frame_number c) 1) then false
  else forallb (fun i => bool_decide (is_Some (inputs c !! i)))
               (seqZ 0 (last_frame_number c + 1)).

(** [Channel::frame_data]. *)
Definition frame_data (c : t) : option bytes :=
  if is_empty c then None
  else (@concat _) <$> mapM (fun i => Frame.data <$> inputs c !! i)
                       (seqZ 0 (last_frame_number c + 1)).

(** Adding a sequence of frames, each with its inclusion block. *)
Fixpoint add_frames (c : t) (fs : list (Frame.t * BlockInfo.t)) : result ChannelError t :=
  match fs with
  | [] => Ok c
  | (f, b) :: fs => c ← add_frame c f b; add_frames c fs
  end.

(** ** Invariant *)

Record inv (c : t) : Prop := {
  inv_entry k f : inputs c !! k = Some f ->
    Frame.number f = k /\ Frame.id f = id c /\ 0 <= k <= highest_frame_number c;
  inv_size : estimated_size c = wrap 64 (map_sumZ Frame.size (inputs c));
  inv_highest : 0 <= highest_frame_number c;
  inv_open : closed c = false ->
    last_frame_number c = 0 /\
    forall k f, inputs c !! k = Some f -> Frame.is_last f = false;
  inv_closed : closed c = true ->
    highest_frame_number c = last_frame_number c /\
    is_Some (inputs c !! last_frame_number c) /\
    forall k f, inputs c !! k = Some f ->
      Frame.is_last f = bool_decide (k = last_frame_number c)
}.

(** The channels the code can build from frames with [u16] numbers. *)
Inductive reachable : t -> Prop :=
| reachable_new i b : reachable (new i b)
| reachable_add c f b c' :
    reachable c -> 0 <= Frame.number f -> add_frame c f b = Ok c' -> reachable c'.

Lemma new_inv i b : inv (new i b).
Proof.
  by constructor.
Qed.

(** What [close_at] leaves behind: exactly the buffered frames below [n]. *)
Lemma close_at_lookup c n k f :
  inv c -> inputs c !! n = None ->
  inputs (close_at c n) !! k = Some f <-> inputs c !! k = Some f /\ k < n.
Proof.
  intros Hc Hn. unfold close_at; simpl. case_decide; simpl.
  - by rewrite map_lookup_filter_Some.
  - split; [|tauto]. intros Hk. split; [done|].
    destruct (inv_entry c Hc k f Hk) as (? & ? & ?).
    destruct (decide (k = n)); [congruence | lia].
Qed.

Lemma close_at_size c n :
  inv c ->
  estimated_size (close_at c n) = wrap 64 (map_sumZ Frame.size (inputs (close_at c n))).
Proof.
  intros Hc. unfold close_at; simpl. case_decide; simpl; [|apply (inv_size c Hc)].
  rewrite (inv_size c Hc), map_fold_u64_sub.
  rewrite (map_sumZ_filter Frame.size (fun kv : Z * Frame.t => kv.1 < n) (inputs c)).
  f_equal. lia.
Qed.

Lemma close_at_fields c n :
  id (close_at c n) = id c /\ closed (close_at c n) = true /\
  last_frame_number (close_at c n) = n /\ highest_frame_number (close_at c n) <= n.
Proof. unfold close_at; simpl. case_decide; simpl; repeat split; lia. Qed.

Lemma add_size_insert m f z :
  m !! Frame.number f = None -> z = wrap 64 (map_sumZ Frame.size m) ->
  u64_add z (Frame.size f) = wrap 64 (map_sumZ Frame.size (<[Frame.number f := f]> m)).
Proof.
  intros Hm ->. unfold u64_add. rewrite map_sumZ_insert by done.
  rewrite wrap_add_wrap_l. f_equal. lia.
Qed.

(** The guards an accepted frame has passed, and the resulting channel. *)
Lemma add_frame_Ok c f b c' :
  add_frame c f b = Ok c' ->
  Frame.id f = id c /\ inputs c !! Frame.number f = None /\
  (closed c = true -> Frame.is_last f = false /\ Frame.number f < last_frame_number c) /\
  c' = insert_frame (if Frame.is_last f then close_at c (Frame.number f) else c) f b.
Proof.
  unfold add_frame. destruct (decide (Frame.id f <> id c)) as [|Hid]; [done|].
  destruct (Frame.is_last f && closed c) eqn:Hl; [done|].
  destruct (decide (is_Some _)) as [|Hn]; [done|].
  destruct (closed c && _) eqn:Hb; [done|]. intros [= <-].
  split; [by apply dec_stable|]. split; [by apply eq_None_not_Some|]. split; [|done].
  intros Hc. rewrite Hc in *. rewrite andb_true_r in Hl. simpl in Hb.
  apply bool_decide_eq_false in Hb. split; [done|lia].
Qed.

(** Conversely, a frame that passes the guards is accepted. *)
Lemma add_frame_accepts c f b :
  Frame.id f = id c -> inputs c !! Frame.number f = None ->
  (closed c = true -> Frame.is_last f = false /\ Frame.number f < last_frame_number c) ->
  add_frame c f b =
    Ok (insert_frame (if Frame.is_last f then close_at c (Frame.number f) else c) f b).
Proof.
  intros Hid Hn Hc. unfold add_frame.
  rewrite decide_False by (intros []; done).
  destruct (closed c).
  - destruct Hc as [-> Hlt]; [done|]. simpl.
    rewrite decide_False by (rewrite Hn; apply is_Some_None).
    by rewrite bool_decide_eq_false_2 by lia.
  - rewrite andb_false_r. simpl.
    by rewrite decide_False by (rewrite Hn; apply is_Some_None).
Qed.

Lemma insert_frame_highest c f b :
  highest_frame_number (insert_frame c f b) = Z.max (highest_frame_number c) (Frame.number f).
Proof. simpl. case_decide; lia. Qed.

Lemma insert_frame_inv c f b :
  inv c -> Frame.id f = id c -> 0 <= Frame.number f -> inputs c !! Frame.number f = None ->
  Frame.is_last f = false ->
  (closed c = true -> Frame.number f < last_frame_number c) ->
  inv (insert_frame c f b).
Proof.
  intros Hc Hid Hnum Hnone Hlast Hcl.
  pose proof (insert_frame_highest c f b) as Hh.
  pose proof (inv_highest c Hc) as Hpos.
  constructor; rewrite ?Hh; cbn [insert_frame inputs id estimated_size closed last_frame_number].
  - intros k f' [[<- <-]|[Hk Hf']]%lookup_insert_Some; [auto with lia|].
    destruct (inv_entry c Hc k f' Hf') as (? & ? & ?). auto with lia.
  - apply add_size_insert, Hc; done.
  - lia.
  - intros Ho. destruct (inv_open c Hc Ho) as [? Hno]. split; [done|].
    intros k f' [[<- <-]|[Hk Hf']]%lookup_insert_Some; [done|by eapply Hno].
  - intros Ho. destruct (inv_closed c Hc Ho) as (? & ? & Hno). specialize (Hcl Ho).
    split; [lia|]. split; [by rewrite lookup_insert_ne by lia|].
    intros k f' [[<- <-]|[Hk Hf']]%lookup_insert_Some; [|by eapply Hno].
    rewrite Hlast, bool_decide_eq_false_2; [done|lia].
Qed.

Lemma insert_last_inv c f b :
  inv c -> closed c = false -> Frame.id f = id c -> 0 <= Frame.number f ->
  inputs c !! Frame.number f = None -> Frame.is_last f = true ->
  inv (insert_frame (close_at c (Frame.number f)) f b).
Proof.
  intros Hc Ho Hid Hnum Hnone Hlast. set (n := Frame.number f) in *.
  pose proof (insert_frame_highest (close_at c n) f b) as Hh.
  destruct (close_at_fields c n) as (Ei & Ec & El & Eh).
  destruct (inv_open c Hc Ho) as [_ Hno].
  assert (inputs (close_at c n) !! n = None) as Hn'.
  { apply eq_None_ne_Some. intros x [_ ?]%close_at_lookup; auto. lia. }
  constructor; rewrite ?Hh; cbn [insert_frame inputs id estimated_size closed last_frame_number];
    rewrite ?Ei, ?Ec, ?El; fold n.
  - intros k f' [[<- <-]|[Hk [Hf' ?]%close_at_lookup]]%lookup_insert_Some; auto with lia.
    destruct (inv_entry c Hc k f' Hf') as (? & ? & ?). auto with lia.
  - apply add_size_insert, close_at_size; done.
  - lia.
  - done.
  - intros _. split; [lia|]. split; [rewrite lookup_insert_eq; eauto|].
    intros k f' [[<- <-]|[Hk [Hf' ?]%close_at_lookup]]%lookup_insert_Some; auto.
    + by rewrite bool_decide_eq_true_2.
    + rewrite bool_decide_eq_false_2 by lia. by eapply Hno.
Qed.

Lemma add_frame_inv c f b c' :
  inv c -> 0 <= Frame.number f -> add_frame c f b = Ok c' -> inv c'.
Proof.
  intros Hc Hf (Hid & Hnone & Hcl & ->)%add_frame_Ok.
  destruct (Frame.is_last f) eqn:Hlast.
  - apply insert_last_inv; try done. destruct (closed c); [|done].
    by destruct Hcl.
  - apply insert_frame_inv; try done. intros H. by destruct (Hcl H).
Qed.

(** A closed channel that holds every frame up to the closing one has exactly
    [last_frame_number + 1] frames. *)
Lemma closed_complete_len c :
  inv c -> closed c = true ->
  (forall i, 0 <= i <= last_frame_number c -> is_Some (inputs c !! i)) ->
  len c = last_frame_number c + 1.
Proof.
  intros Hc Hcl Hall. destruct (inv_closed c Hc Hcl) as (Hh & _ & _).
  pose proof (inv_highest c Hc).
  apply map_size_seqZ; [lia|]. intros k. split; [|intros; apply Hall; lia].
  intros [f Hf]. destruct (inv_entry c Hc k f Hf) as (? & ? & ?). lia.
Qed.

Lemma forallb_seqZ (P : Z -> bool) n :
  forallb P (seqZ 0 n) = true <-> forall i, 0 <= i < n -> P i = true.
Proof.
  rewrite forallb_forall. setoid_rewrite <- list_elem_of_In.
  setoid_rewrite elem_of_seqZ. by setoid_rewrite Z.add_0_l.
Qed.

Lemma is_ready_iff c :
  inv c -> last_frame_number c < u16_max ->
  is_ready c = true <->
  closed c = true /\
  forall i, 0 <= i <= last_frame_number c -> is_Some (inputs c !! i).
Proof.
  intros Hc Hmax. unfold is_ready.
  destruct (closed c) eqn:Hcl; simpl; [|by split; [|intros []]].
  destruct (inv_closed c Hc Hcl) as (Hh & _ & _). pose proof (inv_highest c Hc).
  assert (u16_add (last_frame_number c) 1 = last_frame_number c + 1) as ->.
  { apply wrap_small. unfold u16_max in Hmax. lia. }
  split.
  - case_decide; [done|]. rewrite forallb_seqZ. intros Hall. split; [done|].
    intros i Hi. eapply bool_decide_eq_true, Hall. lia.
  - intros [_ Hall]. rewrite decide_False by (intros []; by apply closed_complete_len).
    apply forallb_seqZ. intros i Hi. apply bool_decide_eq_true, Hall. lia.
Qed.

Lemma frame_data_list c fs :
  inputs c <> ∅ -> last_frame_number c + 1 = Prelude.len fs ->
  (forall i f, fs !! i = Some f -> inputs c !! Z.of_nat i = Some f) ->
  frame_data c = Some (concat (Frame.data <$> fs)).
Proof.
  intros Hne Hlen Hfs. unfold frame_data, is_empty.
  rewrite bool_decide_eq_false_2 by done. rewrite Hlen.
  replace (Prelude.len fs) with (Prelude.len (Frame.data <$> fs))
    by (unfold Prelude.len; by rewrite length_fmap).
  rewrite mapM_seqZ; [done|]. intros i d Hd.
  apply list_lookup_fmap_Some in Hd as (f & -> & Hf). by rewrite (Hfs i f Hf).
Qed.

(** ** Reassembly in any order *)

(** [fs] are the frames of one channel in order: numbered from 0, all with id
    [i], the final one and no other closing the channel. *)
Definition numbered (i : bytes) (fs : list Frame.t) : Prop :=
  forall k f, fs !! k = Some f ->
    Frame.id f = i /\ Frame.number f = Z.of_nat k /\
    Frame.is_last f = bool_decide (S k = List.length fs).

Definition by_number (f : Frame.t) : Z * Frame.t := (Frame.number f, f).

(** The channel after some of the frames [fs] (those in [seen]) have arrived. *)
Record partial (i : bytes) (n : Z) (seen : list Frame.t) (c : t) : Prop := {
  p_id : id c = i;
  p_inputs : inputs c = list_to_map (by_number <$> seen);
  p_closed : closed c = existsb Frame.is_last seen;
  p_last : closed c = true -> last_frame_number c = n - 1;
  p_highest : highest_frame_number c <= n - 1
}.

Lemma numbered_elem i fs f :
  numbered i fs -> f ∈ fs ->
  Frame.id f = i /\ 0 <= Frame.number f < Prelude.len fs /\
  Frame.is_last f = bool_decide (Frame.number f = Prelude.len fs - 1).
Proof.
  intros Hfs [k Hk]%list_elem_of_lookup. destruct (Hfs k f Hk) as (-> & -> & ->).
  apply lookup_lt_Some in Hk. unfold Prelude.len. split; [done|]. split; [lia|].
  apply bool_decide_ext. lia.
Qed.

Lemma numbered_NoDup i fs : numbered i fs -> NoDup (Frame.number <$> fs).
Proof.
  intros Hfs. apply NoDup_alt. intros j k z Hj Hk.
  apply list_lookup_fmap_Some in Hj as (f & -> & Hj), Hk as (g & Hg & Hk).
  destruct (Hfs _ _ Hj) as (_ & E & _), (Hfs _ _ Hk) as (_ & E' & _). lia.
Qed.

Lemma by_number_fst fs : (by_number <$> fs).*1 = Frame.number <$> fs.
Proof. by rewrite <- list_fmap_compose. Qed.

Lemma partial_fresh i fs seen f rest :
  numbered i fs -> seen ++ f :: rest ≡ₚ fs ->
  (Frame.number f ∉ Frame.number <$> seen) /\
  (Frame.is_last f = true -> existsb Frame.is_last seen = false).
Proof.
  intros Hfs Hp. pose proof (numbered_NoDup i fs Hfs) as Hnd.
  rewrite <- Hp, fmap_app, fmap_cons in Hnd. apply NoDup_app in Hnd as (_ & Hd & _).
  assert (Frame.number f ∉ (Frame.number <$> seen)) as Hn.
  { intros Hin. apply (Hd _ Hin). by left. }
  split; [done|]. intros Hl. apply not_true_is_false.
  intros (g & Hg & Hgl)%existsb_exists. apply list_elem_of_In in Hg.
  apply Hn. rewrite list_elem_of_fmap. exists g. split; [|done].
  assert (f ∈ fs /\ g ∈ fs) as [Hf Hg'] by (rewrite <- Hp; set_solver).
  destruct (numbered_elem i fs f Hfs Hf) as (_ & _ & Ef).
  destruct (numbered_elem i fs g Hfs Hg') as (_ & _ & Eg).
  rewrite Hl in Ef. rewrite Hgl in Eg. symmetry in Ef, Eg.
  apply bool_decide_eq_true in Ef, Eg. lia.
Qed.

Lemma partial_step i fs seen f rest b c :
  numbered i fs -> seen ++ f :: rest ≡ₚ fs -> partial i (Prelude.len fs) seen c ->
  exists c', add_frame c f b = Ok c' /\ partial i (Prelude.len fs) (f :: seen) c'.
Proof.
  intros Hfs Hp Hc. destruct (partial_fresh i fs seen f rest Hfs Hp) as [Hn Hlf].
  assert (f ∈ fs) as Hf by (rewrite <- Hp; set_solver).
  destruct (numbered_elem i fs f Hfs Hf) as (Hid & Hnum & Hlast).
  destruct Hc as [Ei Em Ec El Eh]. set (n := Prelude.len fs) in *.
  eexists. split.
  - apply add_frame_accepts; [congruence| |].
    + rewrite Em. apply not_elem_of_list_to_map_1. by rewrite by_number_fst.
    + intros Hcl. rewrite (El Hcl). rewrite Ec in Hcl.
      destruct (Frame.is_last f) eqn:Hl; [by rewrite (Hlf eq_refl) in Hcl |].
      symmetry in Hlast. apply bool_decide_eq_false in Hlast. auto with lia.
  - unfold close_at. destruct (Frame.is_last f) eqn:Hl; simpl.
    + symmetry in Hlast. apply bool_decide_eq_true in Hlast.
      rewrite decide_False by lia.
      constructor; simpl; rewrite ?Em, ?Hl; try done. case_decide; lia.
    + constructor; simpl; rewrite ?Em, ?Hl; try done. clear Hlf Hlast El. case_decide; lia.
Qed.

Lemma partial_all i fs arr seen c :
  numbered i fs -> seen ++ arr.*1 ≡ₚ fs -> partial i (Prelude.len fs) seen c ->
  exists c' seen', add_frames c arr = Ok c' /\ seen' ≡ₚ fs /\
    partial i (Prelude.len fs) seen' c'.
Proof.
  revert seen c. induction arr as [|[f b] arr IH]; intros seen c Hfs Hp Hc; simpl in *.
  - rewrite app_nil_r in Hp. eauto.
  - destruct (partial_step i fs seen f arr.*1 b c Hfs Hp Hc) as (c' & -> & Hc').
    apply (IH (f :: seen) c' Hfs); [|done].
    rewrite <- Hp. simpl. by rewrite Permutation_middle.
Qed.

Lemma partial_complete i fs seen c :
  numbered i fs -> seen ≡ₚ fs -> partial i (Prelude.len fs) seen c ->
  forall k f, fs !! k = Some f -> inputs c !! Z.of_nat k = Some f.
Proof.
  intros Hfs Hp Hc k f Hk. rewrite (p_inputs _ _ _ _ Hc).
  apply elem_of_list_to_map.
  - rewrite by_number_fst, Hp. by eapply numbered_NoDup.
  - rewrite Hp, list_elem_of_fmap. exists f. split; [|by eapply list_elem_of_lookup_2].
    destruct (Hfs k f Hk) as (_ & E & _). unfold by_number. by rewrite E.
Qed.

Lemma add_frames_reachable c arr c' :
  reachable c -> Forall (fun fb => 0 <= Frame.number fb.1) arr ->
  add_frames c arr = Ok c' -> reachable c'.
Proof.
  intros Hc Harr. revert c Hc. induction Harr as [|[f b] arr Hf Harr IH]; intros c Hc; simpl.
  - by intros [= <-].
  - destruct (add_frame c f b) as [c1| |] eqn:E; [|done|done].
    intros H. apply (IH c1); [|done]. by eapply reachable_add.
Qed.

Lemma reachable_inv c : reachable c -> inv c.
Proof.
  induction 1; [apply new_inv | by eapply add_frame_inv].
Qed.

(** A ready channel holds a complete numbered sequence of frames. *)
Lemma ready_frames c :
  inv c -> is_ready c = true ->
  exists fs, last_frame_number c + 1 = Prelude.len fs /\
    forall k f, fs !! k = Some f -> inputs c !! Z.of_nat k = Some f.
Proof.
  unfold is_ready. intros Hc. destruct (closed c) eqn:Hcl; simpl; [|done].
  destruct (inv_closed c Hc Hcl) as (Hh & _ & _). pose proof (inv_highest c Hc).
  case_decide; [done|]. rewrite forallb_seqZ. intros Hall.
  destruct (mapM (fun i => inputs c !! i) (seqZ 0 (last_frame_number c + 1)))
    as [fs|] eqn:E.
  - exists fs. apply mapM_Some in E. pose proof (Forall2_length _ _ _ E) as Hlen.
    rewrite length_seqZ in Hlen. split; [unfold Prelude.len; lia|].
    intros k f Hf. destruct (Forall2_lookup_r _ _ _ _ _ E Hf) as (x & Hx & Hxf).
    apply lookup_seqZ in Hx as [-> _]. by rewrite Z.add_0_l in Hxf.
  - exfalso. apply mapM_None in E. apply Exists_exists in E as (i & Hi%elem_of_seqZ & E).
    specialize (Hall i ltac:(lia)). apply bool_decide_eq_true in Hall.
    rewrite E in Hall. by apply is_Some_None in Hall.
Qed.

(** The [u16] addition in [is_ready] wraps for a channel whose closing
    frame has number 65535, so such a channel is never ready even when all of
    its 65536 frames are buffered. *)
Theorem full_channel_never_ready c :
  last_frame_number c = u16_max -> is_ready c = false.
Proof.
  intros Hl. unfold is_ready. destruct (closed c); simpl; [|done].
  rewrite Hl. change (u16_add u16_max 1) with 0. case_decide as Hn; [done|].
  unfold len in Hn.
  assert (inputs c = ∅) as -> by (apply map_size_empty_inv; lia).
  apply not_true_is_false. rewrite forallb_seqZ. intros H.
  specialize (H 0 ltac:(by vm_compute)). apply bool_decide_eq_true in H.
  rewrite lookup_empty in H. by apply is_Some_None in H.
Qed.

(** Once all the frames have arrived the channel holds all the data, and it is
    ready unless its closing frame has the last number there is. *)
Lemma partial_ready i fs seen c :
  numbered i fs -> fs <> [] -> Prelude.len fs <= u16_max + 1 -> seen ≡ₚ fs ->
  partial i (Prelude.len fs) seen c -> inv c ->
  frame_data c = Some (concat (Frame.data <$> fs)) /\
  is_ready c = bool_decide (Prelude.len fs <= u16_max).
Proof.
  intros Hfs Hne Hmax Hperm Hc Hinv.
  assert (0 < Prelude.len fs) as Hpos by (destruct fs; [done|]; rewrite len_cons; pose proof (len_nonneg fs); lia).
  pose proof (partial_complete i fs seen c Hfs Hperm Hc) as Hin.
  assert (closed c = true) as Hcl.
  { rewrite (p_closed _ _ _ _ Hc). apply existsb_exists.
    destruct (lookup_lt_is_Some_2 fs (pred (length fs))) as [f Hf]; [unfold Prelude.len in *; lia|].
    exists f. destruct (Hfs _ _ Hf) as (_ & _ & ->). split.
    - apply list_elem_of_In. rewrite Hperm. by eapply list_elem_of_lookup_2.
    - apply bool_decide_eq_true. unfold Prelude.len in *. lia. }
  pose proof (p_last _ _ _ _ Hc Hcl) as Hlast.
  assert (forall k, 0 <= k <= last_frame_number c -> is_Some (inputs c !! k)) as Hall.
  { intros k Hk. destruct (lookup_lt_is_Some_2 fs (Z.to_nat k)) as [f Hf]; [unfold Prelude.len in *; lia|].
    exists f. rewrite <- (Hin _ _ Hf). f_equal. lia. }
  split.
  - apply frame_data_list; [|lia|done]. intros E. destruct (Hall 0) as [x Hx]; [lia|].
    by rewrite E, lookup_empty in Hx.
  - case_bool_decide; [by apply is_ready_iff; [|lia|]|]. apply full_channel_never_ready. lia.
Qed.

(** The number of buffered frames and their total size. *)
Lemma partial_len i fs seen rest c :
  numbered i fs -> seen ++ rest ≡ₚ fs -> partial i (Prelude.len fs) seen c ->
  len c = Prelude.len seen.
Proof.
  intros Hfs Hp Hc. unfold len, Prelude.len. rewrite (p_inputs _ _ _ _ Hc).
  assert (NoDup ((by_number <$> seen).*1)) as Hnd.
  { pose proof (numbered_NoDup i fs Hfs) as Hnd. rewrite <- Hp, fmap_app in Hnd.
    apply NoDup_app in Hnd as (Hnd & _ & _). by rewrite by_number_fst. }
  rewrite map_size_list_to_map by done. by rewrite length_fmap.
Qed.

Lemma sum_by_number fs :
  NoDup (Frame.number <$> fs) ->
  map_sumZ Frame.size (list_to_map (M := gmap Z Frame.t) (by_number <$> fs)) = sumZ Frame.size fs.
Proof.
  induction fs as [|f fs IH]; [done|]. rewrite !fmap_cons. intros [Hf Hnd]%NoDup_cons.
  cbn [list_to_map foldr by_number fst snd uncurry].
  rewrite map_sumZ_insert; [|apply not_elem_of_list_to_map_1; by rewrite by_number_fst].
  cbn [sumZ]. by rewrite <- IH.
Qed.

Lemma ready_frame_data c : inv c -> is_ready c = true -> is_Some (frame_data c).
Proof.
  intros Hc Hr. destruct (ready_frames c Hc Hr) as (fs & Hlen & Hfs).
  eexists. apply frame_data_list; [|done|done].
  assert (closed c = true) as Hcl by (unfold is_ready in Hr; by destruct (closed c)).
  destruct (inv_closed c Hc Hcl) as (_ & [fl Hl] & _). intros E. by rewrite E, lookup_empty in Hl.
Qed.

Lemma add_frame_id c f b c' : add_frame c f b = Ok c' -> id c' = id c.
Proof.
  intros (_ & _ & _ & ->)%add_frame_Ok. cbn [insert_frame id].
  destruct (Frame.is_last f); [|done]. apply close_at_fields.
Qed.

Lemma add_frame_wrong_id c f b : Frame.id f <> id c -> add_frame c f b = Err FrameIdMismatch.
Proof. intros Hid. unfold add_frame. by rewrite decide_True. Qed.

Lemma add_frame_no_panic c f b : add_frame c f b <> Panic.
Proof. unfold add_frame. repeat case_match; done. Qed.

(** ** Properties *)

(** C23: a channel's frames may arrive in any order.  Let [fs] be the frames of
    a channel in sequence: numbered from 0, the final one closing, at most 65536
    of them since a frame number has 16 bits.  If [arr] delivers them in any
    order, each in any L1 block, then every frame is accepted and [frame_data] is
    the concatenation of the payloads in sequence.  The channel is ready exactly
    when there are at most 65535 frames: with all 65536 the 16-bit addition of
    [is_ready] wraps. *)
Theorem reassembly i ob fs arr :
  numbered i fs -> fs <> [] -> Prelude.len fs <= u16_max + 1 -> arr.*1 ≡ₚ fs ->
  exists c, add_frames (new i ob) arr = Ok c /\
    frame_data c = Some (concat (Frame.data <$> fs)) /\
    is_ready c = bool_decide (Prelude.len fs <= u16_max).
Proof.
  intros Hfs Hne Hmax Hp.
  destruct (partial_all i fs arr [] (new i ob) Hfs Hp) as (c & seen & Hadd & Hperm & Hc).
  { constructor; simpl; try done. destruct fs; [done|].
    rewrite len_cons. pose proof (len_nonneg fs). lia. }
  exists c. split; [done|]. apply (partial_ready i fs seen); try done. apply reachable_inv.
  eapply add_frames_reachable; [apply (reachable_new i ob)| |done].
  apply Forall_forall. intros [f b] Hfb.
  assert (f ∈ fs) as Hf by (rewrite <- Hp; apply list_elem_of_fmap; by exists (f, b)).
  apply (numbered_elem i fs f Hfs Hf).
Qed.

Definition sample_frames : list Frame.t :=
  [Frame.mk (zeros 16) 0 [Byte.x01; Byte.x02] false;
   Frame.mk (zeros 16) 1 [] false;
   Frame.mk (zeros 16) 2 [Byte.x03] true].

Definition sample_close (n : Z) (d : bytes) : Frame.t := Frame.mk (zeros 16) n d true.

Lemma reassembly_witness :
  exists c, add_frames (new (zeros 16) BlockInfo.default)
              ((fun f => (f, BlockInfo.default)) <$> reverse sample_frames) = Ok c /\
    frame_data c = Some [Byte.x01; Byte.x02; Byte.x03] /\ is_ready c = true.
Proof.
  apply (reassembly (zeros 16) BlockInfo.default sample_frames).
  - intros [|[|[|k]]] f [= <-]; repeat split.
  - done.
  - by vm_compute.
  - rewrite <- list_fmap_compose. apply (reverse_Permutation sample_frames).
Defined.

(** Every reachable channel satisfies the channel invariant: buffered
    frames are stored under their own number, carry the channel's id and do
    not exceed the highest frame number; the size estimate is the sum of the
    buffered frame sizes; an open channel holds no closing frame; a closed
    one holds exactly one, at [last_frame_number], with nothing beyond it. *)
Theorem channel_invariant c : reachable c -> inv c.
Proof. apply reachable_inv. Qed.

Lemma channel_invariant_witness :
  exists c, add_frame (new (zeros 16) BlockInfo.default)
              (sample_close 0 []) BlockInfo.default = Ok c /\ inv c.
Proof.
  eexists. split; [reflexivity|]. apply channel_invariant.
  apply (reachable_add (new (zeros 16) BlockInfo.default) (sample_close 0 []) BlockInfo.default);
    [apply reachable_new|done|reflexivity].
Defined.

(** A reachable channel that reports ready holds a complete sequence of
    frames (numbered from 0, only the final one closing), these are all its
    frames, and [frame_data] returns exactly their payloads in order. *)
Theorem ready_channel_data c :
  reachable c -> is_ready c = true ->
  exists fs, numbered (id c) fs /\
    (forall k f, inputs c !! k = Some f <-> 0 <= k /\ fs !! Z.to_nat k = Some f) /\
    frame_data c = Some (concat (Frame.data <$> fs)).
Proof.
  intros Hc%reachable_inv Hr. destruct (ready_frames c Hc Hr) as (fs & Hlen & Hfs).
  assert (closed c = true) as Hcl by (unfold is_ready in Hr; by destruct (closed c)).
  destruct (inv_closed c Hc Hcl) as (Hh & [fl Hl] & Hlast).
  exists fs. split; [|split].
  - intros k f Hk. destruct (inv_entry c Hc _ _ (Hfs k f Hk)) as (-> & -> & _).
    rewrite (Hlast _ _ (Hfs k f Hk)). repeat split. apply bool_decide_ext.
    unfold Prelude.len in Hlen. lia.
  - intros k f. split.
    + intros Hf. destruct (inv_entry c Hc k f Hf) as (_ & _ & Hk). split; [lia|].
      destruct (lookup_lt_is_Some_2 fs (Z.to_nat k)) as [g Hg]; [unfold Prelude.len in Hlen; lia|].
      pose proof (Hfs _ _ Hg) as Hf'. rewrite Z2Nat.id in Hf' by lia. congruence.
    + intros [Hk Hf]. rewrite <- (Hfs _ _ Hf). f_equal. lia.
  - apply frame_data_list; [|done|done]. intros E. by rewrite E, lookup_empty in Hl.
Qed.

Lemma ready_channel_data_witness :
  exists c, add_frame (new (zeros 16) BlockInfo.default)
              (sample_close 0 [Byte.x07]) BlockInfo.default = Ok c /\
    exists fs, numbered (id c) fs /\
      (forall k f, inputs c !! k = Some f <-> 0 <= k /\ fs !! Z.to_nat k = Some f) /\
      frame_data c = Some (concat (Frame.data <$> fs)).
Proof.
  eexists. split; [reflexivity|]. apply ready_channel_data.
  - apply (reachable_add (new (zeros 16) BlockInfo.default) (sample_close 0 [Byte.x07])
             BlockInfo.default); [apply reachable_new|done|reflexivity].
  - reflexivity.
Defined.

Lemma full_channel_never_ready_witness :
  exists c, add_frame (new (zeros 16) BlockInfo.default)
              (sample_close 65535 []) BlockInfo.default = Ok c /\
    is_ready c = false.
Proof.
  eexists. split; [reflexivity|]. apply full_channel_never_ready. reflexivity.
Defined.

End Channel.
