(* ===== verification/Upgrades.v ===== *)
(** * Network upgrades

    Models [src/crates/common/genesis/src/chain/upgrade.rs]: the upgrade
    enumeration and its two orderings, the genesis activation schedule
    ([UpgradeConfig]) and the process-global registry of runtime activation
    overrides signalled by the L1 contract ([RuntimeUpgradeRegistry]). *)

From S2P Require Import Prelude.
From Stdlib Require Import Ascii.

(** ** The upgrade enumeration *)

Inductive BaseUpgrade : Set :=
| Bedrock | Regolith | Canyon | Delta | Ecotone | Fjord | Granite | Holocene
| PectraBlobSchedule | Isthmus | Jovian | Azul | Beryl | Cobalt | Denim | Everest | Zenith.

#[global] Instance BaseUpgrade_eq_dec : EqDecision BaseUpgrade.
Proof. solve_decision. Defined.

(** Declaration order, the derived [Ord] of the Rust enum. *)
Definition upgrade_rank (u : BaseUpgrade) : nat :=
  match u with
  | Bedrock => 0 | Regolith => 1 | Canyon => 2 | Delta => 3 | Ecotone => 4
  | Fjord => 5 | Granite => 6 | Holocene => 7 | PectraBlobSchedule => 8
  | Isthmus => 9 | Jovian => 10 | Azul => 11 | Beryl => 12 | Cobalt => 13
  | Denim => 14 | Everest => 15 | Zenith => 16
  end.

Definition all_upgrades : list BaseUpgrade :=
  [Bedrock; Regolith; Canyon; Delta; Ecotone; Fjord; Granite; Holocene;
   PectraBlobSchedule; Isthmus; Jovian; Azul; Beryl; Cobalt; Denim; Everest; Zenith].

#[global] Instance BaseUpgrade_countable : Countable BaseUpgrade.
Proof.
  refine (inj_countable upgrade_rank (fun n => all_upgrades !! n) _).
  by intros [].
Defined.

Definition LATEST : BaseUpgrade := Beryl.

Definition EXECUTION_VARIANTS : list BaseUpgrade :=
  [Bedrock; Regolith; Canyon; Ecotone; Fjord; Granite; Holocene; Isthmus; Jovian;
   Azul; Beryl; Cobalt; Denim; Everest].

Definition CONTRACT_VARIANTS : list BaseUpgrade :=
  [Regolith; Canyon; Delta; Ecotone; Fjord; Granite; Holocene; PectraBlobSchedule;
   Isthmus; Jovian; Azul; Beryl; Cobalt; Denim; Everest].

Definition is_contract_backed (u : BaseUpgrade) : bool :=
  match u with
  | Bedrock | Zenith => false
  | _ => true
  end.

Definition execution_idx (u : BaseUpgrade) : option nat :=
  match u with
  | Bedrock => Some 0%nat
  | Regolith => Some 1%nat
  | Canyon => Some 2%nat
  | Ecotone => Some 3%nat
  | Fjord => Some 4%nat
  | Granite => Some 5%nat
  | Holocene => Some 6%nat
  | Isthmus => Some 7%nat
  | Jovian => Some 8%nat
  | Azul => Some 9%nat
  | Beryl => Some 10%nat
  | Cobalt => Some 11%nat
  | Denim => Some 12%nat
  | Everest => Some 13%nat
  | Delta | PectraBlobSchedule | Zenith => None
  end.

Definition is_execution (u : BaseUpgrade) : bool :=
  match execution_idx u with
  | Some _ => true
  | None => false
  end.

Definition contract_id (u : BaseUpgrade) : string :=
  match u with
  | Bedrock => "bedrock"
  | Regolith => "regolith"
  | Canyon => "canyon"
  | Delta => "delta"
  | Ecotone => "ecotone"
  | Fjord => "fjord"
  | Granite => "granite"
  | Holocene => "holocene"
  | PectraBlobSchedule => "pectra_blob_schedule"
  | Isthmus => "isthmus"
  | Jovian => "jovian"
  | Azul => "azul"
  | Beryl => "beryl"
  | Cobalt => "cobalt"
  | Denim => "denim"
  | Everest => "everest"
  | Zenith => "zenith"
  end.

(** ** Names

    [u8::is_ascii_whitespace] and [u8::to_ascii_lowercase] of the standard
    library; a character is its code. *)
Definition is_ascii_whitespace (a : ascii) : bool :=
  bool_decide (nat_of_ascii a ∈ [9; 10; 12; 13; 32]%nat).

Definition to_ascii_lowercase (a : ascii) : ascii :=
  let n := nat_of_ascii a in
  if (65 <=? n)%nat && (n <=? 90)%nat then ascii_of_nat (n + 32) else a.

Fixpoint normalized_hardfork_id (upgrade_id : string) : string :=
  match upgrade_id with
  | EmptyString => EmptyString
  | String b rest =>
      if negb (is_ascii_whitespace b) && negb (bool_decide (b ∈ ["_"; "-"]%char))
      then String (to_ascii_lowercase b) (normalized_hardfork_id rest)
      else normalized_hardfork_id rest
  end.

(** The match of [from_contract_fork_name], as its table of names. *)
Definition fork_names : list (string * BaseUpgrade) :=
  [("regolith", Regolith); ("shanghai", Canyon); ("canyon", Canyon); ("delta", Delta);
   ("cancun", Ecotone); ("ecotone", Ecotone); ("fjord", Fjord); ("granite", Granite);
   ("holocene", Holocene); ("pectrablobschedule", PectraBlobSchedule);
   ("prague", Isthmus); ("isthmus", Isthmus); ("jovian", Jovian);
   ("osaka", Azul); ("azul", Azul); ("baseazul", Azul); ("v1", Azul);
   ("beryl", Beryl); ("baseberyl", Beryl); ("v2", Beryl);
   ("cobalt", Cobalt); ("basecobalt", Cobalt); ("v3", Cobalt);
   ("denim", Denim); ("basedenim", Denim); ("everest", Everest); ("baseeverest", Everest)]%string.

Definition from_contract_fork_name (name : string) : option BaseUpgrade :=
  (list_to_map fork_names : gmap string BaseUpgrade) !! normalized_hardfork_id name.

(** ** Activations *)

Inductive UpgradeActivation : Set :=
| Never
| Timestamp (t : Z).

Definition from_timestamp (t : option Z) : UpgradeActivation :=
  match t with
  | Some t => Timestamp t
  | None => Never
  end.

Definition timestamp (a : UpgradeActivation) : option Z :=
  match a with
  | Never => None
  | Timestamp t => Some t
  end.

(** [UpgradeActivationOverrides]: activations keyed by upgrade. *)
Module Overrides.

Record t : Type := mk { activations : gmap BaseUpgrade UpgradeActivation }.

Definition new : t := mk ∅.

Definition is_empty (o : t) : bool := bool_decide (activations o = ∅).

Definition activation (o : t) (u : BaseUpgrade) : option UpgradeActivation :=
  activations o !! u.

Definition remove_activation (o : t) (u : BaseUpgrade) : bool * t :=
  (bool_decide (is_Some (activations o !! u)), mk (delete u (activations o))).

Definition set_activation (o : t) (u : BaseUpgrade) (a : UpgradeActivation) : t :=
  match u with
  | Zenith => o
  | _ => mk (<[u := a]> (activations o))
  end.

Definition set_activation_timestamp (o : t) (u : BaseUpgrade) (ts : Z) : t :=
  set_activation o u (Timestamp ts).

Definition clear_activation_timestamp (o : t) (u : BaseUpgrade) : t :=
  set_activation o u Never.

(** The entries in key order, as a [BTreeMap] is iterated. *)
Definition entries (o : t) : list (BaseUpgrade * UpgradeActivation) :=
  omap (fun u => (fun a => (u, a)) <$> activations o !! u) all_upgrades.

End Overrides.

(** ** The runtime registry

    The registry is one process-global map behind a lock; each operation takes
    the lock once, so an operation is one atomic step on [Registry.t]. *)
Module Registry.

(** [RuntimeUpgradeRegistryEntry]. *)
Record Entry : Type := entry {
  overrides_of : Overrides.t;
  last_updated_of : option Z
}.

Definition Entry_default : Entry := entry Overrides.new None.

Abbreviation t := (gmap Z Entry).

Definition activation (r : t) (chain_id : Z) (u : BaseUpgrade) : option UpgradeActivation :=
  e ← r !! chain_id; Overrides.activation (overrides_of e) u.

Definition overrides (r : t) (chain_id : Z) : option Overrides.t :=
  overrides_of <$> r !! chain_id.

Definition last_updated_block_number (r : t) (chain_id : Z) : option Z :=
  e ← r !! chain_id; last_updated_of e.

Definition replace_overrides (r : t) (chain_id l1_block_number : Z) (o : Overrides.t)
    : bool * t :=
  let stale :=
    match e ← r !! chain_id; last_updated_of e with
    | Some last_updated => bool_decide (l1_block_number < last_updated)
    | None => false
    end in
  if stale then (false, r)
  else (true, <[chain_id := entry o (Some l1_block_number)]> r).

Definition clear_chain (r : t) (chain_id : Z) : t := delete chain_id r.

Definition remove_activation_override (r : t) (chain_id : Z) (u : BaseUpgrade) : bool * t :=
  match r !! chain_id with
  | None => (false, r)
  | Some e =>
      let (removed, o) := Overrides.remove_activation (overrides_of e) u in
      (removed, <[chain_id := entry o (last_updated_of e)]> r)
  end.

Definition set_activation (r : t) (chain_id : Z) (u : BaseUpgrade) (a : UpgradeActivation) : t :=
  let e := default Entry_default (r !! chain_id) in
  <[chain_id := entry (Overrides.set_activation (overrides_of e) u a) (last_updated_of e)]> r.

Definition set_activation_timestamp (r : t) (chain_id : Z) (u : BaseUpgrade) (ts : Z) : t :=
  set_activation r chain_id u (Timestamp ts).

Definition clear_activation_timestamp (r : t) (chain_id : Z) (u : BaseUpgrade) : t :=
  set_activation r chain_id u Never.

(** The operations as one step relation, for statements over any interleaving
    of callers. *)
Inductive op : Type :=
| ReplaceOverrides (chain_id l1_block_number : Z) (o : Overrides.t)
| ClearChain (chain_id : Z)
| RemoveActivationOverride (chain_id : Z) (u : BaseUpgrade)
| SetActivation (chain_id : Z) (u : BaseUpgrade) (a : UpgradeActivation).

Definition apply (r : t) (o : op) : t :=
  match o with
  | ReplaceOverrides c n ov => (replace_overrides r c n ov).2
  | ClearChain c => clear_chain r c
  | RemoveActivationOverride c u => (remove_activation_override r c u).2
  | SetActivation c u a => set_activation r c u a
  end.

End Registry.

(** The registry the process is running with; functions that consult it take
    it as an implicit argument. *)
Class RuntimeUpgradeRegistry : Type := runtime_registry : Registry.t.

(** ** The genesis schedule *)

Module BaseUpgradeConfig.

Record t : Type := mk {
  azul : option Z;
  beryl : option Z;
  cobalt : option Z;
  denim : option Z;
  everest : option Z;
  zenith : option Z
}.

Definition default : t := mk None None None None None None.

Definition is_empty (c : t) : bool :=
  bool_decide (azul c = None) && bool_decide (beryl c = None) &&
  bool_decide (cobalt c = None) && bool_decide (denim c = None) &&
  bool_decide (everest c = None) && bool_decide (zenith c = None).

End BaseUpgradeConfig.

Module UpgradeConfig.

Record t : Type := mk {
  regolith_time : option Z;
  canyon_time : option Z;
  delta_time : option Z;
  ecotone_time : option Z;
  fjord_time : option Z;
  granite_time : option Z;
  holocene_time : option Z;
  pectra_blob_schedule_time : option Z;
  isthmus_time : option Z;
  jovian_time : option Z;
  base : BaseUpgradeConfig.t
}.

Definition default : t :=
  mk None None None None None None None None None None BaseUpgradeConfig.default.

Definition BASE_MAINNET : t :=
  mk (Some 1686789347) (Some 1704992401) (Some 1708560000) (Some 1710374401)
     (Some 1720627201) (Some 1726070401) (Some 1736445601) None
     (Some 1746806401) (Some 1764691201)
     (BaseUpgradeConfig.mk (Some 1779991200) (Some 1782410400) (Some 1790791200)
        (Some 1793901600) None None).

Definition BASE_SEPOLIA : t :=
  mk (Some 1695768288) (Some 1699981200) (Some 1703203200) (Some 1708534800)
     (Some 1716998400) (Some 1723478400) (Some 1732633200) (Some 1742486400)
     (Some 1744905600) (Some 1763568001)
     (BaseUpgradeConfig.mk (Some 1776708000) (Some 1781805600) (Some 1790186400)
        (Some 1792605600) None None).

Definition for_chain_id (chain_id : Z) : option t :=
  if decide (chain_id = 8453) then Some BASE_MAINNET
  else if decide (chain_id = 84532) then Some BASE_SEPOLIA
  else None.

(** The slot assignment shared by [set_activation_timestamp] and
    [clear_activation_timestamp]: the two matches differ only in the value. *)
Definition set_slot (c : t) (u : BaseUpgrade) (v : option Z) : t :=
  let '(mk r ca d e f g h p i j b) := c in
  let '(BaseUpgradeConfig.mk az be co de ev ze) := b in
  match u with
  | Bedrock => c
  | Regolith => mk v ca d e f g h p i j b
  | Canyon => mk r v d e f g h p i j b
  | Delta => mk r ca v e f g h p i j b
  | Ecotone => mk r ca d v f g h p i j b
  | Fjord => mk r ca d e v g h p i j b
  | Granite => mk r ca d e f v h p i j b
  | Holocene => mk r ca d e f g v p i j b
  | PectraBlobSchedule => mk r ca d e f g h v i j b
  | Isthmus => mk r ca d e f g h p v j b
  | Jovian => mk r ca d e f g h p i v b
  | Azul => mk r ca d e f g h p i j (BaseUpgradeConfig.mk v be co de ev ze)
  | Beryl => mk r ca d e f g h p i j (BaseUpgradeConfig.mk az v co de ev ze)
  | Cobalt => mk r ca d e f g h p i j (BaseUpgradeConfig.mk az be v de ev ze)
  | Denim => mk r ca d e f g h p i j (BaseUpgradeConfig.mk az be co v ev ze)
  | Everest => mk r ca d e f g h p i j (BaseUpgradeConfig.mk az be co de v ze)
  | Zenith => mk r ca d e f g h p i j (BaseUpgradeConfig.mk az be co de ev v)
  end.

Definition clear_activation_timestamps (c : t) : t := default.

Definition clear_activation_timestamp (c : t) (u : BaseUpgrade) : t := set_slot c u None.

Definition set_activation_timestamp (c : t) (u : BaseUpgrade) (ts : Z) : t :=
  set_slot c u (Some ts).

Definition set_activation (c : t) (u : BaseUpgrade) (a : UpgradeActivation) : t :=
  match a with
  | Never => clear_activation_timestamp c u
  | Timestamp ts => set_activation_timestamp c u ts
  end.

Definition apply_activation_overrides (c : t) (o : Overrides.t) : t :=
  foldl (fun c '(u, a) => set_activation c u a) c (Overrides.entries o).

Definition activation (c : t) (u : BaseUpgrade) : UpgradeActivation :=
  from_timestamp
    match u with
    | Bedrock => None
    | Regolith => regolith_time c
    | Canyon => canyon_time c
    | Delta => delta_time c
    | Ecotone => ecotone_time c
    | Fjord => fjord_time c
    | Granite => granite_time c
    | Holocene => holocene_time c
    | PectraBlobSchedule => pectra_blob_schedule_time c
    | Isthmus => isthmus_time c
    | Jovian => jovian_time c
    | Azul => BaseUpgradeConfig.azul (base c)
    | Beryl => BaseUpgradeConfig.beryl (base c)
    | Cobalt => BaseUpgradeConfig.cobalt (base c)
    | Denim => BaseUpgradeConfig.denim (base c)
    | Everest => BaseUpgradeConfig.everest (base c)
    | Zenith => BaseUpgradeConfig.zenith (base c)
    end.

Definition activation_timestamp (c : t) (u : BaseUpgrade) : option Z :=
  timestamp (activation c u).

Definition iter (c : t) : list (BaseUpgrade * option Z) :=
  (fun u => (u, activation_timestamp c u)) <$> CONTRACT_VARIANTS.

End UpgradeConfig.

(** [activation.is_some_and(|t| timestamp >= t)]. *)
Definition active_at (activation : option Z) (ts : Z) : bool :=
  match activation with
  | Some t => bool_decide (t <= ts)
  | None => false
  end.

(** [BaseUpgrade::from_chain_and_timestamp]. *)
Definition from_chain_and_timestamp `{RuntimeUpgradeRegistry} (chain_id ts : Z)
    : option BaseUpgrade :=
  config ← UpgradeConfig.for_chain_id chain_id;
  let config :=
    match Registry.overrides runtime_registry chain_id with
    | Some o => UpgradeConfig.apply_activation_overrides config o
    | None => config
    end in
  find (fun u => bool_decide (u = Bedrock) ||
                 active_at (UpgradeConfig.activation_timestamp config u) ts)
       (rev EXECUTION_VARIANTS).

(** ** Lemmas *)

Lemma active_at_mono a t t' : t <= t' -> active_at a t = true -> active_at a t' = true.
Proof.
  unfold active_at. destruct a; [|done]. rewrite !bool_decide_eq_true. lia.
Qed.

Lemma all_upgrades_complete u : u ∈ all_upgrades.
Proof. by destruct u; apply (bool_decide_unpack _). Qed.

Lemma all_upgrades_NoDup : NoDup all_upgrades.
Proof. by apply (bool_decide_unpack _). Qed.

Lemma set_slot_eq c u v :
  u <> Bedrock -> UpgradeConfig.activation (UpgradeConfig.set_slot c u v) u = from_timestamp v.
Proof. destruct c as [? ? ? ? ? ? ? ? ? ? []]. by destruct u. Qed.

Lemma set_slot_ne c u u' v :
  u <> u' ->
  UpgradeConfig.activation (UpgradeConfig.set_slot c u v) u' = UpgradeConfig.activation c u'.
Proof. destruct c as [? ? ? ? ? ? ? ? ? ? []]. by destruct u, u'. Qed.

Lemma set_activation_slot c u a :
  UpgradeConfig.set_activation c u a = UpgradeConfig.set_slot c u (timestamp a).
Proof. by destruct a. Qed.

Lemma from_timestamp_timestamp a : from_timestamp (timestamp a) = a.
Proof. by destruct a. Qed.

(** Setting the slots of a list of distinct upgrades. *)
Lemma foldl_set_activation m us c u :
  NoDup us -> u <> Bedrock ->
  UpgradeConfig.activation
    (foldl (fun c '(u, a) => UpgradeConfig.set_activation c u a) c
       (omap (fun u => (fun a => (u, a)) <$> (m : gmap BaseUpgrade UpgradeActivation) !! u) us)) u
  = if decide (u ∈ us) then default (UpgradeConfig.activation c u) (m !! u)
    else UpgradeConfig.activation c u.
Proof.
  intros Hnd Hu. revert c. induction Hnd as [|x us Hx Hnd IH]; intros c; [done|].
  simpl. destruct (m !! x) as [a|] eqn:Em; simpl; rewrite IH, ?set_activation_slot.
  - destruct (decide (u = x)) as [->|Hne].
    + rewrite decide_False by done. rewrite decide_True by set_solver.
      by rewrite set_slot_eq, Em, from_timestamp_timestamp.
    + rewrite set_slot_ne by done.
      by rewrite (decide_ext (u ∈ x :: us) (u ∈ us))
        by (rewrite elem_of_cons; tauto).
  - destruct (decide (u = x)) as [->|Hne].
    + rewrite decide_False by done. rewrite decide_True by set_solver. by rewrite Em.
    + by rewrite (decide_ext (u ∈ x :: us) (u ∈ us))
        by (rewrite elem_of_cons; tauto).
Qed.

(** Applying overrides: an overridden upgrade takes the override, every other
    one keeps its configured activation. *)
Lemma apply_activation_overrides_activation c o u :
  u <> Bedrock ->
  UpgradeConfig.activation (UpgradeConfig.apply_activation_overrides c o) u =
  default (UpgradeConfig.activation c u) (Overrides.activation o u).
Proof.
  intros Hu. unfold UpgradeConfig.apply_activation_overrides, Overrides.entries.
  rewrite foldl_set_activation by (apply all_upgrades_NoDup || done).
  by rewrite decide_True by apply all_upgrades_complete.
Qed.

Lemma normalized_char b :
  (negb (is_ascii_whitespace b) && negb (bool_decide (b ∈ ["_"; "-"]%char))) = true ->
  (negb (is_ascii_whitespace (to_ascii_lowercase b)) &&
   negb (bool_decide (to_ascii_lowercase b ∈ ["_"; "-"]%char))) = true /\
  to_ascii_lowercase (to_ascii_lowercase b) = to_ascii_lowercase b.
Proof. destruct b as [[] [] [] [] [] [] [] []]; vm_compute; intros E;
  first [discriminate E | split; reflexivity]. Qed.

Lemma normalized_hardfork_id_idem s :
  normalized_hardfork_id (normalized_hardfork_id s) = normalized_hardfork_id s.
Proof.
  induction s as [|b s IH]; [done|]. cbn [normalized_hardfork_id].
  destruct (negb _ && negb _) eqn:E; [|done]. cbn [normalized_hardfork_id].
  destruct (normalized_char b E) as [-> ->]. by rewrite IH.
Qed.

(** The chain an operation touches, and what the others leave alone. *)
Definition op_chain (o : Registry.op) : Z :=
  match o with
  | Registry.ReplaceOverrides c _ _ | Registry.ClearChain c
  | Registry.RemoveActivationOverride c _ | Registry.SetActivation c _ _ => c
  end.

Lemma apply_other_chain r o c : op_chain o <> c -> Registry.apply r o !! c = r !! c.
Proof.
  destruct o as [c' n ov|c'|c' u|c' u a]; simpl; intros Hne.
  - unfold Registry.replace_overrides; cbv zeta.
    destruct (r !! c') as [[? [?|]]|]; simpl; try case_bool_decide; simpl;
      by rewrite ?lookup_insert_ne.
  - by apply lookup_delete_ne.
  - unfold Registry.remove_activation_override. destruct (r !! c'); [|done].
    simpl. by rewrite lookup_insert_ne.
  - by apply lookup_insert_ne.
Qed.

(** What the registry holds for a chain that only [replace_overrides] writes. *)
Definition newest (c : Z) (ops : list Registry.op) (e : option Registry.Entry) : Prop :=
  match e with
  | None => forall n o, Registry.ReplaceOverrides c n o ∉ ops
  | Some e => exists n, Registry.last_updated_of e = Some n /\
      Registry.ReplaceOverrides c n (Registry.overrides_of e) ∈ ops /\
      forall n' o', Registry.ReplaceOverrides c n' o' ∈ ops -> n' <= n
  end.

Lemma newest_other c ops o e :
  op_chain o <> c -> newest c ops e -> newest c (ops ++ [o]) e.
Proof.
  intros Hne. assert (forall n ov, Registry.ReplaceOverrides c n ov <> o) as Ho by (by intros n ov <-).
  destruct e as [e|]; simpl; [|set_solver].
  intros (n & ? & ? & ?). exists n. split; [done|]. split; set_solver.
Qed.

Lemma newest_replace c ops r n o :
  newest c ops (r !! c) ->
  newest c (ops ++ [Registry.ReplaceOverrides c n o])
    (Registry.apply r (Registry.ReplaceOverrides c n o) !! c).
Proof.
  simpl. unfold Registry.replace_overrides. destruct (r !! c) as [e|] eqn:E; simpl.
  - intros (m & Hm & Hin & Hmax). rewrite Hm. case_bool_decide; simpl.
    + rewrite E. exists m. split; [done|]. split; [set_solver|].
      intros n' o' [?|[= -> ->]%list_elem_of_singleton]%elem_of_app; [eauto|lia].
    + rewrite lookup_insert_eq. exists n. split; [done|]. split; [set_solver|].
      intros n' o' [Hi|[= -> ->]%list_elem_of_singleton]%elem_of_app; [|lia].
      specialize (Hmax n' o' Hi). lia.
  - intros Hno. rewrite lookup_insert_eq. exists n. split; [done|]. split; [set_solver|].
    intros n' o' [Hi|[= -> ->]%list_elem_of_singleton]%elem_of_app; [by apply Hno in Hi|lia].
Qed.

(** ** Properties *)

(** A contract upgrade id resolves to its own upgrade through
    [from_contract_fork_name] exactly when the upgrade is contract-backed, and
    resolution ignores case, white space, underscores and dashes. *)
Theorem contract_names u name :
  from_contract_fork_name (contract_id u) = (if is_contract_backed u then Some u else None) /\
  from_contract_fork_name (normalized_hardfork_id name) = from_contract_fork_name name.
Proof.
  split; [by destruct u|].
  unfold from_contract_fork_name. by rewrite normalized_hardfork_id_idem.
Qed.

(** For a chain whose overrides are only replaced (never cleared or
    edited), the registry holds, after any interleaving with operations on
    other chains, the overrides of a replacement with the highest L1 block
    number seen, and it holds nothing only if there was no replacement: a
    stale schedule never overwrites a newer one. *)
Theorem registry_keeps_newest c ops :
  Forall (fun o => op_chain o = c -> exists n ov, o = Registry.ReplaceOverrides c n ov) ops ->
  newest c ops (foldl Registry.apply ∅ ops !! c).
Proof.
  induction ops as [|o ops IH] using rev_ind; intros Hops.
  - cbn [foldl]. rewrite lookup_empty. intros n o. set_solver.
  - apply Forall_app in Hops as [Hops Ho]. apply Forall_inv in Ho.
    specialize (IH Hops). rewrite foldl_snoc.
    destruct (decide (op_chain o = c)) as [Hc|Hc].
    + destruct (Ho Hc) as (n & ov & ->). by apply newest_replace.
    + rewrite apply_other_chain by done. by apply newest_other.
Qed.

Lemma registry_keeps_newest_witness :
  let o := Overrides.set_activation_timestamp Overrides.new Denim 100 in
  let ops := [Registry.ReplaceOverrides 8453 20 o; Registry.ClearChain 10;
              Registry.ReplaceOverrides 8453 12 Overrides.new] in
  newest 8453 ops (Some (Registry.entry o (Some 20))).
Proof.
  intros o ops. apply (registry_keeps_newest 8453 ops).
  repeat apply Forall_cons_2; [| | |apply Forall_nil_2]; simpl; try done; eauto.
Defined.
