(* ===== verification/SystemConfig.v ===== *)
(** * System configuration updates

    Models [src/crates/common/genesis/src/system/] and [.../updates/]: the L2
    system configuration and the processing of the [ConfigUpdate] event logs
    the L1 SystemConfig contract emits.  Solidity ABI decoding is the
    third-party crate [alloy_sol_types]; it enters through the class [Abi]. *)

From S2P Require Import Prelude Primitives.

(** ** ABI decoding

    [<sol!(uintN)>::abi_decode_validate] and
    [<sol!(address)>::abi_decode_validate] on one 32-byte word: [None] is an
    [Err]. *)
Class Abi : Type := {
  abi_decode_uint : Z -> bytes -> option Z;
  abi_decode_address : bytes -> option bytes
}.

(** The ABI specification of the two static types: a word is its big-endian
    value, valid when it fits the type. *)
Class AbiLaws (A : Abi) : Prop := {
  abi_uint_word bits w :
    length w = 32%nat ->
    abi_decode_uint bits w =
      if decide (from_be_bytes w < 2 ^ bits) then Some (from_be_bytes w) else None;
  abi_address_word a :
    length a = 20%nat -> abi_decode_address (zeros 12 ++ a) = Some a
}.

(** An implementation of the specification, used to evaluate the model. *)
Definition word_abi : Abi := {|
  abi_decode_uint bits w :=
    if decide (from_be_bytes w < 2 ^ bits) then Some (from_be_bytes w) else None;
  abi_decode_address w :=
    if decide (take 12 w = zeros 12) then Some (drop 12 w) else None
|}.

(** ** The configuration *)

Module SystemConfig.

Record t : Type := mk {
  batcher_address : Address;
  overhead : Z;
  scalar : Z;
  gas_limit : Z;
  base_fee_scalar : option Z;
  blob_base_fee_scalar : option Z;
  eip1559_denominator : option Z;
  eip1559_elasticity : option Z;
  operator_fee_scalar : option Z;
  operator_fee_constant : option Z;
  min_base_fee : option Z;
  da_footprint_gas_scalar : option Z
}.

Definition default : t :=
  mk Address_ZERO 0 0 0 None None None None None None None None.

End SystemConfig.

(** ** Updates *)

Inductive SystemConfigUpdateKind : Set :=
| KBatcher | KGasConfig | KGasLimit | KUnsafeBlockSigner | KEip1559 | KOperatorFee
| KMinBaseFee | KDaFootprintGasScalar.

#[global] Instance SystemConfigUpdateKind_eq_dec : EqDecision SystemConfigUpdateKind.
Proof. solve_decision. Defined.

(** The discriminants of the [repr(u64)] enum. *)
Definition kind_repr (k : SystemConfigUpdateKind) : Z :=
  match k with
  | KBatcher => 0
  | KGasConfig => 1
  | KGasLimit => 2
  | KUnsafeBlockSigner => 3
  | KEip1559 => 4
  | KOperatorFee => 5
  | KMinBaseFee => 6
  | KDaFootprintGasScalar => 7
  end.

Definition kind_try_from (z : Z) : option SystemConfigUpdateKind :=
  [KBatcher; KGasConfig; KGasLimit; KUnsafeBlockSigner; KEip1559; KOperatorFee;
   KMinBaseFee; KDaFootprintGasScalar] !! Z.to_nat z.

(** One constructor per update struct; the fields are the struct's. *)
Inductive SystemConfigUpdate : Type :=
| BatcherUpdate (batcher_address : Address)
| GasConfigUpdate (scalar overhead : option Z)
| GasLimitUpdate (gas_limit : Z)
| UnsafeBlockSignerUpdate (unsafe_block_signer : Address)
| Eip1559Update (eip1559_denominator eip1559_elasticity : Z)
| OperatorFeeUpdate (operator_fee_scalar operator_fee_constant : Z)
| MinBaseFeeUpdate (min_base_fee : Z)
| DaFootprintGasScalarUpdate (da_footprint_gas_scalar : Z).

Definition TOPIC : B256 :=
  to_be_bytes 32 0x1d2b0bda21d56b8bd12d4f94ebacffdfb35f5e226f84b461103bb8beab6353be.

Definition EVENT_VERSION_0 : B256 := B256_ZERO.

Definition DEFAULT_DA_FOOTPRINT_GAS_SCALAR : Z := 400.

Definition update_kind (u : SystemConfigUpdate) : SystemConfigUpdateKind :=
  match u with
  | BatcherUpdate _ => KBatcher
  | GasConfigUpdate _ _ => KGasConfig
  | GasLimitUpdate _ => KGasLimit
  | UnsafeBlockSignerUpdate _ => KUnsafeBlockSigner
  | Eip1559Update _ _ => KEip1559
  | OperatorFeeUpdate _ _ => KOperatorFee
  | MinBaseFeeUpdate _ => KMinBaseFee
  | DaFootprintGasScalarUpdate _ => KDaFootprintGasScalar
  end.

(** The [apply] methods of the update structs, dispatched as in
    [SystemConfigUpdate::apply]. *)
Definition update_apply (u : SystemConfigUpdate) (config : SystemConfig.t) : SystemConfig.t :=
  let '(SystemConfig.mk ba ov sc gl bf bbf ed ee os oc mb da) := config in
  match u with
  | BatcherUpdate a => SystemConfig.mk a ov sc gl bf bbf ed ee os oc mb da
  | GasConfigUpdate s o =>
      SystemConfig.mk ba (default ov o) (default sc s) gl bf bbf ed ee os oc mb da
  | GasLimitUpdate g => SystemConfig.mk ba ov sc g bf bbf ed ee os oc mb da
  | UnsafeBlockSignerUpdate _ => config
  | Eip1559Update d e => SystemConfig.mk ba ov sc gl bf bbf (Some d) (Some e) os oc mb da
  | OperatorFeeUpdate s c => SystemConfig.mk ba ov sc gl bf bbf ed ee (Some s) (Some c) mb da
  | MinBaseFeeUpdate m => SystemConfig.mk ba ov sc gl bf bbf ed ee os oc (Some m) da
  | DaFootprintGasScalarUpdate d =>
      let d := if decide (d = 0) then DEFAULT_DA_FOOTPRINT_GAS_SCALAR else d in
      SystemConfig.mk ba ov sc gl bf bbf ed ee os oc mb (Some d)
  end.

(** ** Errors *)

Inductive LogProcessingError : Type :=
| InvalidTopicLen (n : Z)
| InvalidTopic
| UnsupportedVersion (v : B256)
| UpdateTypeDecodingError
| InvalidSystemConfigUpdateType (ty : Z).

(** The value a [...DecodingError] of one of the update error enums names. *)
Inductive UpdateField : Set :=
| FBatcherAddress | FUnsafeBlockSignerAddress | FOverhead | FScalar | FGasLimit
| FEip1559 | FMinBaseFee | FDaFootprintGasScalar.

(** The variants the per-kind error enums share ([ValidationError] has the
    first five), followed by the decoding errors of their own values. *)
Inductive UpdateDataError : Type :=
| InvalidDataLen (n : Z)
| PointerDecodingError
| InvalidDataPointer (p : Z)
| LengthDecodingError
| InvalidDataLength (l : Z)
| ValueDecodingError (f : UpdateField).

(** [SystemConfigUpdateError]: one wrapper per kind. *)
Inductive SystemConfigUpdateError : Type :=
| LogProcessing (e : LogProcessingError)
| UpdateFailed (k : SystemConfigUpdateKind) (e : UpdateDataError).

(** ** Log decoding *)

Definition check_ecotone_l1_system_config_scalar (scalar : bytes) : result string () :=
  version_byte ← or_panic (index scalar 0);
  if decide (byte.unsigned version_byte = 0) then
    pad ← or_panic (slice scalar 1 28);
    if decide (pad <> zeros 27) then Err "Bedrock scalar padding not empty"%string else Ok ()
  else if decide (byte.unsigned version_byte = 1) then
    pad ← or_panic (slice scalar 1 24);
    if decide (pad <> zeros 23) then Err "Invalid version 1 scalar padding"%string else Ok ()
  else Err "Unrecognized scalar version"%string.

Section decoding.
Context `{Abi}.

(** The three checks every update starts with: total length, pointer, length
    field ([UpdateDataValidator::validate], repeated inline by the gas
    config, gas limit, minimum base fee and DA footprint updates). *)
Definition validate_update_data (data_len field_len : Z) (data : bytes)
    : result UpdateDataError () :=
  if decide (len data <> data_len) then Err (InvalidDataLen (len data)) else
  w0 ← or_panic (slice data 0 32);
  pointer ← ok_or PointerDecodingError (abi_decode_uint 64 w0);
  if decide (pointer <> 32) then Err (InvalidDataPointer pointer) else
  w1 ← or_panic (slice data 32 64);
  length ← ok_or LengthDecodingError (abi_decode_uint 64 w1);
  if decide (length <> field_len) then Err (InvalidDataLength length) else
  Ok ().

(** [UpdateDataValidator::validate] followed by [payload()]. *)
Definition validated_payload (data : bytes) : result UpdateDataError bytes :=
  _ ← validate_update_data 96 32 data;
  or_panic (slice data 64 (len data)).

(** [BatcherUpdate::try_from]. *)
Definition batcher_try_from (data : bytes) : result UpdateDataError SystemConfigUpdate :=
  payload ← validated_payload data;
  a ← ok_or (ValueDecodingError FBatcherAddress) (abi_decode_address payload);
  Ok (BatcherUpdate a).

(** [UnsafeBlockSignerUpdate::try_from]. *)
Definition signer_try_from (data : bytes) : result UpdateDataError SystemConfigUpdate :=
  payload ← validated_payload data;
  a ← ok_or (ValueDecodingError FUnsafeBlockSignerAddress) (abi_decode_address payload);
  Ok (UnsafeBlockSignerUpdate a).

(** [GasConfigUpdate::try_from]. *)
Definition gas_config_try_from (ecotone_active : bool) (data : bytes)
    : result UpdateDataError SystemConfigUpdate :=
  _ ← validate_update_data 128 64 data;
  w2 ← or_panic (slice data 64 96);
  overhead ← ok_or (ValueDecodingError FOverhead) (abi_decode_uint 256 w2);
  w3 ← or_panic (slice data 96 (len data));
  scalar ← ok_or (ValueDecodingError FScalar) (abi_decode_uint 256 w3);
  invalid ← (if ecotone_active
             then match check_ecotone_l1_system_config_scalar (to_be_bytes 32 scalar) with
                  | Ok _ => Ok false
                  | Err _ => Ok true
                  | Panic => Panic
                  end
             else Ok false);
  if (invalid : bool) then Ok (GasConfigUpdate None None) else
  let overhead := if ecotone_active then 0 else overhead in
  Ok (GasConfigUpdate (Some scalar) (Some overhead)).

(** [GasLimitUpdate::try_from]. *)
Definition gas_limit_try_from (data : bytes) : result UpdateDataError SystemConfigUpdate :=
  _ ← validate_update_data 96 32 data;
  w ← or_panic (slice data 64 (len data));
  gas_limit ← ok_or (ValueDecodingError FGasLimit) (abi_decode_uint 256 w);
  if decide (u64_max < gas_limit) then Err (ValueDecodingError FGasLimit)
  else Ok (GasLimitUpdate gas_limit).

(** [Eip1559Update::try_from]. *)
Definition eip1559_try_from (data : bytes) : result UpdateDataError SystemConfigUpdate :=
  payload ← validated_payload data;
  params ← ok_or (ValueDecodingError FEip1559) (abi_decode_uint 64 payload);
  Ok (Eip1559Update (wrap 32 (Z.shiftr params 32)) (wrap 32 params)).

(** [OperatorFeeUpdate::try_from]. *)
Definition operator_fee_try_from (data : bytes) : result UpdateDataError SystemConfigUpdate :=
  payload ← validated_payload data;
  s ← or_panic (slice payload 20 24);
  c ← or_panic (slice payload 24 32);
  Ok (OperatorFeeUpdate (from_be_bytes s) (from_be_bytes c)).

(** [MinBaseFeeUpdate::try_from]. *)
Definition min_base_fee_try_from (data : bytes) : result UpdateDataError SystemConfigUpdate :=
  _ ← validate_update_data 96 32 data;
  w ← or_panic (slice data 64 96);
  m ← ok_or (ValueDecodingError FMinBaseFee) (abi_decode_uint 64 w);
  Ok (MinBaseFeeUpdate m).

(** [DaFootprintGasScalarUpdate::try_from]. *)
Definition da_footprint_try_from (data : bytes) : result UpdateDataError SystemConfigUpdate :=
  _ ← validate_update_data 96 32 data;
  w ← or_panic (slice data 64 96);
  d ← ok_or (ValueDecodingError FDaFootprintGasScalar) (abi_decode_uint 16 w);
  Ok (DaFootprintGasScalarUpdate d).

(** [SystemConfigLog::validate_topic], [validate_version], [update_type]. *)
Definition validate_topic (log : Log.t) : result LogProcessingError () :=
  if decide (len (Log.topics log) < 3) then Err (InvalidTopicLen (len (Log.topics log))) else
  t0 ← or_panic (index (Log.topics log) 0);
  if decide (t0 <> TOPIC) then Err InvalidTopic else Ok ().

Definition validate_version (log : Log.t) : result LogProcessingError () :=
  version ← or_panic (index (Log.topics log) 1);
  if decide (version <> EVENT_VERSION_0) then Err (UnsupportedVersion version) else Ok ().

Definition update_type (log : Log.t) : result LogProcessingError SystemConfigUpdateKind :=
  if decide (len (Log.topics log) < 3) then Err (InvalidTopicLen (len (Log.topics log))) else
  topic ← or_panic (index (Log.topics log) 2);
  topic_bytes ← or_panic (slice topic 24 (len topic));
  if decide (len topic_bytes <> 8) then Err UpdateTypeDecodingError else
  let ty := from_be_bytes topic_bytes in
  ok_or (InvalidSystemConfigUpdateType ty) (kind_try_from ty).

(** [SystemConfigLog::build]. *)
Definition build (log : Log.t) (ecotone_active : bool)
    : result SystemConfigUpdateError SystemConfigUpdate :=
  _ ← map_err LogProcessing (validate_topic log);
  _ ← map_err LogProcessing (validate_version log);
  kind ← map_err LogProcessing (update_type log);
  map_err (UpdateFailed kind)
    match kind with
    | KBatcher => batcher_try_from (Log.data log)
    | KGasConfig => gas_config_try_from ecotone_active (Log.data log)
    | KGasLimit => gas_limit_try_from (Log.data log)
    | KEip1559 => eip1559_try_from (Log.data log)
    | KOperatorFee => operator_fee_try_from (Log.data log)
    | KUnsafeBlockSigner => signer_try_from (Log.data log)
    | KMinBaseFee => min_base_fee_try_from (Log.data log)
    | KDaFootprintGasScalar => da_footprint_try_from (Log.data log)
    end.

(** [SystemConfig::process_config_update_log]: the outcome and the
    configuration afterwards. *)
Definition process_config_update_log (config : SystemConfig.t) (log : Log.t)
    (ecotone_active : bool)
    : result SystemConfigUpdateError SystemConfigUpdateKind * SystemConfig.t :=
  match build log ecotone_active with
  | Ok update => (Ok (update_kind update), update_apply update config)
  | Err e => (Err e, config)
  | Panic => (Panic, config)
  end.

(** The logs [update_with_receipts] looks at. *)
Definition is_config_update_log (address : Address) (log : Log.t) : bool :=
  bool_decide (Log.address log = address) &&
  match Log.topics log with
  | [] => false
  | t :: _ => bool_decide (t = TOPIC)
  end.

Definition config_update_logs (receipts : list Receipt.t) (address : Address) : list Log.t :=
  List.filter (is_config_update_log address)
    (concat (map Receipt.logs (List.filter Receipt.status receipts))).

Fixpoint process_logs (config : SystemConfig.t) (ecotone_active : bool) (logs : list Log.t)
    (acc : list SystemConfigUpdateKind * list SystemConfigUpdateError)
    : result () (SystemConfig.t * (list SystemConfigUpdateKind * list SystemConfigUpdateError)) :=
  match logs with
  | [] => Ok (config, acc)
  | log :: logs =>
      let '(updates, errors) := acc in
      let (outcome, config) := process_config_update_log config log ecotone_active in
      match outcome with
      | Ok kind => process_logs config ecotone_active logs (updates ++ [kind], errors)
      | Err e => process_logs config ecotone_active logs (updates, errors ++ [e])
      | Panic => Panic
      end
  end.

(** [SystemConfig::update_with_receipts]. *)
Definition update_with_receipts (config : SystemConfig.t) (receipts : list Receipt.t)
    (l1_system_config_address : Address) (ecotone_active : bool)
    : result () (SystemConfig.t * (list SystemConfigUpdateKind * list SystemConfigUpdateError)) :=
  process_logs config ecotone_active (config_update_logs receipts l1_system_config_address)
    ([], []).

End decoding.

(** ** Lemmas *)

(** A valid Ecotone scalar: version 0 with the base fee scalar in the low 4
    bytes, or version 1 with both scalars in the low 8 bytes. *)
Definition ecotone_scalar (s : Z) : Prop := s < 2 ^ 32 \/ 2 ^ 248 <= s < 2 ^ 248 + 2 ^ 64.

#[global] Instance ecotone_scalar_dec s : Decision (ecotone_scalar s).
Proof. unfold ecotone_scalar. apply _. Defined.

Lemma from_be_bytes_cons v rest :
  from_be_bytes (v :: rest) = byte.unsigned v * 2 ^ (8 * len rest) + from_be_bytes rest.
Proof.
  change (v :: rest) with ([v] ++ rest). rewrite from_be_bytes_app.
  unfold from_be_bytes at 1. simpl rev. by rewrite le_combine_1.
Qed.

(** The padding after the version byte is empty exactly when the value fits
    the bytes that follow it. *)
Lemma padding_zero (v : byte) (rest : bytes) (k : nat) :
  (k <= length rest)%nat ->
  slice (v :: rest) 1 (1 + Z.of_nat k) = Some (take k rest) /\
  (take k rest = zeros k <-> from_be_bytes rest < 2 ^ (8 * (len rest - Z.of_nat k))).
Proof.
  intros Hk. split.
  - unfold slice. rewrite decide_True by (rewrite len_cons; unfold len; lia).
    change (Z.to_nat 1) with 1%nat. by replace (Z.to_nat (1 + Z.of_nat k - 1)) with k by lia.
  - pose proof (from_be_bytes_bound (take k rest)) as [Hp _].
    pose proof (from_be_bytes_bound (drop k rest)) as Hd.
    rewrite <- (take_drop k rest) at 2. rewrite from_be_bytes_app.
    replace (len (drop k rest)) with (len rest - Z.of_nat k) in *
      by (unfold len; rewrite length_drop; lia).
    rewrite <- (length_take_le rest k) at 2 by done.
    rewrite <- from_be_bytes_zero_iff. nia.
Qed.

Lemma check_ecotone_spec s :
  0 <= s < 2 ^ 256 ->
  match check_ecotone_l1_system_config_scalar (to_be_bytes 32 s) with
  | Ok _ => ecotone_scalar s
  | Err _ => ~ ecotone_scalar s
  | Panic => False
  end.
Proof.
  intros Hs. pose proof (length_to_be_bytes 32 s) as Hl.
  pose proof (from_to_be_bytes 32 s Hs) as Hv.
  destruct (to_be_bytes 32 s) as [|v rest]; [done|]. injection Hl as Hl.
  pose proof (byte.unsigned_range v) as Hr. rewrite from_be_bytes_cons in Hv.
  pose proof (from_be_bytes_bound rest) as Hb.
  destruct (padding_zero v rest 27) as [S27 P27]; [lia|].
  destruct (padding_zero v rest 23) as [S23 P23]; [lia|].
  unfold len in *. rewrite Hl in *.
  unfold check_ecotone_l1_system_config_scalar, ecotone_scalar.
  change (index (v :: rest) 0) with (Some v).
  change (1 + Z.of_nat 27) with 28 in S27. change (1 + Z.of_nat 23) with 24 in S23.
  cbn [or_panic mbind result_bind]. rewrite S27, S23. cbn [or_panic mbind result_bind].
  change (8 * Z.of_nat 31) with 248 in *.
  change (8 * (Z.of_nat 31 - Z.of_nat 27)) with 32 in P27.
  change (8 * (Z.of_nat 31 - Z.of_nat 23)) with 64 in P23.
  case_decide as V0; [case_decide as Hz; rewrite P27 in Hz; lia|].
  case_decide as V1; [case_decide as Hz; rewrite P23 in Hz; lia|]. lia.
Qed.

(** *** No log makes the processing panic *)

Definition wf_log (log : Log.t) : Prop := Forall (fun t : B256 => length t = 32%nat) (Log.topics log).

Section total.
Context `{Abi}.

Lemma validate_update_data_total n m data :
  64 <= n -> validate_update_data n m data <> Panic /\
  (forall u, validate_update_data n m data = Ok u -> len data = n).
Proof.
  intros Hn. unfold validate_update_data. case_decide as Hl; [by split|].
  destruct (slice_in_range data 0 32) as [w0 ->]; [lia..|].
  destruct (slice_in_range data 32 64) as [w1 ->]; [lia..|]. cbn.
  destruct (abi_decode_uint 64 w0); cbn; [|done]. case_decide; [done|].
  destruct (abi_decode_uint 64 w1); cbn; [|done]. case_decide; [done|].
  by split.
Qed.

Lemma validated_payload_total data :
  validated_payload data <> Panic /\
  (forall p, validated_payload data = Ok p -> len p = 32).
Proof.
  unfold validated_payload.
  destruct (validate_update_data_total 96 32 data) as [Hp Hok]; [lia|].
  destruct (validate_update_data 96 32 data) as [u| |]; [|done|done].
  specialize (Hok u eq_refl). cbn.
  destruct (slice_in_range data 64 (len data)) as [w Hw]; [lia..|].
  rewrite Hw. split; [done|]. intros p [= <-].
  apply slice_Some in Hw as (_ & _ & ->). lia.
Qed.

Lemma gas_config_total e data : gas_config_try_from e data <> Panic.
Proof.
  unfold gas_config_try_from.
  destruct (validate_update_data_total 128 64 data) as [Hp Hok]; [lia|].
  destruct (validate_update_data 128 64 data) as [u| |]; [|done|done].
  specialize (Hok u eq_refl). cbn.
  destruct (slice_in_range data 64 96) as [w2 ->]; [lia..|].
  destruct (slice_in_range data 96 (len data)) as [w3 ->]; [lia..|]. cbn.
  destruct (abi_decode_uint 256 w2); cbn; [|done].
  destruct (abi_decode_uint 256 w3) as [s|]; cbn; [|done].
  destruct e; [|done].
  destruct (check_ecotone_l1_system_config_scalar (to_be_bytes 32 s)) eqn:E; [done..|].
  exfalso. revert E. unfold check_ecotone_l1_system_config_scalar.
  pose proof (len_to_be_bytes 32 s) as Hl.
  destruct (index_in_range (to_be_bytes 32 s) 0) as [v ->]; [lia|].
  destruct (slice_in_range (to_be_bytes 32 s) 1 28) as [p ->]; [lia..|].
  destruct (slice_in_range (to_be_bytes 32 s) 1 24) as [q ->]; [lia..|]. cbn.
  by repeat case_decide.
Qed.

(** The decoders that read one word after the common checks. *)
Lemma one_word_total (f : bytes -> result UpdateDataError SystemConfigUpdate) data :
  (forall w, f w <> Panic) ->
  (_ ← validate_update_data 96 32 data; w ← or_panic (slice data 64 96); f w) <> Panic.
Proof.
  intros Hf. destruct (validate_update_data_total 96 32 data) as [Hp Hok]; [lia|].
  destruct (validate_update_data 96 32 data) as [u| |]; [|done|done].
  specialize (Hok u eq_refl). cbn.
  destruct (slice_in_range data 64 96) as [w ->]; [lia..|]. apply Hf.
Qed.

Lemma payload_total (f : bytes -> result UpdateDataError SystemConfigUpdate) data :
  (forall w, len w = 32 -> f w <> Panic) -> (p ← validated_payload data; f p) <> Panic.
Proof.
  intros Hf. destruct (validated_payload_total data) as [Hp Hok].
  destruct (validated_payload data) as [p| |]; [|done|done].
  apply Hf. by apply Hok.
Qed.

Lemma update_type_total log : wf_log log -> update_type log <> Panic.
Proof.
  intros Hwf. unfold update_type. case_decide; [done|].
  destruct (index_in_range (Log.topics log) 2) as [t Ht]; [lia|]. rewrite Ht. cbn.
  assert (len t = 32) as Hl.
  { unfold index in Ht. case_decide; [|done].
    unfold len. by rewrite (Forall_lookup_1 _ _ _ _ Hwf Ht). }
  destruct (slice_in_range t 24 (len t)) as [b ->]; [lia..|]. cbn.
  case_decide; [done|]. by destruct (kind_try_from _).
Qed.

Lemma build_total log e : wf_log log -> build log e <> Panic.
Proof.
  intros Hwf. unfold build.
  assert (validate_topic log <> Panic /\ (is_ok (validate_topic log) -> 3 <= len (Log.topics log)))
    as [Ht Hlen].
  { unfold validate_topic. case_decide; [done|].
    destruct (index_in_range (Log.topics log) 0) as [t ->]; [lia|]. cbn.
    case_decide; (split; [done|]; lia). }
  destruct (validate_topic log); [|done|done]. specialize (Hlen I). cbn.
  unfold validate_version.
  destruct (index_in_range (Log.topics log) 1) as [v ->]; [lia|]. cbn.
  case_decide; cbn; [done|].
  pose proof (update_type_total log Hwf) as Hu.
  destruct (update_type log) as [k| |]; [|done|done]. cbn.
  assert (forall r : result UpdateDataError SystemConfigUpdate,
    r <> Panic -> map_err (UpdateFailed k) r <> Panic) as Hm by (by intros []).
  apply Hm. destruct k.
  - apply payload_total. intros w _. by destruct (abi_decode_address w).
  - apply gas_config_total.
  - unfold gas_limit_try_from.
    destruct (validate_update_data_total 96 32 (Log.data log)) as [Hp Hok]; [lia|].
    destruct (validate_update_data 96 32 (Log.data log)) as [u| |]; [|done|done].
    specialize (Hok u eq_refl). cbn. rewrite Hok.
    destruct (slice_in_range (Log.data log) 64 96) as [w ->]; [lia..|]. cbn.
    destruct (abi_decode_uint 256 w); cbn; [|done]. by case_decide.
  - apply payload_total. intros w _. by destruct (abi_decode_address w).
  - apply payload_total. intros w _. by destruct (abi_decode_uint 64 w).
  - apply payload_total. intros w Hw.
    destruct (slice_in_range w 20 24) as [s ->]; [lia..|].
    by destruct (slice_in_range w 24 32) as [c ->]; [lia..|].
  - apply one_word_total. intros w. by destruct (abi_decode_uint 64 w).
  - apply one_word_total. intros w. by destruct (abi_decode_uint 16 w).
Qed.

End total.

(** *** Reading back the contract's events *)

(** The event the L1 contract emits for an update: three topics and the
    ABI-encoded [bytes] argument. *)
Definition word (z : Z) : bytes := to_be_bytes 32 z.

Definition update_payload (u : SystemConfigUpdate) : bytes :=
  match u with
  | BatcherUpdate a | UnsafeBlockSignerUpdate a => zeros 12 ++ a
  | GasConfigUpdate s o => word (default 0 o) ++ word (default 0 s)
  | GasLimitUpdate g => word g
  | Eip1559Update d e => word (d * 2 ^ 32 + e)
  | OperatorFeeUpdate s c => zeros 20 ++ to_be_bytes 4 s ++ to_be_bytes 8 c
  | MinBaseFeeUpdate m => word m
  | DaFootprintGasScalarUpdate d => word d
  end.

Definition config_event (address : Address) (u : SystemConfigUpdate) : Log.t :=
  Log.mk address [TOPIC; EVENT_VERSION_0; word (kind_repr (update_kind u))]
    (word 32 ++ word (len (update_payload u)) ++ update_payload u).

Definition wf_update (u : SystemConfigUpdate) : Prop :=
  match u with
  | BatcherUpdate a | UnsafeBlockSignerUpdate a => length a = 20%nat
  | GasConfigUpdate s o =>
      match s, o with
      | Some s, Some o => 0 <= s < 2 ^ 256 /\ 0 <= o < 2 ^ 256
      | _, _ => False
      end
  | GasLimitUpdate g => is_u64 g
  | Eip1559Update d e => is_u32 d /\ is_u32 e
  | OperatorFeeUpdate s c => is_u32 s /\ is_u64 c
  | MinBaseFeeUpdate m => is_u64 m
  | DaFootprintGasScalarUpdate d => is_u16 d
  end.

(** What Ecotone makes of a gas config update: the overhead is zeroed, and a
    malformed scalar leaves the configuration as it is. *)
Definition ecotone_view (ecotone_active : bool) (u : SystemConfigUpdate) : SystemConfigUpdate :=
  match u with
  | GasConfigUpdate (Some s) _ =>
      if ecotone_active then
        if decide (ecotone_scalar s) then GasConfigUpdate (Some s) (Some 0)
        else GasConfigUpdate None None
      else u
  | _ => u
  end.

Lemma len_word z : len (word z) = 32.
Proof. apply len_to_be_bytes. Qed.

Lemma length_word z : length (word z) = 32%nat.
Proof. apply length_to_be_bytes. Qed.

Section roundtrip.
Context `{Abi} `{!AbiLaws _}.

Lemma abi_word bits z :
  0 <= z < 2 ^ 256 -> 
  abi_decode_uint bits (word z) = if decide (z < 2 ^ bits) then Some z else None.
Proof.
  intros Hz. rewrite abi_uint_word by apply length_word.
  unfold word. by rewrite from_to_be_bytes.
Qed.

(** The common checks pass on an encoded payload of [m] bytes. *)
Lemma validate_event m p :
  len p = m -> 0 <= m < 2 ^ 32 ->
  validate_update_data (64 + m) m (word 32 ++ word m ++ p) = Ok () /\
  slice (word 32 ++ word m ++ p) 64 (64 + m) = Some p.
Proof.
  intros Hp Hm. pose proof (len_word 32). pose proof (len_word m). split.
  - unfold validate_update_data. rewrite !len_app.
    rewrite decide_False by lia.
    rewrite (slice_spec (word 32 ++ word m ++ p) [] (word 32) (word m ++ p) 0 32) by (done || lia).
    rewrite (slice_spec (word 32 ++ word m ++ p) (word 32) (word m) p) by (done || lia).
    cbn [or_panic mbind result_bind]. rewrite !abi_word by lia.
    rewrite !decide_True by lia. cbn. by rewrite !decide_False by lia.
  - apply (slice_spec _ (word 32 ++ word m) p []); rewrite ?app_nil_r, ?len_app; try lia.
    by rewrite <- app_assoc.
Qed.

Lemma event_topics address u :
  validate_topic (config_event address u) = Ok () /\
  validate_version (config_event address u) = Ok () /\
  update_type (config_event address u) = Ok (update_kind u).
Proof.
  unfold validate_topic, validate_version, update_type. cbn [config_event Log.topics].
  split; [by vm_compute|]. split; [by vm_compute|]. by destruct u; vm_compute.
Qed.

Lemma build_event address u e :
  build (config_event address u) e =
  map_err (UpdateFailed (update_kind u))
    match update_kind u with
    | KBatcher => batcher_try_from (Log.data (config_event address u))
    | KGasConfig => gas_config_try_from e (Log.data (config_event address u))
    | KGasLimit => gas_limit_try_from (Log.data (config_event address u))
    | KEip1559 => eip1559_try_from (Log.data (config_event address u))
    | KOperatorFee => operator_fee_try_from (Log.data (config_event address u))
    | KUnsafeBlockSigner => signer_try_from (Log.data (config_event address u))
    | KMinBaseFee => min_base_fee_try_from (Log.data (config_event address u))
    | KDaFootprintGasScalar => da_footprint_try_from (Log.data (config_event address u))
    end.
Proof.
  unfold build. destruct (event_topics address u) as (-> & -> & ->). reflexivity.
Qed.

Lemma validated_payload_event p :
  len p = 32 -> validated_payload (word 32 ++ word 32 ++ p) = Ok p.
Proof.
  intros Hp. destruct (validate_event 32 p Hp) as [Hv Hs]; [lia|].
  unfold validated_payload. change (64 + 32) with 96 in *. rewrite Hv. cbn.
  rewrite !len_app, !len_word, Hp. change (32 + (32 + 32)) with 96. by rewrite Hs.
Qed.

(** The single-word kinds, after the common checks. *)
Lemma one_word_event (f : bytes -> result UpdateDataError SystemConfigUpdate) z :
  (_ ← validate_update_data 96 32 (word 32 ++ word 32 ++ word z);
   w ← or_panic (slice (word 32 ++ word 32 ++ word z) 64 96); f w) = f (word z).
Proof.
  destruct (validate_event 32 (word z) (len_word z)) as [Hv Hs]; [lia|].
  change (64 + 32) with 96 in *. by rewrite Hv, Hs.
Qed.

Lemma gas_config_event s o e :
  0 <= s < 2 ^ 256 -> 0 <= o < 2 ^ 256 ->
  gas_config_try_from e (word 32 ++ word 64 ++ word o ++ word s) =
  Ok (ecotone_view e (GasConfigUpdate (Some s) (Some o))).
Proof.
  intros Hs Ho. unfold gas_config_try_from.
  pose proof (len_word 32). pose proof (len_word 64). pose proof (len_word o).
  pose proof (len_word s).
  destruct (validate_event 64 (word o ++ word s)) as [Hv _]; [rewrite len_app; lia|lia|].
  change (64 + 64) with 128 in Hv. rewrite Hv, !len_app. cbn [mbind result_bind].
  rewrite (slice_spec _ (word 32 ++ word 64) (word o) (word s) 64 96);
    [| by rewrite <- app_assoc | rewrite len_app; lia | lia].
  rewrite (slice_spec _ (word 32 ++ word 64 ++ word o) (word s) [] 96 _);
    [| by rewrite <- !app_assoc, app_nil_r | rewrite !len_app; lia | lia].
  cbn [or_panic mbind result_bind]. rewrite !abi_word, !decide_True by lia.
  cbn [ok_or mbind result_bind ecotone_view]. destruct e; [|done].
  pose proof (check_ecotone_spec s Hs) as Hc.
  destruct (check_ecotone_l1_system_config_scalar _); cbn; [| |done].
  - by rewrite decide_True.
  - by rewrite decide_False.
Qed.

Lemma eip1559_unpack d e :
  is_u32 d -> is_u32 e ->
  0 <= d * 2 ^ 32 + e < 2 ^ 64 /\
  wrap 32 (Z.shiftr (d * 2 ^ 32 + e) 32) = d /\ wrap 32 (d * 2 ^ 32 + e) = e.
Proof.
  unfold u32_max. intros Hd He. split; [lia|].
  rewrite Z.shiftr_div_pow2 by lia. unfold wrap. split.
  - rewrite Z.div_add_l by lia. rewrite (Z.div_small e) by lia.
    rewrite Z.mod_small; lia.
  - rewrite Z.add_comm, Z.mod_add by lia. apply Z.mod_small. lia.
Qed.

(** Every well-formed update is read back from the event the L1 contract
    emits for it, before and after Ecotone; with Ecotone active a gas config
    update has its overhead zeroed, and a scalar that is not one of the two
    valid formats leaves the configuration unchanged. *)
Theorem build_config_event address u e :
  wf_update u -> build (config_event address u) e = Ok (ecotone_view e u).
Proof.
  intros Hu. rewrite build_event. destruct u as [a|s o|g|a|d el|s c|m|d]; cbn in Hu;
    cbn [update_kind config_event Log.data update_payload].
  - rewrite len_app. unfold len at 1. rewrite length_zeros.
    unfold len. rewrite Hu. unfold batcher_try_from.
    rewrite validated_payload_event by (rewrite len_app; unfold len; by rewrite Hu).
    cbn [mbind result_bind]. by rewrite abi_address_word.
  - destruct s as [s|], o as [o|]; try done. cbn [default].
    rewrite len_app, !len_word. change (32 + 32) with 64.
    rewrite gas_config_event by tauto. by destruct e; cbn; [case_decide|].
  - rewrite len_word. unfold gas_limit_try_from.
    unfold u64_max in Hu. rewrite !len_app, !len_word. change (32 + (32 + 32)) with 96.
    rewrite one_word_event, abi_word, decide_True by lia. cbn.
    by rewrite decide_False by (unfold u64_max; lia).
  - rewrite len_app. unfold len at 1. rewrite length_zeros.
    unfold len. rewrite Hu. unfold signer_try_from.
    rewrite validated_payload_event by (rewrite len_app; unfold len; by rewrite Hu).
    cbn [mbind result_bind]. by rewrite abi_address_word.
  - destruct Hu as [Hd He]. destruct (eip1559_unpack d el Hd He) as (Hr & Hs & Hw).
    rewrite len_word. unfold eip1559_try_from.
    rewrite validated_payload_event by apply len_word. cbn [mbind result_bind].
    rewrite abi_word, decide_True by lia. cbn [ok_or mbind result_bind]. by rewrite Hs, Hw.
  - unfold operator_fee_try_from. unfold u32_max, u64_max in Hu.
    rewrite !len_app, !len_to_be_bytes. unfold len at 1. rewrite length_zeros.
    change (Z.of_nat 20 + (Z.of_nat 4 + Z.of_nat 8)) with 32.
    rewrite validated_payload_event
      by (rewrite !len_app, !len_to_be_bytes; unfold len; by rewrite length_zeros).
    cbn [mbind result_bind].
    rewrite (slice_spec _ (zeros 20) (to_be_bytes 4 s) (to_be_bytes 8 c) 20 24)
      by (done || by rewrite len_to_be_bytes).
    rewrite (slice_spec _ (zeros 20 ++ to_be_bytes 4 s) (to_be_bytes 8 c) [] 24 32)
      by (rewrite ?app_nil_r, ?app_assoc, ?len_app, ?len_to_be_bytes; done).
    cbn [or_panic mbind result_bind]. rewrite !from_to_be_bytes by lia. done.
  - unfold u64_max in Hu. rewrite len_word. unfold min_base_fee_try_from.
    by rewrite one_word_event, abi_word, decide_True by lia.
  - unfold u16_max in Hu. rewrite len_word. unfold da_footprint_try_from.
    by rewrite one_word_event, abi_word, decide_True by lia.
Qed.

End roundtrip.

#[global] Instance word_abi_laws : AbiLaws word_abi.
Proof.
  split; [done|]. intros a Ha. cbn -[zeros].
  assert (take 12 (zeros 12 ++ a) = zeros 12 /\ drop 12 (zeros 12 ++ a) = a) as [-> ->].
  { split; [apply (take_app_length (zeros 12)) | apply (drop_app_length (zeros 12))]. }
  by rewrite decide_True.
Qed.

Lemma build_config_event_witness :
  @build word_abi (config_event Address_ZERO (Eip1559Update 250 6)) true
  = Ok (Eip1559Update 250 6).
Proof.
  apply (@build_config_event word_abi word_abi_laws Address_ZERO (Eip1559Update 250 6) true).
  vm_compute. repeat split; discriminate.
Defined.

(** The successes and the failures of a sequence of outcomes. *)
Definition oks {E A} (rs : list (result E A)) : list A :=
  omap (fun r => match r with Ok a => Some a | _ => None end) rs.

Definition errs {E A} (rs : list (result E A)) : list E :=
  omap (fun r => match r with Err e => Some e | _ => None end) rs.

Section receipts.
Context `{Abi}.

Lemma process_logs_spec logs config e updates errors :
  Forall wf_log logs ->
  let rs := (fun l => build l e) <$> logs in
  process_logs config e logs (updates, errors) =
  Ok (foldl (fun c u => update_apply u c) config (oks rs),
      (updates ++ (update_kind <$> oks rs), errors ++ errs rs)).
Proof.
  intros Hl. revert config updates errors.
  induction Hl as [|l logs Hl _ IH]; intros config updates errors; simpl.
  - by rewrite !app_nil_r.
  - unfold process_config_update_log. pose proof (build_total l e Hl) as Hp.
    destruct (build l e) as [u|err|]; [| |done]; cbn; rewrite IH; by rewrite <- app_assoc.
Qed.

(** Processing the receipts of an L1 block applies, in order, exactly the
    updates that can be built from the ConfigUpdate logs of the system config
    contract in successful receipts; a malformed log is reported and skipped
    without affecting the others, and no log makes the node panic. *)
Theorem update_with_receipts_spec config receipts address e :
  Forall wf_log (config_update_logs receipts address) ->
  let rs := (fun l => build l e) <$> config_update_logs receipts address in
  update_with_receipts config receipts address e =
  Ok (foldl (fun c u => update_apply u c) config (oks rs), (update_kind <$> oks rs, errs rs)).
Proof. intros Hl. by apply process_logs_spec. Qed.

End receipts.

Lemma update_with_receipts_spec_witness :
  let bad := Log.mk Address_ZERO [TOPIC] [] in
  let receipts := [Receipt.mk false [config_event Address_ZERO (GasLimitUpdate 1)];
                   Receipt.mk true [bad; config_event Address_ZERO (GasLimitUpdate 30)]] in
  @update_with_receipts word_abi SystemConfig.default receipts Address_ZERO true =
  Ok (update_apply (GasLimitUpdate 30) SystemConfig.default,
      ([KGasLimit], [LogProcessing (InvalidTopicLen 1)])).
Proof.
  intros bad receipts.
  etransitivity.
  - apply (@update_with_receipts_spec word_abi). by repeat constructor.
  - by vm_compute.
Defined.
