(* ===== verification/Rollup.v ===== *)
(** * Rollup configuration

    Models [src/crates/common/genesis/src/rollup.rs], [schedule.rs] and
    [genesis.rs]: the rollup parameters, which upgrade is active at which
    timestamp, and the deterministic L2 block schedule across the Denim
    transition. *)

From S2P Require Import Prelude Primitives Upgrades SystemConfig.

(** ** Genesis *)

Module ChainGenesis.

Record t : Type := mk {
  l1 : BlockNumHash.t;
  l2 : BlockNumHash.t;
  l2_time : Z;
  system_config : option SystemConfig.t
}.

Definition default : t :=
  mk (BlockNumHash.mk 0 B256_ZERO) (BlockNumHash.mk 0 B256_ZERO) 0 None.

End ChainGenesis.

(** ** The Denim timestamp schedule *)

Module DenimTimestampSchedule.

(** [legacy_block_interval] is a [NonZeroU64]. *)
Record t : Type := mk {
  genesis_block_number : Z;
  genesis_timestamp : Z;
  legacy_block_interval : Z;
  denim_activation_timestamp : Z
}.

Definition DENIM_BLOCK_INTERVAL_MILLIS : Z := 200.

Definition denim_activation_block_number (s : t) : Z :=
  div_ceil (u64_saturating_sub (denim_activation_timestamp s) (genesis_timestamp s))
    (legacy_block_interval s).

Definition is_denim_active_at_block (s : t) (block_number : Z) : bool :=
  bool_decide (denim_activation_block_number s
                 <= u64_saturating_sub block_number (genesis_block_number s)).

Definition block_timestamp_millis (s : t) (block_number : Z) : Z :=
  let blocks_since_genesis := u64_saturating_sub block_number (genesis_block_number s) in
  let legacy_seconds :=
    u64_saturating_add (genesis_timestamp s)
      (u64_saturating_mul blocks_since_genesis (legacy_block_interval s)) in
  let legacy_millis := u64_saturating_mul legacy_seconds 1000 in
  let denim_activation_block := denim_activation_block_number s in
  if decide (blocks_since_genesis < denim_activation_block) then legacy_millis
  else
    let denim_activation_millis :=
      u64_saturating_mul
        (u64_saturating_add (genesis_timestamp s)
           (u64_saturating_mul denim_activation_block (legacy_block_interval s))) 1000 in
    u64_saturating_add denim_activation_millis
      (u64_saturating_mul (u64_saturating_sub blocks_since_genesis denim_activation_block)
         DENIM_BLOCK_INTERVAL_MILLIS).

Definition block_timestamp_parts (s : t) (block_number : Z) : Z * Z :=
  let millis := block_timestamp_millis s block_number in
  (millis / 1000, wrap 16 (millis mod 1000)).

(** What the Rust types say. *)
Definition wf (s : t) : Prop :=
  is_u64 (genesis_block_number s) /\ is_u64 (genesis_timestamp s) /\
  is_u64 (denim_activation_timestamp s) /\ 0 < legacy_block_interval s <= u64_max.

End DenimTimestampSchedule.

(** ** The configuration *)

Module RollupConfig.

Record t : Type := mk {
  genesis : ChainGenesis.t;
  block_time : Z;
  max_sequencer_drift_field : Z;
  seq_window_size : Z;
  channel_timeout_field : Z;
  granite_channel_timeout : Z;
  l1_chain_id : Z;
  l2_chain_id : Z;
  upgrades : UpgradeConfig.t;
  batch_inbox_address : Address;
  deposit_contract_address : Address;
  l1_system_config_address : Address;
  protocol_versions_address : Address;
  blobs_enabled_l1_timestamp : option Z
}.

Definition MAX_RLP_BYTES_PER_CHANNEL_BEDROCK : Z := 10000000.
Definition MAX_RLP_BYTES_PER_CHANNEL_FJORD : Z := 100000000.
Definition FJORD_MAX_SEQUENCER_DRIFT : Z := 1800.
Definition DENIM_MAX_SEQUENCER_DRIFT : Z := 6 * 60 * 60.
Definition GRANITE_CHANNEL_TIMEOUT : Z := 50.

Definition default : t :=
  mk ChainGenesis.default 0 0 0 0 GRANITE_CHANNEL_TIMEOUT 0 0 UpgradeConfig.default
     Address_ZERO Address_ZERO Address_ZERO Address_ZERO None.

Definition with_upgrades (c : t) (u : UpgradeConfig.t) : t :=
  mk (genesis c) (block_time c) (max_sequencer_drift_field c) (seq_window_size c)
     (channel_timeout_field c) (granite_channel_timeout c) (l1_chain_id c) (l2_chain_id c) u
     (batch_inbox_address c) (deposit_contract_address c) (l1_system_config_address c)
     (protocol_versions_address c) (blobs_enabled_l1_timestamp c).

Section runtime.
Context `{RuntimeUpgradeRegistry}.

Definition upgrade_activation (c : t) (u : BaseUpgrade) : UpgradeActivation :=
  match Registry.activation runtime_registry (l2_chain_id c) u with
  | Some a => a
  | None => UpgradeConfig.activation (upgrades c) u
  end.

Definition upgrade_activation_timestamp (c : t) (u : BaseUpgrade) : option Z :=
  timestamp (upgrade_activation c u).

Definition apply_runtime_upgrade_overrides (c : t) : t :=
  match Registry.overrides runtime_registry (l2_chain_id c) with
  | Some o => with_upgrades c (UpgradeConfig.apply_activation_overrides (upgrades c) o)
  | None => c
  end.

Definition with_runtime_upgrade_overrides (c : t) : t := apply_runtime_upgrade_overrides c.

Definition clear_upgrade_activation_timestamps (c : t) : t :=
  with_upgrades c (UpgradeConfig.clear_activation_timestamps (upgrades c)).

Definition clear_upgrade_activation_timestamp (c : t) (u : BaseUpgrade) : t :=
  with_upgrades c (UpgradeConfig.clear_activation_timestamp (upgrades c) u).

Definition set_upgrade_activation_timestamp (c : t) (u : BaseUpgrade) (ts : Z) : t :=
  with_upgrades c (UpgradeConfig.set_activation_timestamp (upgrades c) u ts).

Definition apply_upgrade_activation (c : t) (u : BaseUpgrade) (a : UpgradeActivation) : t :=
  match a with
  | Timestamp ts => set_upgrade_activation_timestamp c u ts
  | Never => clear_upgrade_activation_timestamp c u
  end.

(** [UpgradeActivationSink::apply_activation]. *)
Definition apply_activation (c : t) (u : BaseUpgrade) (a : UpgradeActivation) : bool * t :=
  match u with
  | Zenith => (false, c)
  | _ => (true, apply_upgrade_activation c u a)
  end.

(** The methods generated by [rollup_fork_methods!]: the upgrade's own
    timestamp, or the upgrade it is implied by. *)
Definition own_active (c : t) (u : BaseUpgrade) (ts : Z) : bool :=
  active_at (upgrade_activation_timestamp c u) ts.

Definition is_jovian_active (c : t) (ts : Z) : bool := own_active c Jovian ts.
Definition is_isthmus_active (c : t) (ts : Z) : bool :=
  own_active c Isthmus ts || is_jovian_active c ts.
Definition is_holocene_active (c : t) (ts : Z) : bool :=
  own_active c Holocene ts || is_isthmus_active c ts.
Definition is_granite_active (c : t) (ts : Z) : bool :=
  own_active c Granite ts || is_holocene_active c ts.
Definition is_fjord_active (c : t) (ts : Z) : bool :=
  own_active c Fjord ts || is_granite_active c ts.
Definition is_ecotone_active (c : t) (ts : Z) : bool :=
  own_active c Ecotone ts || is_fjord_active c ts.
Definition is_delta_active (c : t) (ts : Z) : bool :=
  own_active c Delta ts || is_ecotone_active c ts.
Definition is_canyon_active (c : t) (ts : Z) : bool :=
  own_active c Canyon ts || is_delta_active c ts.
Definition is_regolith_active (c : t) (ts : Z) : bool :=
  own_active c Regolith ts || is_canyon_active c ts.
Definition is_pectra_blob_schedule_active (c : t) (ts : Z) : bool :=
  own_active c PectraBlobSchedule ts.
Definition is_base_azul_active (c : t) (ts : Z) : bool := own_active c Azul ts.
Definition is_beryl_active (c : t) (ts : Z) : bool := own_active c Beryl ts.
Definition is_cobalt_active (c : t) (ts : Z) : bool := own_active c Cobalt ts.
Definition is_denim_active (c : t) (ts : Z) : bool := own_active c Denim ts.
Definition is_everest_active (c : t) (ts : Z) : bool := own_active c Everest ts.
Definition is_zenith_active (c : t) (ts : Z) : bool := own_active c Zenith ts.

(** The [$first] half of the macro. *)
Definition first_block (active : Z -> bool) (ts parent_ts : Z) : bool :=
  active ts && negb (active parent_ts).

Definition is_first_ecotone_block (c : t) := first_block (is_ecotone_active c).
Definition is_first_fjord_block (c : t) := first_block (is_fjord_active c).
Definition is_first_isthmus_block (c : t) := first_block (is_isthmus_active c).
Definition is_first_jovian_block (c : t) := first_block (is_jovian_active c).
Definition is_first_base_azul_block (c : t) := first_block (is_base_azul_active c).

Definition max_sequencer_drift (c : t) (ts : Z) : Z :=
  if is_denim_active c ts then DENIM_MAX_SEQUENCER_DRIFT
  else if is_fjord_active c ts then FJORD_MAX_SEQUENCER_DRIFT
  else max_sequencer_drift_field c.

Definition max_rlp_bytes_per_channel (c : t) (ts : Z) : Z :=
  if is_fjord_active c ts then MAX_RLP_BYTES_PER_CHANNEL_FJORD
  else MAX_RLP_BYTES_PER_CHANNEL_BEDROCK.

Definition channel_timeout (c : t) (ts : Z) : Z :=
  if is_granite_active c ts then granite_channel_timeout c else channel_timeout_field c.

Definition denim_timestamp_schedule (c : t) : option DenimTimestampSchedule.t :=
  if decide (block_time c = 0) then None
  else
    activation ← upgrade_activation_timestamp c Denim;
    Some (DenimTimestampSchedule.mk (BlockNumHash.number (ChainGenesis.l2 (genesis c)))
            (ChainGenesis.l2_time (genesis c)) (block_time c) activation).

Definition denim_activation_block_number (c : t) : option Z :=
  DenimTimestampSchedule.denim_activation_block_number <$> denim_timestamp_schedule c.

Definition zenith_activation_block_number (c : t) : option Z :=
  zenith_timestamp ← upgrade_activation_timestamp c Zenith;
  if decide (block_time c = 0) then None
  else Some (div_ceil (u64_saturating_sub zenith_timestamp (ChainGenesis.l2_time (genesis c)))
               (block_time c)).

Definition l2_block_timestamp_millis (c : t) (block_number : Z) : Z :=
  match denim_timestamp_schedule c with
  | Some schedule => DenimTimestampSchedule.block_timestamp_millis schedule block_number
  | None =>
      u64_saturating_mul
        (u64_saturating_add (ChainGenesis.l2_time (genesis c))
           (u64_saturating_mul
              (u64_saturating_sub block_number (BlockNumHash.number (ChainGenesis.l2 (genesis c))))
              (block_time c))) 1000
  end.

Definition l2_block_timestamp (c : t) (block_number : Z) : Z :=
  l2_block_timestamp_millis c block_number / 1000.

Definition l2_block_timestamp_parts (c : t) (block_number : Z) : Z * Z :=
  let full_millis := l2_block_timestamp_millis c block_number in
  (full_millis / 1000, wrap 16 (full_millis mod 1000)).

End runtime.

(** [block_number_lower_bound_from_timestamp]; [None] is the division by a
    zero block time, a panic. *)
Definition block_number_lower_bound_from_timestamp (c : t) (ts : Z) : option Z :=
  if decide (block_time c = 0) then None
  else Some (u64_saturating_sub ts (ChainGenesis.l2_time (genesis c)) / block_time c).

(** What the Rust types say of the fields used below. *)
Definition wf (c : t) : Prop :=
  is_u64 (BlockNumHash.number (ChainGenesis.l2 (genesis c))) /\
  is_u64 (ChainGenesis.l2_time (genesis c)) /\ is_u64 (block_time c).

End RollupConfig.

(** [SystemConfig::eip_1559_params]. *)
Definition eip_1559_params `{RuntimeUpgradeRegistry} (sc : SystemConfig.t)
    (rollup_config : RollupConfig.t) (parent_timestamp next_timestamp : Z) : option bytes :=
  let is_holocene := RollupConfig.is_holocene_active rollup_config next_timestamp in
  if is_holocene && negb (RollupConfig.is_holocene_active rollup_config parent_timestamp)
  then Some (zeros 8)
  else if is_holocene
  then Some (to_be_bytes 4 (default 0 (SystemConfig.eip1559_denominator sc)) ++
             to_be_bytes 4 (default 0 (SystemConfig.eip1559_elasticity sc)))
  else None.

(** ** Lemmas *)

Lemma div_ceil_spec a i :
  0 < i -> 0 <= a -> 0 <= div_ceil a i /\ (div_ceil a i - 1) * i < a <= div_ceil a i * i.
Proof.
  intros Hi Ha. unfold div_ceil.
  pose proof (Z.div_mod a i ltac:(lia)). pose proof (Z.mod_pos_bound a i Hi).
  pose proof (Z.div_pos a i Ha Hi).
  case_decide; nia.
Qed.

Lemma saturating_add_ge m x : m <= u64_max -> 0 <= x -> m <= u64_saturating_add m x.
Proof. unfold u64_saturating_add. lia. Qed.

Module DenimFacts.
Import DenimTimestampSchedule.

Section facts.
Context (s : t) (Hs : wf s).

Lemma activation_block_spec :
  let k := denim_activation_block_number s in
  0 <= k /\
  (denim_activation_timestamp s <= genesis_timestamp s + k * legacy_block_interval s) /\
  forall b, 0 <= b < k -> genesis_timestamp s + b * legacy_block_interval s
                          < denim_activation_timestamp s.
Proof.
  destruct Hs as (_ & Hg & Ha & Hi). intros k.
  destruct (div_ceil_spec (u64_saturating_sub (denim_activation_timestamp s) (genesis_timestamp s))
    (legacy_block_interval s)) as (Hk & Hlo & Hhi); [lia|unfold u64_saturating_sub; lia|].
  fold (denim_activation_block_number s) in *. fold k in Hk, Hlo, Hhi.
  unfold u64_saturating_sub in *. split; [done|]. split; [lia|].
  intros b Hb. nia.
Qed.

(** Milliseconds of the legacy slot [b] blocks after genesis. *)
Lemma legacy_millis_mono b b' :
  0 <= b <= b' ->
  u64_saturating_mul (u64_saturating_add (genesis_timestamp s)
    (u64_saturating_mul b (legacy_block_interval s))) 1000 <=
  u64_saturating_mul (u64_saturating_add (genesis_timestamp s)
    (u64_saturating_mul b' (legacy_block_interval s))) 1000.
Proof.
  destruct Hs as (_ & Hg & _ & Hi). intros Hb.
  unfold u64_saturating_mul, u64_saturating_add, u64_max in *. nia.
Qed.

Lemma timestamp_mono n m :
  n <= m -> block_timestamp_millis s n <= block_timestamp_millis s m.
Proof.
  intros Hnm. unfold block_timestamp_millis.
  set (b := u64_saturating_sub n _). set (b' := u64_saturating_sub m _).
  assert (0 <= b <= b') as Hb by (unfold b, b', u64_saturating_sub; lia).
  destruct activation_block_spec as (Hk & _ & _).
  set (k := DenimTimestampSchedule.denim_activation_block_number s) in *.
  pose proof (legacy_millis_mono b b' Hb) as H1.
  pose proof (legacy_millis_mono b k) as H2.
  repeat case_decide; [done| |lia|].
  - specialize (H2 ltac:(lia)). etransitivity; [exact H2|].
    apply saturating_add_ge; [unfold u64_saturating_mul, u64_max; lia|].
    unfold u64_saturating_mul, u64_saturating_sub, DENIM_BLOCK_INTERVAL_MILLIS, u64_max. lia.
  - apply Z.min_le_compat_r, Z.add_le_mono_l.
    unfold u64_saturating_mul, u64_saturating_sub, DENIM_BLOCK_INTERVAL_MILLIS. lia.
Qed.

(** Where the activation slot is representable in milliseconds, the schedule
    is exact around it. *)
Definition activation_fits : Prop :=
  (genesis_timestamp s + denim_activation_block_number s * legacy_block_interval s) * 1000
    <= u64_max.

Lemma legacy_exact b :
  activation_fits -> 0 <= b <= denim_activation_block_number s ->
  u64_saturating_mul (u64_saturating_add (genesis_timestamp s)
    (u64_saturating_mul b (legacy_block_interval s))) 1000 =
  (genesis_timestamp s + b * legacy_block_interval s) * 1000.
Proof.
  destruct Hs as (_ & Hg & _ & Hi). unfold activation_fits, u64_max in *. intros Hf Hb.
  unfold u64_saturating_mul, u64_saturating_add, u64_max.
  assert (b * legacy_block_interval s <= denim_activation_block_number s * legacy_block_interval s)
    by nia. nia.
Qed.

Lemma agree n :
  activation_fits ->
  is_denim_active_at_block s n =
  bool_decide (denim_activation_timestamp s <= block_timestamp_millis s n / 1000).
Proof.
  intros Hf. destruct activation_block_spec as (Hk & Hact & Hpre).
  unfold is_denim_active_at_block, block_timestamp_millis.
  set (b := u64_saturating_sub n _).
  assert (0 <= b) as Hb by (unfold b, u64_saturating_sub; lia).
  set (k := DenimTimestampSchedule.denim_activation_block_number s) in *.
  apply bool_decide_ext. case_decide.
  - specialize (Hpre b ltac:(lia)). rewrite legacy_exact by (done || lia).
    rewrite Z.div_mul by lia. lia.
  - split; [intros _ | lia]. rewrite legacy_exact by (done || lia).
    transitivity ((genesis_timestamp s + k * legacy_block_interval s) * 1000 / 1000);
      [rewrite Z.div_mul; lia|].
    apply Z.div_le_mono; [lia|]. unfold activation_fits in Hf. fold k in Hf.
    unfold u64_saturating_add, u64_saturating_mul, u64_saturating_sub,
      DENIM_BLOCK_INTERVAL_MILLIS, u64_max in *. lia.
Qed.

End facts.
End DenimFacts.

(** The upgrades of the implication chain, oldest first. *)
Definition ladder `{RuntimeUpgradeRegistry} (c : RollupConfig.t) : list (Z -> bool) :=
  [RollupConfig.is_regolith_active c; RollupConfig.is_canyon_active c;
   RollupConfig.is_delta_active c; RollupConfig.is_ecotone_active c;
   RollupConfig.is_fjord_active c; RollupConfig.is_granite_active c;
   RollupConfig.is_holocene_active c; RollupConfig.is_isthmus_active c;
   RollupConfig.is_jovian_active c].

Section rollup.
Context `{RuntimeUpgradeRegistry}.

Lemma own_active_mono c u ts ts' :
  ts <= ts' -> RollupConfig.own_active c u ts = true -> RollupConfig.own_active c u ts' = true.
Proof. apply active_at_mono. Qed.

Lemma ladder_step c i p q ts :
  ladder c !! i = Some p -> ladder c !! S i = Some q -> q ts = true -> p ts = true.
Proof.
  do 9 (destruct i as [|i]; [intros [= <-] [= <-] Hq; apply orb_true_iff; by right|]).
  done.
Qed.

Lemma ladder_mono c i p ts ts' :
  ladder c !! i = Some p -> ts <= ts' -> p ts = true -> p ts' = true.
Proof.
  intros Hp Hle. revert p Hp.
  assert (forall d i p, (i + d = 8)%nat -> ladder c !! i = Some p -> p ts = true -> p ts' = true)
    as Hd.
  { induction d as [|d IH]; intros j p Hj Hp Ht.
    - replace j with 8%nat in Hp by lia. injection Hp as <-. by apply (own_active_mono c Jovian ts).
    - destruct (lookup_lt_is_Some_2 (ladder c) (S j)) as [q Hq]; [simpl; lia|].
      specialize (IH (S j) q ltac:(lia) Hq).
      do 8 (destruct j as [|j]; [injection Hp as <-; injection Hq as <-;
        apply orb_true_iff in Ht as [Ht|Ht]; apply orb_true_iff;
        [left; by eapply own_active_mono | right; by apply IH]|]). lia. }
  intros p Hp. apply (Hd (8 - i)%nat i); [|done].
  apply lookup_lt_Some in Hp. simpl in Hp. lia.
Qed.

(** Every block's timestamp is at most that of a chain that never left the
    legacy interval. *)
Lemma timestamp_le_legacy s n :
  DenimTimestampSchedule.wf s ->
  DenimTimestampSchedule.block_timestamp_millis s n <=
  (DenimTimestampSchedule.genesis_timestamp s +
   u64_saturating_sub n (DenimTimestampSchedule.genesis_block_number s) *
   DenimTimestampSchedule.legacy_block_interval s) * 1000.
Proof.
  intros (Hgn & Hg & Ha & Hi). unfold DenimTimestampSchedule.block_timestamp_millis.
  set (b := u64_saturating_sub n _).
  assert (0 <= b) by (unfold b, u64_saturating_sub; lia).
  destruct (DenimFacts.activation_block_spec s) as (Hk & _); [done|].
  set (k := DenimTimestampSchedule.denim_activation_block_number s) in *.
  unfold u64_saturating_mul, u64_saturating_add, u64_saturating_sub,
    DenimTimestampSchedule.DENIM_BLOCK_INTERVAL_MILLIS in *.
  case_decide; nia.
Qed.

Lemma schedule_wf c s :
  RollupConfig.wf c -> RollupConfig.denim_timestamp_schedule c = Some s ->
  (forall ts, RollupConfig.upgrade_activation_timestamp c Denim = Some ts -> is_u64 ts) ->
  DenimTimestampSchedule.wf s.
Proof.
  intros (Hn & Ht & Hb) Hs Hd. unfold RollupConfig.denim_timestamp_schedule in Hs.
  case_decide; [done|].
  destruct (RollupConfig.upgrade_activation_timestamp c Denim) as [a|] eqn:E; [|done].
  injection Hs as <-. specialize (Hd a eq_refl).
  repeat split; cbn; lia.
Qed.

(** ** Properties *)

(** Materialising the runtime overrides into the local schedule gives the
    same activation for every timestamp-activated upgrade as consulting the
    registry at each query. *)
Theorem runtime_overrides_materialised c u :
  u <> Bedrock ->
  UpgradeConfig.activation
    (RollupConfig.upgrades (RollupConfig.with_runtime_upgrade_overrides c)) u =
  RollupConfig.upgrade_activation c u.
Proof.
  intros Hu. unfold RollupConfig.with_runtime_upgrade_overrides,
    RollupConfig.apply_runtime_upgrade_overrides, RollupConfig.upgrade_activation,
    Registry.activation, Registry.overrides.
  destruct (runtime_registry !! RollupConfig.l2_chain_id c) as [e|];
    cbn -[UpgradeConfig.activation UpgradeConfig.apply_activation_overrides]; [|done].
  rewrite apply_activation_overrides_activation by done.
  by destruct (Overrides.activation _ u).
Qed.

(** On the implication chain from Regolith to Jovian, an upgrade that is
    active at a timestamp is active at every later timestamp, and so is every
    older upgrade, whatever the schedule and the runtime overrides. *)
Theorem upgrade_ladder c i j p q ts ts' :
  (i <= j)%nat -> ladder c !! i = Some p -> ladder c !! j = Some q -> ts <= ts' ->
  q ts = true -> p ts' = true.
Proof.
  intros Hij Hp Hq Hts Ht. apply (ladder_mono c i p ts ts' Hp Hts).
  revert p Hp. induction Hij as [|j Hij IH] in q, Hq, Ht |- *; intros p Hp; [congruence|].
  destruct (lookup_lt_is_Some_2 (ladder c) j) as [r Hr];
    [apply lookup_lt_Some in Hq; lia|].
  apply (IH r Hr); [|done]. by eapply ladder_step.
Qed.

(** The L2 block schedule never goes backwards, across the Denim
    transition and under saturation: a later block number never has an earlier
    millisecond timestamp. *)
Theorem l2_block_timestamp_mono c n m :
  RollupConfig.wf c ->
  (forall ts, RollupConfig.upgrade_activation_timestamp c Denim = Some ts -> is_u64 ts) ->
  n <= m ->
  RollupConfig.l2_block_timestamp_millis c n <= RollupConfig.l2_block_timestamp_millis c m.
Proof.
  intros Hc Hd Hnm. unfold RollupConfig.l2_block_timestamp_millis.
  destruct (RollupConfig.denim_timestamp_schedule c) as [s|] eqn:Es.
  - apply DenimFacts.timestamp_mono; [|done]. by eapply schedule_wf.
  - destruct Hc as (? & ? & ?).
    unfold u64_saturating_mul, u64_saturating_add, u64_saturating_sub in *. nia.
Qed.

(** The two ways of asking whether a block is a Denim block agree: by
    block number on the schedule, and by the upgrade timestamp applied to the
    block's own timestamp. *)
Theorem denim_activation_agrees c s n :
  RollupConfig.wf c ->
  (forall ts, RollupConfig.upgrade_activation_timestamp c Denim = Some ts -> is_u64 ts) ->
  RollupConfig.denim_timestamp_schedule c = Some s -> DenimFacts.activation_fits s ->
  RollupConfig.is_denim_active c (RollupConfig.l2_block_timestamp c n) =
  DenimTimestampSchedule.is_denim_active_at_block s n.
Proof.
  intros Hc Hd Es Hf. rewrite DenimFacts.agree by (done || by eapply schedule_wf).
  unfold RollupConfig.is_denim_active, RollupConfig.own_active,
    RollupConfig.l2_block_timestamp, RollupConfig.l2_block_timestamp_millis.
  rewrite Es. unfold RollupConfig.denim_timestamp_schedule in Es. case_decide; [done|].
  destruct (RollupConfig.upgrade_activation_timestamp c Denim); [|done].
  by injection Es as <-.
Qed.

(** The block number computed back from a block's timestamp never exceeds
    the block's own offset from genesis, before and after Denim. *)
Theorem block_number_lower_bound c n k :
  RollupConfig.wf c ->
  (forall ts, RollupConfig.upgrade_activation_timestamp c Denim = Some ts -> is_u64 ts) ->
  RollupConfig.block_number_lower_bound_from_timestamp c
    (RollupConfig.l2_block_timestamp c n) = Some k ->
  k <= u64_saturating_sub n (BlockNumHash.number (ChainGenesis.l2 (RollupConfig.genesis c))).
Proof.
  intros Hc Hd. unfold RollupConfig.block_number_lower_bound_from_timestamp.
  case_decide as Hb; [done|]. intros [= <-]. set (g := ChainGenesis.l2_time _).
  set (b := u64_saturating_sub n _).
  assert (RollupConfig.l2_block_timestamp_millis c n <= (g + b * RollupConfig.block_time c) * 1000)
    as Hle.
  { unfold RollupConfig.l2_block_timestamp_millis.
    destruct (RollupConfig.denim_timestamp_schedule c) as [s|] eqn:Es.
    - pose proof (schedule_wf c s Hc Es Hd) as Hs. apply (timestamp_le_legacy s n) in Hs.
      unfold RollupConfig.denim_timestamp_schedule in Es. case_decide; [done|].
      destruct (RollupConfig.upgrade_activation_timestamp c Denim); [|done].
      injection Es as <-. exact Hs.
    - unfold u64_saturating_mul, u64_saturating_add. fold g b. lia. }
  destruct Hc as (? & ? & ?). assert (0 <= b) by (unfold b, u64_saturating_sub; lia).
  apply Z.div_le_upper_bound; [lia|]. unfold RollupConfig.l2_block_timestamp.
  apply (Z.div_le_mono _ _ 1000) in Hle; [|lia]. rewrite Z.div_mul in Hle by lia.
  unfold u64_saturating_sub at 1. nia.
Qed.

End rollup.

Definition sample_config : RollupConfig.t :=
  RollupConfig.mk (ChainGenesis.mk (BlockNumHash.mk 7 B256_ZERO) (BlockNumHash.mk 100 B256_ZERO)
                     1000 None)
    2 600 3600 300 50 1 8453
    (UpgradeConfig.set_activation_timestamp UpgradeConfig.default Denim 1011)
    Address_ZERO Address_ZERO Address_ZERO Address_ZERO None.

Lemma runtime_overrides_materialised_witness :
  let reg : RuntimeUpgradeRegistry := Registry.set_activation_timestamp ∅ 8453 Denim 77 in
  UpgradeConfig.activation
    (RollupConfig.upgrades (RollupConfig.with_runtime_upgrade_overrides sample_config)) Denim =
  Timestamp 77.
Proof. intros reg. by rewrite (@runtime_overrides_materialised reg). Defined.

Lemma upgrade_ladder_witness :
  let c := RollupConfig.set_upgrade_activation_timestamp sample_config Jovian 5 in
  @RollupConfig.is_granite_active (∅ : Registry.t) c 9 = true.
Proof.
  intros c. by eapply (@upgrade_ladder (∅ : Registry.t) c 5 8 _ _ 6 9); [lia|..].
Defined.

Lemma sample_config_ok :
  RollupConfig.wf sample_config /\
  forall ts, @RollupConfig.upgrade_activation_timestamp (∅ : Registry.t) sample_config Denim
             = Some ts -> is_u64 ts.
Proof.
  split; [by vm_compute|]. intros ts Hts. change (Some 1011 = Some ts) in Hts.
  injection Hts as <-. by vm_compute.
Qed.

Lemma l2_block_timestamp_mono_witness :
  @RollupConfig.l2_block_timestamp_millis (∅ : Registry.t) sample_config 105 <=
  @RollupConfig.l2_block_timestamp_millis (∅ : Registry.t) sample_config 107.
Proof.
  by apply (@l2_block_timestamp_mono (∅ : Registry.t) sample_config 105 107);
    [apply sample_config_ok..|].
Defined.

Lemma denim_activation_agrees_witness :
  @RollupConfig.is_denim_active (∅ : Registry.t) sample_config
    (@RollupConfig.l2_block_timestamp (∅ : Registry.t) sample_config 106) = true.
Proof.
  rewrite (@denim_activation_agrees (∅ : Registry.t) sample_config
             (DenimTimestampSchedule.mk 100 1000 2 1011) 106);
    [reflexivity|apply sample_config_ok..|reflexivity|by vm_compute].
Defined.

Lemma block_number_lower_bound_witness :
  @RollupConfig.block_number_lower_bound_from_timestamp sample_config
    (@RollupConfig.l2_block_timestamp (∅ : Registry.t) sample_config 110) = Some 6 /\ 6 <= 10.
Proof.
  split; [reflexivity|].
  apply (@block_number_lower_bound (∅ : Registry.t) sample_config 110 6);
    [apply sample_config_ok..|reflexivity].
Defined.
