(* ===== verification/L1Info.v ===== *)
(** * L1 block info transactions

    Models [src/crates/common/consensus/src/info/]: the calldata of the deposit
    transaction that opens every L2 block and tells it its L1 origin, in its
    four historical formats, and the choice of the format for a block. *)

From S2P Require Import Prelude Primitives Upgrades SystemConfig Rollup.

(** ** The formats *)

Module BedrockBase.

Record t : Type := mk {
  number : Z;
  time : Z;
  base_fee : Z;
  block_hash : B256;
  sequence_number : Z;
  batcher_address : Address
}.

End BedrockBase.

Module EcotoneBase.

Record t : Type := mk {
  base : BedrockBase.t;
  blob_base_fee : Z;
  blob_base_fee_scalar : Z;
  base_fee_scalar : Z
}.

End EcotoneBase.

Module Bedrock.

Record t : Type := mk { base : BedrockBase.t; l1_fee_overhead : Z; l1_fee_scalar : Z }.

End Bedrock.

Module Ecotone.

Record t : Type := mk { base : EcotoneBase.t; empty_scalars : bool; l1_fee_overhead : Z }.

End Ecotone.

Module Isthmus.

Record t : Type := mk {
  base : EcotoneBase.t;
  operator_fee_scalar : Z;
  operator_fee_constant : Z
}.

End Isthmus.

Module Jovian.

Record t : Type := mk { base : Isthmus.t; da_footprint_gas_scalar : Z }.

End Jovian.

Inductive L1BlockInfoTx : Type :=
| InfoBedrock (tx : Bedrock.t)
| InfoEcotone (tx : Ecotone.t)
| InfoIsthmus (tx : Isthmus.t)
| InfoJovian (tx : Jovian.t).

Inductive DecodeError : Set :=
| MissingSelector
| InvalidSelector
| InvalidBedrockLength (expected actual : Z)
| InvalidEcotoneLength (expected actual : Z)
| InvalidIsthmusLength (expected actual : Z)
| InvalidJovianLength (expected actual : Z).

(** ** Constants *)

Definition BEDROCK_L1_INFO_TX_LEN : Z := 4 + 32 * 8.
Definition ECOTONE_L1_INFO_TX_LEN : Z := 4 + 32 * 5.
Definition ISTHMUS_L1_INFO_TX_LEN : Z := 4 + 32 * 5 + 4 + 8.
Definition JOVIAN_L1_INFO_TX_LEN : Z := 4 + 32 * 5 + 4 + 8 + 2.

Definition BEDROCK_SELECTOR : bytes := [Byte.x01; Byte.x5d; Byte.x8e; Byte.xb9].
Definition ECOTONE_SELECTOR : bytes := [Byte.x44; Byte.x0a; Byte.x5e; Byte.x20].
Definition ISTHMUS_SELECTOR : bytes := [Byte.x09; Byte.x89; Byte.x99; Byte.xbe].
Definition JOVIAN_SELECTOR : bytes := [Byte.x3d; Byte.xb6; Byte.xbe; Byte.x2b].

Definition L1_SCALAR : Z := 1.

(** ** Encoding *)

(** [Address::into_word]. *)
Definition into_word (a : Address) : bytes := zeros 12 ++ a.

Definition bedrock_encode_calldata (i : Bedrock.t) : bytes :=
  let b := Bedrock.base i in
  BEDROCK_SELECTOR
  ++ to_be_bytes 32 (BedrockBase.number b)
  ++ to_be_bytes 32 (BedrockBase.time b)
  ++ to_be_bytes 32 (BedrockBase.base_fee b)
  ++ BedrockBase.block_hash b
  ++ to_be_bytes 32 (BedrockBase.sequence_number b)
  ++ into_word (BedrockBase.batcher_address b)
  ++ to_be_bytes 32 (Bedrock.l1_fee_overhead i)
  ++ to_be_bytes 32 (Bedrock.l1_fee_scalar i).

Definition ecotone_encode_calldata_body (i : EcotoneBase.t) : bytes :=
  let b := EcotoneBase.base i in
  to_be_bytes 4 (EcotoneBase.base_fee_scalar i)
  ++ to_be_bytes 4 (EcotoneBase.blob_base_fee_scalar i)
  ++ to_be_bytes 8 (BedrockBase.sequence_number b)
  ++ to_be_bytes 8 (BedrockBase.time b)
  ++ to_be_bytes 8 (BedrockBase.number b)
  ++ to_be_bytes 32 (BedrockBase.base_fee b)
  ++ to_be_bytes 32 (EcotoneBase.blob_base_fee i)
  ++ BedrockBase.block_hash b
  ++ into_word (BedrockBase.batcher_address b).

Definition isthmus_encode_calldata_body (i : Isthmus.t) : bytes :=
  ecotone_encode_calldata_body (Isthmus.base i)
  ++ to_be_bytes 4 (Isthmus.operator_fee_scalar i)
  ++ to_be_bytes 8 (Isthmus.operator_fee_constant i).

Definition jovian_encode_calldata_body (i : Jovian.t) : bytes :=
  isthmus_encode_calldata_body (Jovian.base i)
  ++ to_be_bytes 2 (Jovian.da_footprint_gas_scalar i).

Definition encode_calldata (tx : L1BlockInfoTx) : bytes :=
  match tx with
  | InfoBedrock i => bedrock_encode_calldata i
  | InfoEcotone i => ECOTONE_SELECTOR ++ ecotone_encode_calldata_body (Ecotone.base i)
  | InfoIsthmus i => ISTHMUS_SELECTOR ++ isthmus_encode_calldata_body i
  | InfoJovian i => JOVIAN_SELECTOR ++ jovian_encode_calldata_body i
  end.

(** ** Decoding *)

(** A big-endian integer read from [&r[i..j]]. *)
Definition read_int {E} (r : bytes) (i j : Z) : result E Z :=
  from_be_bytes <$> or_panic (slice r i j).

Definition bedrock_decode_calldata (r : bytes) : result DecodeError Bedrock.t :=
  if decide (len r <> BEDROCK_L1_INFO_TX_LEN)
  then Err (InvalidBedrockLength BEDROCK_L1_INFO_TX_LEN (len r)) else
  number ← read_int r 28 36;
  time ← read_int r 60 68;
  base_fee ← read_int r 92 100;
  block_hash ← or_panic (slice r 100 132);
  sequence_number ← read_int r 156 164;
  batcher_address ← or_panic (slice r 176 196);
  l1_fee_overhead ← read_int r 196 228;
  l1_fee_scalar ← read_int r 228 260;
  Ok (Bedrock.mk
        (BedrockBase.mk number time base_fee block_hash sequence_number batcher_address)
        l1_fee_overhead l1_fee_scalar).

Definition ecotone_decode_calldata_body (r : bytes) : result DecodeError EcotoneBase.t :=
  base_fee_scalar ← read_int r 4 8;
  blob_base_fee_scalar ← read_int r 8 12;
  sequence_number ← read_int r 12 20;
  time ← read_int r 20 28;
  number ← read_int r 28 36;
  base_fee ← read_int r 60 68;
  blob_base_fee ← read_int r 84 100;
  block_hash ← or_panic (slice r 100 132);
  batcher_address ← or_panic (slice r 144 164);
  Ok (EcotoneBase.mk
        (BedrockBase.mk number time base_fee block_hash sequence_number batcher_address)
        blob_base_fee blob_base_fee_scalar base_fee_scalar).

Definition ecotone_decode_calldata (r : bytes) : result DecodeError Ecotone.t :=
  if decide (len r <> ECOTONE_L1_INFO_TX_LEN)
  then Err (InvalidEcotoneLength ECOTONE_L1_INFO_TX_LEN (len r)) else
  base ← ecotone_decode_calldata_body r;
  Ok (Ecotone.mk base false 0).

Definition isthmus_decode_calldata_body (r : bytes) : result DecodeError Isthmus.t :=
  base ← ecotone_decode_calldata_body r;
  operator_fee_scalar ← read_int r 164 168;
  operator_fee_constant ← read_int r 168 176;
  Ok (Isthmus.mk base operator_fee_scalar operator_fee_constant).

Definition isthmus_decode_calldata (r : bytes) : result DecodeError Isthmus.t :=
  if decide (len r <> ISTHMUS_L1_INFO_TX_LEN)
  then Err (InvalidIsthmusLength ISTHMUS_L1_INFO_TX_LEN (len r))
  else isthmus_decode_calldata_body r.

Definition jovian_decode_calldata_body (r : bytes) : result DecodeError Jovian.t :=
  base ← isthmus_decode_calldata_body r;
  da ← read_int r 176 178;
  let da := if decide (da = 0) then DEFAULT_DA_FOOTPRINT_GAS_SCALAR else da in
  Ok (Jovian.mk base da).

Definition jovian_decode_calldata (r : bytes) : result DecodeError Jovian.t :=
  if decide (len r <> JOVIAN_L1_INFO_TX_LEN)
  then Err (InvalidJovianLength JOVIAN_L1_INFO_TX_LEN (len r))
  else jovian_decode_calldata_body r.

(** [L1BlockInfoTx::decode_calldata]. *)
Definition decode_calldata (r : bytes) : result DecodeError L1BlockInfoTx :=
  if decide (len r < 4) then Err MissingSelector else
  selector ← or_panic (slice r 0 4);
  if decide (selector = BEDROCK_SELECTOR) then InfoBedrock <$> bedrock_decode_calldata r
  else if decide (selector = ECOTONE_SELECTOR) then InfoEcotone <$> ecotone_decode_calldata r
  else if decide (selector = ISTHMUS_SELECTOR) then InfoIsthmus <$> isthmus_decode_calldata r
  else if decide (selector = JOVIAN_SELECTOR) then InfoJovian <$> jovian_decode_calldata r
  else Err InvalidSelector.

(** ** Accessors *)

Definition info_base (tx : L1BlockInfoTx) : BedrockBase.t :=
  match tx with
  | InfoBedrock i => Bedrock.base i
  | InfoEcotone i => EcotoneBase.base (Ecotone.base i)
  | InfoIsthmus i => EcotoneBase.base (Isthmus.base i)
  | InfoJovian i => EcotoneBase.base (Isthmus.base (Jovian.base i))
  end.

Definition block_hash (tx : L1BlockInfoTx) : B256 := BedrockBase.block_hash (info_base tx).

Definition info_id (tx : L1BlockInfoTx) : BlockNumHash.t :=
  BlockNumHash.mk (BedrockBase.number (info_base tx)) (BedrockBase.block_hash (info_base tx)).

Definition sequence_number (tx : L1BlockInfoTx) : Z := BedrockBase.sequence_number (info_base tx).

Definition batcher_address (tx : L1BlockInfoTx) : Address :=
  BedrockBase.batcher_address (info_base tx).

Definition info_time (tx : L1BlockInfoTx) : Z := BedrockBase.time (info_base tx).

Definition l1_base_fee (tx : L1BlockInfoTx) : Z := BedrockBase.base_fee (info_base tx).

Definition empty_scalars (tx : L1BlockInfoTx) : bool :=
  match tx with
  | InfoEcotone i => Ecotone.empty_scalars i
  | _ => false
  end.

Definition operator_fee_scalar (tx : L1BlockInfoTx) : Z :=
  match tx with
  | InfoJovian i => Isthmus.operator_fee_scalar (Jovian.base i)
  | InfoIsthmus i => Isthmus.operator_fee_scalar i
  | _ => 0
  end.

Definition operator_fee_constant (tx : L1BlockInfoTx) : Z :=
  match tx with
  | InfoJovian i => Isthmus.operator_fee_constant (Jovian.base i)
  | InfoIsthmus i => Isthmus.operator_fee_constant i
  | _ => 0
  end.

Definition da_footprint (tx : L1BlockInfoTx) : option Z :=
  match tx with
  | InfoJovian i => Some (Jovian.da_footprint_gas_scalar i)
  | _ => None
  end.

Definition l1_fee_overhead (tx : L1BlockInfoTx) : Z :=
  match tx with
  | InfoBedrock i => Bedrock.l1_fee_overhead i
  | InfoEcotone i => Ecotone.l1_fee_overhead i
  | _ => 0
  end.

(** ** Building the transaction for a block *)

(** The fields of an L1 header that are read; [hash] is [hash_slow()]. *)
Module L1Header.

Record t : Type := mk {
  number : Z;
  timestamp : Z;
  base_fee_per_gas : option Z;
  hash : B256;
  parent_hash : B256;
  mix_hash : B256;
  parent_beacon_block_root : option B256
}.

End L1Header.

(** The L1 chain configuration and the blob fee schedule of the alloy crates:
    [blob_fee h p] is [h.blob_fee(p)], [scheduled ts] is
    [blob_schedule_blob_params().active_scheduled_params_at_timestamp(ts)]. *)
Class L1Fees : Type := {
  BlobParams : Type;
  osaka_params : BlobParams;
  prague_params : BlobParams;
  cancun_params : BlobParams;
  scheduled : Z -> option BlobParams;
  osaka_time : option Z;
  prague_time : option Z;
  blob_fee : L1Header.t -> BlobParams -> option Z
}.

Section try_new.
Context `{RuntimeUpgradeRegistry} `{L1Fees}.

Definition blob_fee_config (rollup_config : RollupConfig.t) (ts : Z) : BlobParams :=
  match scheduled ts with
  | Some p => p
  | None =>
      if active_at osaka_time ts then osaka_params
      else if active_at prague_time ts &&
              (bool_decide (RollupConfig.upgrade_activation_timestamp rollup_config
                              PectraBlobSchedule = None) ||
               RollupConfig.is_pectra_blob_schedule_active rollup_config ts)
      then prague_params
      else cancun_params
  end.

(** [L1BlockInfoTx::try_new]; the slices of the 32-byte scalar always succeed,
    so the two error cases of the source cannot arise and the model is total. *)
Definition try_new (rollup_config : RollupConfig.t) (system_config : SystemConfig.t)
    (seq : Z) (l1_header : L1Header.t) (l2_parent_block_time l2_block_time : Z)
    : L1BlockInfoTx :=
  let base_fee := default 0 (L1Header.base_fee_per_gas l1_header) in
  let base :=
    BedrockBase.mk (L1Header.number l1_header) (L1Header.timestamp l1_header) base_fee
      (L1Header.hash l1_header) seq (SystemConfig.batcher_address system_config) in
  if negb (RollupConfig.is_ecotone_active rollup_config l2_block_time) ||
     RollupConfig.is_first_ecotone_block rollup_config l2_block_time l2_parent_block_time
  then InfoBedrock (Bedrock.mk base (SystemConfig.overhead system_config)
                      (SystemConfig.scalar system_config))
  else
    let scalar := to_be_bytes 32 (SystemConfig.scalar system_config) in
    let blob_base_fee_scalar :=
      if decide (byte.unsigned (hd Byte.x00 scalar) = L1_SCALAR)
      then from_be_bytes (take 4 (drop 24 scalar)) else 0 in
    let base_fee_scalar := from_be_bytes (take 4 (drop 28 scalar)) in
    let blob_base_fee :=
      default 1 (blob_fee l1_header
                   (blob_fee_config rollup_config (L1Header.timestamp l1_header))) in
    let ecotone := EcotoneBase.mk base blob_base_fee blob_base_fee_scalar base_fee_scalar in
    let isthmus :=
      Isthmus.mk ecotone (default 0 (SystemConfig.operator_fee_scalar system_config))
        (default 0 (SystemConfig.operator_fee_constant system_config)) in
    if RollupConfig.is_jovian_active rollup_config l2_block_time &&
       negb (RollupConfig.is_first_jovian_block rollup_config l2_block_time l2_parent_block_time)
    then
      let da := default DEFAULT_DA_FOOTPRINT_GAS_SCALAR
                  (SystemConfig.da_footprint_gas_scalar system_config) in
      let da := if decide (da = 0) then DEFAULT_DA_FOOTPRINT_GAS_SCALAR else da in
      InfoJovian (Jovian.mk isthmus da)
    else if RollupConfig.is_isthmus_active rollup_config l2_block_time &&
       negb (RollupConfig.is_first_isthmus_block rollup_config l2_block_time l2_parent_block_time)
    then InfoIsthmus isthmus
    else InfoEcotone (Ecotone.mk ecotone false 0).

End try_new.

(** [L1BlockInfoTx::with_sequence_number]. *)
Definition base_with_sequence_number (b : BedrockBase.t) (seq : Z) : BedrockBase.t :=
  BedrockBase.mk (BedrockBase.number b) (BedrockBase.time b) (BedrockBase.base_fee b)
    (BedrockBase.block_hash b) seq (BedrockBase.batcher_address b).

Definition ecotone_with_sequence_number (e : EcotoneBase.t) (seq : Z) : EcotoneBase.t :=
  EcotoneBase.mk (base_with_sequence_number (EcotoneBase.base e) seq)
    (EcotoneBase.blob_base_fee e) (EcotoneBase.blob_base_fee_scalar e)
    (EcotoneBase.base_fee_scalar e).

Definition isthmus_with_sequence_number (i : Isthmus.t) (seq : Z) : Isthmus.t :=
  Isthmus.mk (ecotone_with_sequence_number (Isthmus.base i) seq)
    (Isthmus.operator_fee_scalar i) (Isthmus.operator_fee_constant i).

Definition with_sequence_number (tx : L1BlockInfoTx) (seq : Z) : L1BlockInfoTx :=
  match tx with
  | InfoBedrock i =>
      InfoBedrock (Bedrock.mk (base_with_sequence_number (Bedrock.base i) seq)
                     (Bedrock.l1_fee_overhead i) (Bedrock.l1_fee_scalar i))
  | InfoEcotone i =>
      InfoEcotone (Ecotone.mk (ecotone_with_sequence_number (Ecotone.base i) seq)
                     (Ecotone.empty_scalars i) (Ecotone.l1_fee_overhead i))
  | InfoIsthmus i => InfoIsthmus (isthmus_with_sequence_number i seq)
  | InfoJovian i =>
      InfoJovian (Jovian.mk (isthmus_with_sequence_number (Jovian.base i) seq)
                    (Jovian.da_footprint_gas_scalar i))
  end.

(** ** Lemmas *)

Definition wf_base (b : BedrockBase.t) : Prop :=
  is_u64 (BedrockBase.number b) /\ is_u64 (BedrockBase.time b) /\
  is_u64 (BedrockBase.base_fee b) /\ length (BedrockBase.block_hash b) = 32%nat /\
  is_u64 (BedrockBase.sequence_number b) /\ length (BedrockBase.batcher_address b) = 20%nat.

Definition wf_ecotone (e : EcotoneBase.t) : Prop :=
  wf_base (EcotoneBase.base e) /\ 0 <= EcotoneBase.blob_base_fee e < 2 ^ 128 /\
  is_u32 (EcotoneBase.blob_base_fee_scalar e) /\ is_u32 (EcotoneBase.base_fee_scalar e).

Definition wf_isthmus (i : Isthmus.t) : Prop :=
  wf_ecotone (Isthmus.base i) /\ is_u32 (Isthmus.operator_fee_scalar i) /\
  is_u64 (Isthmus.operator_fee_constant i).

(** What the Rust types say of the fields. *)
Definition wf_info (tx : L1BlockInfoTx) : Prop :=
  match tx with
  | InfoBedrock i =>
      wf_base (Bedrock.base i) /\ 0 <= Bedrock.l1_fee_overhead i < 2 ^ 256 /\
      0 <= Bedrock.l1_fee_scalar i < 2 ^ 256
  | InfoEcotone i => wf_ecotone (Ecotone.base i)
  | InfoIsthmus i => wf_isthmus i
  | InfoJovian i => wf_isthmus (Jovian.base i) /\ is_u16 (Jovian.da_footprint_gas_scalar i)
  end.

(** What survives the calldata: Ecotone's two execution-only fields are not
    encoded, and a zero DA footprint scalar is read as the default. *)
Definition info_view (tx : L1BlockInfoTx) : L1BlockInfoTx :=
  match tx with
  | InfoEcotone i => InfoEcotone (Ecotone.mk (Ecotone.base i) false 0)
  | InfoJovian i =>
      InfoJovian (Jovian.mk (Jovian.base i)
        (if decide (Jovian.da_footprint_gas_scalar i = 0) then DEFAULT_DA_FOOTPRINT_GAS_SCALAR
         else Jovian.da_footprint_gas_scalar i))
  | _ => tx
  end.

(** The calldata as a list of fields, each integer word split at its value. *)
Definition bedrock_fields (i : Bedrock.t) : list bytes :=
  let b := Bedrock.base i in
  [BEDROCK_SELECTOR; zeros 24; to_be_bytes 8 (BedrockBase.number b);
   zeros 24; to_be_bytes 8 (BedrockBase.time b); zeros 24; to_be_bytes 8 (BedrockBase.base_fee b);
   BedrockBase.block_hash b; zeros 24; to_be_bytes 8 (BedrockBase.sequence_number b);
   zeros 12; BedrockBase.batcher_address b;
   to_be_bytes 32 (Bedrock.l1_fee_overhead i); to_be_bytes 32 (Bedrock.l1_fee_scalar i)].

Definition ecotone_fields (selector : bytes) (i : EcotoneBase.t) (rest : list bytes) : list bytes :=
  let b := EcotoneBase.base i in
  [selector; to_be_bytes 4 (EcotoneBase.base_fee_scalar i);
   to_be_bytes 4 (EcotoneBase.blob_base_fee_scalar i);
   to_be_bytes 8 (BedrockBase.sequence_number b); to_be_bytes 8 (BedrockBase.time b);
   to_be_bytes 8 (BedrockBase.number b); zeros 24; to_be_bytes 8 (BedrockBase.base_fee b);
   zeros 16; to_be_bytes 16 (EcotoneBase.blob_base_fee i); BedrockBase.block_hash b;
   zeros 12; BedrockBase.batcher_address b] ++ rest.

Lemma read_int_spec {E} r i j n z :
  slice r i j = Some (to_be_bytes n z) -> 0 <= z < 2 ^ (Z.of_nat n * 8) ->
  @read_int E r i j = Ok z.
Proof. intros Hs Hz. unfold read_int. rewrite Hs. cbn. by rewrite from_to_be_bytes. Qed.

Lemma wf_base_lens b :
  wf_base b -> len (BedrockBase.block_hash b) = 32 /\ len (BedrockBase.batcher_address b) = 20.
Proof. intros (_ & _ & _ & Hh & _ & Ha). unfold len. by rewrite Hh, Ha. Qed.

(** Reading the [k]-th field of the layout [fs]. *)
Ltac field_lens :=
  cbn [sumZ take ecotone_fields bedrock_fields app];
  rewrite ?len_to_be_bytes, ?len_zeros, ?len_cons, ?len_nil;
  repeat match goal with Hl : len _ = _ |- _ => rewrite Hl; clear Hl end;
  reflexivity.
Ltac read_slice fs k i j :=
  rewrite (slice_concat fs k _ i j eq_refl) by field_lens; cbn [or_panic mbind result_bind].
Ltac read_field fs k i j :=
  erewrite (read_int_spec (concat fs) i j);
  [| apply (slice_concat fs k); [reflexivity | field_lens | field_lens] | lia];
  cbn [mbind result_bind].

Lemma ecotone_body_roundtrip selector e rest :
  len selector = 4 -> wf_ecotone e ->
  ecotone_decode_calldata_body (concat (ecotone_fields selector e rest)) = Ok e.
Proof.
  intros Hsel (Hb & Hbf & Hbs & Hs). destruct (wf_base_lens _ Hb) as [Hh Ha].
  destruct Hb as (Hn & Ht & Hf & _ & Hq & _). unfold u64_max, u32_max in *.
  unfold ecotone_decode_calldata_body.
  read_field (ecotone_fields selector e rest) 1%nat 4 8. read_field (ecotone_fields selector e rest) 2%nat 8 12. read_field (ecotone_fields selector e rest) 3%nat 12 20.
  read_field (ecotone_fields selector e rest) 4%nat 20 28. read_field (ecotone_fields selector e rest) 5%nat 28 36. read_field (ecotone_fields selector e rest) 7%nat 60 68.
  read_field (ecotone_fields selector e rest) 9%nat 84 100. read_slice (ecotone_fields selector e rest) 10%nat 100 132. read_slice (ecotone_fields selector e rest) 12%nat 144 164.
  by destruct e as [[]].
Qed.

Lemma bedrock_roundtrip i :
  wf_info (InfoBedrock i) -> bedrock_decode_calldata (concat (bedrock_fields i)) = Ok i.
Proof.
  intros (Hb & Ho & Hs). destruct (wf_base_lens _ Hb) as [Hh Ha].
  destruct Hb as (Hn & Ht & Hf & _ & Hq & _). unfold u64_max in *.
  unfold bedrock_decode_calldata.
  assert (len (concat (bedrock_fields i)) = BEDROCK_L1_INFO_TX_LEN) as Hl.
  { cbn [bedrock_fields concat]. rewrite !len_app. field_lens. }
  rewrite decide_False by tauto.
  read_field (bedrock_fields i) 2%nat 28 36. read_field (bedrock_fields i) 4%nat 60 68. read_field (bedrock_fields i) 6%nat 92 100.
  read_slice (bedrock_fields i) 7%nat 100 132. read_field (bedrock_fields i) 9%nat 156 164. read_slice (bedrock_fields i) 11%nat 176 196.
  read_field (bedrock_fields i) 12%nat 196 228. read_field (bedrock_fields i) 13%nat 228 260.
  by destruct i as [[]].
Qed.

(** The encoders lay out exactly these fields. *)
Lemma bedrock_encode_fields i :
  wf_info (InfoBedrock i) -> bedrock_encode_calldata i = concat (bedrock_fields i).
Proof.
  intros (Hb & _ & _). destruct Hb as (Hn & Ht & Hf & _ & Hq & _). unfold u64_max in *.
  unfold bedrock_encode_calldata, bedrock_fields, into_word. cbn [concat].
  rewrite !(to_be_bytes_pad 24 8) by lia. by rewrite <- !app_assoc, app_nil_r.
Qed.

Lemma ecotone_encode_fields selector e rest :
  wf_ecotone e ->
  selector ++ ecotone_encode_calldata_body e ++ concat rest =
  concat (ecotone_fields selector e rest).
Proof.
  intros (Hb & Hbf & _). destruct Hb as (_ & _ & Hf & _). unfold u64_max in *.
  unfold ecotone_encode_calldata_body, ecotone_fields, into_word.
  rewrite (to_be_bytes_pad 24 8), (to_be_bytes_pad 16 16) by lia.
  rewrite concat_app. cbn [concat]. by rewrite <- !app_assoc.
Qed.

Lemma ecotone_fields_len selector e rest :
  len selector = 4 -> wf_ecotone e ->
  len (concat (ecotone_fields selector e rest)) = 164 + len (concat rest).
Proof.
  intros Hsel (Hb & _). destruct (wf_base_lens _ Hb) as [Hh Ha].
  unfold ecotone_fields. rewrite concat_app, len_app. f_equal.
  cbn [concat]. rewrite !len_app. field_lens.
Qed.

Lemma selector_fields selector e rest :
  len selector = 4 -> slice (concat (ecotone_fields selector e rest)) 0 4 = Some selector.
Proof. intros Hs. by apply (slice_concat _ 0). Qed.

Lemma isthmus_encode_fields selector i rest :
  wf_isthmus i ->
  selector ++ isthmus_encode_calldata_body i ++ concat rest =
  concat (ecotone_fields selector (Isthmus.base i)
    ([to_be_bytes 4 (Isthmus.operator_fee_scalar i);
      to_be_bytes 8 (Isthmus.operator_fee_constant i)] ++ rest)).
Proof.
  intros (He & _). rewrite <- ecotone_encode_fields by done.
  unfold isthmus_encode_calldata_body. cbn [app concat]. by rewrite <- !app_assoc.
Qed.

Lemma isthmus_body_roundtrip selector i rest :
  len selector = 4 -> wf_isthmus i ->
  isthmus_decode_calldata_body (concat (ecotone_fields selector (Isthmus.base i)
    ([to_be_bytes 4 (Isthmus.operator_fee_scalar i);
      to_be_bytes 8 (Isthmus.operator_fee_constant i)] ++ rest))) = Ok i.
Proof.
  intros Hsel (He & Hs & Hc). unfold isthmus_decode_calldata_body.
  rewrite ecotone_body_roundtrip by done. cbn [mbind result_bind].
  destruct He as (Hb & _). destruct (wf_base_lens _ Hb) as [Hh Ha]. unfold u32_max, u64_max in *.
  read_field (ecotone_fields selector (Isthmus.base i)
    ([to_be_bytes 4 (Isthmus.operator_fee_scalar i);
      to_be_bytes 8 (Isthmus.operator_fee_constant i)] ++ rest)) 13%nat 164 168.
  read_field (ecotone_fields selector (Isthmus.base i)
    ([to_be_bytes 4 (Isthmus.operator_fee_scalar i);
      to_be_bytes 8 (Isthmus.operator_fee_constant i)] ++ rest)) 14%nat 168 176.
  by destruct i.
Qed.

Lemma jovian_roundtrip i :
  wf_info (InfoJovian i) ->
  InfoJovian <$> jovian_decode_calldata (encode_calldata (InfoJovian i)) =
  Ok (info_view (InfoJovian i)) /\
  slice (encode_calldata (InfoJovian i)) 0 4 = Some JOVIAN_SELECTOR.
Proof.
  intros (Hi & Hd). pose proof Hi as (He & _). pose proof He as (Hb & _).
  destruct (wf_base_lens _ Hb) as [Hh Ha]. unfold u16_max in Hd.
  cbn [encode_calldata]. unfold jovian_encode_calldata_body.
  replace (to_be_bytes 2 (Jovian.da_footprint_gas_scalar i))
    with (concat [to_be_bytes 2 (Jovian.da_footprint_gas_scalar i)])
    by (cbn; by rewrite app_nil_r).
  rewrite isthmus_encode_fields by done. split; [|by apply selector_fields].
  unfold jovian_decode_calldata, jovian_decode_calldata_body.
  rewrite decide_False; [|rewrite ecotone_fields_len by done; cbn [app concat];
    rewrite !len_app, !len_to_be_bytes; by intros []].
  rewrite isthmus_body_roundtrip by done. cbn [mbind result_bind].
  match goal with |- context [read_int (concat ?fs) 176 178] => read_field fs 15%nat 176 178 end.
  done.
Qed.

Lemma isthmus_roundtrip i :
  wf_isthmus i ->
  InfoIsthmus <$> isthmus_decode_calldata (encode_calldata (InfoIsthmus i)) = Ok (InfoIsthmus i) /\
  slice (encode_calldata (InfoIsthmus i)) 0 4 = Some ISTHMUS_SELECTOR.
Proof.
  intros Hi. pose proof Hi as (He & _). cbn [encode_calldata].
  rewrite <- (app_nil_r (isthmus_encode_calldata_body i)).
  change (@nil byte) with (concat (@nil bytes)).
  rewrite isthmus_encode_fields by done. split; [|by apply selector_fields].
  unfold isthmus_decode_calldata.
  rewrite decide_False; [|rewrite ecotone_fields_len by done; cbn [app concat];
    rewrite !len_app, !len_to_be_bytes; by intros []].
  by rewrite isthmus_body_roundtrip.
Qed.

Lemma ecotone_roundtrip i :
  wf_ecotone (Ecotone.base i) ->
  InfoEcotone <$> ecotone_decode_calldata (encode_calldata (InfoEcotone i)) =
  Ok (info_view (InfoEcotone i)) /\
  slice (encode_calldata (InfoEcotone i)) 0 4 = Some ECOTONE_SELECTOR.
Proof.
  intros He. cbn [encode_calldata].
  rewrite <- (app_nil_r (ecotone_encode_calldata_body _)).
  change (@nil byte) with (concat (@nil bytes)).
  rewrite ecotone_encode_fields by done. split; [|by apply selector_fields].
  unfold ecotone_decode_calldata.
  rewrite decide_False; [|rewrite ecotone_fields_len by done; by intros []].
  by rewrite ecotone_body_roundtrip.
Qed.

Lemma slice_len_lower {A} (r : list A) i j s : slice r i j = Some s -> ~ len r < j.
Proof. intros (_ & ? & _)%slice_Some. lia. Qed.

Lemma read_int_in_range {E} r i j :
  0 <= i <= j -> j <= len r -> exists z, @read_int E r i j = Ok z.
Proof.
  intros Hij Hj. unfold read_int. destruct (slice_in_range r i j) as [s ->]; [done..|].
  by eexists.
Qed.

Ltac step_read :=
  match goal with
  | |- context [@read_int ?E ?r ?i ?j] =>
      let z := fresh "z" in destruct (@read_int_in_range E r i j) as [z ->]; [lia..|]
  | |- context [slice ?r ?i ?j] =>
      let s := fresh "s" in destruct (slice_in_range r i j) as [s ->]; [lia..|]
  end; cbn [or_panic mbind result_bind].

Lemma ecotone_body_total r :
  164 <= len r -> exists e, ecotone_decode_calldata_body r = Ok e.
Proof. intros Hr. unfold ecotone_decode_calldata_body. do 9 step_read. by eexists. Qed.

Lemma isthmus_body_total r :
  176 <= len r -> exists i, isthmus_decode_calldata_body r = Ok i.
Proof.
  intros Hr. unfold isthmus_decode_calldata_body.
  destruct (ecotone_body_total r) as [e ->]; [lia|]. cbn [mbind result_bind].
  do 2 step_read. by eexists.
Qed.

Lemma decode_encode_info tx :
  wf_info tx -> decode_calldata (encode_calldata tx) = Ok (info_view tx).
Proof.
  intros Hwf. unfold decode_calldata. destruct tx as [i|i|i|i].
  - assert (slice (encode_calldata (InfoBedrock i)) 0 4 = Some BEDROCK_SELECTOR) as Hs
      by (eapply (slice_spec _ [] BEDROCK_SELECTOR); reflexivity).
    rewrite decide_False by (by eapply slice_len_lower). rewrite Hs. cbn [or_panic mbind result_bind].
    rewrite decide_True by done. cbn [encode_calldata]. rewrite bedrock_encode_fields by done.
    by rewrite bedrock_roundtrip.
  - destruct (ecotone_roundtrip i Hwf) as [Hd Hs].
    rewrite decide_False by (by eapply slice_len_lower). rewrite Hs. exact Hd.
  - destruct (isthmus_roundtrip i Hwf) as [Hd Hs].
    rewrite decide_False by (by eapply slice_len_lower). rewrite Hs. exact Hd.
  - destruct (jovian_roundtrip i Hwf) as [Hd Hs].
    rewrite decide_False by (by eapply slice_len_lower). rewrite Hs. exact Hd.
Qed.

(** ** Properties *)

(** C15: every L1 info transaction is recovered from its calldata, in each of
    the four formats (up to the two Ecotone fields that are not encoded and
    the default DA footprint scalar). *)
Theorem decode_encode_calldata tx :
  wf_info tx -> decode_calldata (encode_calldata tx) = Ok (info_view tx).
Proof. apply decode_encode_info. Qed.

Lemma decode_encode_calldata_witness :
  let tx := InfoIsthmus (Isthmus.mk
    (EcotoneBase.mk (BedrockBase.mk 17 1000 7 (zeros 32) 3 (zeros 20)) 9 810949 1368) 5 6) in
  decode_calldata (encode_calldata tx) = Ok tx.
Proof. intros tx. apply (decode_encode_calldata tx). by vm_compute. Defined.

(** Decoding calldata never panics, whatever bytes the first transaction
    of a block carries: every slice is within the length that was checked. *)
Theorem decode_calldata_total r : decode_calldata r <> Panic.
Proof.
  unfold decode_calldata. case_decide; [done|].
  step_read. repeat case_decide; [..|done].
  - unfold bedrock_decode_calldata. case_decide as Hl; [done|].
    unfold BEDROCK_L1_INFO_TX_LEN in *. do 8 step_read. done.
  - unfold ecotone_decode_calldata. case_decide as Hl; [done|].
    by destruct (ecotone_body_total r) as [e ->]; [unfold ECOTONE_L1_INFO_TX_LEN in *; lia|].
  - unfold isthmus_decode_calldata. case_decide as Hl; [done|].
    by destruct (isthmus_body_total r) as [e ->]; [unfold ISTHMUS_L1_INFO_TX_LEN in *; lia|].
  - unfold jovian_decode_calldata, jovian_decode_calldata_body. case_decide as Hl; [done|].
    unfold JOVIAN_L1_INFO_TX_LEN in *.
    destruct (isthmus_body_total r) as [e ->]; [lia|]. cbn [mbind result_bind].
    by step_read.
Qed.

(** The Rust types of the inputs of [try_new]. *)
Definition wf_header (h : L1Header.t) : Prop :=
  is_u64 (L1Header.number h) /\ is_u64 (L1Header.timestamp h) /\
  (forall f, L1Header.base_fee_per_gas h = Some f -> is_u64 f) /\
  length (L1Header.hash h) = 32%nat.

Definition wf_system_config (c : SystemConfig.t) : Prop :=
  length (SystemConfig.batcher_address c) = 20%nat /\
  0 <= SystemConfig.overhead c < 2 ^ 256 /\ 0 <= SystemConfig.scalar c < 2 ^ 256 /\
  (forall z, SystemConfig.operator_fee_scalar c = Some z -> is_u32 z) /\
  (forall z, SystemConfig.operator_fee_constant c = Some z -> is_u64 z) /\
  (forall z, SystemConfig.da_footprint_gas_scalar c = Some z -> is_u16 z).

Section block_info.
Context `{RuntimeUpgradeRegistry} `{L1Fees}.
Hypothesis blob_fee_u128 : forall h p f, blob_fee h p = Some f -> 0 <= f < 2 ^ 128.

Lemma from_be_take4 b : is_u32 (from_be_bytes (take 4 b)).
Proof.
  pose proof (from_be_bytes_bound (take 4 b)) as [H1 H2]. split; [done|].
  assert (2 ^ (8 * len (take 4 b)) <= 2 ^ 32).
  { apply Z.pow_le_mono_r; [lia|]. unfold len. rewrite length_take. lia. }
  unfold u32_max. lia.
Qed.

Lemma try_new_wf rc sc seq h parent_time time :
  wf_header h -> wf_system_config sc -> is_u64 seq ->
  wf_info (try_new rc sc seq h parent_time time) /\
  info_base (try_new rc sc seq h parent_time time) =
    BedrockBase.mk (L1Header.number h) (L1Header.timestamp h)
      (default 0 (L1Header.base_fee_per_gas h)) (L1Header.hash h) seq
      (SystemConfig.batcher_address sc).
Proof.
  intros (Hn & Ht & Hf & Hh) (Hb & Ho & Hs & Hos & Hoc & Hda) Hq.
  assert (is_u64 (default 0 (L1Header.base_fee_per_gas h))) as Hfee
    by (destruct (L1Header.base_fee_per_gas h); cbn; [by apply Hf|by vm_compute]).
  assert (is_u32 (default 0 (SystemConfig.operator_fee_scalar sc))) as Hos'
    by (destruct (SystemConfig.operator_fee_scalar sc); cbn; [by apply Hos|by vm_compute]).
  assert (is_u64 (default 0 (SystemConfig.operator_fee_constant sc))) as Hoc'
    by (destruct (SystemConfig.operator_fee_constant sc); cbn; [by apply Hoc|by vm_compute]).
  set (p := blob_fee_config rc (L1Header.timestamp h)).
  assert (0 <= default 1 (blob_fee h p) < 2 ^ 128) as Hblob
    by (destruct (blob_fee h p) eqn:E; cbn; [by eapply blob_fee_u128|by vm_compute]).
  destruct Hn, Ht, Hfee, Hos', Hoc', Hblob, Ho, Hs, Hq.
  unfold try_new. cbv zeta. fold p. destruct (negb _ || _); [by repeat split|].
  set (bs := if decide (byte.unsigned _ = L1_SCALAR) then _ else _).
  assert (is_u32 bs) as Hbs by (unfold bs; case_decide; [apply from_be_take4|by vm_compute]).
  destruct Hbs, (from_be_take4 (drop 28 (to_be_bytes 32 (SystemConfig.scalar sc)))).
  destruct (RollupConfig.is_jovian_active rc time && _).
  - split; [|done]. split; [by repeat split|]. cbn. case_decide; [by vm_compute|].
    destruct (SystemConfig.da_footprint_gas_scalar sc); cbn; [by apply Hda|by vm_compute].
  - destruct (RollupConfig.is_isthmus_active rc time && _); by repeat split.
Qed.

(** The L1 info transaction built for a block tells the reader of the
    block its L1 origin: decoding its calldata yields the header's number and
    hash, the sequence number and the batcher address, whichever format the
    active upgrades select. *)
Theorem l1_info_of_block rc sc seq h parent_time time :
  wf_header h -> wf_system_config sc -> is_u64 seq ->
  exists tx, decode_calldata (encode_calldata (try_new rc sc seq h parent_time time)) = Ok tx /\
    info_id tx = BlockNumHash.mk (L1Header.number h) (L1Header.hash h) /\
    sequence_number tx = seq /\ batcher_address tx = SystemConfig.batcher_address sc.
Proof.
  intros Hh Hs Hq. destruct (try_new_wf rc sc seq h parent_time time Hh Hs Hq) as [Hwf Hb].
  exists (info_view (try_new rc sc seq h parent_time time)).
  split; [by apply decode_encode_info|].
  unfold info_id, sequence_number, batcher_address.
  assert (forall tx, info_base (info_view tx) = info_base tx) as -> by (by intros []).
  by rewrite Hb.
Qed.

End block_info.

(** A fee schedule for evaluation. *)
Definition sample_fees : L1Fees := {|
  BlobParams := unit;
  osaka_params := ();
  prague_params := ();
  cancun_params := ();
  scheduled _ := None;
  osaka_time := None;
  prague_time := None;
  blob_fee _ _ := Some 1
|}.

Lemma l1_info_of_block_witness :
  let h := L1Header.mk 17 1000 (Some 7) (zeros 32) (zeros 32) (zeros 32) None in
  let tx := @try_new (∅ : Registry.t) sample_fees sample_config SystemConfig.default 3 h 1000 1002 in
  exists tx', decode_calldata (encode_calldata tx) = Ok tx' /\
    info_id tx' = BlockNumHash.mk 17 (zeros 32) /\ sequence_number tx' = 3 /\
    batcher_address tx' = zeros 20.
Proof.
  intros h tx.
  apply (@l1_info_of_block (∅ : Registry.t) sample_fees) with (h := h) (sc := SystemConfig.default).
  - intros _ _ f [= <-]. by vm_compute.
  - split; [by vm_compute|]. split; [by vm_compute|]. split; [|done].
    intros f [= <-]. by vm_compute.
  - split; [done|]. split; [by vm_compute|]. split; [by vm_compute|].
    split; [|split]; by intros z [=].
  - by vm_compute.
Defined.
