(* ===== verification/SingleBatches.v ===== *)
(** * Batch validity and single batches

    Models [src/crates/consensus/protocol/src/batch/validity.rs] and
    [.../batch/single.rs]: the verdicts of batch validation and the validation
    of a singular batch, which encodes one L2 block, against the L2 safe head
    and the known L1 origins. *)

From S2P Require Import Prelude Primitives Upgrades Rollup.

(** ** Verdicts *)

Inductive BatchDropReason : Set :=
| FutureTimestampHolocene
| PastTimestampPreHolocene
| ParentHashMismatch
| IncludedTooLate
| EpochTooOld
| EpochTooFarInFuture
| EpochHashMismatch
| SameSecondOriginChange
| TimestampBeforeL1Origin
| SequencerDriftOverflow
| SequencerDriftExceeded
| SequencerDriftNotAdoptedNextOrigin
| EmptyTransaction
| DepositTransaction
| Eip7702PreIsthmus
| Eip8130PreEverest
| NonEmptyTransitionBlock
| SpanBatchPreDelta
| SpanBatchPostDenim
| SpanBatchNoNewBlocksPreHolocene
| SpanBatchMisalignedTimestamp
| SpanBatchNotOverlappedExactly
| L1OriginBeforeSafeHead
| MissingL1Origin
| OverlappedTxCountMismatch
| OverlappedTxMismatch
| L2BlockInfoExtractionFailed
| OverlappedL1OriginMismatch.

Inductive BatchValidity : Set :=
| Drop (reason : BatchDropReason)
| Accept
| Undecided
| Future
| Past.

#[global] Instance BatchDropReason_eq_dec : EqDecision BatchDropReason.
Proof. solve_decision. Defined.

#[global] Instance BatchValidity_eq_dec : EqDecision BatchValidity.
Proof. solve_decision. Defined.

Definition is_accept (v : BatchValidity) : bool :=
  match v with
  | Accept => true
  | _ => false
  end.

Definition is_drop (v : BatchValidity) : bool :=
  match v with
  | Drop _ => true
  | _ => false
  end.

Definition drop_reason (v : BatchValidity) : option BatchDropReason :=
  match v with
  | Drop r => Some r
  | _ => None
  end.

Definition is_outdated (v : BatchValidity) : bool :=
  match v with
  | Past => true
  | _ => false
  end.

Definition is_future (v : BatchValidity) : bool :=
  match v with
  | Future => true
  | _ => false
  end.

(** ** Transaction type bytes ([OpTxType]) *)

Definition DEPOSIT_TX_TYPE : byte := Byte.x7e.
Definition EIP7702_TX_TYPE : byte := Byte.x04.
Definition EIP8130_TX_TYPE : byte := Byte.x79.

Section transactions.
Context `{RuntimeUpgradeRegistry}.

(** The transaction loop of batch validation, shared by single and span
    batches: [None] when no transaction is refused. *)
Fixpoint check_transactions (cfg : RollupConfig.t) (ts : Z) (txs : list bytes)
    : option BatchDropReason :=
  match txs with
  | [] => None
  | tx :: txs =>
      match tx with
      | [] => Some EmptyTransaction
      | ty :: _ =>
          if decide (ty = DEPOSIT_TX_TYPE) then Some DepositTransaction
          else if negb (RollupConfig.is_isthmus_active cfg ts) && bool_decide (ty = EIP7702_TX_TYPE)
          then Some Eip7702PreIsthmus
          else if negb (RollupConfig.is_everest_active cfg ts) && bool_decide (ty = EIP8130_TX_TYPE)
          then Some Eip8130PreEverest
          else check_transactions cfg ts txs
      end
  end.

(** A transaction a batch may carry at L2 time [ts]. *)
Definition tx_allowed (cfg : RollupConfig.t) (ts : Z) (tx : bytes) : Prop :=
  match tx with
  | [] => False
  | ty :: _ =>
      ty <> DEPOSIT_TX_TYPE /\
      (ty = EIP7702_TX_TYPE -> RollupConfig.is_isthmus_active cfg ts = true) /\
      (ty = EIP8130_TX_TYPE -> RollupConfig.is_everest_active cfg ts = true)
  end.

Lemma check_transactions_None cfg ts txs :
  check_transactions cfg ts txs = None <-> Forall (tx_allowed cfg ts) txs.
Proof.
  induction txs as [|tx txs IH]; cbn [check_transactions].
  - split; [constructor|done].
  - rewrite Forall_cons. destruct tx as [|ty tx]; cbn [tx_allowed].
    + split; [done|tauto].
    + case_decide; [naive_solver|].
      destruct (RollupConfig.is_isthmus_active cfg ts); cbn;
        destruct (RollupConfig.is_everest_active cfg ts); cbn;
        repeat case_bool_decide; naive_solver.
Qed.

End transactions.

(** ** Single batches *)

Module SingleBatch.

Record t : Type := mk {
  parent_hash : B256;
  epoch_num : Z;
  epoch_hash : B256;
  timestamp : Z;
  transactions : list bytes
}.

#[global] Instance eq_decision : EqDecision t.
Proof. solve_decision. Defined.

Definition epoch (b : t) : BlockNumHash.t := BlockNumHash.mk (epoch_num b) (epoch_hash b).

Section check.
Context `{RuntimeUpgradeRegistry}.

Definition check_batch_timestamp (b : t) (cfg : RollupConfig.t) (l2_safe_head : L2BlockInfo.t)
    (inclusion_block : BlockInfo.t) : BatchValidity :=
  let next_timestamp :=
    RollupConfig.l2_block_timestamp cfg
      (u64_saturating_add (BlockInfo.number (L2BlockInfo.block_info l2_safe_head)) 1) in
  if decide (next_timestamp < timestamp b) then
    if RollupConfig.is_holocene_active cfg (BlockInfo.timestamp inclusion_block)
    then Drop FutureTimestampHolocene else Future
  else if decide (timestamp b < next_timestamp) then
    if RollupConfig.is_holocene_active cfg (BlockInfo.timestamp inclusion_block)
    then Past else Drop PastTimestampPreHolocene
  else Accept.

(** Denim's one-origin-per-second rule applies to this batch. *)
Definition same_second (b : t) (cfg : RollupConfig.t) (l2_safe_head : L2BlockInfo.t) : bool :=
  RollupConfig.is_denim_active cfg (timestamp b) &&
  bool_decide (timestamp b = BlockInfo.timestamp (L2BlockInfo.block_info l2_safe_head)).

(** The final checks: no transactions in the Jovian transition block, and the
    transaction loop. *)
Definition check_contents (b : t) (cfg : RollupConfig.t) (l2_safe_head : L2BlockInfo.t)
    : BatchValidity :=
  if RollupConfig.is_first_jovian_block cfg (timestamp b)
       (BlockInfo.timestamp (L2BlockInfo.block_info l2_safe_head)) &&
     negb (bool_decide (transactions b = []))
  then Drop NonEmptyTransitionBlock
  else match check_transactions cfg (timestamp b) (transactions b) with
       | Some r => Drop r
       | None => Accept
       end.

(** The checks from the epoch hash on, once the batch's L1 origin is known. *)
Definition check_origin (b : t) (cfg : RollupConfig.t) (epoch batch_origin : BlockInfo.t)
    (next_origin : option BlockInfo.t) (l2_safe_head : L2BlockInfo.t) : BatchValidity :=
  if decide (epoch_hash b <> BlockInfo.hash batch_origin) then Drop EpochHashMismatch
  else if decide (timestamp b < BlockInfo.timestamp batch_origin)
  then Drop TimestampBeforeL1Origin
  else
    let max_drift := RollupConfig.max_sequencer_drift cfg (BlockInfo.timestamp batch_origin) in
    match u64_checked_add (BlockInfo.timestamp batch_origin) max_drift with
    | None => Drop SequencerDriftOverflow
    | Some max =>
        let no_txs := bool_decide (transactions b = []) in
        if bool_decide (max < timestamp b) && negb no_txs then Drop SequencerDriftExceeded
        else if bool_decide (max < timestamp b) && no_txs &&
                bool_decide (BlockInfo.number epoch = BlockInfo.number batch_origin) &&
                negb (same_second b cfg l2_safe_head)
        then match next_origin with
             | None => Undecided
             | Some next =>
                 if decide (BlockInfo.timestamp next <= timestamp b)
                 then Drop SequencerDriftNotAdoptedNextOrigin
                 else check_contents b cfg l2_safe_head
             end
        else check_contents b cfg l2_safe_head
    end.

(** [SingleBatch::check_batch]. *)
Definition check_batch (b : t) (cfg : RollupConfig.t) (l1_blocks : list BlockInfo.t)
    (l2_safe_head : L2BlockInfo.t) (inclusion_block : BlockInfo.t) : BatchValidity :=
  match l1_blocks with
  | [] => Undecided
  | epoch_block :: rest =>
      let timestamp_check := check_batch_timestamp b cfg l2_safe_head inclusion_block in
      if negb (is_accept timestamp_check) then timestamp_check
      else if decide (parent_hash b <> BlockInfo.hash (L2BlockInfo.block_info l2_safe_head))
      then Drop ParentHashMismatch
      else if same_second b cfg l2_safe_head &&
              negb (bool_decide (epoch b = L2BlockInfo.l1_origin l2_safe_head))
      then Drop SameSecondOriginChange
      else if decide (u64_add (epoch_num b) (RollupConfig.seq_window_size cfg)
                        < BlockInfo.number inclusion_block)
      then Drop IncludedTooLate
      else if decide (epoch_num b < BlockInfo.number epoch_block) then Drop EpochTooOld
      else if decide (epoch_num b = BlockInfo.number epoch_block)
      then check_origin b cfg epoch_block epoch_block (head rest) l2_safe_head
      else if decide (epoch_num b = u64_add (BlockInfo.number epoch_block) 1)
      then match rest with
           | [] => Undecided
           | next :: _ => check_origin b cfg epoch_block next (head rest) l2_safe_head
           end
      else Drop EpochTooFarInFuture
  end.

(** ** Specification

    When a single batch is valid on top of a safe head: it has the next block's
    timestamp and the head as parent, respects Denim's one origin per second
    and the sequencing window, names the current or the next L1 origin, lies
    within the sequencer drift of that origin (or is an empty block that could
    not adopt the next origin), and carries only allowed transactions. *)
Definition within_drift (b : t) (cfg : RollupConfig.t) (epoch_block origin : BlockInfo.t)
    (next_origin : option BlockInfo.t) (l2_safe_head : L2BlockInfo.t) : Prop :=
  let max := BlockInfo.timestamp origin +
             RollupConfig.max_sequencer_drift cfg (BlockInfo.timestamp origin) in
  max <= u64_max /\
  (timestamp b <= max \/
   transactions b = [] /\
   (BlockInfo.number epoch_block = BlockInfo.number origin ->
    same_second b cfg l2_safe_head = false ->
    exists next, next_origin = Some next /\ timestamp b < BlockInfo.timestamp next)).

Record valid_origin (b : t) (cfg : RollupConfig.t) (epoch_block origin : BlockInfo.t)
    (next_origin : option BlockInfo.t) (l2_safe_head : L2BlockInfo.t) : Prop := {
  vo_hash : epoch_hash b = BlockInfo.hash origin;
  vo_time : BlockInfo.timestamp origin <= timestamp b;
  vo_drift : within_drift b cfg epoch_block origin next_origin l2_safe_head;
  vo_transition :
    RollupConfig.is_first_jovian_block cfg (timestamp b)
      (BlockInfo.timestamp (L2BlockInfo.block_info l2_safe_head)) = true -> transactions b = [];
  vo_txs : Forall (tx_allowed cfg (timestamp b)) (transactions b)
}.

Record valid (b : t) (cfg : RollupConfig.t) (epoch_block : BlockInfo.t)
    (rest : list BlockInfo.t) (l2_safe_head : L2BlockInfo.t) (inclusion_block : BlockInfo.t)
    : Prop := {
  v_timestamp : timestamp b =
    RollupConfig.l2_block_timestamp cfg
      (u64_saturating_add (BlockInfo.number (L2BlockInfo.block_info l2_safe_head)) 1);
  v_parent : parent_hash b = BlockInfo.hash (L2BlockInfo.block_info l2_safe_head);
  v_second : same_second b cfg l2_safe_head = true -> epoch b = L2BlockInfo.l1_origin l2_safe_head;
  v_window : BlockInfo.number inclusion_block
               <= u64_add (epoch_num b) (RollupConfig.seq_window_size cfg);
  v_epoch : BlockInfo.number epoch_block <= epoch_num b;
  v_origin : exists origin,
    (epoch_num b = BlockInfo.number epoch_block /\ origin = epoch_block \/
     epoch_num b = u64_add (BlockInfo.number epoch_block) 1 /\ head rest = Some origin /\
     epoch_num b <> BlockInfo.number epoch_block) /\
    valid_origin b cfg epoch_block origin (head rest) l2_safe_head
}.

(** ** Lemmas *)

Lemma check_batch_timestamp_Accept b cfg l2_safe_head inclusion_block :
  is_accept (check_batch_timestamp b cfg l2_safe_head inclusion_block) = true <->
  timestamp b = RollupConfig.l2_block_timestamp cfg
    (u64_saturating_add (BlockInfo.number (L2BlockInfo.block_info l2_safe_head)) 1).
Proof.
  unfold check_batch_timestamp. set (n := RollupConfig.l2_block_timestamp _ _).
  destruct (RollupConfig.is_holocene_active _ _); repeat case_decide; cbn; (split; [done|lia]) || (split; [lia|done]).
Qed.

Lemma check_contents_Accept b cfg l2_safe_head :
  check_contents b cfg l2_safe_head = Accept <->
  (RollupConfig.is_first_jovian_block cfg (timestamp b)
     (BlockInfo.timestamp (L2BlockInfo.block_info l2_safe_head)) = true -> transactions b = []) /\
  Forall (tx_allowed cfg (timestamp b)) (transactions b).
Proof.
  unfold check_contents. rewrite <- check_transactions_None.
  destruct (RollupConfig.is_first_jovian_block _ _ _); cbn.
  - case_bool_decide as Htx; cbn.
    + destruct (check_transactions _ _ _); naive_solver.
    + split; [done|]. intros [? _]. tauto.
  - destruct (check_transactions _ _ _); naive_solver.
Qed.

Lemma check_origin_Accept b cfg epoch_block origin next_origin l2_safe_head :
  check_origin b cfg epoch_block origin next_origin l2_safe_head = Accept <->
  valid_origin b cfg epoch_block origin next_origin l2_safe_head.
Proof.
  pose proof (check_contents_Accept b cfg l2_safe_head) as Hc.
  unfold check_origin, u64_checked_add. split.
  - case_decide; [done|]. case_decide; [done|]. case_decide; [|done]. cbn zeta.
    intros HA. enough (within_drift b cfg epoch_block origin next_origin l2_safe_head /\
                       check_contents b cfg l2_safe_head = Accept) as [Hd [? ?]%Hc].
    { constructor; auto with lia. }
    unfold within_drift. revert HA.
    case_bool_decide; cbn; [|intros; split; [split; [done|left; lia]|done]].
    case_bool_decide; cbn; [|done].
    case_bool_decide; cbn; [|intros; split; [split; [done|right; tauto]|done]].
    destruct (same_second b cfg l2_safe_head) eqn:Hss; cbn;
      [intros; split; [split; [done|right; split; done]|done]|].
    destruct next_origin as [next|]; [|done]. case_decide; [done|].
    intros HA. split; [|done]. split; [done|]. right. split; [done|]. intros _ _.
    exists next. split; [done|lia].
  - intros [Hh Ht [Hm Hd] Htr Htx]. assert (check_contents b cfg l2_safe_head = Accept) as HA by tauto.
    rewrite decide_False by tauto. rewrite decide_False by lia. rewrite decide_True by done.
    destruct Hd as [Hd|[Hno Hn]].
    + by rewrite bool_decide_eq_false_2 by lia.
    + rewrite (bool_decide_eq_true_2 (transactions b = [])) by done. cbn.
      rewrite andb_false_r. case_bool_decide; cbn; [|done]. case_bool_decide as He; cbn; [|done].
      destruct (same_second b cfg l2_safe_head); cbn; [done|].
      destruct (Hn He eq_refl) as (next & -> & Hlt). by rewrite decide_False by lia.
Qed.

(** ** Properties *)

Lemma accept_valid b cfg l1_blocks l2_safe_head inclusion_block :
  check_batch b cfg l1_blocks l2_safe_head inclusion_block = Accept <->
  exists epoch_block rest, l1_blocks = epoch_block :: rest /\
    valid b cfg epoch_block rest l2_safe_head inclusion_block.
Proof.
  destruct l1_blocks as [|e rest]; cbn [check_batch]; [naive_solver|].
  pose proof (check_batch_timestamp_Accept b cfg l2_safe_head inclusion_block) as Hts.
  transitivity (valid b cfg e rest l2_safe_head inclusion_block); [|naive_solver].
  split.
  - destruct (is_accept _) eqn:Ea; cbn [negb]; [|by intros E; rewrite E in Ea].
    case_decide; [done|].
    destruct (same_second b cfg l2_safe_head && _) eqn:Hss; [done|].
    destruct (decide (u64_add (epoch_num b) _ < _)); [done|].
    destruct (decide (epoch_num b < _)); [done|]. intros HA.
    constructor; [by apply Hts|done| |lia|lia|].
    + intros Hs. rewrite Hs in Hss. by apply negb_false_iff, bool_decide_eq_true in Hss.
    + destruct (decide (epoch_num b = BlockInfo.number e));
        [exists e; split; [by left|by apply check_origin_Accept]|].
      destruct (decide (epoch_num b = u64_add _ _)); [|done]. destruct rest as [|o rest]; [done|].
      exists o. split; [by right|by apply check_origin_Accept].
  - intros [Ht Hp Hs Hw He (o & Ho & Hv)]. apply Hts in Ht as ->. cbn [negb].
    rewrite decide_False by tauto.
    assert (same_second b cfg l2_safe_head &&
            negb (bool_decide (epoch b = L2BlockInfo.l1_origin l2_safe_head)) = false) as ->.
    { destruct (same_second b cfg l2_safe_head); [|done]. by rewrite bool_decide_eq_true_2 by auto. }
    rewrite (decide_False (P := u64_add (epoch_num b) _ < _)) by lia.
    rewrite (decide_False (P := epoch_num b < _)) by lia. apply check_origin_Accept in Hv.
    destruct Ho as [[Heq ->]|(Hn & Hh & Hne)].
    + by rewrite (decide_True (P := epoch_num b = BlockInfo.number e)).
    + rewrite (decide_False (P := epoch_num b = BlockInfo.number e)) by done.
      rewrite (decide_True (P := epoch_num b = u64_add _ _)) by done. destruct rest as [|x rest]; [done|].
      by injection Hh as ->.
Qed.

(** C25: [check_batch] accepts a single batch exactly when it satisfies the
    declarative specification [valid] relative to the first known L1 origin
    and the ones after it. *)
Theorem check_batch_Accept b cfg l1_blocks l2_safe_head inclusion_block :
  check_batch b cfg l1_blocks l2_safe_head inclusion_block = Accept <->
  exists epoch_block rest, l1_blocks = epoch_block :: rest /\
    valid b cfg epoch_block rest l2_safe_head inclusion_block.
Proof. apply accept_valid. Qed.

Lemma check_origin_stable b cfg e o next next' l2_safe_head :
  (forall x, next = Some x -> next' = Some x) ->
  check_origin b cfg e o next l2_safe_head <> Undecided ->
  check_origin b cfg e o next' l2_safe_head = check_origin b cfg e o next l2_safe_head.
Proof.
  intros Hn. destruct next as [x|]; [by rewrite (Hn x eq_refl)|].
  unfold check_origin. case_decide; [done|]. case_decide; [done|].
  destruct (u64_checked_add _ _); [|done]. case_match; [done|]. by case_match.
Qed.

(** C27: a decision is final.  Once [check_batch] has decided about a batch
    (anything but [Undecided]), learning further L1 origins does not change
    the verdict, so eager and non-eager derivation agree. *)
Theorem check_batch_stable b cfg l1_blocks more l2_safe_head inclusion_block :
  check_batch b cfg l1_blocks l2_safe_head inclusion_block <> Undecided ->
  check_batch b cfg (l1_blocks ++ more) l2_safe_head inclusion_block =
  check_batch b cfg l1_blocks l2_safe_head inclusion_block.
Proof.
  destruct l1_blocks as [|e rest]; [done|]. cbn [check_batch app].
  assert (forall x, head rest = Some x -> head (rest ++ more) = Some x) as Hh by (by destruct rest).
  destruct (negb (is_accept _)); [done|].
  destruct (decide (parent_hash b <> _)); [done|].
  destruct (same_second b cfg l2_safe_head && _); [done|].
  destruct (decide (u64_add (epoch_num b) _ < _)); [done|].
  destruct (decide (epoch_num b < _)); [done|].
  destruct (decide (epoch_num b = BlockInfo.number e)); [by apply check_origin_stable|].
  destruct (decide (epoch_num b = u64_add _ _)); [|done].
  destruct rest as [|o rest]; [done|]. cbn [app]. by apply check_origin_stable.
Qed.

End check.

(** A Denim-free chain with a 2 s block time and genesis at L2 time 1000, and a
    batch for its first block. *)
Definition sample_head : L2BlockInfo.t :=
  L2BlockInfo.mk (BlockInfo.mk (zeros 32) 100 (zeros 32) 1000) (BlockNumHash.mk 7 (zeros 32)) 0.

Definition sample_origin : BlockInfo.t := BlockInfo.mk (zeros 32) 7 (zeros 32) 990.

Definition sample_batch : t := mk (zeros 32) 7 (zeros 32) 1002 [[Byte.x02]].

Lemma check_batch_stable_witness :
  @check_batch (∅ : Registry.t) sample_batch sample_config ([sample_origin] ++ [BlockInfo.default])
    sample_head sample_origin = Accept.
Proof.
  rewrite (@check_batch_stable (∅ : Registry.t)); [reflexivity|].
  intros E. by vm_compute in E.
Defined.

End SingleBatch.
