(* ===== verification/SpanBits.v ===== *)
(** * Span batch bitlists

    Models [src/crates/consensus/protocol/src/batch/bits.rs] and the error
    types of [.../batch/errors.rs].  A bitlist is a byte vector read as one
    big-endian integer; the lemmas below relate every operation to that
    integer. *)

From S2P Require Import Prelude.

(** ** Errors *)

Inductive SpanDecodingError : Set :=
| RelativeTimestamp
| L1OriginNumber
| ParentCheck
| L1OriginCheck
| BlockCount
| BlockTxCounts
| TxNonces
| TypeSignatureLenMismatch
| InvalidTransactionType
| InvalidTransactionData
| InvalidAuthData
| InvalidTransactionSignature.

Inductive SpanBatchError : Set :=
| TooBigSpanBatchSize
| BitfieldTooLong
| EmptySpanBatch
| ErrL1OriginBeforeSafeHead
| ErrMissingL1Origin
| Decoding (e : SpanDecodingError).

#[global] Instance SpanDecodingError_eq_dec : EqDecision SpanDecodingError.
Proof. solve_decision. Defined.

#[global] Instance SpanBatchError_eq_dec : EqDecision SpanBatchError.
Proof. solve_decision. Defined.

(** ** Operations *)

Module SpanBatchBits.

Abbreviation t := bytes.

(** [u8::leading_zeros]. *)
Definition leading_zeros (b : byte) : Z :=
  if decide (byte.unsigned b = 0) then 8 else 7 - Z.log2 (byte.unsigned b).

(** [bit_length / 8 + if !bit_length.is_multiple_of(8) { 1 } else { 0 }]. *)
Definition buffer_len (bit_length : Z) : Z :=
  bit_length / 8 + (if decide (bit_length mod 8 = 0) then 0 else 1).

(** The loop of [bit_len]: from the first non-zero byte on. *)
Fixpoint bit_len (bits : t) : Z :=
  match bits with
  | [] => 0
  | byte :: rest =>
      if decide (byte.unsigned byte <> 0)
      then (7 - leading_zeros byte) + 1 + len rest * 8
      else bit_len rest
  end.

(** [SpanBatchBits::decode]: the bitlist and the remaining input. *)
Definition decode (b : bytes) (bit_length : Z) : result SpanBatchError (t * bytes) :=
  let n := buffer_len bit_length in
  let (bits, rest) :=
    if decide (len b < n)
    then (b ++ zeros (Z.to_nat (n - len b)), [])
    else (take (Z.to_nat n) b, drop (Z.to_nat n) b) in
  if decide (bit_length < bit_len bits) then Err BitfieldTooLong else Ok (bits, rest).

(** [SpanBatchBits::encode]: the bytes written.  The subtraction
    [buf_len - bits.0.len()] underflows, and the slice panics, when the vector
    is longer than the buffer. *)
Definition encode (bit_length : Z) (bits : t) : result SpanBatchError bytes :=
  if decide (bit_length < bit_len bits) then Err BitfieldTooLong else
  let n := buffer_len bit_length in
  if decide (n < len bits) then Panic
  else Ok (zeros (Z.to_nat (n - len bits)) ++ bits).

(** [SpanBatchBits::get_bit]. *)
Definition get_bit (bits : t) (index : Z) : option Z :=
  let byte_index := index / 8 in
  let bit_index := index mod 8 in
  if decide (byte_index < len bits) then
    byte ← bits !! Z.to_nat (len bits - byte_index - 1);
    Some (if decide (Z.land (byte.unsigned byte) (Z.shiftl 1 bit_index) <> 0) then 1 else 0)
  else None.

(** [SpanBatchBits::resize_from_right]. *)
Definition resize_from_right (v : bytes) (new_size : Z) : bytes :=
  if decide (new_size < len v) then drop (Z.to_nat (len v - new_size)) v
  else zeros (Z.to_nat (new_size - len v)) ++ v.

(** [SpanBatchBits::set_bit]; the index into the resized vector is in range. *)
Definition set_bit (bits : t) (index : Z) (value : bool) : t :=
  let byte_index := index / 8 in
  let bit_index := index mod 8 in
  let bits := if decide (len bits <= byte_index)
              then resize_from_right bits (byte_index + 1) else bits in
  alter (fun byte =>
           byte.of_Z (if value
                      then Z.lor (byte.unsigned byte) (Z.shiftl 1 bit_index)
                      else Z.land (byte.unsigned byte)
                             (wrap 8 (Z.lnot (Z.shiftl 1 bit_index)))))
        (Z.to_nat (len bits - byte_index - 1)) bits.

(** ** The integer a bitlist denotes *)

Lemma buffer_len_spec n : 0 <= n -> 8 * (buffer_len n - 1) < n <= 8 * buffer_len n.
Proof.
  intros Hn. unfold buffer_len. pose proof (Z.div_mod n 8 ltac:(lia)).
  pose proof (Z.mod_pos_bound n 8 ltac:(lia)). case_decide; lia.
Qed.

(** The [i]-th byte from the right holds the bits [8 i .. 8 i + 7]. *)
Lemma testbit_byte bits i :
  0 <= i < 8 * len bits ->
  exists byte, bits !! Z.to_nat (len bits - i / 8 - 1) = Some byte /\
    Z.testbit (from_be_bytes bits) i = Z.testbit (byte.unsigned byte) (i mod 8).
Proof.
  intros Hi. set (q := i / 8). set (r := i mod 8).
  assert (i = 8 * q + r /\ 0 <= r < 8) as [Hqr Hr]
    by (unfold q, r; split; [apply Z.div_mod; lia | apply Z.mod_pos_bound; lia]).
  set (k := Z.to_nat (len bits - q - 1)).
  assert (k < length bits)%nat as Hk by (unfold k, len in *; lia).
  destruct (lookup_lt_is_Some_2 bits k Hk) as [x Hx]. exists x. split; [done|].
  pose proof (take_drop_middle bits k x Hx) as Hsplit.
  rewrite <- Hsplit. rewrite from_be_bytes_app.
  change (x :: drop (S k) bits) with ([x] ++ drop (S k) bits).
  rewrite from_be_bytes_app. unfold from_be_bytes at 2. simpl rev. rewrite le_combine_1.
  assert (len (drop (S k) bits) = q) as Hq by (unfold k, len in *; rewrite length_drop; lia).
  rewrite len_app, Hq. change (len [x]) with 1.
  pose proof (from_be_bytes_bound (drop (S k) bits)) as Hlow. rewrite Hq in Hlow.
  pose proof (byte.unsigned_range x) as Hxr.
  set (hi := from_be_bytes (take k bits)) in *. set (lo := from_be_bytes (drop (S k) bits)) in *.
  rewrite Hqr, (Z.add_comm (8 * q) r), <- (Z.div_pow2_bits _ (8 * q) r) by lia.
  replace (8 * (1 + q)) with (8 + 8 * q) by lia. rewrite Z.pow_add_r by lia.
  replace (hi * (2 ^ 8 * 2 ^ (8 * q)) + (byte.unsigned x * 2 ^ (8 * q) + lo))
    with ((hi * 2 ^ 8 + byte.unsigned x) * 2 ^ (8 * q) + lo) by lia.
  rewrite Z.div_add_l, (Z.div_small lo) by lia. rewrite Z.add_0_r.
  rewrite <- (Z.mod_pow2_bits_low _ 8) by lia.
  rewrite (Z.add_comm (hi * 2 ^ 8)), Z.mod_add by lia. by rewrite Z.mod_small.
Qed.

Lemma land_shiftl_testbit a k :
  0 <= k -> (Z.land a (Z.shiftl 1 k) <> 0 <-> Z.testbit a k = true).
Proof.
  intros Hk. rewrite Z.shiftl_1_l. split.
  - intros Hne. destruct (Z.testbit a k) eqn:E; [done|]. destruct Hne.
    apply Z.bits_inj'. intros m Hm. rewrite Z.land_spec, Z.bits_0, Z.pow2_bits_eqb by lia.
    destruct (Z.eqb_spec k m) as [->|]; [by rewrite E | by rewrite andb_false_r].
  - intros E Hz. apply (f_equal (fun z => Z.testbit z k)) in Hz.
    by rewrite Z.land_spec, E, Z.pow2_bits_true, Z.bits_0 in Hz.
Qed.

(** [get_bit] reads the bit of the denoted integer. *)
Lemma get_bit_spec bits i :
  0 <= i ->
  get_bit bits i =
  if decide (i < 8 * len bits)
  then Some (if Z.testbit (from_be_bytes bits) i then 1 else 0) else None.
Proof.
  intros Hi. unfold get_bit. pose proof (Z.div_mod i 8 ltac:(lia)).
  pose proof (Z.mod_pos_bound i 8 ltac:(lia)).
  destruct (decide (i / 8 < len bits)) as [Hb|Hb]; [|by rewrite decide_False by lia].
  rewrite decide_True by lia. destruct (testbit_byte bits i ltac:(lia)) as (x & -> & ->).
  cbn [mbind option_bind]. f_equal.
  pose proof (land_shiftl_testbit (byte.unsigned x) (i mod 8) ltac:(lia)) as Ht.
  case_decide as Hx; destruct (Z.testbit _ _); tauto || naive_solver.
Qed.

Lemma len_resize v n : 0 <= n -> len (resize_from_right v n) = n.
Proof.
  intros Hn. unfold resize_from_right, len. case_decide.
  - rewrite length_drop. lia.
  - rewrite length_app, length_zeros. lia.
Qed.

Lemma from_be_bytes_zeros_app n b : from_be_bytes (zeros n ++ b) = from_be_bytes b.
Proof. rewrite from_be_bytes_app, from_be_bytes_zeros. lia. Qed.

Lemma from_be_bytes_resize v n :
  len v <= n -> from_be_bytes (resize_from_right v n) = from_be_bytes v.
Proof.
  intros Hn. unfold resize_from_right. rewrite decide_False by lia.
  apply from_be_bytes_zeros_app.
Qed.

(** Bits beyond the bytes are zero. *)
Lemma testbit_high bits j : 8 * len bits <= j -> Z.testbit (from_be_bytes bits) j = false.
Proof.
  intros Hj. pose proof (len_nonneg bits).
  rewrite <- (Z.mod_small (from_be_bytes bits) (2 ^ (8 * len bits)))
    by apply from_be_bytes_bound.
  by rewrite Z.mod_pow2_bits_high by lia.
Qed.

(** The byte update of [set_bit], on bits. *)
Lemma set_byte_testbit (x : byte) k (v : bool) j :
  0 <= k < 8 -> 0 <= j < 8 ->
  Z.testbit (byte.unsigned (byte.of_Z
    (if v then Z.lor (byte.unsigned x) (Z.shiftl 1 k)
     else Z.land (byte.unsigned x) (wrap 8 (Z.lnot (Z.shiftl 1 k)))))) j =
  if decide (j = k) then v else Z.testbit (byte.unsigned x) j.
Proof.
  intros Hk Hj. rewrite byte.unsigned_of_Z. unfold byte.wrap.
  rewrite Z.mod_pow2_bits_low by lia. rewrite Z.shiftl_1_l. unfold wrap.
  destruct v; [rewrite Z.lor_spec | rewrite Z.land_spec, Z.mod_pow2_bits_low, Z.lnot_spec by lia];
    rewrite Z.pow2_bits_eqb by lia; case_decide; destruct (Z.eqb_spec k j); try lia; cbn;
    by rewrite ?orb_true_r, ?orb_false_r, ?andb_true_r, ?andb_false_r.
Qed.

(** The vector [set_bit] updates: long enough for the index, same integer. *)
Lemma set_bit_resize bits i :
  0 <= i ->
  let bits' := if decide (len bits <= i / 8) then resize_from_right bits (i / 8 + 1) else bits in
  len bits' = Z.max (len bits) (i / 8 + 1) /\ from_be_bytes bits' = from_be_bytes bits.
Proof.
  intros Hi. pose proof (Z.div_pos i 8 Hi ltac:(lia)). cbv zeta. case_decide.
  - rewrite len_resize, from_be_bytes_resize by lia. lia.
  - split; [lia|done].
Qed.

Lemma len_set_bit bits i v : 0 <= i -> len (set_bit bits i v) = Z.max (len bits) (i / 8 + 1).
Proof.
  intros Hi. destruct (set_bit_resize bits i Hi) as [Hl _]. rewrite <- Hl.
  unfold set_bit, len at 1. rewrite length_alter. done.
Qed.

(** [set_bit] changes exactly one bit of the denoted integer. *)
Lemma set_bit_testbit bits i v j :
  0 <= i -> 0 <= j ->
  Z.testbit (from_be_bytes (set_bit bits i v)) j =
  if decide (j = i) then v else Z.testbit (from_be_bytes bits) j.
Proof.
  intros Hi Hj. destruct (set_bit_resize bits i Hi) as [Hl Hv].
  pose proof (len_set_bit bits i v Hi) as Hls. unfold set_bit in *.
  set (b := if decide (len bits <= i / 8) then resize_from_right bits (i / 8 + 1) else bits) in *.
  rewrite <- Hv.
  pose proof (Z.div_mod i 8 ltac:(lia)). pose proof (Z.mod_pos_bound i 8 ltac:(lia)).
  pose proof (Z.div_mod j 8 ltac:(lia)). pose proof (Z.mod_pos_bound j 8 ltac:(lia)).
  destruct (decide (j < 8 * len b)) as [Hjb|Hjb].
  - set (f := fun byte : byte => _) in *. rewrite <- Hl in Hls.
    assert (0 <= j < 8 * len (alter f (Z.to_nat (len b - i / 8 - 1)) b)) as Hja by lia.
    destruct (testbit_byte _ j Hja) as (y & Hy & ->). rewrite Hls in Hy.
    destruct (testbit_byte b j (conj Hj Hjb)) as (x & Hx & Ex).
    destruct (decide (j / 8 = i / 8)) as [E|E].
    + rewrite <- E, list_lookup_alter_eq, Hx in Hy. injection Hy as <-. unfold f.
      rewrite set_byte_testbit by lia. rewrite Ex.
      destruct (decide (j = i)) as [->|]; [by rewrite decide_True | by rewrite decide_False by lia].
    + rewrite list_lookup_alter_ne in Hy by lia. rewrite Hx in Hy. injection Hy as ->.
      rewrite decide_False by (intros ->; done). by rewrite Ex.
  - rewrite !testbit_high by lia. by rewrite decide_False by lia.
Qed.

(** [bit_len] is the binary length of the denoted integer. *)
Lemma bit_len_spec bits :
  bit_len bits =
  if decide (from_be_bytes bits = 0) then 0 else Z.log2 (from_be_bytes bits) + 1.
Proof.
  induction bits as [|x rest IH]; [done|]. cbn [bit_len].
  change (x :: rest) with ([x] ++ rest). rewrite from_be_bytes_app.
  replace (from_be_bytes [x]) with (byte.unsigned x)
    by (unfold from_be_bytes; simpl rev; by rewrite le_combine_1).
  pose proof (byte.unsigned_range x) as Hx. pose proof (from_be_bytes_bound rest) as Hr.
  pose proof (len_nonneg rest).
  destruct (decide (byte.unsigned x <> 0)) as [Hne|He].
  - assert (0 < 2 ^ (8 * len rest)) by (apply Z.pow_pos_nonneg; lia).
    rewrite decide_False by nia. unfold leading_zeros. rewrite decide_False by done.
    pose proof (Z.log2_nonneg (byte.unsigned x)).
    pose proof (Z.log2_spec (byte.unsigned x) ltac:(lia)) as [Hl Hu].
    rewrite (Z.log2_unique (_ + _) (Z.log2 (byte.unsigned x) + 8 * len rest)); [lia|lia|].
    rewrite <- Z.add_succ_l, !Z.pow_add_r by lia. nia.
  - replace (byte.unsigned x) with 0 by lia. rewrite Z.mul_0_l, Z.add_0_l. apply IH.
Qed.

Lemma bit_len_le bits n :
  0 <= n -> (bit_len bits <= n <-> from_be_bytes bits < 2 ^ n).
Proof.
  intros Hn. rewrite bit_len_spec. pose proof (from_be_bytes_bound bits) as Hb.
  case_decide as Hz.
  - rewrite Hz. pose proof (Z.pow_pos_nonneg 2 n ltac:(lia) Hn). lia.
  - rewrite Z.log2_lt_pow2 by lia. lia.
Qed.

(** What [encode] writes: the big-endian bytes of the denoted integer. *)
Lemma encode_spec n bits :
  0 <= n -> len bits <= buffer_len n ->
  encode n bits =
  if decide (from_be_bytes bits < 2 ^ n)
  then Ok (resize_from_right bits (buffer_len n)) else Err BitfieldTooLong.
Proof.
  intros Hn Hl. unfold encode, resize_from_right. pose proof (bit_len_le bits n Hn).
  rewrite (decide_False (P := buffer_len n < len bits)) by lia.
  destruct (decide (n < bit_len bits)); [by rewrite decide_False by lia|].
  rewrite (decide_True (P := from_be_bytes bits < 2 ^ n)) by lia.
  by rewrite decide_False by lia.
Qed.

(** What [decode] accepts. *)
Lemma bits_decode_Ok b n bits rest :
  0 <= n -> decode b n = Ok (bits, rest) -> len bits = buffer_len n /\ from_be_bytes bits < 2 ^ n.
Proof.
  intros Hn. unfold decode. pose proof (buffer_len_spec n Hn) as Hb.
  set (bits' := if decide (len b < buffer_len n) then _ else _).
  assert (len bits'.1 = buffer_len n) as Hl.
  { unfold bits', len in *. case_decide; cbn [fst].
    - rewrite length_app, length_zeros. lia.
    - rewrite length_take. lia. }
  clearbody bits'. destruct bits' as [v r]. cbn [fst] in Hl. case_decide; [done|].
  intros [= <- <-]. split; [done|]. apply bit_len_le; lia.
Qed.

Lemma bits_decode_no_panic b n : decode b n <> Panic.
Proof.
  unfold decode. destruct (if decide (len b < buffer_len n) then _ else _) as [v r].
  case_decide; discriminate.
Qed.

(** ** Columns of bits

    The loops that fill a bitlist in index order, and [count_ones]. *)

(** [for (i, v) in vs.enumerate() { bits.set_bit(i, v) }], from index [i]. *)
Fixpoint set_bits (i : Z) (bits : t) (vs : list bool) : t :=
  match vs with
  | [] => bits
  | v :: vs => set_bits (i + 1) (set_bit bits i v) vs
  end.

Definition of_bools (vs : list bool) : t := set_bits 0 [] vs.

(** [u8::count_ones], and its sum over a bitlist. *)
Definition byte_count_ones (b : byte) : Z :=
  sumZ (fun k => Z.b2z (Z.testbit (byte.unsigned b) k)) (seqZ 0 8).

Definition count_ones (bits : t) : Z := sumZ byte_count_ones bits.

Lemma set_bits_app i bits vs ws :
  set_bits i bits (vs ++ ws) = set_bits (i + len vs) (set_bits i bits vs) ws.
Proof.
  revert i bits. induction vs as [|v vs IH]; intros i bits; simpl.
  - by rewrite len_nil, Z.add_0_r.
  - rewrite IH, len_cons. f_equal. lia.
Qed.

Lemma of_bools_snoc vs v : of_bools (vs ++ [v]) = set_bit (of_bools vs) (len vs) v.
Proof. unfold of_bools. by rewrite set_bits_app, Z.add_0_l. Qed.

Lemma of_bools_spec vs :
  len (of_bools vs) = buffer_len (len vs) /\
  forall j, 0 <= j -> Z.testbit (from_be_bytes (of_bools vs)) j = default false (vs !! Z.to_nat j).
Proof.
  induction vs as [|v vs [Hl Ht]] using rev_ind; [by split; [|intros; rewrite Z.bits_0]|].
  rewrite of_bools_snoc, len_app. change (len [v]) with 1. split.
  - rewrite len_set_bit, Hl by apply len_nonneg. unfold buffer_len.
    pose_lens. pose proof (Z.div_mod (len vs) 8 ltac:(lia)).
    pose proof (Z.mod_pos_bound (len vs) 8 ltac:(lia)).
    destruct (decide (len vs mod 8 = 7)).
    + rewrite <- (Z.div_unique (len vs + 1) 8 (len vs / 8 + 1) 0) by lia.
      rewrite <- (Z.mod_unique (len vs + 1) 8 (len vs / 8 + 1) 0) by lia.
      rewrite decide_False, decide_True by lia. lia.
    + rewrite <- (Z.div_unique (len vs + 1) 8 (len vs / 8) (len vs mod 8 + 1)) by lia.
      rewrite <- (Z.mod_unique (len vs + 1) 8 (len vs / 8) (len vs mod 8 + 1)) by lia.
      repeat case_decide; lia.
  - intros j Hj. rewrite set_bit_testbit by (done || apply len_nonneg). unfold len in *.
    case_decide as E.
    + by rewrite E, Nat2Z.id, list_lookup_middle.
    + rewrite Ht by done. destruct (decide (j < Z.of_nat (length vs))).
      * by rewrite lookup_app_l by lia.
      * rewrite !lookup_ge_None_2; [done|rewrite ?length_app; simpl; lia..].
Qed.

Lemma of_bools_bound vs : from_be_bytes (of_bools vs) < 2 ^ len vs.
Proof.
  destruct (of_bools_spec vs) as [_ Ht]. pose proof (from_be_bytes_bound (of_bools vs)) as Hb.
  destruct (decide (from_be_bytes (of_bools vs) = 0)) as [->|Hz]; [apply Z.pow_pos_nonneg; pose_lens; lia|].
  apply Z.log2_lt_pow2; [lia|]. destruct (decide (Z.log2 (from_be_bytes (of_bools vs)) < len vs)); [done|].
  pose proof (Z.bit_log2 (from_be_bytes (of_bools vs)) ltac:(lia)) as Hlog.
  rewrite Ht in Hlog by apply Z.log2_nonneg. unfold len in *.
  rewrite lookup_ge_None_2 in Hlog by lia. done.
Qed.

Lemma resize_same v : resize_from_right v (len v) = v.
Proof. unfold resize_from_right. rewrite decide_False, Z.sub_diag by lia. done. Qed.

(** A column of [n] bits is written as it is stored, and read back. *)
Lemma encode_of_bools vs : encode (len vs) (of_bools vs) = Ok (of_bools vs).
Proof.
  destruct (of_bools_spec vs) as [Hl _]. rewrite encode_spec by (pose_lens; lia).
  rewrite decide_True by apply of_bools_bound. by rewrite <- Hl, resize_same.
Qed.

Lemma decode_of_bools vs rest : decode (of_bools vs ++ rest) (len vs) = Ok (of_bools vs, rest).
Proof.
  destruct (of_bools_spec vs) as [Hl _]. unfold decode. rewrite <- Hl, len_app.
  rewrite (decide_False (P := len (of_bools vs) + len rest < _)) by (pose_lens; lia).
  rewrite take_app_length', drop_app_length' by (unfold len; lia).
  pose proof (bit_len_le (of_bools vs) (len vs) (len_nonneg _)) as Hle.
  pose proof (of_bools_bound vs). by rewrite decide_False by lia.
Qed.

Lemma get_bit_of_bools vs (i : nat) v :
  vs !! i = Some v -> get_bit (of_bools vs) (Z.of_nat i) = Some (Z.b2z v).
Proof.
  intros Hi. destruct (of_bools_spec vs) as [Hl Ht]. rewrite get_bit_spec, Hl, Ht by lia.
  pose proof (lookup_lt_Some _ _ _ Hi). pose proof (buffer_len_spec (len vs) (len_nonneg _)).
  rewrite decide_True by (unfold len in *; lia). rewrite Nat2Z.id, Hi. by destruct v.
Qed.

Lemma get_bit_middle vs ws v :
  get_bit (of_bools (vs ++ v :: ws)) (len vs) = Some (Z.b2z v).
Proof. apply get_bit_of_bools. by apply list_lookup_middle. Qed.

(** [count_ones] counts the set bits of the denoted integer. *)
Lemma sumZ_ext {A} (f g : A -> Z) l : (forall a, a ∈ l -> f a = g a) -> sumZ f l = sumZ g l.
Proof.
  intros E. induction l as [|a l IH]; [done|]. simpl. rewrite E by left.
  rewrite IH; [done|]. intros b Hb. apply E. by right.
Qed.

Lemma sumZ_seqZ_shift f n k m :
  sumZ f (seqZ (n + k) m) = sumZ (fun j => f (j + k)) (seqZ n m).
Proof.
  rewrite (Z.add_comm n k), <- fmap_add_seqZ. induction (seqZ n m) as [|a l IH]; [done|].
  cbn [fmap list_fmap sumZ]. by rewrite IH, (Z.add_comm k a).
Qed.

Lemma count_ones_spec bits :
  count_ones bits = sumZ (fun j => Z.b2z (Z.testbit (from_be_bytes bits) j)) (seqZ 0 (8 * len bits)).
Proof.
  induction bits as [|x rest IH]; [done|]. cbn [count_ones sumZ]. fold (count_ones rest).
  rewrite IH, len_cons. pose_lens. replace (8 * (len rest + 1)) with (8 * len rest + 8) by lia.
  rewrite seqZ_app by lia. rewrite sumZ_app, Z.add_comm. f_equal.
  - apply sumZ_ext. intros j Hj%elem_of_seqZ.
    change (x :: rest) with ([x] ++ rest). rewrite from_be_bytes_app.
    rewrite <- (Z.mod_pow2_bits_low (_ + _) (8 * len rest)) by lia.
    rewrite Z.add_comm, Z.mod_add by lia. rewrite Z.mod_small by apply from_be_bytes_bound. done.
  - rewrite (sumZ_seqZ_shift _ 0 (8 * len rest)). apply sumZ_ext. intros j Hj%elem_of_seqZ.
    change (x :: rest) with ([x] ++ rest). rewrite from_be_bytes_app.
    rewrite <- (Z.div_pow2_bits _ (8 * len rest) j) by lia.
    rewrite Z.div_add_l, Z.div_small, Z.add_0_r by (apply from_be_bytes_bound || lia).
    replace (from_be_bytes [x]) with (byte.unsigned x)
      by (unfold from_be_bytes; simpl rev; by rewrite le_combine_1). done.
Qed.

Lemma sumZ_b2z_bound {A} (f : A -> bool) l : 0 <= sumZ (fun a => Z.b2z (f a)) l <= len l.
Proof.
  induction l as [|a l IH]; [done|]. simpl sumZ. rewrite len_cons.
  destruct (f a); simpl Z.b2z; lia.
Qed.

Lemma sumZ_zero {A} (f : A -> Z) l : (forall a, a ∈ l -> f a = 0) -> sumZ f l = 0.
Proof. intros E. rewrite (sumZ_ext f (fun _ => 0) l E). clear. induction l; simpl; lia. Qed.

(** A list of [n] bits followed by zeros. *)
Lemma count_ones_low bits n :
  0 <= n <= 8 * len bits -> from_be_bytes bits < 2 ^ n ->
  count_ones bits = sumZ (fun j => Z.b2z (Z.testbit (from_be_bytes bits) j)) (seqZ 0 n).
Proof.
  intros Hn Hb. rewrite count_ones_spec.
  replace (8 * len bits) with (n + (8 * len bits - n)) by lia.
  rewrite seqZ_app, sumZ_app by lia. rewrite (sumZ_zero _ (seqZ (0 + n) _)); [lia|].
  intros j Hj%elem_of_seqZ. pose proof (from_be_bytes_bound bits).
  rewrite <- (Z.mod_small (from_be_bytes bits) (2 ^ n)) by lia.
  by rewrite Z.mod_pow2_bits_high by lia.
Qed.

Lemma count_ones_le bits n :
  0 <= n <= 8 * len bits -> from_be_bytes bits < 2 ^ n -> 0 <= count_ones bits <= n.
Proof.
  intros Hn Hb. rewrite (count_ones_low bits n) by done.
  pose proof (sumZ_b2z_bound (fun j => Z.testbit (from_be_bytes bits) j) (seqZ 0 n)) as H.
  unfold len in *. rewrite length_seqZ in H. lia.
Qed.

Lemma count_ones_of_bools vs : count_ones (of_bools vs) = sumZ Z.b2z vs.
Proof.
  destruct (of_bools_spec vs) as [Hl Ht]. pose proof (buffer_len_spec (len vs) (len_nonneg _)).
  rewrite (count_ones_low _ (len vs)) by (rewrite ?Hl; try apply of_bools_bound; pose_lens; lia).
  rewrite (sumZ_ext _ (fun j => Z.b2z (default false (vs !! Z.to_nat j))))
    by (intros j Hj%elem_of_seqZ; by rewrite Ht by lia).
  clear. induction vs as [|v vs IH] using rev_ind; [done|].
  rewrite sumZ_app, len_app, seqZ_app, sumZ_app by (pose_lens; lia). f_equal.
  - rewrite <- IH. apply sumZ_ext. intros j Hj%elem_of_seqZ. unfold len in *.
    by rewrite lookup_app_l by lia.
  - change (len [v]) with 1. rewrite seqZ_cons by lia. simpl seqZ.
    cbn [sumZ]. unfold len. rewrite Z.add_0_l, Nat2Z.id, list_lookup_middle by done. done.
Qed.

(** Setting a bit of a span batch's bitlist changes that bit and no other:
    reading index [j] after [set_bit i v] gives [v] at [j = i], the old bit
    elsewhere, and [0] for an index the vector only grew over. *)
Theorem get_bit_set_bit bits i v j :
  0 <= i -> 0 <= j ->
  get_bit (set_bit bits i v) j =
  if decide (j = i) then Some (if v then 1 else 0) else
  if decide (8 * len bits <= j < 8 * (i / 8 + 1)) then Some 0 else get_bit bits j.
Proof.
  intros Hi Hj. rewrite !get_bit_spec by done. rewrite len_set_bit, set_bit_testbit by done.
  pose proof (Z.div_mod i 8 ltac:(lia)). pose proof (Z.mod_pos_bound i 8 ltac:(lia)).
  destruct (decide (j = i)) as [->|]; [by rewrite decide_True by lia|].
  repeat case_decide; try lia; try done.
  by rewrite testbit_high by lia.
Qed.

Lemma get_bit_set_bit_witness :
  get_bit (set_bit [Byte.x01] 12 true) 12 = Some 1 /\
  get_bit (set_bit [Byte.x01] 12 true) 9 = Some 0.
Proof.
  split; [rewrite (get_bit_set_bit [Byte.x01] 12 true 12) by lia
         |rewrite (get_bit_set_bit [Byte.x01] 12 true 9) by lia]; reflexivity.
Defined.

(** The bitlist codec of span batches.  Encoding a vector that fits in the
    buffer of [n] bits succeeds exactly when the denoted integer has at most
    [n] bits; decoding what was written, whatever follows it, gives a vector
    with the same bits and leaves the input after it. *)
Theorem decode_encode_bits n bits rest :
  0 <= n -> len bits <= buffer_len n ->
  match encode n bits with
  | Ok e => decode (e ++ rest) n = Ok (resize_from_right bits (buffer_len n), rest) /\
            from_be_bytes (resize_from_right bits (buffer_len n)) = from_be_bytes bits
  | Err e => e = BitfieldTooLong /\ 2 ^ n <= from_be_bytes bits
  | Panic => False
  end.
Proof.
  intros Hn Hl. rewrite encode_spec by done.
  destruct (decide (from_be_bytes bits < 2 ^ n)) as [Hb|]; [|split; [done|lia]].
  pose proof (len_nonneg bits).
  pose proof (len_resize bits (buffer_len n) ltac:(lia)) as Hlr.
  pose proof (from_be_bytes_resize bits _ Hl) as Hv. split; [|done].
  unfold decode. rewrite len_app, Hlr. rewrite decide_False by (pose proof (len_nonneg rest); lia).
  rewrite take_app_length', drop_app_length' by (unfold len in Hlr; lia).
  pose proof (proj2 (bit_len_le (resize_from_right bits (buffer_len n)) n Hn)) as Hle.
  rewrite Hv in Hle. by rewrite decide_False by lia.
Qed.

Lemma decode_encode_bits_witness :
  decode ([Byte.x00; Byte.x05] ++ [Byte.xff]) 9 = Ok ([Byte.x00; Byte.x05], [Byte.xff]).
Proof. apply (decode_encode_bits 9 [Byte.x05] [Byte.xff]); [lia | vm_compute; discriminate]. Defined.

End SpanBatchBits.
