(* ===== verification/SpanTxData.v ===== *)
(** * Transactions of a span batch: the data part

    Models [src/crates/consensus/protocol/src/batch/tx_data/] (the part of a
    transaction that a span batch does not put into a shared column), the
    envelope it is cut out of
    ([src/crates/common/consensus/src/transaction/envelope.rs]) and
    [read_tx_data] of [src/crates/consensus/protocol/src/utils.rs].

    RLP is the [alloy_rlp] crate: its header and field codecs are the members
    of the class [Rlp], with the facts the code relies on in [RlpLaws].  The
    types the codec only carries around (access lists, authorizations, account
    changes, calls, deposits) are the members of [TxTypes]. *)

From S2P Require Import Prelude Primitives Channels SpanBits.

(** ** Transaction types and envelopes *)

Module OpTxType.

Inductive t : Set := Legacy | Eip2930 | Eip1559 | Eip7702 | Deposit | Eip8130.

#[global] Instance eq_decision : EqDecision t.
Proof. solve_decision. Defined.

(** [ty as u8]. *)
Definition to_u8 (ty : t) : Z :=
  match ty with
  | Legacy => 0 | Eip2930 => 1 | Eip1559 => 2 | Eip7702 => 4 | Deposit => 126 | Eip8130 => 121
  end.

(** [OpTxType::try_from(u8)]. *)
Definition try_from (b : Z) : option t :=
  if decide (b = 0) then Some Legacy else
  if decide (b = 1) then Some Eip2930 else
  if decide (b = 2) then Some Eip1559 else
  if decide (b = 4) then Some Eip7702 else
  if decide (b = 126) then Some Deposit else
  if decide (b = 121) then Some Eip8130 else None.

Lemma try_from_to_u8 ty : try_from (to_u8 ty) = Some ty.
Proof. by destruct ty. Qed.

End OpTxType.

(** [alloy_primitives::Signature]: [r], [s] and the parity. *)
Module Signature.

Record t : Type := mk { r : Z; s : Z; v : bool }.

End Signature.

(** Types the span codec carries without looking into them. *)
Class TxTypes := {
  AccessList : Type;
  SignedAuthorization : Type;
  AccountChange : Type;
  Call : Type;
  TxDeposit : Type
}.

(** [TxKind]: the recipient, or contract creation. *)
Inductive TxKind : Type := Create | CallTo (a : Address).

(** [TxKind::to]. *)
Definition TxKind_to (k : TxKind) : option Address :=
  match k with Create => None | CallTo a => Some a end.

(** [to.map_or(TxKind::Create, TxKind::Call)]. *)
Definition TxKind_of (to : option Address) : TxKind :=
  match to with None => Create | Some a => CallTo a end.

Section Transactions.
Context `{TxTypes}.

(** The transaction bodies of [alloy_consensus]. *)
Record TxLegacy := mkTxLegacy {
  legacy_chain_id : option Z; legacy_nonce : Z; legacy_gas_price : Z; legacy_gas_limit : Z;
  legacy_to : TxKind; legacy_value : Z; legacy_input : bytes
}.

Record TxEip2930 := mkTxEip2930 {
  e2930_chain_id : Z; e2930_nonce : Z; e2930_gas_price : Z; e2930_gas_limit : Z;
  e2930_to : TxKind; e2930_value : Z; e2930_input : bytes; e2930_access_list : AccessList
}.

Record TxEip1559 := mkTxEip1559 {
  e1559_chain_id : Z; e1559_nonce : Z; e1559_max_fee_per_gas : Z;
  e1559_max_priority_fee_per_gas : Z; e1559_gas_limit : Z;
  e1559_to : TxKind; e1559_value : Z; e1559_input : bytes; e1559_access_list : AccessList
}.

Record TxEip7702 := mkTxEip7702 {
  e7702_chain_id : Z; e7702_nonce : Z; e7702_max_fee_per_gas : Z;
  e7702_max_priority_fee_per_gas : Z; e7702_gas_limit : Z;
  e7702_to : Address; e7702_value : Z; e7702_input : bytes; e7702_access_list : AccessList;
  e7702_authorization_list : list SignedAuthorization
}.

(** [TxEip8130]. *)
Record TxEip8130 := mkTxEip8130 {
  e8130_chain_id : Z; e8130_sender : option Address; e8130_nonce_key : Z;
  e8130_nonce_sequence : Z; e8130_valid_after : Z; e8130_valid_before : Z;
  e8130_max_priority_fee_per_gas : Z; e8130_max_fee_per_gas : Z; e8130_gas_limit : Z;
  e8130_account_changes : list AccountChange; e8130_calls : list (list Call);
  e8130_metadata : bytes; e8130_payer : option Address
}.

(** [Eip8130Signed]; its cached hash is a function of the other fields. *)
Record Eip8130Signed := mkEip8130Signed {
  signed_tx : TxEip8130; sender_auth : bytes; payer_auth : bytes
}.

(** [BaseTxEnvelope].  [Signed<T>] is the body and the signature; its cached
    hash is not read by the modelled code. *)
Inductive BaseTxEnvelope : Type :=
| EnvLegacy (tx : TxLegacy) (sig : Signature.t)
| EnvEip2930 (tx : TxEip2930) (sig : Signature.t)
| EnvEip1559 (tx : TxEip1559) (sig : Signature.t)
| EnvEip7702 (tx : TxEip7702) (sig : Signature.t)
| EnvDeposit (tx : TxDeposit)
| EnvEip8130 (tx : Eip8130Signed).

(** [BaseTxEnvelope::tx_type]. *)
Definition tx_type (tx : BaseTxEnvelope) : OpTxType.t :=
  match tx with
  | EnvLegacy _ _ => OpTxType.Legacy
  | EnvEip2930 _ _ => OpTxType.Eip2930
  | EnvEip1559 _ _ => OpTxType.Eip1559
  | EnvEip7702 _ _ => OpTxType.Eip7702
  | EnvDeposit _ => OpTxType.Deposit
  | EnvEip8130 _ => OpTxType.Eip8130
  end.

(** [BaseTxEnvelope::is_deposit]. *)
Definition is_deposit (tx : BaseTxEnvelope) : bool :=
  match tx with EnvDeposit _ => true | _ => false end.

End Transactions.

(** ** The data part of each transaction type *)

Section Data.
Context `{TxTypes}.

Record SpanBatchLegacyTransactionData := mkLegacyData {
  ld_value : Z; ld_gas_price : Z; ld_data : bytes
}.

Record SpanBatchEip2930TransactionData := mkEip2930Data {
  d2930_value : Z; d2930_gas_price : Z; d2930_data : bytes; d2930_access_list : AccessList
}.

Record SpanBatchEip1559TransactionData := mkEip1559Data {
  d1559_value : Z; d1559_max_priority_fee_per_gas : Z; d1559_max_fee_per_gas : Z;
  d1559_data : bytes; d1559_access_list : AccessList
}.

Record SpanBatchEip7702TransactionData := mkEip7702Data {
  d7702_value : Z; d7702_max_priority_fee_per_gas : Z; d7702_max_fee_per_gas : Z;
  d7702_data : bytes; d7702_access_list : AccessList;
  d7702_authorization_list : list SignedAuthorization
}.

Record SpanBatchEip8130TransactionData := mkEip8130Data {
  d8130_sender : option Address; d8130_nonce_key : Z; d8130_valid_after : Z;
  d8130_valid_before : Z; d8130_max_priority_fee_per_gas : Z; d8130_max_fee_per_gas : Z;
  d8130_payer : option Address; d8130_account_changes : list AccountChange;
  d8130_calls : list (list Call); d8130_metadata : bytes;
  d8130_sender_authenticator : bytes; d8130_payer_authenticator : bytes
}.

Inductive SpanBatchTransactionData : Type :=
| DataLegacy (d : SpanBatchLegacyTransactionData)
| DataEip2930 (d : SpanBatchEip2930TransactionData)
| DataEip1559 (d : SpanBatchEip1559TransactionData)
| DataEip7702 (d : SpanBatchEip7702TransactionData)
| DataEip8130 (d : SpanBatchEip8130TransactionData).

(** [SpanBatchTransactionData::tx_type]. *)
Definition data_tx_type (d : SpanBatchTransactionData) : OpTxType.t :=
  match d with
  | DataLegacy _ => OpTxType.Legacy
  | DataEip2930 _ => OpTxType.Eip2930
  | DataEip1559 _ => OpTxType.Eip1559
  | DataEip7702 _ => OpTxType.Eip7702
  | DataEip8130 _ => OpTxType.Eip8130
  end.

(** [Eip8130Constants::OPEN_PAYER]. *)
Definition OPEN_PAYER : Address := Address_ZERO.

(** [SpanBatchEip8130TransactionData::MAX_AUTH_PROOF_BYTES]. *)
Definition MAX_AUTH_PROOF_BYTES : Z := Channel.MAX_RLP_BYTES.

(** [SpanBatchEip8130TransactionData::split_auth]. *)
Definition split_auth (blob : bytes) (configured : bool) : result SpanBatchError (bytes * bytes) :=
  if negb configured then Ok ([], blob) else
  if decide (len blob < 20) then Err (Decoding InvalidAuthData) else
  Ok (take 20 blob, drop 20 blob).

(** [SpanBatchEip8130TransactionData::named_payer]. *)
Definition named_payer (payer : option Address) : bool :=
  match payer with
  | Some payer => bool_decide (payer <> OPEN_PAYER)
  | None => false
  end.

(** [SpanBatchEip8130TransactionData::join_auth]. *)
Definition join_auth (authenticator proof : bytes) (configured : bool) : bytes :=
  if negb configured then proof else
  match proof with
  | [] => authenticator
  | _ => authenticator ++ proof
  end.

(** [SpanBatchEip8130TransactionData::validate_authenticator]. *)
Definition validate_authenticator (authenticator : bytes) (configured : bool) : option () :=
  let valid := if configured then bool_decide (len authenticator = 20)
               else bool_decide (authenticator = []) in
  if valid then Some () else None.

(** The field [u128::from_be_bytes(x.to_be_bytes::<32>()[16..])] of the signed
    transactions: the low half of a [U256]. *)
Definition low_u128 (x : Z) : Z := from_be_bytes (drop 16 (to_be_bytes 32 x)).

(** [SpanBatchEip8130TransactionData::to_tx]. *)
Definition to_tx (self : SpanBatchEip8130TransactionData) (chain_id nonce gas : Z)
    (sender_proof payer_proof : bytes) : Eip8130Signed :=
  let sender_auth :=
    join_auth (d8130_sender_authenticator self) sender_proof
      (bool_decide (is_Some (d8130_sender self))) in
  let payer_auth :=
    join_auth (d8130_payer_authenticator self) payer_proof (named_payer (d8130_payer self)) in
  mkEip8130Signed
    (mkTxEip8130 chain_id (d8130_sender self) (d8130_nonce_key self) nonce
       (d8130_valid_after self) (d8130_valid_before self)
       (d8130_max_priority_fee_per_gas self) (d8130_max_fee_per_gas self) gas
       (d8130_account_changes self) (d8130_calls self) (d8130_metadata self)
       (d8130_payer self))
    sender_auth payer_auth.

(** The [to_signed_tx] of each data type. *)
Definition legacy_to_signed_tx (self : SpanBatchLegacyTransactionData) (nonce gas : Z)
    (to : option Address) (chain_id : Z) (signature : Signature.t) (is_protected : bool)
    : BaseTxEnvelope :=
  EnvLegacy
    (mkTxLegacy (if is_protected then Some chain_id else None) nonce
       (low_u128 (ld_gas_price self)) gas (TxKind_of to) (ld_value self) (ld_data self))
    signature.

Definition eip2930_to_signed_tx (self : SpanBatchEip2930TransactionData) (nonce gas : Z)
    (to : option Address) (chain_id : Z) (signature : Signature.t) : BaseTxEnvelope :=
  EnvEip2930
    (mkTxEip2930 chain_id nonce (low_u128 (d2930_gas_price self)) gas (TxKind_of to)
       (d2930_value self) (d2930_data self) (d2930_access_list self))
    signature.

Definition eip1559_to_signed_tx (self : SpanBatchEip1559TransactionData) (nonce gas : Z)
    (to : option Address) (chain_id : Z) (signature : Signature.t) : BaseTxEnvelope :=
  EnvEip1559
    (mkTxEip1559 chain_id nonce (low_u128 (d1559_max_fee_per_gas self))
       (low_u128 (d1559_max_priority_fee_per_gas self)) gas (TxKind_of to)
       (d1559_value self) (d1559_data self) (d1559_access_list self))
    signature.

Definition eip7702_to_signed_tx (self : SpanBatchEip7702TransactionData) (nonce gas : Z)
    (to : Address) (chain_id : Z) (signature : Signature.t) : BaseTxEnvelope :=
  EnvEip7702
    (mkTxEip7702 chain_id nonce (low_u128 (d7702_max_fee_per_gas self))
       (low_u128 (d7702_max_priority_fee_per_gas self)) gas to
       (d7702_value self) (d7702_data self) (d7702_access_list self)
       (d7702_authorization_list self))
    signature.

(** [SpanBatchTransactionData::to_signed_tx]. *)
Definition to_signed_tx (self : SpanBatchTransactionData) (nonce gas : Z) (to : option Address)
    (chain_id : Z) (signature : Signature.t) (is_protected : bool)
    : result SpanBatchError BaseTxEnvelope :=
  match self with
  | DataLegacy data =>
      Ok (legacy_to_signed_tx data nonce gas to chain_id signature is_protected)
  | DataEip2930 data => Ok (eip2930_to_signed_tx data nonce gas to chain_id signature)
  | DataEip1559 data => Ok (eip1559_to_signed_tx data nonce gas to chain_id signature)
  | DataEip7702 data =>
      match to with
      | Some addr => Ok (eip7702_to_signed_tx data nonce gas addr chain_id signature)
      | None => Err (Decoding InvalidTransactionData)
      end
  | DataEip8130 _ => Err (Decoding InvalidTransactionType)
  end.

(** [SpanBatchTransactionData::try_from(&BaseTxEnvelope)]. *)
Definition data_try_from (tx : BaseTxEnvelope) : result SpanBatchError SpanBatchTransactionData :=
  match tx with
  | EnvLegacy s _ =>
      Ok (DataLegacy (mkLegacyData (legacy_value s) (legacy_gas_price s) (legacy_input s)))
  | EnvEip2930 s _ =>
      Ok (DataEip2930 (mkEip2930Data (e2930_value s) (e2930_gas_price s) (e2930_input s)
        (e2930_access_list s)))
  | EnvEip1559 s _ =>
      Ok (DataEip1559 (mkEip1559Data (e1559_value s) (e1559_max_priority_fee_per_gas s)
        (e1559_max_fee_per_gas s) (e1559_input s) (e1559_access_list s)))
  | EnvEip7702 s _ =>
      Ok (DataEip7702 (mkEip7702Data (e7702_value s) (e7702_max_priority_fee_per_gas s)
        (e7702_max_fee_per_gas s) (e7702_input s) (e7702_access_list s)
        (e7702_authorization_list s)))
  | EnvEip8130 signed =>
      let tx := signed_tx signed in
      sender ← split_auth (sender_auth signed) (bool_decide (is_Some (e8130_sender tx)));
      payer ← split_auth (payer_auth signed) (named_payer (e8130_payer tx));
      Ok (DataEip8130 (mkEip8130Data (e8130_sender tx) (e8130_nonce_key tx)
        (e8130_valid_after tx) (e8130_valid_before tx) (e8130_max_priority_fee_per_gas tx)
        (e8130_max_fee_per_gas tx) (e8130_payer tx) (e8130_account_changes tx)
        (e8130_calls tx) (e8130_metadata tx) sender.1 payer.1))
  | EnvDeposit _ => Err (Decoding InvalidTransactionType)
  end.

End Data.

(** ** RLP *)

(** [alloy_rlp::Header]. *)
Module RlpHeader.

Record t : Type := mk { list : bool; payload_length : Z }.

End RlpHeader.

(** A pair of [Encodable] and [Decodable] implementations; decoding also
    returns the input left over. *)
Module Codec.

Record t (A : Type) : Type := mk { encode : A -> bytes; decode : bytes -> option (A * bytes) }.

Arguments mk {A} _ _.
Arguments encode {A} _ _.
Arguments decode {A} _ _.

(** Values that satisfy [P], with an encoding that fits in memory, are
    recovered from their encoding, whatever follows it. *)
Definition lawful {A} (c : t A) (P : A -> Prop) : Prop :=
  forall a rest, P a -> len (encode c a) < 2 ^ 64 -> decode c (encode c a ++ rest) = Some (a, rest).

End Codec.

(** The codecs of [alloy_rlp], those its derive macro generates for the plain
    data structs, and those of the carried types. *)
Class Rlp `{TxTypes} := {
  header_encode : RlpHeader.t -> bytes;
  header_decode : bytes -> option (RlpHeader.t * bytes);
  header_length : RlpHeader.t -> Z;
  rlp_bytes : Codec.t bytes;
  rlp_u256 : Codec.t Z;
  rlp_u128 : Codec.t Z;
  rlp_u64 : Codec.t Z;
  rlp_account_changes : Codec.t (list AccountChange);
  rlp_calls : Codec.t (list (list Call));
  rlp_legacy : Codec.t SpanBatchLegacyTransactionData;
  rlp_eip2930 : Codec.t SpanBatchEip2930TransactionData;
  rlp_eip1559 : Codec.t SpanBatchEip1559TransactionData;
  rlp_eip7702 : Codec.t SpanBatchEip7702TransactionData
}.

Section RlpData.
Context `{Rlp}.

(** *** [SpanBatchEip8130TransactionData] *)

Definition encode_address_opt (addr : option Address) : bytes :=
  match addr with
  | None => Codec.encode rlp_bytes []
  | Some a => Codec.encode rlp_bytes a
  end.

Definition address_opt_encoded_length (addr : option Address) : Z :=
  match addr with None => 1 | Some _ => 21 end.

Definition decode_address_opt (buf : bytes) : option (option Address * bytes) :=
  '(raw, buf) ← Codec.decode rlp_bytes buf;
  if decide (len raw = 0) then Some (None, buf) else
  if decide (len raw = 20) then Some (Some raw, buf) else None.

(** [rlp_encoded_fields_length]; [length()] of a field is the length of its
    encoding. *)
Definition rlp_encoded_fields_length (self : SpanBatchEip8130TransactionData) : Z :=
  address_opt_encoded_length (d8130_sender self)
  + len (Codec.encode rlp_u256 (d8130_nonce_key self))
  + len (Codec.encode rlp_u64 (d8130_valid_after self))
  + len (Codec.encode rlp_u64 (d8130_valid_before self))
  + len (Codec.encode rlp_u128 (d8130_max_priority_fee_per_gas self))
  + len (Codec.encode rlp_u128 (d8130_max_fee_per_gas self))
  + address_opt_encoded_length (d8130_payer self)
  + len (Codec.encode rlp_account_changes (d8130_account_changes self))
  + len (Codec.encode rlp_calls (d8130_calls self))
  + len (Codec.encode rlp_bytes (d8130_metadata self))
  + len (Codec.encode rlp_bytes (d8130_sender_authenticator self))
  + len (Codec.encode rlp_bytes (d8130_payer_authenticator self)).

(** The fields [encode] writes after the header. *)
Definition eip8130_fields (self : SpanBatchEip8130TransactionData) : bytes :=
  encode_address_opt (d8130_sender self)
  ++ Codec.encode rlp_u256 (d8130_nonce_key self)
  ++ Codec.encode rlp_u64 (d8130_valid_after self)
  ++ Codec.encode rlp_u64 (d8130_valid_before self)
  ++ Codec.encode rlp_u128 (d8130_max_priority_fee_per_gas self)
  ++ Codec.encode rlp_u128 (d8130_max_fee_per_gas self)
  ++ encode_address_opt (d8130_payer self)
  ++ Codec.encode rlp_account_changes (d8130_account_changes self)
  ++ Codec.encode rlp_calls (d8130_calls self)
  ++ Codec.encode rlp_bytes (d8130_metadata self)
  ++ Codec.encode rlp_bytes (d8130_sender_authenticator self)
  ++ Codec.encode rlp_bytes (d8130_payer_authenticator self).

Definition eip8130_encode (self : SpanBatchEip8130TransactionData) : bytes :=
  header_encode (RlpHeader.mk true (rlp_encoded_fields_length self)) ++ eip8130_fields self.

Definition eip8130_decode (buf : bytes) : option (SpanBatchEip8130TransactionData * bytes) :=
  '(header, buf) ← header_decode buf;
  if negb (RlpHeader.list header) then None else
  let started := len buf in
  '(sender, buf) ← decode_address_opt buf;
  '(nonce_key, buf) ← Codec.decode rlp_u256 buf;
  '(valid_after, buf) ← Codec.decode rlp_u64 buf;
  '(valid_before, buf) ← Codec.decode rlp_u64 buf;
  '(max_priority_fee_per_gas, buf) ← Codec.decode rlp_u128 buf;
  '(max_fee_per_gas, buf) ← Codec.decode rlp_u128 buf;
  '(payer, buf) ← decode_address_opt buf;
  '(account_changes, buf) ← Codec.decode rlp_account_changes buf;
  '(calls, buf) ← Codec.decode rlp_calls buf;
  '(metadata, buf) ← Codec.decode rlp_bytes buf;
  '(sender_authenticator, buf) ← Codec.decode rlp_bytes buf;
  '(payer_authenticator, buf) ← Codec.decode rlp_bytes buf;
  validate_authenticator sender_authenticator (bool_decide (is_Some sender)) ≫= fun _ =>
  validate_authenticator payer_authenticator (named_payer payer) ≫= fun _ =>
  if decide (started - len buf <> RlpHeader.payload_length header) then None else
  Some (mkEip8130Data sender nonce_key valid_after valid_before max_priority_fee_per_gas
          max_fee_per_gas payer account_changes calls metadata sender_authenticator
          payer_authenticator, buf).

(** *** [SpanBatchTransactionData] *)

Definition put_u8 (z : Z) : bytes := [byte.of_Z z].

Definition data_encode (self : SpanBatchTransactionData) : bytes :=
  match self with
  | DataLegacy data => Codec.encode rlp_legacy data
  | DataEip2930 data => put_u8 (OpTxType.to_u8 OpTxType.Eip2930) ++ Codec.encode rlp_eip2930 data
  | DataEip1559 data => put_u8 (OpTxType.to_u8 OpTxType.Eip1559) ++ Codec.encode rlp_eip1559 data
  | DataEip7702 data => put_u8 (OpTxType.to_u8 OpTxType.Eip7702) ++ Codec.encode rlp_eip7702 data
  | DataEip8130 data => put_u8 (OpTxType.to_u8 OpTxType.Eip8130) ++ eip8130_encode data
  end.

(** [decode_typed]; the callers do not use the input left over. *)
Definition decode_typed (b : bytes) : option SpanBatchTransactionData :=
  match b with
  | ty :: ((_ :: _) as payload) =>
      ty ← OpTxType.try_from (byte.unsigned ty);
      match ty with
      | OpTxType.Eip2930 => '(d, _) ← Codec.decode rlp_eip2930 payload; Some (DataEip2930 d)
      | OpTxType.Eip1559 => '(d, _) ← Codec.decode rlp_eip1559 payload; Some (DataEip1559 d)
      | OpTxType.Eip7702 => '(d, _) ← Codec.decode rlp_eip7702 payload; Some (DataEip7702 d)
      | OpTxType.Eip8130 => '(d, _) ← eip8130_decode payload; Some (DataEip8130 d)
      | _ => None
      end
  | _ => None
  end.

Definition data_decode (r : bytes) : option SpanBatchTransactionData :=
  match r with
  | b :: _ =>
      if decide (127 < byte.unsigned b)
      then '(d, _) ← Codec.decode rlp_legacy r; Some (DataLegacy d)
      else decode_typed r
  | [] => decode_typed r
  end.

(** [SpanBatchElement::MAX_SPAN_BATCH_ELEMENTS]. *)
Definition MAX_SPAN_BATCH_ELEMENTS : Z := 10000000.

(** The [tx_payload] of [read_tx_data]: one RLP list, header included, and the
    remaining input. *)
Definition read_tx_payload (r : bytes) : result SpanBatchError (bytes * bytes) :=
  '(rlp_header, _) ← ok_or (Decoding InvalidTransactionData) (header_decode r);
  if RlpHeader.list rlp_header then
    let n := u64_add (RlpHeader.payload_length rlp_header) (header_length rlp_header) in
    if decide (MAX_SPAN_BATCH_ELEMENTS < n) then Err TooBigSpanBatchSize else
    if decide (len r < n) then Err (Decoding InvalidTransactionData) else
    Ok (take (Z.to_nat n) r, drop (Z.to_nat n) r)
  else Err (Decoding InvalidTransactionData).

(** [read_tx_data]: the data of the next transaction with its type, and the
    remaining input. *)
Definition read_tx_data (r : bytes) : result SpanBatchError (bytes * OpTxType.t * bytes) :=
  first_byte ← ok_or (Decoding InvalidTransactionData) (head r);
  let first_byte := byte.unsigned first_byte in
  let '(tx_type, tx_data, r) :=
    if decide (first_byte <= 127) then (first_byte, put_u8 first_byte, tail r) else (0, [], r) in
  '(tx_payload, r) ← read_tx_payload r;
  tx_type ← ok_or (Decoding InvalidTransactionType) (OpTxType.try_from tx_type);
  Ok (tx_data ++ tx_payload, tx_type, r).

End RlpData.

(** ** Laws *)

Definition is_uint (bits z : Z) : Prop := 0 <= z < 2 ^ bits.

(** The integer ranges and address lengths the Rust types give. *)
Definition wf_address_opt (a : option Address) : Prop :=
  match a with None => True | Some a => len a = 20 end.

Section WellFormed.
Context `{TxTypes}.

Definition wf_legacy (d : SpanBatchLegacyTransactionData) : Prop :=
  is_uint 256 (ld_value d) /\ is_uint 256 (ld_gas_price d).

Definition wf_eip2930 (d : SpanBatchEip2930TransactionData) : Prop :=
  is_uint 256 (d2930_value d) /\ is_uint 256 (d2930_gas_price d).

Definition wf_eip1559 (d : SpanBatchEip1559TransactionData) : Prop :=
  is_uint 256 (d1559_value d) /\ is_uint 256 (d1559_max_priority_fee_per_gas d) /\
  is_uint 256 (d1559_max_fee_per_gas d).

Definition wf_eip7702 (d : SpanBatchEip7702TransactionData) : Prop :=
  is_uint 256 (d7702_value d) /\ is_uint 256 (d7702_max_priority_fee_per_gas d) /\
  is_uint 256 (d7702_max_fee_per_gas d).

Definition wf_eip8130 (d : SpanBatchEip8130TransactionData) : Prop :=
  wf_address_opt (d8130_sender d) /\ wf_address_opt (d8130_payer d) /\
  is_uint 256 (d8130_nonce_key d) /\ is_uint 64 (d8130_valid_after d) /\
  is_uint 64 (d8130_valid_before d) /\ is_uint 128 (d8130_max_priority_fee_per_gas d) /\
  is_uint 128 (d8130_max_fee_per_gas d) /\
  validate_authenticator (d8130_sender_authenticator d)
    (bool_decide (is_Some (d8130_sender d))) = Some () /\
  validate_authenticator (d8130_payer_authenticator d) (named_payer (d8130_payer d)) = Some ().

Definition wf_data (d : SpanBatchTransactionData) : Prop :=
  match d with
  | DataLegacy d => wf_legacy d
  | DataEip2930 d => wf_eip2930 d
  | DataEip1559 d => wf_eip1559 d
  | DataEip7702 d => wf_eip7702 d
  | DataEip8130 d => wf_eip8130 d
  end.

End WellFormed.

(** What the code relies on of [alloy_rlp]: headers and values are recovered
    from their encodings; a list header starts with a byte of at least [0xc0];
    a struct is encoded as a list; a string of 0 or 20 bytes takes one byte
    more than its length. *)
Class RlpLaws `{Rlp} : Prop := {
  header_decode_encode h rest :
    0 <= RlpHeader.payload_length h < 2 ^ 64 -> RlpHeader.payload_length h <= len rest ->
    header_decode (header_encode h ++ rest) = Some (h, rest);
  header_length_encode h : header_length h = len (header_encode h);
  header_list_first n : 0 <= n ->
    exists b tl, header_encode (RlpHeader.mk true n) = b :: tl /\ 192 <= byte.unsigned b;
  rlp_short_string b : len b = 0 \/ len b = 20 -> len (Codec.encode rlp_bytes b) = len b + 1;
  rlp_bytes_law : Codec.lawful rlp_bytes (fun _ => True);
  rlp_u256_law : Codec.lawful rlp_u256 (is_uint 256);
  rlp_u128_law : Codec.lawful rlp_u128 (is_uint 128);
  rlp_u64_law : Codec.lawful rlp_u64 (is_uint 64);
  rlp_account_changes_law : Codec.lawful rlp_account_changes (fun _ => True);
  rlp_calls_law : Codec.lawful rlp_calls (fun _ => True);
  rlp_legacy_law : Codec.lawful rlp_legacy wf_legacy;
  rlp_eip2930_law : Codec.lawful rlp_eip2930 wf_eip2930;
  rlp_eip1559_law : Codec.lawful rlp_eip1559 wf_eip1559;
  rlp_eip7702_law : Codec.lawful rlp_eip7702 wf_eip7702;
  rlp_legacy_list d : exists p,
    Codec.encode rlp_legacy d = header_encode (RlpHeader.mk true (len p)) ++ p;
  rlp_eip2930_list d : exists p,
    Codec.encode rlp_eip2930 d = header_encode (RlpHeader.mk true (len p)) ++ p;
  rlp_eip1559_list d : exists p,
    Codec.encode rlp_eip1559 d = header_encode (RlpHeader.mk true (len p)) ++ p;
  rlp_eip7702_list d : exists p,
    Codec.encode rlp_eip7702 d = header_encode (RlpHeader.mk true (len p)) ++ p
}.

(** ** Splitting and reassembling *)

Lemma low_u128_small x : is_uint 128 x -> low_u128 x = x.
Proof.
  intros Hx. unfold low_u128. change 32%nat with (16 + 16)%nat.
  rewrite to_be_bytes_pad by done.
  rewrite drop_app_length' by (by rewrite length_zeros). by apply from_to_be_bytes.
Qed.

(** The authenticator and the proof of an EIP-8130 authentication blob rebuild
    it, and the authenticator has the length the decoder insists on. *)
Lemma split_auth_spec blob configured a p :
  split_auth blob configured = Ok (a, p) ->
  join_auth a p configured = blob /\ validate_authenticator a configured = Some ().
Proof.
  unfold split_auth, join_auth, validate_authenticator. destruct configured; simpl negb; cbv iota.
  - case_decide as Hl; [done|]. intros [= <- <-]. split.
    + pose proof (take_drop 20 blob) as E. destruct (drop 20 blob); [by rewrite app_nil_r in E|done].
    + rewrite bool_decide_true; [done|]. unfold len in *. rewrite length_take. lia.
  - intros [= <- <-]. split; [done|]. by rewrite bool_decide_true.
Qed.

Lemma split_auth_no_panic blob configured : split_auth blob configured <> Panic.
Proof. unfold split_auth. destruct configured; cbn [negb]; [case_decide|]; discriminate. Qed.

Lemma data_try_from_no_panic `{TxTypes} tx : data_try_from tx <> Panic.
Proof.
  destruct tx as [| | | | |tx]; try discriminate. simpl.
  apply bind_no_panic; [apply split_auth_no_panic|]. intros s _.
  apply bind_no_panic; [apply split_auth_no_panic|]. discriminate.
Qed.

Section Laws.
Context `{RlpLaws}.

(** An RLP list is read back whole by [read_tx_data]. *)
Lemma header_decode_list p rest :
  len p < 2 ^ 64 ->
  header_decode ((header_encode (RlpHeader.mk true (len p)) ++ p) ++ rest) =
  Some (RlpHeader.mk true (len p), p ++ rest).
Proof.
  intros Hp. rewrite <- app_assoc. apply header_decode_encode; simpl; [pose proof (len_nonneg p); lia|].
  rewrite len_app. pose proof (len_nonneg rest). lia.
Qed.

Lemma len_encode_address_opt a :
  wf_address_opt a -> len (encode_address_opt a) = address_opt_encoded_length a.
Proof. intros Ha. destruct a; simpl in *; rewrite rlp_short_string; rewrite ?len_nil; lia. Qed.

Lemma decode_address_opt_encode a rest :
  wf_address_opt a ->
  decode_address_opt (encode_address_opt a ++ rest) = Some (a, rest).
Proof.
  intros Ha. pose proof (len_encode_address_opt a Ha) as Hl. unfold decode_address_opt.
  assert (address_opt_encoded_length a < 2 ^ 64) by (by destruct a). destruct a as [a|]; simpl in *.
  - rewrite rlp_bytes_law by (done || lia). simpl. by rewrite decide_False, decide_True by lia.
  - rewrite rlp_bytes_law by (done || lia). done.
Qed.

Lemma len_eip8130_fields d :
  wf_eip8130 d -> len (eip8130_fields d) = rlp_encoded_fields_length d.
Proof.
  intros Hd. unfold eip8130_fields, rlp_encoded_fields_length, wf_eip8130 in *.
  rewrite !len_app, !len_encode_address_opt by tauto. lia.
Qed.

Lemma eip8130_decode_encode d rest :
  wf_eip8130 d -> len (eip8130_encode d) < 2 ^ 64 ->
  eip8130_decode (eip8130_encode d ++ rest) = Some (d, rest).
Proof.
  intros Hd Hl. pose proof (len_eip8130_fields d Hd) as Hf.
  unfold eip8130_decode. unfold eip8130_encode in *. rewrite <- Hf in *.
  rewrite len_app in Hl. pose proof (len_nonneg (header_encode (RlpHeader.mk true (len (eip8130_fields d))))).
  rewrite header_decode_list by lia.
  cbn [mbind option_bind RlpHeader.list negb RlpHeader.payload_length].
  set (started := len (eip8130_fields d ++ rest)).
  assert (started - len rest = len (eip8130_fields d)) as Hc by (unfold started; rewrite len_app; lia).
  assert (len (eip8130_fields d) < 2 ^ 64) as Hlt by lia. clearbody started. clear Hl Hf.
  destruct Hd as (? & ? & ? & ? & ? & ? & ? & Hs & Hp).
  remember (len (eip8130_fields d)) as n eqn:En. rewrite En in Hlt. clear En.
  unfold eip8130_fields in Hlt |- *. rewrite !len_app in Hlt. rewrite <- !app_assoc. pose_lens.
  rewrite decode_address_opt_encode by done. cbn [mbind option_bind].
  rewrite rlp_u256_law by (done || lia). cbn [mbind option_bind].
  do 2 (rewrite rlp_u64_law by (done || lia); cbn [mbind option_bind]).
  do 2 (rewrite rlp_u128_law by (done || lia); cbn [mbind option_bind]).
  rewrite decode_address_opt_encode by done. cbn [mbind option_bind].
  rewrite rlp_account_changes_law by (done || lia). cbn [mbind option_bind].
  rewrite rlp_calls_law by (done || lia). cbn [mbind option_bind].
  do 3 (rewrite rlp_bytes_law by (done || lia); cbn [mbind option_bind]).
  rewrite Hs, Hp. cbn [mbind option_bind]. rewrite decide_False by lia. by destruct d.
Qed.

(** Every data part is an RLP list behind its type byte. *)
Definition type_prefix (d : SpanBatchTransactionData) : bytes :=
  match d with
  | DataLegacy _ => []
  | _ => put_u8 (OpTxType.to_u8 (data_tx_type d))
  end.

Lemma data_encode_list d :
  wf_data d ->
  exists p, data_encode d = type_prefix d ++ header_encode (RlpHeader.mk true (len p)) ++ p.
Proof.
  intros Hd. destruct d as [d|d|d|d|d]; simpl data_encode; simpl type_prefix.
  - destruct (rlp_legacy_list d) as [p Hp]. by exists p.
  - destruct (rlp_eip2930_list d) as [p Hp]. exists p. by rewrite Hp.
  - destruct (rlp_eip1559_list d) as [p Hp]. exists p. by rewrite Hp.
  - destruct (rlp_eip7702_list d) as [p Hp]. exists p. by rewrite Hp.
  - exists (eip8130_fields d). unfold eip8130_encode. by rewrite len_eip8130_fields.
Qed.

Lemma header_list_nonempty (p rest : bytes) :
  exists b tl, header_encode (RlpHeader.mk true (len p)) ++ rest = b :: tl /\ 192 <= byte.unsigned b.
Proof.
  destruct (header_list_first (len p) (len_nonneg p)) as (b & tl & -> & Hb). by exists b, (tl ++ rest).
Qed.

Lemma read_tx_payload_list p rest :
  let l := header_encode (RlpHeader.mk true (len p)) ++ p in
  len l <= MAX_SPAN_BATCH_ELEMENTS -> read_tx_payload (l ++ rest) = Ok (l, rest).
Proof.
  intros l Hl. unfold MAX_SPAN_BATCH_ELEMENTS in *.
  assert (u64_add (len p) (header_length (RlpHeader.mk true (len p))) = len l) as Hn.
  { rewrite header_length_encode. unfold u64_add, l in *.
    rewrite len_app, Z.add_comm in *. pose_lens. apply wrap_small. lia. }
  assert (header_decode (l ++ rest) = Some (RlpHeader.mk true (len p), p ++ rest)) as Hh
    by (apply header_decode_list; unfold l in *; rewrite len_app in Hl; pose_lens; lia).
  clearbody l. unfold read_tx_payload. rewrite Hh.
  cbn [mbind result_bind ok_or RlpHeader.list RlpHeader.payload_length]. rewrite Hn.
  unfold MAX_SPAN_BATCH_ELEMENTS.
  rewrite !decide_False by (rewrite ?len_app; pose_lens; lia).
  unfold len. rewrite Nat2Z.id, take_app_length, drop_app_length. done.
Qed.

(** [read_tx_data] cuts exactly one transaction off the stream. *)
Lemma read_tx_data_encode d rest :
  wf_data d -> len (data_encode d) <= MAX_SPAN_BATCH_ELEMENTS ->
  read_tx_data (data_encode d ++ rest) = Ok (data_encode d, data_tx_type d, rest).
Proof.
  intros Hd Hl. destruct (data_encode_list d Hd) as [p Hp]. rewrite Hp in *.
  pose proof (read_tx_payload_list p rest) as Hr. cbv zeta in Hr.
  destruct (header_list_nonempty p (p ++ rest)) as (b & tl & Hb & Hbr).
  set (l := header_encode (RlpHeader.mk true (len p)) ++ p) in *.
  assert (l ++ rest = b :: tl) as Hlb by (unfold l; by rewrite <- app_assoc).
  specialize (Hr ltac:(rewrite len_app in Hl; pose_lens; lia)).
  unfold read_tx_data. rewrite <- app_assoc.
  destruct d; simpl type_prefix.
  { rewrite app_nil_l, Hlb. cbn [head mbind result_bind ok_or].
    rewrite decide_False by lia. rewrite <- Hlb, Hr. reflexivity. }
  all: cbn [put_u8 app head tail mbind result_bind ok_or];
    rewrite decide_True by (vm_compute; discriminate); rewrite Hr; reflexivity.
Qed.

(** A data part is recovered from its encoding. *)
Lemma data_decode_encode d :
  wf_data d -> len (data_encode d) <= MAX_SPAN_BATCH_ELEMENTS ->
  data_decode (data_encode d) = Some d.
Proof.
  intros Hd Hl. unfold MAX_SPAN_BATCH_ELEMENTS in Hl.
  destruct (data_encode_list d Hd) as [p Hp].
  destruct (header_list_nonempty p p) as (b & tl & Hb & Hbr). rewrite Hb in Hp.
  destruct d as [d|d|d|d|d]; simpl data_encode in *; simpl type_prefix in Hp; rewrite Hp;
    unfold put_u8; cbn [app data_decode decode_typed].
  - rewrite decide_True by lia. rewrite app_nil_l in Hp. rewrite <- Hp.
    rewrite <- (app_nil_r (Codec.encode rlp_legacy d)), rlp_legacy_law by (done || lia). done.
  - injection Hp as Hp. rewrite len_cons in Hl. pose_lens.
    rewrite decide_False by (vm_compute; discriminate).
    cbn [decode_typed]. change (OpTxType.try_from _) with (Some OpTxType.Eip2930).
    cbn [mbind option_bind]. rewrite <- Hp.
    rewrite <- (app_nil_r (Codec.encode rlp_eip2930 d)), rlp_eip2930_law by (done || lia). done.
  - injection Hp as Hp. rewrite len_cons in Hl. pose_lens.
    rewrite decide_False by (vm_compute; discriminate).
    cbn [decode_typed]. change (OpTxType.try_from _) with (Some OpTxType.Eip1559).
    cbn [mbind option_bind]. rewrite <- Hp.
    rewrite <- (app_nil_r (Codec.encode rlp_eip1559 d)), rlp_eip1559_law by (done || lia). done.
  - injection Hp as Hp. rewrite len_cons in Hl. pose_lens.
    rewrite decide_False by (vm_compute; discriminate).
    cbn [decode_typed]. change (OpTxType.try_from _) with (Some OpTxType.Eip7702).
    cbn [mbind option_bind]. rewrite <- Hp.
    rewrite <- (app_nil_r (Codec.encode rlp_eip7702 d)), rlp_eip7702_law by (done || lia). done.
  - injection Hp as Hp. rewrite len_cons in Hl. pose_lens.
    rewrite decide_False by (vm_compute; discriminate).
    cbn [decode_typed]. change (OpTxType.try_from _) with (Some OpTxType.Eip8130).
    cbn [mbind option_bind]. rewrite <- Hp.
    rewrite <- (app_nil_r (eip8130_encode d)), eip8130_decode_encode by (done || lia). done.
Qed.

End Laws.
