(* ===== verification/SpanTxs.v ===== *)
(** * Transactions of a span batch: the columns

    Models [src/crates/consensus/protocol/src/batch/transactions.rs]: a span
    batch stores the transactions of all its blocks column by column.
    [add_txs] cuts transactions into the columns, [encode] and [decode] move
    the columns to and from the wire, [full_txs] puts the transactions back
    together.

    Variable-length integers are the [unsigned_varint] crate (class [Varint]),
    and the envelope codec is generated by [alloy_consensus]'s derive macro
    (class [Envelope]). *)

From S2P Require Import Prelude Primitives SpanBits SpanTxData.

(** [unsigned_varint::encode::u64] and [unsigned_varint::decode::u64]; an error
    carries nothing the code looks at. *)
Class Varint := {
  encode_u64 : Z -> bytes;
  decode_u64 : bytes -> option (Z * bytes)
}.

(** A number is recovered from its encoding, whatever follows it; what is
    decoded is a [u64]. *)
Class VarintLaws `{Varint} : Prop := {
  decode_u64_range r v rest : decode_u64 r = Some (v, rest) -> is_u64 v;
  decode_encode_u64 v rest : is_u64 v -> decode_u64 (encode_u64 v ++ rest) = Some (v, rest)
}.

(** [BaseTxEnvelope::decode] and [Encodable2718::encode_2718]. *)
Class Envelope `{TxTypes} := {
  envelope_decode : bytes -> option BaseTxEnvelope;
  encode_2718 : BaseTxEnvelope -> bytes
}.

(** [for _ in 0..n { .. }] over a reader. *)
Fixpoint decode_many {E A} (f : bytes -> result E (A * bytes)) (n : nat) (r : bytes)
    : result E (list A * bytes) :=
  match n with
  | O => Ok ([], r)
  | S n =>
      '(a, r) ← f r;
      '(l, r) ← decode_many f n r;
      Ok (a :: l, r)
  end.

Lemma decode_many_concat {E A} (f : bytes -> result E (A * bytes)) (enc : A -> bytes) l rest :
  Forall (fun a => forall rest, f (enc a ++ rest) = Ok (a, rest)) l ->
  decode_many f (length l) (concat (map enc l) ++ rest) = Ok (l, rest).
Proof.
  induction 1 as [|a l Ha _ IH]; [done|]. simpl. rewrite <- app_assoc, Ha. simpl.
  by rewrite IH.
Qed.

Lemma decode_many_length {E A} (f : bytes -> result E (A * bytes)) n r l rest :
  decode_many f n r = Ok (l, rest) -> length l = n.
Proof.
  revert r l. induction n as [|n IH]; intros r l; cbn [decode_many]; [by intros [= <- <-]|].
  intros Hd. apply bind_Ok in Hd as ([a r1] & _ & Hd). apply bind_Ok in Hd as ([l' r2] & Hl & Hd).
  injection Hd as <- <-. simpl. f_equal. by eapply IH.
Qed.

Lemma decode_many_no_panic {E A} (f : bytes -> result E (A * bytes)) n r :
  (forall r, f r <> Panic) -> decode_many f n r <> Panic.
Proof.
  intros Hf. revert r. induction n as [|n IH]; intros r; [discriminate|]. cbn [decode_many].
  apply bind_no_panic; [done|]. intros [a r1] _. apply bind_no_panic; [apply IH|].
  by intros [l r2] _.
Qed.

Module SpanBatchTransactions.

(** ** State *)

Record t : Type := mk {
  total_block_tx_count : Z;
  contract_creation_bits : SpanBatchBits.t;
  tx_sigs : list Signature.t;
  tx_nonces : list Z;
  tx_gases : list Z;
  tx_tos : list Address;
  tx_data : list bytes;
  protected_bits : SpanBatchBits.t;
  tx_types : list OpTxType.t;
  legacy_tx_count : Z;
  eip8130_auth_data : list (bytes * bytes)
}.

Definition default : t := mk 0 [] [] [] [] [] [] [] [] 0 [].

Section Operations.
Context `{TxTypes} `{!Rlp} `{!Varint} `{!Envelope}.

(** ** Encoding *)

Definition encode_contract_creation_bits (self : t) : result SpanBatchError bytes :=
  SpanBatchBits.encode (total_block_tx_count self) (contract_creation_bits self).

Definition encode_protected_bits (self : t) : result SpanBatchError bytes :=
  SpanBatchBits.encode (legacy_tx_count self) (protected_bits self).

(** The [r] and [s] of a signature. *)
Definition encode_sig (sig : Signature.t) : bytes :=
  to_be_bytes 32 (Signature.r sig) ++ to_be_bytes 32 (Signature.s sig).

Definition encode_tx_sigs (self : t) : result SpanBatchError bytes :=
  let y_parity_bits := SpanBatchBits.set_bits 0 [] (map Signature.v (tx_sigs self)) in
  bits ← SpanBatchBits.encode (total_block_tx_count self) y_parity_bits;
  Ok (bits ++ concat (map encode_sig (tx_sigs self))).

Definition encode_tx_nonces (self : t) : bytes := concat (map encode_u64 (tx_nonces self)).

Definition encode_tx_gases (self : t) : bytes := concat (map encode_u64 (tx_gases self)).

Definition encode_tx_tos (self : t) : bytes := concat (tx_tos self).

Definition encode_tx_data (self : t) : bytes := concat (tx_data self).

Definition encode_eip8130_proof (proof : bytes) : bytes := encode_u64 (len proof) ++ proof.

Definition encode_eip8130_auth_data (self : t) : bytes :=
  concat (map (fun '(sender_proof, payer_proof) =>
                 encode_eip8130_proof sender_proof ++ encode_eip8130_proof payer_proof)
              (eip8130_auth_data self)).

Definition encode (self : t) : result SpanBatchError bytes :=
  creation ← encode_contract_creation_bits self;
  sigs ← encode_tx_sigs self;
  protected ← encode_protected_bits self;
  Ok (creation ++ sigs ++ encode_tx_tos self ++ encode_tx_data self ++ encode_tx_nonces self
      ++ encode_tx_gases self ++ protected ++ encode_eip8130_auth_data self).

(** ** Decoding

    Each step takes and returns the reader. *)

Definition decode_contract_creation_bits (self : t) (r : bytes)
    : result SpanBatchError (SpanBatchBits.t * bytes) :=
  if decide (MAX_SPAN_BATCH_ELEMENTS < total_block_tx_count self) then Err TooBigSpanBatchSize
  else SpanBatchBits.decode r (total_block_tx_count self).

Definition decode_protected_bits (legacy_tx_count : Z) (r : bytes)
    : result SpanBatchError (SpanBatchBits.t * bytes) :=
  if decide (MAX_SPAN_BATCH_ELEMENTS < legacy_tx_count) then Err TooBigSpanBatchSize
  else SpanBatchBits.decode r legacy_tx_count.

(** The loop of [decode_tx_sigs], for [n] signatures from index [i]. *)
Fixpoint decode_sigs_from (y_parity_bits : SpanBatchBits.t) (n : nat) (i : Z) (r : bytes)
    : result SpanBatchError (list Signature.t * bytes) :=
  match n with
  | O => Ok ([], r)
  | S n =>
      y_parity ← or_panic (SpanBatchBits.get_bit y_parity_bits i);
      if decide (len r < 64) then Err (Decoding InvalidTransactionData) else
      let r_val := from_be_bytes (take 32 r) in
      let s_val := from_be_bytes (take 32 (drop 32 r)) in
      '(sigs, r) ← decode_sigs_from y_parity_bits n (i + 1) (drop 64 r);
      Ok (Signature.mk r_val s_val (bool_decide (y_parity = 1)) :: sigs, r)
  end.

Definition decode_tx_sigs (total_block_tx_count : Z) (r : bytes)
    : result SpanBatchError (list Signature.t * bytes) :=
  '(y_parity_bits, r) ← SpanBatchBits.decode r total_block_tx_count;
  decode_sigs_from y_parity_bits (Z.to_nat total_block_tx_count) 0 r.

Definition decode_varint (e : SpanBatchError) (r : bytes) : result SpanBatchError (Z * bytes) :=
  ok_or e (decode_u64 r).

Definition decode_tx_nonces (total_block_tx_count : Z) (r : bytes) :=
  decode_many (decode_varint (Decoding TxNonces)) (Z.to_nat total_block_tx_count) r.

(** The source reports [TxNonces] here as well. *)
Definition decode_tx_gases (total_block_tx_count : Z) (r : bytes) :=
  decode_many (decode_varint (Decoding TxNonces)) (Z.to_nat total_block_tx_count) r.

Definition decode_to (r : bytes) : result SpanBatchError (Address * bytes) :=
  if decide (len r < 20) then Err (Decoding InvalidTransactionData)
  else Ok (take 20 r, drop 20 r).

(** [contract_creation_count]. *)
Definition contract_creation_count (contract_creation_bits : SpanBatchBits.t) : Z :=
  SpanBatchBits.count_ones contract_creation_bits.

Definition decode_tx_tos (total_block_tx_count : Z) (contract_creation_bits : SpanBatchBits.t)
    (r : bytes) : result SpanBatchError (list Address * bytes) :=
  decode_many decode_to
    (Z.to_nat (u64_sub total_block_tx_count (contract_creation_count contract_creation_bits))) r.

(** Data and type of each transaction. *)
Definition decode_tx_data (total_block_tx_count : Z) (r : bytes)
    : result SpanBatchError (list (bytes * OpTxType.t) * bytes) :=
  decode_many read_tx_data (Z.to_nat total_block_tx_count) r.

(** What [decode_tx_data] adds to [legacy_tx_count]. *)
Definition count_legacy (types : list OpTxType.t) : Z :=
  len (filter (fun ty => ty = OpTxType.Legacy) types).

Definition decode_eip8130_proof (r : bytes) : result SpanBatchError (bytes * bytes) :=
  '(n, r) ← ok_or (Decoding InvalidAuthData) (decode_u64 r);
  if decide (MAX_AUTH_PROOF_BYTES < n) then Err TooBigSpanBatchSize else
  if decide (len r < n) then Err (Decoding InvalidTransactionData) else
  Ok (take (Z.to_nat n) r, drop (Z.to_nat n) r).

Definition decode_auth_pair (r : bytes) : result SpanBatchError ((bytes * bytes) * bytes) :=
  '(sender_proof, r) ← decode_eip8130_proof r;
  '(payer_proof, r) ← decode_eip8130_proof r;
  Ok ((sender_proof, payer_proof), r).

(** [decode_eip8130_auth_data]: one pair per EIP-8130 transaction. *)
Fixpoint decode_eip8130_auth_data (tx_types : list OpTxType.t) (r : bytes)
    : result SpanBatchError (list (bytes * bytes) * bytes) :=
  match tx_types with
  | [] => Ok ([], r)
  | OpTxType.Eip8130 :: tx_types =>
      '(proofs, r) ← decode_auth_pair r;
      '(auth_data, r) ← decode_eip8130_auth_data tx_types r;
      Ok (proofs :: auth_data, r)
  | _ :: tx_types => decode_eip8130_auth_data tx_types r
  end.

(** [decode]: the columns and the remaining input. *)
Definition decode (self : t) (r : bytes) : result SpanBatchError (t * bytes) :=
  let total := total_block_tx_count self in
  '(creation, r) ← decode_contract_creation_bits self r;
  '(sigs, r) ← decode_tx_sigs total r;
  '(tos, r) ← decode_tx_tos total creation r;
  '(data, r) ← decode_tx_data total r;
  let types := map snd data in
  let legacy := u64_add (legacy_tx_count self) (count_legacy types) in
  '(nonces, r) ← decode_tx_nonces total r;
  '(gases, r) ← decode_tx_gases total r;
  '(protected, r) ← decode_protected_bits legacy r;
  '(auth_data, r) ← decode_eip8130_auth_data types r;
  Ok (mk total creation sigs nonces gases tos (map fst data) protected types legacy auth_data, r).

(** ** Reassembly *)

(** The loop of [full_txs], for [n] transactions from index [idx]; [to_idx],
    [protected_bit_idx] and [eip8130_idx] are its cursors. *)
Fixpoint full_txs_from (self : t) (chain_id : Z) (n : nat)
    (idx to_idx protected_bit_idx eip8130_idx : Z) : result SpanBatchError (list bytes) :=
  match n with
  | O => Ok []
  | S n =>
      let invalid := Decoding InvalidTransactionData in
      data ← or_panic (index (tx_data self) idx);
      tx ← ok_or invalid (data_decode data);
      nonce ← ok_or invalid (index (tx_nonces self) idx);
      gas ← ok_or invalid (index (tx_gases self) idx);
      bit ← ok_or invalid (SpanBatchBits.get_bit (contract_creation_bits self) idx);
      '(to, to_idx) ←
        (if decide (bit = 0) then
           a ← ok_or invalid (index (tx_tos self) to_idx);
           Ok (Some a, to_idx + 1)
         else Ok (None, to_idx));
      match tx with
      | DataEip8130 data =>
          '(sender_proof, payer_proof) ← ok_or invalid (index (eip8130_auth_data self) eip8130_idx);
          let buf := encode_2718 (EnvEip8130 (to_tx data chain_id nonce gas sender_proof payer_proof)) in
          txs ← full_txs_from self chain_id n (idx + 1) to_idx protected_bit_idx (eip8130_idx + 1);
          Ok (buf :: txs)
      | _ =>
          sig ← ok_or invalid (index (tx_sigs self) idx);
          let '(is_protected, protected_bit_idx) :=
            if decide (data_tx_type tx = OpTxType.Legacy)
            then (bool_decide (SpanBatchBits.get_bit (protected_bits self) protected_bit_idx = Some 1),
                  protected_bit_idx + 1)
            else (true, protected_bit_idx) in
          tx_envelope ← to_signed_tx tx nonce gas to chain_id sig is_protected;
          txs ← full_txs_from self chain_id n (idx + 1) to_idx protected_bit_idx eip8130_idx;
          Ok (encode_2718 tx_envelope :: txs)
      end
  end.

Definition full_txs (self : t) (chain_id : Z) : result SpanBatchError (list bytes) :=
  full_txs_from self chain_id (Z.to_nat (total_block_tx_count self)) 0 0 0 0.

(** ** Adding transactions *)

(** The columns shared by all types: signature, recipient, nonce, gas limit. *)
Definition shared_columns (tx : BaseTxEnvelope) : Signature.t * option Address * Z * Z :=
  match tx with
  | EnvLegacy tx sig => (sig, TxKind_to (legacy_to tx), legacy_nonce tx, legacy_gas_limit tx)
  | EnvEip2930 tx sig => (sig, TxKind_to (e2930_to tx), e2930_nonce tx, e2930_gas_limit tx)
  | EnvEip1559 tx sig => (sig, TxKind_to (e1559_to tx), e1559_nonce tx, e1559_gas_limit tx)
  | EnvEip7702 tx sig => (sig, Some (e7702_to tx), e7702_nonce tx, e7702_gas_limit tx)
  | EnvEip8130 tx => (Signature.mk 0 0 false, None, e8130_nonce_sequence (signed_tx tx),
                      e8130_gas_limit (signed_tx tx))
  | EnvDeposit _ => (Signature.mk 0 0 false, None, 0, 0)
  end.

(** The arms of the match of [add_txs]: the chain id check of each type and the
    columns only some types have; the new protected bits, legacy count and
    proofs. *)
Definition own_columns (self : t) (chain_id : Z) (tx : BaseTxEnvelope)
    : result SpanBatchError (SpanBatchBits.t * Z * list (bytes * bytes)) :=
  let invalid := Decoding InvalidTransactionData in
  let unchanged := (protected_bits self, legacy_tx_count self, eip8130_auth_data self) in
  match tx with
  | EnvLegacy tx _ =>
      let protected := bool_decide (is_Some (legacy_chain_id tx)) in
      if decide (is_Some (legacy_chain_id tx) /\ legacy_chain_id tx <> Some chain_id)
      then Err invalid
      else Ok (SpanBatchBits.set_bit (protected_bits self) (legacy_tx_count self) protected,
               u64_add (legacy_tx_count self) 1, eip8130_auth_data self)
  | EnvEip2930 tx _ => if decide (e2930_chain_id tx <> chain_id) then Err invalid else Ok unchanged
  | EnvEip1559 tx _ => if decide (e1559_chain_id tx <> chain_id) then Err invalid else Ok unchanged
  | EnvEip7702 tx _ => if decide (e7702_chain_id tx <> chain_id) then Err invalid else Ok unchanged
  | EnvEip8130 signed =>
      let inner := signed_tx signed in
      if decide (e8130_chain_id inner <> chain_id) then Err invalid else
      sender ← split_auth (sender_auth signed) (bool_decide (is_Some (e8130_sender inner)));
      payer ← split_auth (payer_auth signed) (named_payer (e8130_payer inner));
      Ok (protected_bits self, legacy_tx_count self,
          eip8130_auth_data self ++ [(sender.2, payer.2)])
  | EnvDeposit _ => Err (Decoding InvalidTransactionType)
  end.

(** One iteration of the loop of [add_txs]; [index] is [i + offset]. *)
Definition add_tx (self : t) (chain_id index : Z) (tx : bytes) : result SpanBatchError t :=
  tx_enveloped ← ok_or (Decoding InvalidTransactionData) (envelope_decode tx);
  span_batch_tx ← data_try_from tx_enveloped;
  '(protected, legacy, auth_data) ← own_columns self chain_id tx_enveloped;
  let '(signature, to, nonce, gas) := shared_columns tx_enveloped in
  Ok (mk (total_block_tx_count self)
         (SpanBatchBits.set_bit (contract_creation_bits self) index (bool_decide (to = None)))
         (tx_sigs self ++ [signature])
         (tx_nonces self ++ [nonce])
         (tx_gases self ++ [gas])
         (tx_tos self ++ option_list to)
         (tx_data self ++ [data_encode span_batch_tx])
         protected
         (tx_types self ++ [tx_type tx_enveloped])
         legacy
         auth_data).

Fixpoint add_txs_from (self : t) (chain_id index : Z) (txs : list bytes) : result SpanBatchError t :=
  match txs with
  | [] => Ok self
  | tx :: txs =>
      self ← add_tx self chain_id index tx;
      add_txs_from self chain_id (u64_add index 1) txs
  end.

(** [add_txs]. *)
Definition add_txs (self : t) (txs : list bytes) (chain_id : Z) : result SpanBatchError t :=
  let offset := total_block_tx_count self in
  self ← add_txs_from self chain_id offset txs;
  Ok (mk (u64_add (total_block_tx_count self) (len txs)) (contract_creation_bits self)
         (tx_sigs self) (tx_nonces self) (tx_gases self) (tx_tos self) (tx_data self)
         (protected_bits self) (tx_types self) (legacy_tx_count self) (eip8130_auth_data self)).

End Operations.

(** ** The columns of a list of transactions *)

Section Columns.
Context `{TxTypes} `{!Rlp} `{!Varint} `{!Envelope}.

Definition sig_of (e : BaseTxEnvelope) : Signature.t := (shared_columns e).1.1.1.
Definition to_of (e : BaseTxEnvelope) : option Address := (shared_columns e).1.1.2.
Definition nonce_of (e : BaseTxEnvelope) : Z := (shared_columns e).1.2.
Definition gas_of (e : BaseTxEnvelope) : Z := (shared_columns e).2.

(** The protected bit of a legacy transaction, and the proofs of an EIP-8130
    transaction, as the entries they take in their column. *)
Definition protected_of (e : BaseTxEnvelope) : list bool :=
  match e with
  | EnvLegacy tx _ => [bool_decide (is_Some (legacy_chain_id tx))]
  | _ => []
  end.

Definition proofs_of (e : BaseTxEnvelope) : list (bytes * bytes) :=
  match e with
  | EnvEip8130 signed =>
      let inner := signed_tx signed in
      match split_auth (sender_auth signed) (bool_decide (is_Some (e8130_sender inner))),
            split_auth (payer_auth signed) (named_payer (e8130_payer inner)) with
      | Ok sender, Ok payer => [(sender.2, payer.2)]
      | _, _ => []
      end
  | _ => []
  end.

(** The columns of the transactions [envs] with data parts [ds]. *)
Definition columns (total : Z) (envs : list BaseTxEnvelope) (ds : list SpanBatchTransactionData) : t :=
  mk total
     (SpanBatchBits.of_bools (map (fun e => bool_decide (to_of e = None)) envs))
     (map sig_of envs) (map nonce_of envs) (map gas_of envs)
     (concat (map (fun e => option_list (to_of e)) envs))
     (map data_encode ds)
     (SpanBatchBits.of_bools (concat (map protected_of envs)))
     (map tx_type envs)
     (len (concat (map protected_of envs)))
     (concat (map proofs_of envs)).

(** The transaction is for this chain, or a legacy transaction for any. *)
Definition chain_ok (chain_id : Z) (e : BaseTxEnvelope) : Prop :=
  match e with
  | EnvLegacy tx _ => legacy_chain_id tx = None \/ legacy_chain_id tx = Some chain_id
  | EnvEip2930 tx _ => e2930_chain_id tx = chain_id
  | EnvEip1559 tx _ => e1559_chain_id tx = chain_id
  | EnvEip7702 tx _ => e7702_chain_id tx = chain_id
  | EnvEip8130 signed => e8130_chain_id (signed_tx signed) = chain_id
  | EnvDeposit _ => False
  end.

(** [d] is the data part of [e], a transaction for the chain. *)
Definition splits (chain_id : Z) (e : BaseTxEnvelope) (d : SpanBatchTransactionData) : Prop :=
  data_try_from e = Ok d /\ chain_ok chain_id e.

Lemma splits_type chain_id e d : splits chain_id e d -> data_tx_type d = tx_type e.
Proof.
  intros [Hd _]. destruct e; simpl in *; try (by injection Hd as <-); [done|].
  apply bind_Ok in Hd as (? & _ & Hd). apply bind_Ok in Hd as (? & _ & Hd). by injection Hd as <-.
Qed.

Lemma concat_map_snoc {A B} (f : A -> list B) l a :
  concat (map f (l ++ [a])) = concat (map f l) ++ f a.
Proof. rewrite map_app, concat_app. simpl. by rewrite app_nil_r. Qed.

Lemma len_protected envs : len (concat (map protected_of envs)) <= len envs.
Proof.
  induction envs as [|e envs IH]; [done|]. cbn [map concat]. rewrite len_app, len_cons.
  destruct e; simpl protected_of; rewrite ?len_cons, ?len_nil; lia.
Qed.

(** What the arms of [add_txs] do to the columns of their own. *)
Lemma own_columns_spec total envs ds chain_id e :
  len envs < u64_max ->
  match own_columns (columns total envs ds) chain_id e with
  | Ok (protected, legacy, auth) =>
      chain_ok chain_id e /\
      protected = SpanBatchBits.of_bools (concat (map protected_of (envs ++ [e]))) /\
      legacy = len (concat (map protected_of (envs ++ [e]))) /\
      auth = concat (map proofs_of (envs ++ [e]))
  | Err _ => True
  | Panic => False
  end.
Proof.
  intros Hlen. rewrite !concat_map_snoc.
  pose proof (len_protected envs) as Hp.
  destruct e as [tx sig|tx sig|tx sig|tx sig|tx|tx]; simpl own_columns; simpl chain_ok;
    simpl protected_of; simpl proofs_of; rewrite ?app_nil_r.
  - case_decide as Hc; [done|]. rewrite SpanBatchBits.of_bools_snoc, len_app.
    split_and!; try done.
    + destruct (legacy_chain_id tx) as [c|]; [right|by left].
      destruct (decide (c = chain_id)) as [->|]; [done|]. destruct Hc. split; [done|]. congruence.
    + unfold u64_add, u64_max in *. rewrite wrap_small; [done|]. pose_lens. lia.
  - case_decide; [done|]. split_and!; done || by apply dec_stable.
  - case_decide; [done|]. split_and!; done || by apply dec_stable.
  - case_decide; [done|]. split_and!; done || by apply dec_stable.
  - done.
  - case_decide; [done|].
    destruct (split_auth (sender_auth tx) _) as [s| |] eqn:Hs;
      [|done|by destruct (split_auth_no_panic _ _ Hs)]. cbn [mbind result_bind].
    destruct (split_auth (payer_auth tx) _) as [p| |] eqn:Hp';
      [|done|by destruct (split_auth_no_panic _ _ Hp')].
    cbn [mbind result_bind]. split_and!; done || by apply dec_stable.
Qed.

Lemma add_tx_spec total envs ds chain_id tx :
  len envs < u64_max ->
  match add_tx (columns total envs ds) chain_id (len envs) tx with
  | Ok self => exists e d, envelope_decode tx = Some e /\ splits chain_id e d /\
                 self = columns total (envs ++ [e]) (ds ++ [d])
  | Err _ => True
  | Panic => False
  end.
Proof.
  intros Hlen. unfold add_tx. destruct (envelope_decode tx) as [e|]; [|done].
  cbn [mbind result_bind ok_or].
  pose proof (data_try_from_no_panic e) as Hnp.
  destruct (data_try_from e) as [d| |] eqn:Hd; [|done|done]. cbn [mbind result_bind].
  pose proof (own_columns_spec total envs ds chain_id e Hlen) as Ho.
  destruct (own_columns _ _ _) as [[[protected legacy] auth]| |]; [|done|done].
  cbn [mbind result_bind]. destruct Ho as (Hc & -> & -> & ->).
  destruct (shared_columns e) as [[[sig to] nonce] gas] eqn:Hs.
  exists e, d. split_and!; [done|by split|]. unfold columns. rewrite !map_app, !concat_app.
  assert (sig_of e = sig /\ to_of e = to /\ nonce_of e = nonce /\ gas_of e = gas) as (E1 & E2 & E3 & E4)
    by (unfold sig_of, to_of, nonce_of, gas_of; rewrite Hs; done).
  simpl map. rewrite E1, E2, E3, E4. simpl concat. rewrite !app_nil_r. f_equal.
  rewrite SpanBatchBits.of_bools_snoc. unfold len. by rewrite length_map.
Qed.

Lemma add_txs_from_spec total txs envs ds chain_id :
  len envs + len txs <= u64_max -> length envs = length ds ->
  match add_txs_from (columns total envs ds) chain_id (len envs) txs with
  | Ok self => exists envs' ds', Forall2 (fun tx e => envelope_decode tx = Some e) txs envs' /\
                 Forall2 (splits chain_id) envs' ds' /\
                 self = columns total (envs ++ envs') (ds ++ ds')
  | Err _ => True
  | Panic => False
  end.
Proof.
  revert envs ds. induction txs as [|tx txs IH]; intros envs ds Hl He; simpl add_txs_from.
  { exists [], []. by rewrite !app_nil_r. }
  rewrite len_cons in Hl. pose_lens.
  pose proof (add_tx_spec total envs ds chain_id tx ltac:(lia)) as Ha.
  destruct (add_tx _ _ _ _) as [self| |]; [|done|done]. cbn [mbind result_bind].
  destruct Ha as (e & d & Hd & Hs & ->).
  replace (u64_add (len envs) 1) with (len (envs ++ [e])).
  2:{ unfold u64_add, u64_max in *. rewrite len_app, wrap_small; [done|lia]. }
  specialize (IH (envs ++ [e]) (ds ++ [d])). rewrite len_app in IH. change (len [e]) with 1 in IH.
  rewrite len_app. change (len [e]) with 1.
  specialize (IH ltac:(lia) ltac:(rewrite !length_app; simpl; lia)).
  destruct (add_txs_from _ _ _ _) as [self| |]; [|done|done].
  destruct IH as (envs' & ds' & Hf & Hsp & ->). exists (e :: envs'), (d :: ds').
  rewrite <- !app_assoc. split_and!; [by constructor..|done].
Qed.

Lemma add_txs_spec txs envs ds chain_id :
  len envs + len txs <= u64_max -> length envs = length ds ->
  match add_txs (columns (len envs) envs ds) txs chain_id with
  | Ok self => exists envs' ds', Forall2 (fun tx e => envelope_decode tx = Some e) txs envs' /\
                 Forall2 (splits chain_id) envs' ds' /\
                 self = columns (len (envs ++ envs')) (envs ++ envs') (ds ++ ds')
  | Err _ => True
  | Panic => False
  end.
Proof.
  intros Hl He. unfold add_txs. change (total_block_tx_count (columns (len envs) envs ds)) with (len envs).
  pose proof (add_txs_from_spec (len envs) txs envs ds chain_id Hl He) as Ha.
  destruct (add_txs_from _ _ _ _) as [self| |]; [|done|done]. cbn [mbind result_bind].
  destruct Ha as (envs' & ds' & Hf & Hs & ->). exists envs', ds'. split_and!; [done|done|].
  unfold columns. cbn [total_block_tx_count contract_creation_bits tx_sigs tx_nonces tx_gases tx_tos
    tx_data protected_bits tx_types legacy_tx_count eip8130_auth_data]. f_equal.
  assert (len envs' = len txs) as Hlen by (unfold len; f_equal; symmetry; by eapply Forall2_length).
  unfold u64_add, u64_max in *. rewrite len_app, Hlen. apply wrap_small. pose_lens. lia.
Qed.

(** ** Well-formed transactions *)

(** The ranges of the Rust types, and the limits of the decoder. *)
Definition wf_shared (e : BaseTxEnvelope) : Prop :=
  is_uint 256 (Signature.r (sig_of e)) /\ is_uint 256 (Signature.s (sig_of e)) /\
  is_uint 64 (nonce_of e) /\ is_uint 64 (gas_of e) /\ wf_address_opt (to_of e).

Definition wf_body (e : BaseTxEnvelope) : Prop :=
  match e with
  | EnvLegacy tx _ => is_uint 256 (legacy_value tx) /\ is_uint 128 (legacy_gas_price tx)
  | EnvEip2930 tx _ => is_uint 256 (e2930_value tx) /\ is_uint 128 (e2930_gas_price tx)
  | EnvEip1559 tx _ =>
      is_uint 256 (e1559_value tx) /\ is_uint 128 (e1559_max_priority_fee_per_gas tx) /\
      is_uint 128 (e1559_max_fee_per_gas tx)
  | EnvEip7702 tx _ =>
      is_uint 256 (e7702_value tx) /\ is_uint 128 (e7702_max_priority_fee_per_gas tx) /\
      is_uint 128 (e7702_max_fee_per_gas tx)
  | EnvEip8130 signed =>
      let tx := signed_tx signed in
      wf_address_opt (e8130_sender tx) /\ wf_address_opt (e8130_payer tx) /\
      is_uint 256 (e8130_nonce_key tx) /\ is_uint 64 (e8130_valid_after tx) /\
      is_uint 64 (e8130_valid_before tx) /\ is_uint 128 (e8130_max_priority_fee_per_gas tx) /\
      is_uint 128 (e8130_max_fee_per_gas tx)
  | EnvDeposit _ => True
  end.

Lemma u128_u256 z : is_uint 128 z -> is_uint 256 z.
Proof. unfold is_uint. pose proof (Z.pow_lt_mono_r 2 128 256). lia. Qed.

Lemma wf_body_data e d : wf_body e -> data_try_from e = Ok d -> wf_data d.
Proof.
  intros Hb Hd.
  destruct e; simpl in Hb, Hd; try done;
    try (injection Hd as <-; simpl; unfold wf_legacy, wf_eip2930, wf_eip1559, wf_eip7702; simpl;
         split_and!; first [tauto | apply u128_u256; tauto]).
  apply bind_Ok in Hd as ([sa sp] & Hs & Hd). apply bind_Ok in Hd as ([pa pp] & Hp & Hd).
  injection Hd as <-. simpl. apply split_auth_spec in Hs as [_ Hs]. apply split_auth_spec in Hp as [_ Hp].
  unfold wf_eip8130. simpl. tauto.
Qed.

Definition is_protected (e : BaseTxEnvelope) : bool :=
  match e with
  | EnvLegacy tx _ => bool_decide (is_Some (legacy_chain_id tx))
  | _ => true
  end.

(** Data part, shared columns and protected bit give the transaction back. *)
Lemma to_signed_tx_spec chain_id e d :
  splits chain_id e d -> wf_body e -> tx_type e <> OpTxType.Eip8130 ->
  to_signed_tx d (nonce_of e) (gas_of e) (to_of e) chain_id (sig_of e) (is_protected e) = Ok e.
Proof.
  intros [Hd Hc] Hb Ht. destruct e as [tx sig|tx sig|tx sig|tx sig|tx|tx]; simpl in *; try done;
    injection Hd as <-; simpl.
  - unfold legacy_to_signed_tx. simpl. rewrite low_u128_small by tauto.
    destruct tx as [c n g l to v i]; simpl in *. do 3 f_equal.
    + destruct Hc as [->| ->]; done.
    + by destruct to.
  - unfold eip2930_to_signed_tx. simpl. rewrite low_u128_small by tauto.
    destruct tx as [c n g l to v i a]; simpl in *. subst. do 3 f_equal. by destruct to.
  - unfold eip1559_to_signed_tx. simpl. rewrite !low_u128_small by tauto.
    destruct tx as [c n f p l to v i a]; simpl in *. subst. do 3 f_equal. by destruct to.
  - unfold eip7702_to_signed_tx. simpl. rewrite !low_u128_small by tauto.
    destruct tx; simpl in *. by subst.
Qed.

Lemma to_tx_spec chain_id tx d :
  splits chain_id (EnvEip8130 tx) d ->
  exists d8130 sender_proof payer_proof,
    d = DataEip8130 d8130 /\ proofs_of (EnvEip8130 tx) = [(sender_proof, payer_proof)] /\
    to_tx d8130 chain_id (nonce_of (EnvEip8130 tx)) (gas_of (EnvEip8130 tx)) sender_proof payer_proof = tx.
Proof.
  intros [Hd Hc]. simpl in Hd, Hc. simpl proofs_of.
  apply bind_Ok in Hd as ([sa sp] & Hs & Hd). apply bind_Ok in Hd as ([pa pp] & Hp & Hd).
  injection Hd as <-. rewrite Hs, Hp. do 3 eexists. split_and!; [done..|].
  apply split_auth_spec in Hs as [Hs _]. apply split_auth_spec in Hp as [Hp _].
  unfold to_tx. simpl in *. rewrite Hs, Hp. destruct tx as [tx sa' pa']; simpl in *.
  destruct tx; simpl in *. by subst.
Qed.

End Columns.

(** ** Round trips *)

Section RoundTrip.
Context `{TxTypes} `{!Rlp} `{!RlpLaws} `{!Varint} `{!VarintLaws} `{!Envelope}.

(** The limits the decoder puts on one transaction. *)
Definition fits (e : BaseTxEnvelope) (d : SpanBatchTransactionData) : Prop :=
  len (data_encode d) <= MAX_SPAN_BATCH_ELEMENTS /\
  Forall (fun '(s, p) => len s <= MAX_AUTH_PROOF_BYTES /\ len p <= MAX_AUTH_PROOF_BYTES) (proofs_of e).

(** What the round trip asks of one transaction. *)
Definition good (chain_id : Z) (e : BaseTxEnvelope) (d : SpanBatchTransactionData) : Prop :=
  splits chain_id e d /\ wf_shared e /\ wf_body e /\ fits e d.

Lemma decode_varint_encode err v rest :
  is_uint 64 v -> decode_varint err (encode_u64 v ++ rest) = Ok (v, rest).
Proof.
  intros Hv. unfold decode_varint. rewrite decode_encode_u64; [done|].
  unfold is_uint, u64_max in *. lia.
Qed.

Lemma decode_sigs_encode pre sigs rest :
  Forall (fun s => is_uint 256 (Signature.r s) /\ is_uint 256 (Signature.s s)) sigs ->
  decode_sigs_from (SpanBatchBits.of_bools (map Signature.v (pre ++ sigs))) (length sigs) (len pre)
    (concat (map encode_sig sigs) ++ rest) = Ok (sigs, rest).
Proof.
  intros Hs. revert pre. induction Hs as [|s sigs [Hr Hsv] _ IH]; intros pre; [done|].
  cbn [decode_sigs_from length map concat]. rewrite map_app. cbn [map].
  replace (len pre) with (len (map Signature.v pre)) by (unfold len; by rewrite length_map).
  rewrite SpanBatchBits.get_bit_middle. cbn [or_panic mbind result_bind].
  set (r := to_be_bytes 32 (Signature.r s)). set (sv := to_be_bytes 32 (Signature.s s)).
  change (encode_sig s) with (r ++ sv). rewrite <- !app_assoc.
  rewrite decide_False by (unfold r, sv; zify_lens; pose_lens; lia).
  assert (length r = 32%nat /\ length sv = 32%nat) as [Hlr Hls]
    by (unfold r, sv; by rewrite !length_to_be_bytes).
  rewrite (take_app_length' r), (drop_app_length' r), (take_app_length' sv) by done.
  rewrite (app_assoc r), (drop_app_length' (r ++ sv)) by (rewrite length_app; lia).
  specialize (IH (pre ++ [s])). rewrite <- app_assoc, len_app in IH. cbn [app] in IH.
  rewrite map_app in IH. cbn [map] in IH. change (len [s]) with 1 in IH.
  replace (len (map Signature.v pre)) with (len pre) by (unfold len; by rewrite length_map).
  rewrite IH. cbn [mbind result_bind]. unfold r, sv.
  rewrite !from_to_be_bytes by done. destruct s as [r' s' v]; simpl. by destruct v.
Qed.

Lemma decode_proof_encode p rest :
  len p <= MAX_AUTH_PROOF_BYTES ->
  decode_eip8130_proof (encode_eip8130_proof p ++ rest) = Ok (p, rest).
Proof.
  intros Hp. unfold decode_eip8130_proof, encode_eip8130_proof. rewrite <- app_assoc.
  unfold MAX_AUTH_PROOF_BYTES, Channels.Channel.MAX_RLP_BYTES in *.
  rewrite decode_encode_u64 by (unfold u64_max; pose_lens; lia). cbn [mbind result_bind ok_or].
  rewrite !decide_False by (zify_lens; pose_lens; lia).
  unfold len. by rewrite Nat2Z.id, take_app_length, drop_app_length.
Qed.

Lemma splits_proofs chain_id e d :
  splits chain_id e d ->
  match tx_type e with
  | OpTxType.Eip8130 => exists p, proofs_of e = [p]
  | _ => proofs_of e = []
  end.
Proof.
  intros Hs. destruct e as [| | | | |tx]; try done. simpl tx_type.
  destruct (to_tx_spec chain_id tx d Hs) as (? & ? & ? & _ & Hp & _). eauto.
Qed.

Lemma decode_auth_encode chain_id envs ds rest :
  Forall2 (good chain_id) envs ds ->
  decode_eip8130_auth_data (map tx_type envs)
    (concat (map (fun '(s, p) => encode_eip8130_proof s ++ encode_eip8130_proof p)
       (concat (map proofs_of envs))) ++ rest) = Ok (concat (map proofs_of envs), rest).
Proof.
  induction 1 as [|e d envs ds (Hs & _ & _ & _ & Hf) _ IH]; [done|].
  apply splits_proofs in Hs. cbn [map concat decode_eip8130_auth_data].
  destruct (tx_type e); try (by rewrite Hs). destruct Hs as [[s p] Hs]. rewrite Hs in *.
  apply Forall_cons in Hf as [[Hls Hlp] _].
  cbn [app map concat]. rewrite <- !app_assoc. unfold decode_auth_pair.
  rewrite decode_proof_encode by done. cbn [mbind result_bind].
  rewrite decode_proof_encode by done. cbn [mbind result_bind].
  rewrite IH. done.
Qed.

Lemma count_legacy_spec envs :
  count_legacy (map tx_type envs) = len (concat (map protected_of envs)).
Proof.
  induction envs as [|e envs IH]; [done|]. cbn [map concat]. rewrite len_app, <- IH.
  unfold count_legacy. rewrite filter_cons. destruct e; simpl tx_type;
    first [rewrite decide_True by done | rewrite decide_False by done];
    simpl protected_of; rewrite ?len_cons, ?len_nil; lia.
Qed.

Lemma count_tos envs :
  sumZ Z.b2z (map (fun e => bool_decide (to_of e = None)) envs)
  + len (concat (map (fun e => option_list (to_of e)) envs)) = len envs.
Proof.
  induction envs as [|e envs IH]; [done|]. cbn [map concat sumZ]. rewrite len_app, len_cons.
  destruct (to_of e) as [a|]; simpl option_list.
  - rewrite bool_decide_false by done. change (len [a]) with 1. simpl Z.b2z. lia.
  - rewrite bool_decide_true by done. change (len []) with 0. simpl Z.b2z. lia.
Qed.

(** The wire form of the columns. *)
Definition wire (envs : list BaseTxEnvelope) (ds : list SpanBatchTransactionData) : bytes :=
  SpanBatchBits.of_bools (map (fun e => bool_decide (to_of e = None)) envs)
  ++ SpanBatchBits.of_bools (map Signature.v (map sig_of envs))
  ++ concat (map encode_sig (map sig_of envs))
  ++ concat (concat (map (fun e => option_list (to_of e)) envs))
  ++ concat (map data_encode ds)
  ++ concat (map encode_u64 (map nonce_of envs))
  ++ concat (map encode_u64 (map gas_of envs))
  ++ SpanBatchBits.of_bools (concat (map protected_of envs))
  ++ concat (map (fun '(s, p) => encode_eip8130_proof s ++ encode_eip8130_proof p)
       (concat (map proofs_of envs))).

Lemma encode_columns envs ds :
  encode (columns (len envs) envs ds) = Ok (wire envs ds).
Proof.
  unfold encode, encode_contract_creation_bits, encode_tx_sigs, encode_protected_bits, columns.
  cbn [total_block_tx_count contract_creation_bits tx_sigs protected_bits legacy_tx_count].
  assert (forall {A} (f : BaseTxEnvelope -> A), len envs = len (map f envs)) as Hm
    by (intros; unfold len; by rewrite length_map).
  rewrite (Hm _ (fun e => bool_decide (to_of e = None))) at 1.
  rewrite SpanBatchBits.encode_of_bools. cbn [mbind result_bind].
  replace (len envs) with (len (map Signature.v (map sig_of envs)))
    by (unfold len; by rewrite !length_map).
  change (SpanBatchBits.set_bits 0 [] ?vs) with (SpanBatchBits.of_bools vs).
  rewrite SpanBatchBits.encode_of_bools. cbn [mbind result_bind].
  rewrite SpanBatchBits.encode_of_bools. cbn [mbind result_bind].
  unfold wire. by rewrite <- !app_assoc.
Qed.

Lemma decode_tos_encode tos rest :
  Forall (fun a : Address => len a = 20) tos ->
  decode_many decode_to (length tos) (concat tos ++ rest) = Ok (tos, rest).
Proof.
  intros Ht. rewrite <- (map_id (concat tos)). rewrite concat_map.
  replace (map (map (fun x => x)) tos) with (map (fun x : Address => x) tos)
    by (apply map_ext; intros; by rewrite map_id).
  apply decode_many_concat. apply (Forall_impl _ _ _ Ht). intros a Ha r.
  unfold decode_to, len in *. rewrite decide_False by (rewrite length_app; lia).
  by rewrite take_app_length', drop_app_length' by lia.
Qed.

Lemma good_envs chain_id envs ds :
  Forall2 (good chain_id) envs ds ->
  len ds = len envs /\ Forall wf_shared envs /\
  map data_tx_type ds = map tx_type envs /\
  Forall (fun d => wf_data d /\ len (data_encode d) <= MAX_SPAN_BATCH_ELEMENTS) ds.
Proof.
  induction 1 as [|e d envs ds (Hs & Hw & Hb & Hf & _) _ (IHl & IHw & IHt & IHd)]; [done|].
  rewrite !len_cons. simpl. split_and!; [lia|by constructor| |].
  - by rewrite IHt, (splits_type _ _ _ Hs).
  - constructor; [|done]. split; [|done]. destruct Hs as [Hs _]. by apply (wf_body_data e).
Qed.

Lemma Forall_map_2 {A B} (P : B -> Prop) (f : A -> B) l :
  Forall (fun a => P (f a)) l -> Forall P (map f l).
Proof. by rewrite Forall_map. Qed.

Lemma len_map {A B} (f : A -> B) l : len (map f l) = len l.
Proof. unfold len. by rewrite length_map. Qed.

Lemma to_nat_len {A} (l : list A) : Z.to_nat (len l) = length l.
Proof. apply Nat2Z.id. Qed.

Section Good.
Context (envs : list BaseTxEnvelope) (rest : bytes).
Context (Hshared : Forall wf_shared envs).

Lemma decode_tx_sigs_columns :
  decode_tx_sigs (len envs)
    (SpanBatchBits.of_bools (map Signature.v (map sig_of envs))
     ++ concat (map encode_sig (map sig_of envs)) ++ rest) = Ok (map sig_of envs, rest).
Proof.
  unfold decode_tx_sigs. rewrite <- (len_map sig_of), <- (len_map Signature.v (map sig_of envs)).
  rewrite SpanBatchBits.decode_of_bools. cbn [mbind result_bind].
  rewrite len_map, to_nat_len. apply (decode_sigs_encode []).
  apply Forall_map_2, (Forall_impl _ _ _ Hshared). unfold wf_shared. tauto.
Qed.

Lemma decode_tx_tos_columns :
  len envs <= MAX_SPAN_BATCH_ELEMENTS ->
  decode_tx_tos (len envs) (SpanBatchBits.of_bools (map (fun e => bool_decide (to_of e = None)) envs))
    (concat (concat (map (fun e => option_list (to_of e)) envs)) ++ rest) =
  Ok (concat (map (fun e => option_list (to_of e)) envs), rest).
Proof.
  intros Hmax. unfold decode_tx_tos, contract_creation_count.
  rewrite SpanBatchBits.count_ones_of_bools. pose proof (count_tos envs) as Hc.
  pose proof (sumZ_nonneg Z.b2z (map (fun e => bool_decide (to_of e = None)) envs)
    ltac:(by intros [])).
  unfold u64_sub, MAX_SPAN_BATCH_ELEMENTS in *. rewrite wrap_small by (pose_lens; lia).
  replace (len envs - _) with (len (concat (map (fun e => option_list (to_of e)) envs))) by lia.
  rewrite to_nat_len. apply decode_tos_encode. apply Forall_concat, Forall_map_2.
  apply (Forall_impl _ _ _ Hshared). intros e (_ & _ & _ & _ & Ha).
  destruct (to_of e); simpl; [by constructor|constructor].
Qed.

Lemma decode_varints_columns err (f : BaseTxEnvelope -> Z) :
  (forall e, wf_shared e -> is_uint 64 (f e)) ->
  decode_many (decode_varint err) (Z.to_nat (len envs)) (concat (map encode_u64 (map f envs)) ++ rest)
  = Ok (map f envs, rest).
Proof.
  intros Hf. rewrite <- (len_map f), to_nat_len. apply decode_many_concat, Forall_map_2.
  apply (Forall_impl _ _ _ Hshared). intros e He r. apply decode_varint_encode. auto.
Qed.

Lemma decode_tx_data_columns ds :
  len ds = len envs ->
  Forall (fun d => wf_data d /\ len (data_encode d) <= MAX_SPAN_BATCH_ELEMENTS) ds ->
  decode_tx_data (len envs) (concat (map data_encode ds) ++ rest) =
  Ok (map (fun d => (data_encode d, data_tx_type d)) ds, rest).
Proof.
  intros Hl Hd. unfold decode_tx_data.
  rewrite <- Hl, <- (len_map (fun d => (data_encode d, data_tx_type d))), to_nat_len.
  replace (map data_encode ds) with (map fst (map (fun d => (data_encode d, data_tx_type d)) ds))
    by (by rewrite map_map).
  apply decode_many_concat, Forall_map_2. apply (Forall_impl _ _ _ Hd).
  intros d [Hw Hm] r. by apply read_tx_data_encode.
Qed.

End Good.

(** The decoder recovers the columns from their wire form. *)
Lemma decode_columns chain_id envs ds rest :
  Forall2 (good chain_id) envs ds -> len envs <= MAX_SPAN_BATCH_ELEMENTS ->
  decode (mk (len envs) [] [] [] [] [] [] [] [] 0 []) (wire envs ds ++ rest) =
  Ok (columns (len envs) envs ds, rest).
Proof.
  intros Hg Hmax. pose proof (good_envs _ _ _ Hg) as (Hld & Hw & Ht & Hd).
  pose proof (len_protected envs) as Hp.
  unfold decode, wire, decode_contract_creation_bits. rewrite <- !app_assoc.
  cbn [total_block_tx_count legacy_tx_count]. rewrite decide_False by lia.
  rewrite <- (len_map (fun e => bool_decide (to_of e = None)) envs) at 1.
  rewrite SpanBatchBits.decode_of_bools. cbn [mbind result_bind].
  rewrite decode_tx_sigs_columns by done. cbn [mbind result_bind].
  rewrite decode_tx_tos_columns by done. cbn [mbind result_bind].
  rewrite decode_tx_data_columns by done. cbn [mbind result_bind].
  rewrite (map_map _ snd ds), (map_map _ fst ds). cbn [fst snd].
  change (map (fun d => data_tx_type d) ds) with (map data_tx_type ds).
  change (map (fun d => data_encode d) ds) with (map data_encode ds).
  rewrite Ht, count_legacy_spec.
  unfold u64_add, MAX_SPAN_BATCH_ELEMENTS in *. rewrite wrap_small by (pose_lens; lia).
  unfold decode_tx_nonces, decode_tx_gases.
  rewrite decode_varints_columns by (done || (unfold wf_shared; tauto)). cbn [mbind result_bind].
  rewrite decode_varints_columns by (done || (unfold wf_shared; tauto)). cbn [mbind result_bind].
  unfold decode_protected_bits, MAX_SPAN_BATCH_ELEMENTS.
  rewrite Z.add_0_l, decide_False by lia. rewrite SpanBatchBits.decode_of_bools.
  cbn [mbind result_bind]. rewrite (decode_auth_encode chain_id envs ds rest Hg). done.
Qed.

Abbreviation tos_of envs := (concat (map (fun e => option_list (to_of e)) envs)) (only parsing).
Abbreviation protected_column envs := (concat (map protected_of envs)) (only parsing).
Abbreviation proofs_column envs := (concat (map proofs_of envs)) (only parsing).

Lemma index_map_middle {A B} (f : A -> B) pre a post :
  index (map f (pre ++ a :: post)) (len pre) = Some (f a).
Proof.
  apply (index_spec _ (map f pre) (map f post)); [by rewrite map_app|by rewrite len_map].
Qed.

Lemma index_concat_middle {A B} (f : A -> list B) pre a post b :
  f a = [b] -> index (concat (map f (pre ++ a :: post))) (len (concat (map f pre))) = Some b.
Proof.
  intros Hb. apply (index_spec _ (concat (map f pre)) (concat (map f post))); [|done].
  rewrite map_app, concat_app. cbn [map concat]. by rewrite Hb.
Qed.

Lemma len_concat_snoc {A B} (f : A -> list B) pre a :
  len (concat (map f (pre ++ [a]))) = len (concat (map f pre)) + len (f a).
Proof. by rewrite concat_map_snoc, len_app. Qed.

(** What the columns hold at the position of a transaction. *)
Lemma columns_at total pre e post dpre d dpost :
  len dpre = len pre ->
  let self := columns total (pre ++ e :: post) (dpre ++ d :: dpost) in
  index (tx_data self) (len pre) = Some (data_encode d) /\
  index (tx_nonces self) (len pre) = Some (nonce_of e) /\
  index (tx_gases self) (len pre) = Some (gas_of e) /\
  index (tx_sigs self) (len pre) = Some (sig_of e) /\
  SpanBatchBits.get_bit (contract_creation_bits self) (len pre)
    = Some (Z.b2z (bool_decide (to_of e = None))).
Proof.
  intros Hl. simpl. rewrite !index_map_middle. rewrite <- Hl at 1. rewrite index_map_middle.
  split_and!; try done. rewrite map_app. cbn [map].
  by rewrite <- (len_map (fun e => bool_decide (to_of e = None)) pre), SpanBatchBits.get_bit_middle.
Qed.

Lemma recipient_at pre e post :
  (if decide (Z.b2z (bool_decide (to_of e = None)) = 0) then
     a ← ok_or (Decoding InvalidTransactionData) (index (tos_of (pre ++ e :: post)) (len (tos_of pre)));
     Ok (Some a, len (tos_of pre) + 1)
   else Ok (None, len (tos_of pre)))
  = Ok (to_of e, len (tos_of pre) + len (option_list (to_of e))).
Proof.
  destruct (to_of e) as [a|] eqn:Ha.
  - rewrite bool_decide_false by done. rewrite decide_True by done.
    rewrite (index_concat_middle _ pre e post a) by (by rewrite Ha). done.
  - rewrite bool_decide_true by done. rewrite decide_False by done.
    do 2 f_equal. symmetry. apply Z.add_0_r.
Qed.

(** The protected bit of a legacy transaction. *)
Lemma protected_at total pre e post ds :
  tx_type e = OpTxType.Legacy ->
  bool_decide (SpanBatchBits.get_bit (protected_bits (columns total (pre ++ e :: post) ds))
    (len (protected_column pre)) = Some 1) = is_protected e /\ len (protected_of e) = 1.
Proof.
  intros Ht. destruct e as [tx sig| | | | |]; try done. split; [|done]. simpl.
  rewrite map_app, concat_app. cbn [map concat protected_of app].
  rewrite SpanBatchBits.get_bit_middle.
  by destruct (bool_decide (is_Some (legacy_chain_id tx))).
Qed.

Lemma full_txs_from_columns total chain_id todo dtodo :
  Forall2 (good chain_id) todo dtodo ->
  forall pre dpre, len dpre = len pre ->
  full_txs_from (columns total (pre ++ todo) (dpre ++ dtodo)) chain_id (length todo) (len pre)
    (len (tos_of pre)) (len (protected_column pre)) (len (proofs_column pre)) =
  Ok (map encode_2718 todo).
Proof.
  induction 1 as [|e d todo dtodo (Hs & Hw & Hb & Hf & _) _ IH]; intros pre dpre Hl; [done|].
  specialize (IH (pre ++ [e]) (dpre ++ [d])). rewrite <- !app_assoc in IH. cbn [app] in IH.
  rewrite !len_concat_snoc, !len_app in IH. change (len [e]) with 1 in IH.
  change (len [d]) with 1 in IH. specialize (IH ltac:(lia)).
  cbn [full_txs_from length map].
  destruct (columns_at total pre e todo dpre d dtodo Hl) as (-> & -> & -> & -> & ->).
  cbn [or_panic ok_or mbind result_bind].
  rewrite data_decode_encode by (done || (apply (wf_body_data e); [done|apply Hs])).
  cbn [ok_or mbind result_bind]. cbn [tx_tos columns]. rewrite recipient_at.
  cbn [mbind result_bind].
  destruct (decide (tx_type e = OpTxType.Eip8130)) as [He|He].
  { destruct e as [| | | | |tx]; try done.
    destruct (to_tx_spec chain_id tx d Hs) as (d8130 & sp & pp & -> & Hp & Htx).
    cbn [eip8130_auth_data columns]. rewrite (index_concat_middle proofs_of pre _ todo _ Hp).
    cbn [ok_or mbind result_bind]. rewrite Htx. rewrite Hp in IH.
    change (len [(sp, pp)]) with 1 in IH. change (len (protected_of (EnvEip8130 tx))) with 0 in IH.
    rewrite (Z.add_0_r (len (protected_column pre))) in IH. by rewrite IH. }
  pose proof (to_signed_tx_spec _ _ _ Hs Hb He) as Hsig.
  assert (len (proofs_of e) = 0) as Hp
    by (pose proof (splits_proofs _ _ _ Hs) as Hp; destruct (tx_type e); try done; by rewrite Hp).
  rewrite Hp, Z.add_0_r in IH.
  pose proof (splits_type _ _ _ Hs) as Ht.
  destruct (decide (tx_type e = OpTxType.Legacy)) as [Hleg|Hleg].
  - destruct (protected_at total pre e todo (dpre ++ d :: dtodo) Hleg) as [Hprot Hone].
    rewrite Hone in IH. destruct d; simpl in Ht; try congruence.
    rewrite decide_True by done. rewrite Hprot, Hsig. cbn [mbind result_bind]. by rewrite IH.
  - assert (len (protected_of e) = 0 /\ is_protected e = true) as [Hz Hprot] by (by destruct e).
    rewrite Hz, Z.add_0_r in IH. rewrite Hprot in Hsig.
    destruct d; simpl in Ht; try congruence; rewrite decide_False by done;
      rewrite Hsig; cbn [mbind result_bind]; by rewrite IH.
Qed.

End RoundTrip.

(** ** Totality

    Whatever the bytes are, decoding ends in columns or in an error. *)

Section Total.
Context `{TxTypes} `{!Rlp} `{!Varint} `{!VarintLaws} `{!Envelope}.

Lemma decode_sigs_no_panic bits n i r :
  0 <= i -> i + Z.of_nat n <= 8 * len bits -> decode_sigs_from bits n i r <> Panic.
Proof.
  revert i r. induction n as [|n IH]; intros i r Hi Hn; [discriminate|]. cbn [decode_sigs_from].
  rewrite SpanBatchBits.get_bit_spec, decide_True by lia. cbn [or_panic mbind result_bind].
  case_decide; [discriminate|]. apply bind_no_panic; [apply IH; lia|]. by intros [sigs r1] _.
Qed.

Lemma decode_tx_sigs_no_panic total r : 0 <= total -> decode_tx_sigs total r <> Panic.
Proof.
  intros Ht. unfold decode_tx_sigs. apply bind_no_panic; [apply SpanBatchBits.bits_decode_no_panic|].
  intros [bits r1] Hd. apply SpanBatchBits.bits_decode_Ok in Hd as [Hl _]; [|done].
  pose proof (SpanBatchBits.buffer_len_spec total Ht). apply decode_sigs_no_panic; lia.
Qed.

Lemma decode_proof_no_panic r : decode_eip8130_proof r <> Panic.
Proof.
  unfold decode_eip8130_proof. apply bind_no_panic; [apply ok_or_no_panic|]. intros [n r1] _.
  repeat case_decide; discriminate.
Qed.

Lemma decode_auth_no_panic types r : decode_eip8130_auth_data types r <> Panic.
Proof.
  revert r. induction types as [|ty types IH]; intros r; [discriminate|].
  destruct ty; cbn [decode_eip8130_auth_data]; try apply IH.
  apply bind_no_panic; [apply bind_no_panic; [apply decode_proof_no_panic|]|].
  - intros [s r1] _. apply bind_no_panic; [apply decode_proof_no_panic|]. by intros [p r2] _.
  - intros [proofs r1] _. apply bind_no_panic; [apply IH|]. by intros [auth r2] _.
Qed.

Lemma read_tx_data_no_panic r : read_tx_data r <> Panic.
Proof.
  unfold read_tx_data. apply bind_no_panic; [apply ok_or_no_panic|]. intros b _.
  destruct (if decide (byte.unsigned b <= 127) then _ else _) as [[ty d] r1].
  apply bind_no_panic.
  - unfold read_tx_payload. apply bind_no_panic; [apply ok_or_no_panic|]. intros [h r2] _.
    destruct (RlpHeader.list h); [|discriminate]. repeat case_decide; discriminate.
  - intros [p r2] _. apply bind_no_panic; [apply ok_or_no_panic|]. by intros ? _.
Qed.

Lemma decode_varint_no_panic e r : decode_varint e r <> Panic.
Proof. apply ok_or_no_panic. Qed.

Lemma decode_to_no_panic r : decode_to r <> Panic.
Proof. unfold decode_to. case_decide; discriminate. Qed.

Lemma txs_decode_no_panic self r : 0 <= total_block_tx_count self -> decode self r <> Panic.
Proof.
  intros Ht. unfold decode, decode_contract_creation_bits.
  apply bind_no_panic; [case_decide; [discriminate|apply SpanBatchBits.bits_decode_no_panic]|].
  intros [creation r1] _. apply bind_no_panic; [by apply decode_tx_sigs_no_panic|].
  intros [sigs r2] _. apply bind_no_panic; [apply decode_many_no_panic, decode_to_no_panic|].
  intros [tos r3] _. apply bind_no_panic; [apply decode_many_no_panic, read_tx_data_no_panic|].
  intros [data r4] _. apply bind_no_panic; [apply decode_many_no_panic, decode_varint_no_panic|].
  intros [nonces r5] _. apply bind_no_panic; [apply decode_many_no_panic, decode_varint_no_panic|].
  intros [gases r6] _. unfold decode_protected_bits.
  apply bind_no_panic; [case_decide; [discriminate|apply SpanBatchBits.bits_decode_no_panic]|].
  intros [protected r7] _. apply bind_no_panic; [apply decode_auth_no_panic|]. by intros [auth r8] _.
Qed.

(** The decoded columns hold one entry per transaction. *)
Lemma decode_tx_data_length self r cols rest :
  decode self r = Ok (cols, rest) ->
  total_block_tx_count cols = total_block_tx_count self /\
  length (tx_data cols) = Z.to_nat (total_block_tx_count self).
Proof.
  unfold decode. intros Hd.
  apply bind_Ok in Hd as ([creation r1] & _ & Hd). apply bind_Ok in Hd as ([sigs r2] & _ & Hd).
  apply bind_Ok in Hd as ([tos r3] & _ & Hd). apply bind_Ok in Hd as ([data r4] & Hdata & Hd).
  apply bind_Ok in Hd as ([nonces r5] & _ & Hd). apply bind_Ok in Hd as ([gases r6] & _ & Hd).
  apply bind_Ok in Hd as ([protected r7] & _ & Hd). apply bind_Ok in Hd as ([auth r8] & _ & Hd).
  injection Hd as <- <-. split; [done|]. simpl. rewrite length_map. by eapply decode_many_length.
Qed.

Lemma to_signed_tx_no_panic d nonce gas to chain_id sig prot :
  to_signed_tx d nonce gas to chain_id sig prot <> Panic.
Proof. by destruct d, to. Qed.

Lemma full_txs_from_no_panic self chain_id n idx to_idx prot_idx eip_idx :
  0 <= idx -> idx + Z.of_nat n <= len (tx_data self) ->
  full_txs_from self chain_id n idx to_idx prot_idx eip_idx <> Panic.
Proof.
  revert idx to_idx prot_idx eip_idx.
  induction n as [|n IH]; intros idx to_idx prot_idx eip_idx Hi Hn; [discriminate|].
  cbn [full_txs_from]. destruct (index_in_range (tx_data self) idx ltac:(lia)) as [data ->].
  cbn [or_panic mbind result_bind].
  apply bind_no_panic; [apply ok_or_no_panic|]. intros tx _.
  apply bind_no_panic; [apply ok_or_no_panic|]. intros nonce _.
  apply bind_no_panic; [apply ok_or_no_panic|]. intros gas _.
  apply bind_no_panic; [apply ok_or_no_panic|]. intros bit _.
  apply bind_no_panic.
  { case_decide; [|discriminate]. apply bind_no_panic; [apply ok_or_no_panic|]. by intros a _. }
  intros [to to_idx'] _. assert (forall t p e, full_txs_from self chain_id n (idx + 1) t p e <> Panic)
    as IH' by (intros; apply IH; lia).
  destruct tx as [d|d|d|d|d].
  5:{ apply bind_no_panic; [apply ok_or_no_panic|]. intros [s p] _.
      apply bind_no_panic; [apply IH'|]. by intros txs _. }
  all: apply bind_no_panic; [apply ok_or_no_panic|]; intros sig _;
    destruct (if decide (_ = OpTxType.Legacy) then _ else _) as [prot prot_idx'];
    apply bind_no_panic; [apply to_signed_tx_no_panic|]; intros e _;
    apply bind_no_panic; [apply IH'|]; by intros txs _.
Qed.

Lemma full_txs_from_length self chain_id n idx to_idx prot_idx eip_idx txs :
  full_txs_from self chain_id n idx to_idx prot_idx eip_idx = Ok txs -> length txs = n.
Proof.
  revert idx to_idx prot_idx eip_idx txs.
  induction n as [|n IH]; intros idx to_idx prot_idx eip_idx txs; cbn [full_txs_from];
    [by intros [= <-]|].
  intros Hd. do 5 apply bind_Ok in Hd as (? & _ & Hd).
  apply bind_Ok in Hd as ([to to_idx'] & _ & Hd). destruct x0 as [d|d|d|d|d].
  5:{ apply bind_Ok in Hd as ([s p] & _ & Hd). apply bind_Ok in Hd as (txs' & Ht & Hd).
      injection Hd as <-. simpl. f_equal. by eapply IH. }
  all: apply bind_Ok in Hd as (sig & _ & Hd);
    destruct (if decide (_ = OpTxType.Legacy) then _ else _) as [prot prot_idx'];
    apply bind_Ok in Hd as (e & _ & Hd); apply bind_Ok in Hd as (txs' & Ht & Hd);
    injection Hd as <-; simpl; f_equal; by eapply IH.
Qed.

(** Reassembling decoded columns does not panic, and gives one transaction per
    entry. *)
Lemma full_txs_total self r cols rest chain_id :
  0 <= total_block_tx_count self -> decode self r = Ok (cols, rest) ->
  full_txs cols chain_id <> Panic /\
  forall txs, full_txs cols chain_id = Ok txs -> len txs = total_block_tx_count self.
Proof.
  intros Ht Hd. destruct (decode_tx_data_length _ _ _ _ Hd) as [Hc Hl]. unfold full_txs.
  rewrite Hc. split.
  - apply full_txs_from_no_panic; [lia|]. unfold len. lia.
  - intros txs Htxs. apply full_txs_from_length in Htxs. unfold len. lia.
Qed.

End Total.

End SpanBatchTransactions.
