(* ===== verification/CodecModels.v ===== *)
(** * Concrete codecs

    Instances of the codec interfaces of [SpanTxData] and [SpanTxs], which show
    that the laws assumed of the third-party codecs can hold together: LEB128
    integers, an RLP codec with one-byte and eight-byte length headers, and an
    envelope codec for EIP-1559 transactions built from it.  The theorems do
    not depend on this file; their witnesses do. *)

From S2P Require Import Prelude Primitives SpanBits SpanTxData SpanTxs.

(** ** LEB128 *)

(** Seven bits per byte, low bits first; a number below [2 ^ (7 * fuel)] needs
    at most [fuel] bytes.  A 64-bit number needs ten. *)
Fixpoint leb_encode (fuel : nat) (v : Z) : bytes :=
  match fuel with
  | O => []
  | S fuel =>
      if decide (v < 128) then [byte.of_Z v]
      else byte.of_Z (128 + v mod 128) :: leb_encode fuel (v / 128)
  end.

Fixpoint leb_decode (fuel : nat) (r : bytes) : option (Z * bytes) :=
  match fuel, r with
  | S fuel, b :: r =>
      if decide (byte.unsigned b < 128) then Some (byte.unsigned b, r)
      else '(v, r) ← leb_decode fuel r; Some (byte.unsigned b - 128 + 128 * v, r)
  | _, _ => None
  end.

#[export] Instance leb128 : Varint := {|
  encode_u64 := leb_encode 10;
  decode_u64 r := '(v, r) ← leb_decode 10 r; if decide (is_u64 v) then Some (v, r) else None
|}.

Lemma unsigned_of_Z z : 0 <= z < 256 -> byte.unsigned (byte.of_Z z) = z.
Proof. intros Hz. rewrite byte.unsigned_of_Z. by apply Z.mod_small. Qed.

Lemma leb_encode_S fuel v :
  leb_encode (S fuel) v =
  if decide (v < 128) then [byte.of_Z v]
  else byte.of_Z (128 + v mod 128) :: leb_encode fuel (v / 128).
Proof. done. Qed.

Lemma leb_round_trip fuel v rest :
  0 <= v < 2 ^ (7 * Z.of_nat (S fuel)) ->
  leb_decode (S fuel) (leb_encode (S fuel) v ++ rest) = Some (v, rest).
Proof.
  revert v. induction fuel as [|fuel IH]; intros v Hv;
    rewrite leb_encode_S; destruct (decide (v < 128)) as [Hs|Hs]; [| simpl in Hv; lia | |].
  1, 2: cbn [app leb_decode]; rewrite unsigned_of_Z by lia; by rewrite decide_True by lia.
  pose proof (Z.div_mod v 128 ltac:(lia)). pose proof (Z.mod_pos_bound v 128 ltac:(lia)).
  change ((?b :: ?l) ++ rest) with (b :: (l ++ rest)).
  change (leb_decode (S (S fuel)) (?b :: ?l)) with
    (if decide (byte.unsigned b < 128) then Some (byte.unsigned b, l)
     else '(v, r) ← leb_decode (S fuel) l; Some (byte.unsigned b - 128 + 128 * v, r)).
  rewrite unsigned_of_Z by lia. rewrite decide_False by lia.
  rewrite IH.
  - cbn [mbind option_bind]. do 2 f_equal. lia.
  - split; [apply Z.div_pos; lia|]. apply Z.div_lt_upper_bound; [lia|].
    replace (7 * Z.of_nat (S (S fuel))) with (7 + 7 * Z.of_nat (S fuel)) in Hv by lia.
    rewrite Z.pow_add_r in Hv by lia. lia.
Qed.

#[export] Instance leb128_laws : VarintLaws.
Proof.
  constructor.
  - intros r v rest. cbn [decode_u64 leb128]. destruct (leb_decode 10 r) as [[w r']|]; [|done].
    cbn [mbind option_bind]. case_decide as Hu; [|done]. intros [= <- <-]. exact Hu.
  - intros v rest Hv. cbn [decode_u64 encode_u64 leb128].
    rewrite (leb_round_trip 9) by (unfold u64_max in Hv; simpl; lia).
    cbn [mbind option_bind]. by rewrite decide_True.
Qed.

(** ** RLP *)

#[export] Instance plain_types : TxTypes := {|
  AccessList := ();
  SignedAuthorization := Empty_set;
  AccountChange := Empty_set;
  Call := Empty_set;
  TxDeposit := Empty_set
|}.

Definition model_header_encode (h : RlpHeader.t) : bytes :=
  let base := if RlpHeader.list h then 192 else 128 in
  if decide (RlpHeader.payload_length h <= 55)
  then [byte.of_Z (base + RlpHeader.payload_length h)]
  else byte.of_Z (base + 63) :: to_be_bytes 8 (RlpHeader.payload_length h).

(** Rejects headers that announce more than the input holds. *)
Definition model_header_decode (r : bytes) : option (RlpHeader.t * bytes) :=
  match r with
  | [] => None
  | b :: r =>
      let b := byte.unsigned b in
      if decide (b < 128) then None else
      let list := bool_decide (192 <= b) in
      let k := b - (if list then 192 else 128) in
      let '(n, r) := if decide (k <= 55) then (k, r)
                     else (from_be_bytes (take 8 r), drop 8 r) in
      if decide (len r < n) then None else Some (RlpHeader.mk list n, r)
  end.

Lemma model_header_round_trip h rest :
  0 <= RlpHeader.payload_length h < 2 ^ 64 -> RlpHeader.payload_length h <= len rest ->
  model_header_decode (model_header_encode h ++ rest) = Some (h, rest).
Proof.
  destruct h as [list n]. cbn [RlpHeader.payload_length]. intros Hn Hr.
  unfold model_header_encode. cbn [RlpHeader.list RlpHeader.payload_length].
  assert (forall k, 0 <= k < 64 ->
    bool_decide (192 <= (if list then 192 else 128) + k) = list) as Hlist.
  { intros k Hk. destruct list; [apply bool_decide_true|apply bool_decide_false]; lia. }
  destruct (decide (n <= 55)) as [Hs|Hs]; cbn [app model_header_decode].
  - rewrite unsigned_of_Z by (destruct list; lia).
    rewrite decide_False by (destruct list; lia). rewrite Hlist by lia.
    rewrite decide_True by (destruct list; lia).
    replace ((if list then 192 else 128) + n - (if list then 192 else 128)) with n by (destruct list; lia).
    by rewrite decide_False by lia.
  - rewrite unsigned_of_Z by (destruct list; lia).
    rewrite decide_False by (destruct list; lia). rewrite Hlist by lia.
    rewrite decide_False by (destruct list; lia).
    rewrite take_app_length', drop_app_length' by (by rewrite length_to_be_bytes).
    rewrite from_to_be_bytes by done. by rewrite decide_False by lia.
Qed.

Definition model_bytes : Codec.t bytes := {|
  Codec.encode b := model_header_encode (RlpHeader.mk false (len b)) ++ b;
  Codec.decode r :=
    '(h, r) ← model_header_decode r;
    if RlpHeader.list h then None else
    let n := Z.to_nat (RlpHeader.payload_length h) in Some (take n r, drop n r)
|}.

Lemma model_bytes_law : Codec.lawful model_bytes (fun _ => True).
Proof.
  intros b rest _ Hl. cbn [model_bytes Codec.encode Codec.decode] in *.
  rewrite len_app in Hl. pose_lens. pose proof (len_nonneg rest). rewrite <- app_assoc.
  rewrite model_header_round_trip; [|simpl; lia|simpl; rewrite len_app; lia].
  cbn. unfold len. by rewrite Nat2Z.id, take_app_length, drop_app_length.
Qed.

(** Integers of [n] bytes. *)
Definition model_uint (n : nat) : Codec.t Z := {|
  Codec.encode z := Codec.encode model_bytes (to_be_bytes n z);
  Codec.decode r :=
    '(b, r) ← Codec.decode model_bytes r;
    if decide (length b = n) then Some (from_be_bytes b, r) else None
|}.

Lemma model_uint_law n : Codec.lawful (model_uint n) (is_uint (Z.of_nat n * 8)).
Proof.
  intros z rest Hz Hl. cbn [model_uint Codec.encode Codec.decode] in *.
  rewrite model_bytes_law by done. cbn [mbind option_bind].
  rewrite decide_True by apply length_to_be_bytes. by rewrite from_to_be_bytes.
Qed.

(** Lists of lists of an empty type: only their length is information. *)
Definition model_calls : Codec.t (list (list Empty_set)) := {|
  Codec.encode l := Codec.encode model_bytes (zeros (length l));
  Codec.decode r := '(b, r) ← Codec.decode model_bytes r; Some (replicate (length b) [], r)
|}.

Lemma list_list_empty (l : list (list Empty_set)) : l = replicate (length l) [].
Proof. induction l as [|[|[]] l IH]; [done|]. simpl. by rewrite <- IH. Qed.

Lemma model_calls_law : Codec.lawful model_calls (fun _ => True).
Proof.
  intros l rest _ Hl. cbn [model_calls Codec.encode Codec.decode] in *.
  rewrite model_bytes_law by done. cbn [mbind option_bind].
  by rewrite length_zeros, <- list_list_empty.
Qed.

(** A type with one value, as the empty list. *)
Definition model_unit {A} (a : A) : Codec.t A := {|
  Codec.encode _ := [byte.of_Z 192];
  Codec.decode r := match r with [] => None | _ :: r => Some (a, r) end
|}.

Lemma model_unit_law {A} (a : A) : (forall b, b = a) -> Codec.lawful (model_unit a) (fun _ => True).
Proof. intros Ha b rest _ _. simpl. by rewrite (Ha b). Qed.

(** Structs: the fields one after the other, behind a list header. *)
Definition model_struct {A} (fields : A -> bytes) (read : bytes -> option (A * bytes)) : Codec.t A := {|
  Codec.encode a := model_header_encode (RlpHeader.mk true (len (fields a))) ++ fields a;
  Codec.decode r := '(h, r) ← model_header_decode r; if RlpHeader.list h then read r else None
|}.

Lemma model_struct_law {A} (fields : A -> bytes) read (P : A -> Prop) :
  (forall a rest, P a -> len (fields a) < 2 ^ 64 -> read (fields a ++ rest) = Some (a, rest)) ->
  Codec.lawful (model_struct fields read) P.
Proof.
  intros Hr a rest Ha Hl. cbn [model_struct Codec.encode Codec.decode] in *.
  rewrite len_app in Hl. pose_lens. pose proof (len_nonneg rest). rewrite <- app_assoc.
  rewrite model_header_round_trip; [|simpl; lia|simpl; rewrite len_app; lia].
  cbn [mbind option_bind RlpHeader.list]. apply Hr; [done|lia].
Qed.

Abbreviation u256 := (model_uint 32) (only parsing).
Abbreviation enc := Codec.encode (only parsing).
Abbreviation dec := Codec.decode (only parsing).

Definition model_access : Codec.t AccessList := model_unit (() : AccessList).
Definition model_auths : Codec.t (list SignedAuthorization) :=
  model_unit ([] : list SignedAuthorization).

Definition model_legacy : Codec.t SpanBatchLegacyTransactionData :=
  model_struct
    (fun d => enc u256 (ld_value d) ++ enc u256 (ld_gas_price d) ++ enc model_bytes (ld_data d))
    (fun r => '(v, r) ← dec u256 r; '(g, r) ← dec u256 r; '(b, r) ← dec model_bytes r;
              Some (mkLegacyData v g b, r)).

Definition model_eip2930 : Codec.t SpanBatchEip2930TransactionData :=
  model_struct
    (fun d => enc u256 (d2930_value d) ++ enc u256 (d2930_gas_price d)
              ++ enc model_bytes (d2930_data d) ++ enc model_access (d2930_access_list d))
    (fun r => '(v, r) ← dec u256 r; '(g, r) ← dec u256 r; '(b, r) ← dec model_bytes r;
              '(a, r) ← dec model_access r; Some (mkEip2930Data v g b a, r)).

Definition model_eip1559 : Codec.t SpanBatchEip1559TransactionData :=
  model_struct
    (fun d => enc u256 (d1559_value d) ++ enc u256 (d1559_max_priority_fee_per_gas d)
              ++ enc u256 (d1559_max_fee_per_gas d)
              ++ enc model_bytes (d1559_data d) ++ enc model_access (d1559_access_list d))
    (fun r => '(v, r) ← dec u256 r; '(p, r) ← dec u256 r; '(f, r) ← dec u256 r;
              '(b, r) ← dec model_bytes r;
              '(a, r) ← dec model_access r; Some (mkEip1559Data v p f b a, r)).

Definition model_eip7702 : Codec.t SpanBatchEip7702TransactionData :=
  model_struct
    (fun d => enc u256 (d7702_value d) ++ enc u256 (d7702_max_priority_fee_per_gas d)
              ++ enc u256 (d7702_max_fee_per_gas d)
              ++ enc model_bytes (d7702_data d) ++ enc model_access (d7702_access_list d)
              ++ enc model_auths (d7702_authorization_list d))
    (fun r => '(v, r) ← dec u256 r; '(p, r) ← dec u256 r; '(f, r) ← dec u256 r;
              '(b, r) ← dec model_bytes r; '(a, r) ← dec model_access r;
              '(l, r) ← dec model_auths r; Some (mkEip7702Data v p f b a l, r)).

#[export] Instance model_rlp : Rlp := {|
  header_encode := model_header_encode;
  header_decode := model_header_decode;
  header_length h := len (model_header_encode h);
  rlp_bytes := model_bytes;
  rlp_u256 := u256;
  rlp_u128 := model_uint 16;
  rlp_u64 := model_uint 8;
  rlp_account_changes := model_unit ([] : list AccountChange);
  rlp_calls := model_calls;
  rlp_legacy := model_legacy;
  rlp_eip2930 := model_eip2930;
  rlp_eip1559 := model_eip1559;
  rlp_eip7702 := model_eip7702
|}.

Lemma list_empty (l : list Empty_set) : l = [].
Proof. by destruct l as [|[]]. Qed.

Lemma model_list_law : Codec.lawful model_auths (fun _ => True).
Proof. apply model_unit_law, list_empty. Qed.

Lemma model_access_law : Codec.lawful model_access (fun _ => True).
Proof. apply model_unit_law. by intros []. Qed.

(** Reads the fields of a struct one by one. *)
Ltac read_fields :=
  repeat (first [ rewrite (model_uint_law 32) by (tauto || lia)
                | rewrite model_bytes_law by (done || lia)
                | rewrite model_access_law by (done || lia)
                | rewrite model_list_law by (done || lia) ];
          cbn [mbind option_bind]).

Lemma model_list_first n :
  0 <= n -> exists b tl, model_header_encode (RlpHeader.mk true n) = b :: tl /\ 192 <= byte.unsigned b.
Proof.
  intros Hn. unfold model_header_encode. cbn [RlpHeader.list RlpHeader.payload_length].
  destruct (decide (n <= 55)); eexists _, _; (split; [done|]); rewrite unsigned_of_Z by lia; lia.
Qed.

#[export] Instance model_rlp_laws : RlpLaws.
Proof.
  constructor.
  - exact model_header_round_trip.
  - done.
  - exact model_list_first.
  - intros b Hb. change (len (model_header_encode (RlpHeader.mk false (len b)) ++ b) = len b + 1).
    unfold model_header_encode. cbn [RlpHeader.list RlpHeader.payload_length].
    rewrite decide_True by lia. by rewrite len_app, Z.add_comm.
  - exact model_bytes_law.
  - exact (model_uint_law 32).
  - exact (model_uint_law 16).
  - exact (model_uint_law 8).
  - apply model_unit_law, list_empty.
  - exact model_calls_law.
  - apply model_struct_law. intros d rest Hd Hl. unfold wf_legacy in Hd. rewrite !len_app in Hl.
    pose_lens. rewrite <- !app_assoc. read_fields. by destruct d.
  - apply model_struct_law. intros d rest Hd Hl. unfold wf_eip2930 in Hd. rewrite !len_app in Hl.
    pose_lens. rewrite <- !app_assoc. read_fields. by destruct d.
  - apply model_struct_law. intros d rest Hd Hl. unfold wf_eip1559 in Hd. rewrite !len_app in Hl.
    pose_lens. rewrite <- !app_assoc. read_fields. by destruct d.
  - apply model_struct_law. intros d rest Hd Hl. unfold wf_eip7702 in Hd. rewrite !len_app in Hl.
    pose_lens. rewrite <- !app_assoc. read_fields. by destruct d.
  - intros d. by eexists.
  - intros d. by eexists.
  - intros d. by eexists.
  - intros d. by eexists.
Qed.

(** ** Envelopes

    A fixed-width codec for legacy and EIP-1559 transactions. *)

Definition get (n : nat) (r : bytes) : option (bytes * bytes) :=
  if decide (length r < n)%nat then None else Some (take n r, drop n r).

Definition get_uint (n : nat) (r : bytes) : option (Z * bytes) :=
  '(b, r) ← get n r; Some (from_be_bytes b, r).

Definition put_to (k : TxKind) : bytes :=
  match k with Create => [Byte.x00] | CallTo a => Byte.x01 :: a end.

Definition get_to (r : bytes) : option (TxKind * bytes) :=
  match r with
  | Byte.x00 :: r => Some (Create, r)
  | Byte.x01 :: r => '(a, r) ← get 20 r; Some (CallTo a, r)
  | _ => None
  end.

Definition put_chain (c : option Z) : bytes :=
  match c with None => [Byte.x00] | Some c => Byte.x01 :: to_be_bytes 8 c end.

Definition get_chain (r : bytes) : option (option Z * bytes) :=
  match r with
  | Byte.x00 :: r => Some (None, r)
  | Byte.x01 :: r => '(c, r) ← get_uint 8 r; Some (Some c, r)
  | _ => None
  end.

Definition put_sig (sig : Signature.t) : bytes :=
  to_be_bytes 32 (Signature.r sig) ++ to_be_bytes 32 (Signature.s sig) ++ [byte_of_bool (Signature.v sig)].

Definition get_sig (r : bytes) : option (Signature.t * bytes) :=
  '(x, r) ← get_uint 32 r;
  '(y, r) ← get_uint 32 r;
  '(v, r) ← get_uint 1 r;
  Some (Signature.mk x y (bool_decide (v = 1)), r).

#[export] Instance model_envelope : Envelope := {|
  encode_2718 e :=
    match e with
    | EnvLegacy tx sig =>
        Byte.xc0 :: put_chain (legacy_chain_id tx) ++ to_be_bytes 8 (legacy_nonce tx)
        ++ to_be_bytes 16 (legacy_gas_price tx) ++ to_be_bytes 8 (legacy_gas_limit tx)
        ++ put_to (legacy_to tx) ++ to_be_bytes 32 (legacy_value tx) ++ put_sig sig ++ legacy_input tx
    | EnvEip1559 tx sig =>
        Byte.x02 :: to_be_bytes 8 (e1559_chain_id tx) ++ to_be_bytes 8 (e1559_nonce tx)
        ++ to_be_bytes 16 (e1559_max_fee_per_gas tx) ++ to_be_bytes 16 (e1559_max_priority_fee_per_gas tx)
        ++ to_be_bytes 8 (e1559_gas_limit tx) ++ put_to (e1559_to tx)
        ++ to_be_bytes 32 (e1559_value tx) ++ put_sig sig ++ e1559_input tx
    | _ => []
    end;
  envelope_decode r :=
    match r with
    | Byte.xc0 :: r =>
        '(chain, r) ← get_chain r; '(nonce, r) ← get_uint 8 r; '(price, r) ← get_uint 16 r;
        '(gas, r) ← get_uint 8 r; '(to, r) ← get_to r; '(value, r) ← get_uint 32 r;
        '(sig, r) ← get_sig r;
        Some (EnvLegacy (mkTxLegacy chain nonce price gas to value r) sig)
    | Byte.x02 :: r =>
        '(chain, r) ← get_uint 8 r; '(nonce, r) ← get_uint 8 r; '(fee, r) ← get_uint 16 r;
        '(tip, r) ← get_uint 16 r; '(gas, r) ← get_uint 8 r; '(to, r) ← get_to r;
        '(value, r) ← get_uint 32 r; '(sig, r) ← get_sig r;
        Some (EnvEip1559 (mkTxEip1559 chain nonce fee tip gas to value r ()) sig)
    | _ => None
    end
|}.

(** A protected legacy transfer and an EIP-1559 contract creation. *)
Definition sample_legacy : BaseTxEnvelope :=
  EnvLegacy (mkTxLegacy (Some 8453) 7 1000 21000 (CallTo (zeros 20)) 5 [Byte.x01])
    (Signature.mk 11 12 true).

Definition sample_eip1559 : BaseTxEnvelope :=
  EnvEip1559 (mkTxEip1559 8453 8 2000 10 50000 Create 0 [Byte.x60; Byte.x00] ())
    (Signature.mk 13 14 false).
