(* ===== verification/SpanCodec.v ===== *)
(** * Span batches: building and wire format

    Models [src/crates/consensus/protocol/src/batch/] [element.rs],
    [prefix.rs], [payload.rs], [raw.rs] and the building half of [span.rs]:
    the batcher appends single batches to a [SpanBatch] and encodes it; the
    derivation decodes a [RawSpanBatch] and derives the span from it. *)

From S2P Require Import Prelude Primitives SingleBatches SpanBits SpanTxData SpanTxs.

Module SpanBatchElement.

Record t : Type := mk { epoch_num : Z; timestamp : Z; transactions : list bytes }.

(** [From<SingleBatch>]. *)
Definition from_single (b : SingleBatch.t) : t :=
  mk (SingleBatch.epoch_num b) (SingleBatch.timestamp b) (SingleBatch.transactions b).

End SpanBatchElement.

Module SpanBatchPrefix.

Record t : Type := mk {
  rel_timestamp : Z;
  l1_origin_num : Z;
  parent_check : bytes;
  l1_origin_check : bytes
}.

Section Operations.
Context `{Varint}.

Definition decode_rel_timestamp (r : bytes) : result SpanBatchError (Z * bytes) :=
  ok_or (Decoding RelativeTimestamp) (decode_u64 r).

Definition decode_l1_origin_num (r : bytes) : result SpanBatchError (Z * bytes) :=
  ok_or (Decoding L1OriginNumber) (decode_u64 r).

Definition decode_parent_check (r : bytes) : result SpanBatchError (bytes * bytes) :=
  if decide (len r < 20) then Err (Decoding ParentCheck) else Ok (take 20 r, drop 20 r).

Definition decode_l1_origin_check (r : bytes) : result SpanBatchError (bytes * bytes) :=
  if decide (len r < 20) then Err (Decoding L1OriginCheck) else Ok (take 20 r, drop 20 r).

Definition decode_prefix (r : bytes) : result SpanBatchError (t * bytes) :=
  '(rel_timestamp, r) ← decode_rel_timestamp r;
  '(l1_origin_num, r) ← decode_l1_origin_num r;
  '(parent_check, r) ← decode_parent_check r;
  '(l1_origin_check, r) ← decode_l1_origin_check r;
  Ok (mk rel_timestamp l1_origin_num parent_check l1_origin_check, r).

Definition encode_prefix (self : t) : bytes :=
  encode_u64 (rel_timestamp self) ++ encode_u64 (l1_origin_num self)
  ++ parent_check self ++ l1_origin_check self.

End Operations.

End SpanBatchPrefix.

Module SpanBatchPayload.

Record t : Type := mk {
  block_count : Z;
  origin_bits : SpanBatchBits.t;
  block_tx_counts : list Z;
  txs : SpanBatchTransactions.t
}.

Section Operations.
Context `{TxTypes} `{!Rlp} `{!Varint}.

Definition decode_block_count (r : bytes) : result SpanBatchError (Z * bytes) :=
  '(block_count, r) ← ok_or (Decoding BlockCount) (decode_u64 r);
  if decide (MAX_SPAN_BATCH_ELEMENTS < block_count) then Err TooBigSpanBatchSize else
  if decide (block_count = 0) then Err EmptySpanBatch else Ok (block_count, r).

Definition decode_origin_bits (block_count : Z) (r : bytes)
    : result SpanBatchError (SpanBatchBits.t * bytes) :=
  if decide (MAX_SPAN_BATCH_ELEMENTS < block_count) then Err TooBigSpanBatchSize
  else SpanBatchBits.decode r block_count.

Definition decode_block_tx_count (r : bytes) : result SpanBatchError (Z * bytes) :=
  '(block_tx_count, r) ← ok_or (Decoding BlockTxCounts) (decode_u64 r);
  if decide (MAX_SPAN_BATCH_ELEMENTS < block_tx_count) then Err TooBigSpanBatchSize
  else Ok (block_tx_count, r).

Definition decode_block_tx_counts (block_count : Z) (r : bytes)
    : result SpanBatchError (list Z * bytes) :=
  decode_many decode_block_tx_count (Z.to_nat block_count) r.

(** [try_fold(acc, |acc, n| acc.checked_add(n))]. *)
Fixpoint total_tx_count (acc : Z) (counts : list Z) : result SpanBatchError Z :=
  match counts with
  | [] => Ok acc
  | n :: counts =>
      acc ← ok_or TooBigSpanBatchSize (u64_checked_add acc n);
      total_tx_count acc counts
  end.

Definition decode_txs (block_tx_counts : list Z) (r : bytes)
    : result SpanBatchError (SpanBatchTransactions.t * bytes) :=
  match block_tx_counts with
  | [] => Err EmptySpanBatch
  | _ =>
      total ← total_tx_count 0 block_tx_counts;
      if decide (MAX_SPAN_BATCH_ELEMENTS < total) then Err TooBigSpanBatchSize else
      SpanBatchTransactions.decode
        (SpanBatchTransactions.mk total [] [] [] [] [] [] [] [] 0 []) r
  end.

Definition decode_payload (r : bytes) : result SpanBatchError (t * bytes) :=
  '(block_count, r) ← decode_block_count r;
  '(origin_bits, r) ← decode_origin_bits block_count r;
  '(block_tx_counts, r) ← decode_block_tx_counts block_count r;
  '(txs, r) ← decode_txs block_tx_counts r;
  Ok (mk block_count origin_bits block_tx_counts txs, r).

Definition encode_block_tx_counts (block_tx_counts : list Z) : bytes :=
  concat (map encode_u64 block_tx_counts).

Definition encode_payload (self : t) : result SpanBatchError bytes :=
  bits ← SpanBatchBits.encode (block_count self) (origin_bits self);
  txs ← SpanBatchTransactions.encode (txs self);
  Ok (encode_u64 (block_count self) ++ bits
      ++ encode_block_tx_counts (block_tx_counts self) ++ txs).

End Operations.

End SpanBatchPayload.

Module SpanBatch.

Record t : Type := mk {
  parent_check : bytes;
  l1_origin_check : bytes;
  genesis_timestamp : Z;
  chain_id : Z;
  batches : list SpanBatchElement.t;
  origin_bits : SpanBatchBits.t;
  block_tx_counts : list Z;
  txs : SpanBatchTransactions.t
}.

Definition default : t :=
  mk (zeros 20) (zeros 20) 0 0 [] [] [] SpanBatchTransactions.default.

(** [batches[0]], [batches[batches.len() - 1]] and [peek]; [None] panics. *)
Definition first (self : t) : option SpanBatchElement.t := index (batches self) 0.
Definition last (self : t) : option SpanBatchElement.t :=
  index (batches self) (len (batches self) - 1).
Definition peek (self : t) (n : Z) : option SpanBatchElement.t :=
  index (batches self) (len (batches self) - 1 - n).

Definition starting_timestamp (self : t) : option Z := SpanBatchElement.timestamp <$> first self.
Definition final_timestamp (self : t) : option Z := SpanBatchElement.timestamp <$> last self.
Definition starting_epoch_num (self : t) : option Z := SpanBatchElement.epoch_num <$> first self.

(** [hash[..20]]. *)
Definition check_of (hash : B256) : bytes := take 20 hash.

Definition check_origin_hash (self : t) (hash : B256) : bool :=
  bool_decide (l1_origin_check self = check_of hash).

Definition check_parent_hash (self : t) (hash : B256) : bool :=
  bool_decide (parent_check self = check_of hash).

Section Operations.
Context `{TxTypes} `{!Rlp} `{!Varint} `{!Envelope}.

(** [SpanBatch::encode]. *)
Definition encode (self : t) : result SpanBatchError bytes :=
  match batches self with
  | [] => Err EmptySpanBatch
  | span_start :: _ =>
      span_end ← or_panic (last self);
      let prefix := SpanBatchPrefix.mk
        (u64_sub (SpanBatchElement.timestamp span_start) (genesis_timestamp self))
        (SpanBatchElement.epoch_num span_end) (parent_check self) (l1_origin_check self) in
      let block_count := len (batches self) in
      bits ← SpanBatchBits.encode block_count (origin_bits self);
      txs ← SpanBatchTransactions.encode (txs self);
      Ok (SpanBatchPrefix.encode_prefix prefix ++ encode_u64 block_count ++ bits
          ++ SpanBatchPayload.encode_block_tx_counts (block_tx_counts self) ++ txs)
  end.

(** The [epoch_bit] of [append_singular_batch], once the batch is pushed:
    [prev] is the element before it. *)
Definition epoch_bit (prev : option SpanBatchElement.t) (b : SpanBatchElement.t) (seq_num : Z) : bool :=
  match prev with
  | None => bool_decide (seq_num = 0)
  | Some prev => bool_decide (SpanBatchElement.epoch_num prev < SpanBatchElement.epoch_num b)
  end.

(** [append_singular_batch]; it panics when the batch is not ordered. *)
Definition append_singular_batch (self : t) (singular_batch : SingleBatch.t) (seq_num : Z)
    : result SpanBatchError t :=
  let element := SpanBatchElement.from_single singular_batch in
  let prev := list.last (batches self) in
  let ordered := match prev with
                 | None => true
                 | Some p => bool_decide (SpanBatchElement.timestamp p <= SpanBatchElement.timestamp element)
                 end in
  if negb ordered then Panic else
  let batches' := batches self ++ [element] in
  let parent_check := if decide (len batches' = 1)
                      then check_of (SingleBatch.parent_hash singular_batch)
                      else parent_check self in
  let origin_bits := SpanBatchBits.set_bit (origin_bits self) (len batches' - 1)
                       (epoch_bit prev element seq_num) in
  let new_txs := SpanBatchElement.transactions element in
  txs ← SpanBatchTransactions.add_txs (txs self) new_txs (chain_id self);
  Ok (mk parent_check (check_of (SingleBatch.epoch_hash singular_batch)) (genesis_timestamp self)
         (chain_id self) batches' origin_bits (block_tx_counts self ++ [len new_txs]) txs).

End Operations.

End SpanBatch.

Module RawSpanBatch.

Record t : Type := mk { prefix : SpanBatchPrefix.t; payload : SpanBatchPayload.t }.

Section Operations.
Context `{TxTypes} `{!Rlp} `{!Varint} `{!Envelope}.

Definition encode (self : t) : result SpanBatchError bytes :=
  payload ← SpanBatchPayload.encode_payload (payload self);
  Ok (SpanBatchPrefix.encode_prefix (prefix self) ++ payload).

Definition decode (r : bytes) : result SpanBatchError (t * bytes) :=
  '(prefix, r) ← SpanBatchPrefix.decode_prefix r;
  '(payload, r) ← SpanBatchPayload.decode_payload r;
  Ok (mk prefix payload, r).

(** The loop of [derive] that walks the blocks backwards and gives each its L1
    origin number; [n] blocks are left, [acc] holds the later ones.  The
    subtraction wraps. *)
Fixpoint block_origin_nums (origin_bits : SpanBatchBits.t) (n : nat) (l1_origin_number : Z)
    (acc : list Z) : result SpanBatchError (list Z) :=
  match n with
  | O => Ok acc
  | S i =>
      bit ← ok_or (Decoding L1OriginCheck) (SpanBatchBits.get_bit origin_bits (Z.of_nat i));
      block_origin_nums origin_bits i
        (if decide (bit = 1 /\ 0 < Z.of_nat i) then u64_sub l1_origin_number 1 else l1_origin_number)
        (l1_origin_number :: acc)
  end.

(** The fold of [derive] over the blocks from index [i]: [tx_idx] is the next
    transaction.  Indexing past the end panics. *)
Fixpoint elements (enveloped_txs : list bytes) (base_time block_time i tx_idx : Z)
    (origins counts : list Z) : result SpanBatchError (list SpanBatchElement.t) :=
  match origins with
  | [] => Ok []
  | epoch_num :: origins =>
      match counts with
      | [] => Panic
      | count :: counts =>
          transactions ← or_panic (slice enveloped_txs tx_idx (tx_idx + count));
          rest ← elements enveloped_txs base_time block_time (i + 1) (tx_idx + count) origins counts;
          Ok (SpanBatchElement.mk epoch_num (u64_add base_time (u64_mul block_time i)) transactions
              :: rest)
      end
  end.

Definition derive (self : t) (block_time genesis_time chain_id : Z) : result SpanBatchError SpanBatch.t :=
  let payload := payload self in
  let prefix := prefix self in
  if decide (SpanBatchPayload.block_count payload = 0) then Err EmptySpanBatch else
  origins ← block_origin_nums (SpanBatchPayload.origin_bits payload)
              (Z.to_nat (SpanBatchPayload.block_count payload))
              (SpanBatchPrefix.l1_origin_num prefix) [];
  enveloped_txs ← SpanBatchTransactions.full_txs (SpanBatchPayload.txs payload) chain_id;
  batches ← elements enveloped_txs
              (u64_add genesis_time (SpanBatchPrefix.rel_timestamp prefix)) block_time 0 0
              origins (SpanBatchPayload.block_tx_counts payload);
  Ok (SpanBatch.mk (SpanBatchPrefix.parent_check prefix) (SpanBatchPrefix.l1_origin_check prefix)
        0 0 batches [] [] SpanBatchTransactions.default).

End Operations.

End RawSpanBatch.

(** ** Building a span *)

Section Build.
Context `{TxTypes} `{!Rlp} `{!Varint} `{!Envelope}.

(** A span under construction, and the batches appended to it with their
    sequence numbers. *)
Definition empty_span (genesis_timestamp chain_id : Z) : SpanBatch.t :=
  SpanBatch.mk (zeros 20) (zeros 20) genesis_timestamp chain_id [] [] []
    SpanBatchTransactions.default.

Fixpoint append_all (self : SpanBatch.t) (bs : list (SingleBatch.t * Z)) : result SpanBatchError SpanBatch.t :=
  match bs with
  | [] => Ok self
  | (b, seq) :: bs =>
      self ← SpanBatch.append_singular_batch self b seq;
      append_all self bs
  end.

Abbreviation element b := (SpanBatchElement.from_single (fst b)) (only parsing).

(** The origin bits of a list of batches. *)
Fixpoint origin_flags (prev : option SpanBatchElement.t) (bs : list (SingleBatch.t * Z)) : list bool :=
  match bs with
  | [] => []
  | b :: bs => SpanBatch.epoch_bit prev (element b) b.2 :: origin_flags (Some (element b)) bs
  end.

(** The parent check of the first batch, the origin check of the last. *)
Definition parent_check_of (bs : list (SingleBatch.t * Z)) : bytes :=
  match bs with
  | [] => zeros 20
  | (b, _) :: _ => SpanBatch.check_of (SingleBatch.parent_hash b)
  end.

Definition origin_check_of (bs : list (SingleBatch.t * Z)) : bytes :=
  match last bs with
  | None => zeros 20
  | Some (b, _) => SpanBatch.check_of (SingleBatch.epoch_hash b)
  end.

(** The span the batches [bs] make, with the columns of their transactions. *)
Definition span_of (genesis_timestamp chain_id : Z) (bs : list (SingleBatch.t * Z))
    (envs : list BaseTxEnvelope) (ds : list SpanBatchTransactionData) : SpanBatch.t :=
  SpanBatch.mk (parent_check_of bs) (origin_check_of bs) genesis_timestamp chain_id
    (map (fun b => element b) bs)
    (SpanBatchBits.of_bools (origin_flags None bs))
    (map (fun b => len (SingleBatch.transactions b.1)) bs)
    (SpanBatchTransactions.columns (len envs) envs ds).

Abbreviation txs_of bs := (concat (map (fun b => SingleBatch.transactions (fst b)) bs)) (only parsing).

Lemma origin_flags_snoc prev bs b :
  origin_flags prev (bs ++ [b]) =
  origin_flags prev bs ++
  [SpanBatch.epoch_bit (match last bs with Some p => Some (element p) | None => prev end) (element b) b.2].
Proof.
  revert prev. induction bs as [|c bs IH]; intros prev; [done|].
  cbn [app origin_flags]. rewrite IH. destruct bs as [|d bs]; [done|]. rewrite last_cons_cons.
  destruct (last (d :: bs)) eqn:E; [done|]. by apply last_None in E.
Qed.

Lemma len_origin_flags prev bs : len (origin_flags prev bs) = len bs.
Proof. revert prev. induction bs as [|b bs IH]; intros prev; [done|]. simpl. by rewrite !len_cons, IH. Qed.

Lemma map_last {A B} (f : A -> B) l : last (map f l) = f <$> last l.
Proof. apply fmap_last. Qed.

(** Appending a batch to the span of [bs]. *)
Lemma append_span_of genesis_timestamp chain_id bs envs ds b seq :
  len envs + len (SingleBatch.transactions b) <= u64_max -> length envs = length ds ->
  match SpanBatch.append_singular_batch (span_of genesis_timestamp chain_id bs envs ds) b seq with
  | Ok self => exists envs' ds',
      Forall2 (fun tx e => envelope_decode tx = Some e) (SingleBatch.transactions b) envs' /\
      Forall2 (SpanBatchTransactions.splits chain_id) envs' ds' /\
      self = span_of genesis_timestamp chain_id (bs ++ [(b, seq)]) (envs ++ envs') (ds ++ ds')
  | Err _ => True
  | Panic => exists p, last bs = Some p /\ SingleBatch.timestamp b < SingleBatch.timestamp p.1
  end.
Proof.
  intros Hl He. unfold SpanBatch.append_singular_batch.
  cbn [span_of SpanBatch.batches SpanBatch.txs SpanBatch.chain_id SpanBatch.origin_bits
       SpanBatch.parent_check SpanBatch.genesis_timestamp SpanBatch.block_tx_counts].
  rewrite map_last. set (ordered := match _ <$> last bs with Some p => _ | None => _ end).
  destruct ordered eqn:Ho; cbn [negb].
  2:{ unfold ordered in Ho. destruct (last bs) as [p|]; [|done]. exists p. split; [done|].
      simpl in Ho. apply bool_decide_eq_false in Ho. lia. }
  pose proof (SpanBatchTransactions.add_txs_spec (SingleBatch.transactions b) envs ds chain_id Hl He) as Ha.
  cbn [SpanBatchElement.from_single SpanBatchElement.transactions].
  destruct (SpanBatchTransactions.add_txs _ _ _) as [txs| |]; [|done|done].
  cbn [mbind result_bind]. destruct Ha as (envs' & ds' & Hf & Hs & ->).
  exists envs', ds'. split_and!; [done|done|]. unfold span_of.
  rewrite !map_app, len_app, SpanBatchTransactions.len_map. change (len [_]) with 1.
  replace (len bs + 1 - 1) with (len bs) by lia. f_equal.
  - destruct bs as [|[b0 s0] bs]; [done|]. rewrite decide_False by (rewrite len_cons; pose_lens; lia). done.
  - unfold origin_check_of. by rewrite last_snoc.
  - rewrite origin_flags_snoc, SpanBatchBits.of_bools_snoc, len_origin_flags. by destruct (last bs).
Qed.

Lemma append_all_spec genesis_timestamp chain_id bs bs0 envs ds self :
  len envs + len (txs_of bs) <= u64_max -> length envs = length ds ->
  append_all (span_of genesis_timestamp chain_id bs0 envs ds) bs = Ok self ->
  exists envs' ds',
    Forall2 (fun tx e => envelope_decode tx = Some e) (txs_of bs) envs' /\
    Forall2 (SpanBatchTransactions.splits chain_id) envs' ds' /\
    self = span_of genesis_timestamp chain_id (bs0 ++ bs) (envs ++ envs') (ds ++ ds').
Proof.
  revert bs0 envs ds. induction bs as [|[b seq] bs IH]; intros bs0 envs ds Hl He; cbn [append_all].
  { intros [= <-]. exists [], []. by rewrite !app_nil_r. }
  cbn [map concat fst] in Hl. rewrite len_app in Hl. intros Ha. pose_lens.
  apply bind_Ok in Ha as (self1 & Hone & Ha).
  pose proof (append_span_of genesis_timestamp chain_id bs0 envs ds b seq ltac:(lia) He) as Hs.
  rewrite Hone in Hs. destruct Hs as (envs1 & ds1 & Hf1 & Hs1 & ->).
  assert (length envs1 = length ds1) by (by eapply Forall2_length).
  assert (len envs1 = len (SingleBatch.transactions b)) as Hle
    by (unfold len; f_equal; symmetry; by eapply Forall2_length).
  apply IH in Ha as (envs2 & ds2 & Hf2 & Hs2 & ->);
    [|rewrite len_app; lia|rewrite !length_app; lia].
  exists (envs1 ++ envs2), (ds1 ++ ds2). rewrite <- !app_assoc. cbn [map concat fst app].
  split_and!; [by apply Forall2_app..|done].
Qed.

(** ** The round trip *)

(** Batches a span batch can represent: blocks [block_time] apart, L1 origins
    that stay or move by one, and the sizes the decoder accepts. *)
Record spannable (genesis_time block_time : Z) (bs : list (SingleBatch.t * Z)) : Prop := {
  span_blocks : 0 < len bs <= MAX_SPAN_BATCH_ELEMENTS;
  span_txs : len (txs_of bs) <= MAX_SPAN_BATCH_ELEMENTS;
  span_times : 0 <= genesis_time /\ 0 <= block_time /\ exists start, genesis_time <= start /\
    forall i b, bs !! i = Some b ->
      is_u64 (SingleBatch.timestamp b.1) /\
      SingleBatch.timestamp b.1 = start + block_time * Z.of_nat i;
  span_epochs : forall i a b, bs !! i = Some a -> bs !! S i = Some b ->
      SingleBatch.epoch_num b.1 = SingleBatch.epoch_num a.1 \/
      SingleBatch.epoch_num b.1 = SingleBatch.epoch_num a.1 + 1;
  span_ranges : Forall (fun b => is_u64 (SingleBatch.epoch_num b.1) /\
      len (SingleBatch.parent_hash b.1) = 32 /\ len (SingleBatch.epoch_hash b.1) = 32) bs
}.

Abbreviation epochs bs := (map (fun b => SingleBatch.epoch_num (fst b)) bs) (only parsing).

Lemma origin_flags_lookup bs i a b :
  bs !! i = Some a -> bs !! S i = Some b ->
  forall prev, origin_flags prev bs !! S i =
  Some (bool_decide (SingleBatch.epoch_num a.1 < SingleBatch.epoch_num b.1)).
Proof.
  revert bs. induction i as [|i IH]; intros bs Ha Hb prev.
  - destruct bs as [|a' [|b' bs]]; simpl in *; naive_solver.
  - destruct bs as [|c bs]; [done|]. by apply IH.
Qed.

(** Walking back from the last origin recovers every origin. *)
Lemma block_origin_nums_spec bs n b acc :
  (forall i a b, bs !! i = Some a -> bs !! S i = Some b ->
      SingleBatch.epoch_num b.1 = SingleBatch.epoch_num a.1 \/
      SingleBatch.epoch_num b.1 = SingleBatch.epoch_num a.1 + 1) ->
  Forall (fun b => is_u64 (SingleBatch.epoch_num b.1)) bs ->
  bs !! n = Some b ->
  RawSpanBatch.block_origin_nums (SpanBatchBits.of_bools (origin_flags None bs)) (S n)
    (SingleBatch.epoch_num b.1) acc = Ok (take (S n) (epochs bs) ++ acc).
Proof.
  intros He Hu. revert b acc. induction n as [|n IH]; intros b acc Hb.
  - destruct bs as [|b0 bs]; [done|]. injection Hb as ->. cbn [RawSpanBatch.block_origin_nums].
    erewrite (SpanBatchBits.get_bit_of_bools _ 0) by done. cbn [ok_or mbind result_bind].
    done.
  - destruct (lookup_lt_is_Some_2 bs n) as [a Ha]; [apply lookup_lt_Some in Hb; lia|].
    remember (S n) as m eqn:Em. cbn [RawSpanBatch.block_origin_nums]. subst m.
    rewrite (SpanBatchBits.get_bit_of_bools _ (S n) _ (origin_flags_lookup bs n a b Ha Hb None)).
    cbn [ok_or mbind result_bind].
    assert ((if decide (Z.b2z (bool_decide (SingleBatch.epoch_num a.1 < SingleBatch.epoch_num b.1)) = 1
                        /\ 0 < Z.of_nat (S n))
             then u64_sub (SingleBatch.epoch_num b.1) 1 else SingleBatch.epoch_num b.1)
            = SingleBatch.epoch_num a.1) as ->.
    { pose proof (Forall_lookup_1 _ _ _ _ Hu Ha) as Hua. pose proof (Forall_lookup_1 _ _ _ _ Hu Hb) as Hub.
      simpl in Hua, Hub. unfold u64_max in *. destruct (He n a b Ha Hb) as [E|E].
      - rewrite bool_decide_false by lia. rewrite decide_False by (simpl; lia). done.
      - rewrite bool_decide_true by lia. rewrite decide_True by (simpl; lia).
        unfold u64_sub. rewrite wrap_small; lia. }
    rewrite (IH a _ Ha). f_equal. rewrite (take_S_r (epochs bs) (S n) (SingleBatch.epoch_num b.1)).
    + by rewrite <- app_assoc.
    + by rewrite list_lookup_fmap, Hb.
Qed.

Lemma elements_spec base block_time (bs : list (SingleBatch.t * Z)) :
  0 <= base -> 0 <= block_time ->
  forall pre : list (SingleBatch.t * Z),
  (forall i b, bs !! i = Some b ->
     is_u64 (SingleBatch.timestamp b.1) /\
     SingleBatch.timestamp b.1 = base + block_time * (len pre + Z.of_nat i)) ->
  RawSpanBatch.elements (txs_of (pre ++ bs)) base block_time (len pre) (len (txs_of pre)) (epochs bs)
    (map (fun b => len (SingleBatch.transactions b.1)) bs) =
  Ok (map (fun b => element b) bs).
Proof.
  intros Hbase Hbt. induction bs as [|b bs IH]; intros pre Ht; [done|].
  cbn [map RawSpanBatch.elements].
  rewrite (slice_spec _ (txs_of pre) (SingleBatch.transactions b.1) (txs_of bs))
    by (done || (by rewrite map_app, concat_app)).
  cbn [or_panic mbind result_bind].
  specialize (IH (pre ++ [b])). rewrite <- app_assoc in IH. cbn [app] in IH.
  rewrite SpanBatchTransactions.len_concat_snoc, len_app in IH.
  change (len [b]) with 1 in IH. rewrite IH.
  2:{ intros i b' Hi. destruct (Ht (S i) b' Hi) as [Hu E]. split; [exact Hu|]. rewrite E. lia. }
  cbn [mbind result_bind]. destruct (Ht O b eq_refl) as [Hu Heq].
  unfold SpanBatchElement.from_single. do 3 f_equal. rewrite Heq in Hu |- *.
  unfold u64_add, u64_mul, u64_max in *. pose_lens. rewrite Z.add_0_r in *.
  rewrite (wrap_small 64 (block_time * len pre)) by nia. apply wrap_small. nia.
Qed.

Lemma total_tx_count_spec acc counts :
  0 <= acc -> Forall (fun n => 0 <= n) counts -> acc + sumZ id counts <= u64_max ->
  SpanBatchPayload.total_tx_count acc counts = Ok (acc + sumZ id counts).
Proof.
  intros Hacc Hc. revert acc Hacc. induction Hc as [|n counts Hn Hc IH]; intros acc Hacc Hs; simpl in *.
  { by rewrite Z.add_0_r. }
  assert (0 <= sumZ id counts) by (clear -Hc; induction Hc; simpl; unfold id in *; lia).
  unfold id in *. unfold u64_checked_add. rewrite decide_True by lia. cbn [ok_or mbind result_bind].
  rewrite IH by lia. f_equal. lia.
Qed.

Lemma sum_tx_counts (bs : list (SingleBatch.t * Z)) :
  sumZ id (map (fun b => len (SingleBatch.transactions b.1)) bs) = len (txs_of bs).
Proof. induction bs as [|b bs IH]; [done|]. cbn [map concat sumZ]. rewrite len_app, <- IH. done. Qed.

End Build.

Section RoundTrip.
Context `{TxTypes} `{!Rlp} `{!RlpLaws} `{!Varint} `{!VarintLaws} `{!Envelope}.

Abbreviation txs_of bs := (concat (map (fun b => SingleBatch.transactions (fst b)) bs)) (only parsing).

(** A transaction that is re-encoded to the same bytes, with fields in the
    range of their Rust types and parts below the limits of the decoder. *)
Definition canonical (tx : bytes) : Prop :=
  forall e d, envelope_decode tx = Some e -> data_try_from e = Ok d ->
    encode_2718 e = tx /\ SpanBatchTransactions.wf_shared e /\ SpanBatchTransactions.wf_body e /\
    SpanBatchTransactions.fits e d.

Lemma canonical_good chain_id txs envs ds :
  Forall canonical txs -> Forall2 (fun tx e => envelope_decode tx = Some e) txs envs ->
  Forall2 (SpanBatchTransactions.splits chain_id) envs ds ->
  Forall2 (SpanBatchTransactions.good chain_id) envs ds /\ map encode_2718 envs = txs.
Proof.
  intros Hc Hf. revert ds. induction Hf as [|tx e txs envs He Hf IH]; intros ds Hs.
  { apply Forall2_nil_inv_l in Hs as ->. by split. }
  apply Forall2_cons_inv_l in Hs as (d & ds' & Hd & Hs & ->).
  apply Forall_cons in Hc as [Hc1 Hc]. destruct (IH Hc ds' Hs) as [Hg Hm].
  destruct (Hc1 e d He (proj1 Hd)) as (Hen & Hw & Hb & Hfit). split.
  - constructor; [|done]. done.
  - simpl. by rewrite Hen, Hm.
Qed.

Lemma decode_prefix_encode p rest :
  is_u64 (SpanBatchPrefix.rel_timestamp p) -> is_u64 (SpanBatchPrefix.l1_origin_num p) ->
  len (SpanBatchPrefix.parent_check p) = 20 -> len (SpanBatchPrefix.l1_origin_check p) = 20 ->
  SpanBatchPrefix.decode_prefix (SpanBatchPrefix.encode_prefix p ++ rest) = Ok (p, rest).
Proof.
  intros Hr Hl Hp Ho. unfold SpanBatchPrefix.decode_prefix, SpanBatchPrefix.encode_prefix.
  unfold SpanBatchPrefix.decode_rel_timestamp, SpanBatchPrefix.decode_l1_origin_num.
  rewrite <- !app_assoc, decode_encode_u64 by done. cbn [ok_or mbind result_bind].
  rewrite decode_encode_u64 by done. cbn [ok_or mbind result_bind].
  unfold SpanBatchPrefix.decode_parent_check, SpanBatchPrefix.decode_l1_origin_check, len in *.
  rewrite decide_False by (rewrite !length_app; lia).
  rewrite take_app_length', drop_app_length' by lia. cbn [mbind result_bind].
  rewrite decide_False by (rewrite !length_app; lia).
  rewrite take_app_length', drop_app_length' by lia. by destruct p.
Qed.

Lemma decode_counts_encode counts rest :
  Forall (fun n => 0 <= n <= MAX_SPAN_BATCH_ELEMENTS) counts ->
  SpanBatchPayload.decode_block_tx_counts (len counts)
    (SpanBatchPayload.encode_block_tx_counts counts ++ rest) = Ok (counts, rest).
Proof.
  intros Hc. unfold SpanBatchPayload.decode_block_tx_counts.
  rewrite SpanBatchTransactions.to_nat_len. apply decode_many_concat.
  apply (Forall_impl _ _ _ Hc). unfold MAX_SPAN_BATCH_ELEMENTS. intros n Hn r.
  unfold SpanBatchPayload.decode_block_tx_count, MAX_SPAN_BATCH_ELEMENTS.
  rewrite decode_encode_u64 by (unfold u64_max; lia). cbn [ok_or mbind result_bind].
  by rewrite decide_False by lia.
Qed.

Lemma counts_bounds counts :
  Forall (fun n => 0 <= n) counts ->
  0 <= sumZ id counts /\ Forall (fun n => 0 <= n <= sumZ id counts) counts.
Proof.
  induction 1 as [|n counts Hn Hnn [IHs IH]]; [by split|]. simpl. unfold id in *. split; [lia|].
  constructor; [lia|]. apply (Forall_impl _ _ _ IH). lia.
Qed.

Lemma tx_counts_nonneg (bs : list (SingleBatch.t * Z)) :
  Forall (fun n => 0 <= n) (map (fun b => len (SingleBatch.transactions b.1)) bs).
Proof. apply SpanBatchTransactions.Forall_map_2, Forall_true. intros; apply len_nonneg. Qed.

(** The payload of the span of [bs] is recovered. *)
Lemma decode_payload_encode chain_id (bs : list (SingleBatch.t * Z)) envs ds bits rest :
  Forall2 (SpanBatchTransactions.good chain_id) envs ds ->
  len bits = len bs -> 0 < len bs <= MAX_SPAN_BATCH_ELEMENTS ->
  len (txs_of bs) = len envs -> len envs <= MAX_SPAN_BATCH_ELEMENTS ->
  let counts := map (fun b => len (SingleBatch.transactions b.1)) bs in
  SpanBatchPayload.decode_payload
    (encode_u64 (len bs) ++ SpanBatchBits.of_bools bits
     ++ SpanBatchPayload.encode_block_tx_counts counts
     ++ SpanBatchTransactions.wire envs ds ++ rest) =
  Ok (SpanBatchPayload.mk (len bs) (SpanBatchBits.of_bools bits) counts
        (SpanBatchTransactions.columns (len envs) envs ds), rest).
Proof.
  intros Hg Hbits Hbs Htxs Henvs counts.
  pose proof (counts_bounds counts (tx_counts_nonneg bs)) as [Hs Hc].
  assert (sumZ id counts = len envs) as Hsum by (unfold counts; by rewrite sum_tx_counts).
  assert (len counts = len bs) as Hlc by apply SpanBatchTransactions.len_map.
  assert (counts <> []) as Hne by (intros E; rewrite E, len_nil in Hlc; lia).
  pose proof (total_tx_count_spec 0 counts ltac:(done) (tx_counts_nonneg bs)) as Ht.
  clearbody counts. rewrite Hsum in *. unfold MAX_SPAN_BATCH_ELEMENTS, u64_max in *.
  unfold SpanBatchPayload.decode_payload, SpanBatchPayload.decode_block_count.
  rewrite decode_encode_u64 by (unfold u64_max; lia). cbn [ok_or mbind result_bind].
  unfold SpanBatchPayload.decode_origin_bits, MAX_SPAN_BATCH_ELEMENTS.
  rewrite !decide_False by lia. cbn [mbind result_bind]. rewrite decide_False by lia.
  rewrite <- Hbits at 1. rewrite SpanBatchBits.decode_of_bools. cbn [mbind result_bind].
  rewrite <- Hlc at 1. rewrite decode_counts_encode
    by (apply (Forall_impl _ _ _ Hc); unfold MAX_SPAN_BATCH_ELEMENTS; lia).
  cbn [mbind result_bind]. unfold SpanBatchPayload.decode_txs. destruct counts as [|n counts]; [done|].
  rewrite Ht by lia. cbn [mbind result_bind]. rewrite Z.add_0_l.
  unfold MAX_SPAN_BATCH_ELEMENTS. rewrite decide_False by lia.
  rewrite (SpanBatchTransactions.decode_columns chain_id) by done. done.
Qed.

(** What [SpanBatch::encode] writes for the span of [bs]. *)
Lemma encode_span_of genesis chain_id bs envs ds b0 bl :
  head bs = Some b0 -> last bs = Some bl ->
  SpanBatch.encode (span_of genesis chain_id bs envs ds) =
  Ok (SpanBatchPrefix.encode_prefix
        (SpanBatchPrefix.mk (u64_sub (SingleBatch.timestamp b0.1) genesis)
           (SingleBatch.epoch_num bl.1) (parent_check_of bs) (origin_check_of bs))
      ++ encode_u64 (len bs) ++ SpanBatchBits.of_bools (origin_flags None bs)
      ++ SpanBatchPayload.encode_block_tx_counts
           (map (fun b => len (SingleBatch.transactions b.1)) bs)
      ++ SpanBatchTransactions.wire envs ds).
Proof.
  intros Hhd Hl. unfold SpanBatch.encode. destruct bs as [|b bs]; [done|]. injection Hhd as ->.
  assert (SpanBatch.last (span_of genesis chain_id (b0 :: bs) envs ds)
          = Some (SpanBatchElement.from_single bl.1)) as Hlast.
  { unfold SpanBatch.last. apply last_Some in Hl as [l' Hl]. cbn [span_of SpanBatch.batches].
    rewrite Hl. apply (index_spec _ (map (fun b => SpanBatchElement.from_single b.1) l') []).
    - by rewrite map_app.
    - rewrite !SpanBatchTransactions.len_map, len_app. change (len [bl]) with 1. lia. }
  rewrite Hlast. cbn [span_of SpanBatch.batches map or_panic mbind result_bind SpanBatch.origin_bits
    SpanBatch.txs SpanBatch.genesis_timestamp SpanBatch.parent_check SpanBatch.l1_origin_check
    SpanBatch.block_tx_counts].
  replace (len (_ :: map _ bs)) with (len (origin_flags None (b0 :: bs)))
    by (rewrite len_origin_flags, !len_cons, SpanBatchTransactions.len_map; done).
  rewrite SpanBatchBits.encode_of_bools. cbn [mbind result_bind].
  rewrite SpanBatchTransactions.encode_columns. cbn [mbind result_bind].
  by rewrite len_origin_flags.
Qed.

Lemma len_check_of (h : B256) : len h = 32 -> len (SpanBatch.check_of h) = 20.
Proof. unfold SpanBatch.check_of, len. rewrite length_take. lia. Qed.

(** The reassembled transactions of the columns. *)
Lemma full_txs_columns chain_id envs ds :
  Forall2 (SpanBatchTransactions.good chain_id) envs ds ->
  SpanBatchTransactions.full_txs (SpanBatchTransactions.columns (len envs) envs ds) chain_id =
  Ok (map encode_2718 envs).
Proof.
  intros Hg. unfold SpanBatchTransactions.full_txs.
  cbn [SpanBatchTransactions.columns SpanBatchTransactions.total_block_tx_count].
  rewrite SpanBatchTransactions.to_nat_len.
  exact (SpanBatchTransactions.full_txs_from_columns (len envs) chain_id envs ds Hg [] [] eq_refl).
Qed.

(** Deriving the span from the decoded form. *)
Lemma derive_span_of genesis block_time chain_id start bs envs ds bl :
  0 <= genesis <= start -> 0 <= block_time -> 0 < len bs ->
  (forall i b, bs !! i = Some b ->
     is_u64 (SingleBatch.timestamp b.1) /\
     SingleBatch.timestamp b.1 = start + block_time * Z.of_nat i) ->
  (forall i a b, bs !! i = Some a -> bs !! S i = Some b ->
      SingleBatch.epoch_num b.1 = SingleBatch.epoch_num a.1 \/
      SingleBatch.epoch_num b.1 = SingleBatch.epoch_num a.1 + 1) ->
  Forall (fun b => is_u64 (SingleBatch.epoch_num b.1)) bs ->
  last bs = Some bl -> Forall2 (SpanBatchTransactions.good chain_id) envs ds ->
  map encode_2718 envs = txs_of bs -> is_u64 start ->
  RawSpanBatch.derive
    (RawSpanBatch.mk
       (SpanBatchPrefix.mk (start - genesis) (SingleBatch.epoch_num bl.1)
          (parent_check_of bs) (origin_check_of bs))
       (SpanBatchPayload.mk (len bs) (SpanBatchBits.of_bools (origin_flags None bs))
          (map (fun b => len (SingleBatch.transactions b.1)) bs)
          (SpanBatchTransactions.columns (len envs) envs ds)))
    block_time genesis chain_id =
  Ok (SpanBatch.mk (parent_check_of bs) (origin_check_of bs) 0 0
        (map (fun b => SpanBatchElement.from_single b.1) bs) [] [] SpanBatchTransactions.default).
Proof.
  intros Hg Hbt Hlen Htime Hep Hu Hlast Hgood Htxs Hst. unfold RawSpanBatch.derive.
  cbn [RawSpanBatch.payload RawSpanBatch.prefix SpanBatchPayload.block_count
       SpanBatchPayload.origin_bits SpanBatchPayload.txs SpanBatchPayload.block_tx_counts
       SpanBatchPrefix.l1_origin_num SpanBatchPrefix.rel_timestamp SpanBatchPrefix.parent_check
       SpanBatchPrefix.l1_origin_check].
  rewrite decide_False by lia. rewrite last_lookup in Hlast.
  rewrite SpanBatchTransactions.to_nat_len.
  destruct (length bs) as [|n] eqn:Hn; [unfold len in Hlen; lia|].
  rewrite (block_origin_nums_spec bs n bl [] Hep Hu Hlast). cbn [mbind result_bind].
  rewrite (full_txs_columns chain_id envs ds Hgood), Htxs. cbn [mbind result_bind].
  rewrite app_nil_r, take_ge by (rewrite length_map; lia).
  unfold u64_add, u64_max in *. rewrite (wrap_small 64 (genesis + _)) by lia.
  replace (genesis + (start - genesis)) with start by lia.
  change (RawSpanBatch.elements ?txs start block_time 0 0) with
    (RawSpanBatch.elements txs start block_time (len (@nil (SingleBatch.t * Z)))
       (len (txs_of (@nil (SingleBatch.t * Z))))).
  change (txs_of bs) with (txs_of ([] ++ bs)).
  rewrite (elements_spec start block_time bs ltac:(lia) Hbt []); [done|].
  exact Htime.
Qed.

(** C5: a span batch carries the batches it was built from.  For batches at
    the block time, with L1 origins that stay or move by one and canonical
    transactions, whatever [append_singular_batch] built is encoded without
    error; decoding the bytes, whatever follows them, and deriving the span
    gives every block back with its L1 origin number, its timestamp and its
    transactions, and the two hash checks. *)
Theorem span_batch_round_trip genesis block_time chain_id bs span rest :
  spannable genesis block_time bs -> Forall canonical (txs_of bs) ->
  append_all (empty_span genesis chain_id) bs = Ok span ->
  exists w raw, SpanBatch.encode span = Ok w /\
    RawSpanBatch.decode (w ++ rest) = Ok (raw, rest) /\
    RawSpanBatch.derive raw block_time genesis chain_id =
      Ok (SpanBatch.mk (parent_check_of bs) (origin_check_of bs) 0 0
            (map (fun b => SpanBatchElement.from_single b.1) bs) [] [] SpanBatchTransactions.default).
Proof.
  intros [Hbs Htx (Hg0 & Hbt & start & Hst & Htime) Hep Hrng] Hcan Ha.
  assert (len (txs_of bs) <= u64_max) as Hmax
    by (unfold MAX_SPAN_BATCH_ELEMENTS, u64_max in *; lia).
  apply (append_all_spec genesis chain_id bs [] [] []) in Ha
    as (envs & ds & Hf & Hs & ->); [|by rewrite len_nil|done]. cbn [app].
  destruct (canonical_good chain_id _ _ _ Hcan Hf Hs) as [Hgood Htxs].
  assert (len (txs_of bs) = len envs) as Hle by (unfold len; f_equal; by eapply Forall2_length).
  destruct (head bs) as [b0|] eqn:Hhd; [|destruct bs; [rewrite len_nil in Hbs; lia|done]].
  destruct (last bs) as [bl|] eqn:Hlast; [|apply last_None in Hlast as ->; by rewrite len_nil in Hbs].
  rewrite (encode_span_of genesis chain_id bs envs ds b0 bl Hhd Hlast).
  assert (bs !! 0%nat = Some b0) as Hb0 by (by rewrite <- head_lookup).
  destruct (Htime _ _ Hb0) as [Hut Ht0]. rewrite Z.mul_0_r, Z.add_0_r in Ht0. rewrite Ht0 in *.
  assert (u64_sub start genesis = start - genesis) as Hrel
    by (unfold u64_sub, u64_max in *; apply wrap_small; lia).
  rewrite Hrel.
  assert (Forall (fun b : SingleBatch.t * Z => is_u64 (SingleBatch.epoch_num b.1)) bs) as Hu
    by (apply (Forall_impl _ _ _ Hrng); tauto).
  pose proof (Forall_lookup_1 _ _ _ _ Hrng Hb0) as (_ & Hph & _).
  assert (bl ∈ bs) as Hbl by (apply last_Some in Hlast as [? ->]; set_solver).
  pose proof (proj1 (Forall_forall _ _) Hrng bl Hbl) as (Hue & _ & Heh).
  eexists _, _. split_and!; [done| |].
  - unfold RawSpanBatch.decode. rewrite <- !app_assoc, decode_prefix_encode.
    + cbn [mbind result_bind].
      rewrite (decode_payload_encode chain_id) by (done || (by rewrite len_origin_flags) || lia). done.
    + cbn. unfold u64_max in *. lia.
    + done.
    + cbn. destruct bs as [|[b1 s1] bs]; [done|]. injection Hhd as <-. by apply len_check_of.
    + cbn. unfold origin_check_of. rewrite Hlast. destruct bl. by apply len_check_of.
  - apply (derive_span_of genesis block_time chain_id start); done || lia.
Qed.

End RoundTrip.

(** ** Totality *)

Section Total.
Context `{TxTypes} `{!Rlp} `{!Varint} `{!VarintLaws} `{!Envelope}.

Lemma decode_prefix_no_panic r : SpanBatchPrefix.decode_prefix r <> Panic.
Proof.
  unfold SpanBatchPrefix.decode_prefix.
  apply bind_no_panic; [apply ok_or_no_panic|]. intros [ts r1] _.
  apply bind_no_panic; [apply ok_or_no_panic|]. intros [num r2] _.
  apply bind_no_panic; [unfold SpanBatchPrefix.decode_parent_check; case_decide; discriminate|].
  intros [parent r3] _.
  apply bind_no_panic; [unfold SpanBatchPrefix.decode_l1_origin_check; case_decide; discriminate|].
  by intros [origin r4] _.
Qed.

Lemma total_tx_count_Ok acc counts total :
  SpanBatchPayload.total_tx_count acc counts = Ok total -> total = acc + sumZ id counts.
Proof.
  revert acc. induction counts as [|n counts IH]; intros acc; cbn [SpanBatchPayload.total_tx_count sumZ].
  { intros [= <-]. lia. }
  unfold u64_checked_add. case_decide; [|done]. cbn [ok_or mbind result_bind]. intros ->%IH.
  unfold id. lia.
Qed.

Lemma total_tx_count_no_panic acc counts : SpanBatchPayload.total_tx_count acc counts <> Panic.
Proof.
  revert acc. induction counts as [|n counts IH]; intros acc; [discriminate|].
  cbn [SpanBatchPayload.total_tx_count]. apply bind_no_panic; [apply ok_or_no_panic|]. auto.
Qed.

Lemma decode_count_Ok r n rest :
  SpanBatchPayload.decode_block_tx_count r = Ok (n, rest) -> 0 <= n.
Proof.
  unfold SpanBatchPayload.decode_block_tx_count. intros Hd. apply bind_Ok in Hd as ([m r1] & Hm & Hd).
  destruct (decode_u64 r) as [[m' r']|] eqn:Hu; [|done]. injection Hm as -> ->.
  apply decode_u64_range in Hu. case_decide; [done|]. injection Hd as <- <-. lia.
Qed.

Lemma decode_many_Forall {E A} (f : bytes -> result E (A * bytes)) (P : A -> Prop) n r l rest :
  (forall r a rest, f r = Ok (a, rest) -> P a) -> decode_many f n r = Ok (l, rest) -> Forall P l.
Proof.
  intros Hf. revert r l. induction n as [|n IH]; intros r l; cbn [decode_many];
    [intros [= <- <-]; constructor|].
  intros Hd. apply bind_Ok in Hd as ([a r1] & Ha & Hd). apply bind_Ok in Hd as ([l' r2] & Hl & Hd).
  injection Hd as <- <-. constructor; [by eapply Hf|by eapply IH].
Qed.

Lemma decode_payload_no_panic r : SpanBatchPayload.decode_payload r <> Panic.
Proof.
  unfold SpanBatchPayload.decode_payload. apply bind_no_panic.
  { unfold SpanBatchPayload.decode_block_count. apply bind_no_panic; [apply ok_or_no_panic|].
    intros [n r1] _. repeat case_decide; discriminate. }
  intros [count r1] _. apply bind_no_panic.
  { unfold SpanBatchPayload.decode_origin_bits. case_decide; [discriminate|].
    apply SpanBatchBits.bits_decode_no_panic. }
  intros [bits r2] _. apply bind_no_panic.
  { apply decode_many_no_panic. intros r3. unfold SpanBatchPayload.decode_block_tx_count.
    apply bind_no_panic; [apply ok_or_no_panic|]. intros [n r4] _. case_decide; discriminate. }
  intros [counts r3] Hc. apply bind_no_panic; [|by intros [txs r4] _].
  unfold SpanBatchPayload.decode_txs. destruct counts as [|n counts]; [discriminate|].
  apply bind_no_panic; [apply total_tx_count_no_panic|]. intros total Ht.
  case_decide; [discriminate|]. apply SpanBatchTransactions.txs_decode_no_panic. simpl.
  apply total_tx_count_Ok in Ht. apply (decode_many_Forall _ _ _ _ _ _ decode_count_Ok) in Hc.
  apply counts_bounds in Hc. lia.
Qed.

(** The shape of a decoded payload. *)
Lemma decode_payload_Ok r p rest :
  SpanBatchPayload.decode_payload r = Ok (p, rest) ->
  0 <= SpanBatchPayload.block_count p /\
  length (SpanBatchPayload.block_tx_counts p) = Z.to_nat (SpanBatchPayload.block_count p) /\
  Forall (fun n => 0 <= n) (SpanBatchPayload.block_tx_counts p) /\
  exists r', SpanBatchTransactions.decode
    (SpanBatchTransactions.mk (sumZ id (SpanBatchPayload.block_tx_counts p)) [] [] [] [] [] [] [] [] 0 [])
    r' = Ok (SpanBatchPayload.txs p, rest).
Proof.
  unfold SpanBatchPayload.decode_payload. intros Hd.
  apply bind_Ok in Hd as ([count r1] & Hn & Hd). apply bind_Ok in Hd as ([bits r2] & _ & Hd).
  apply bind_Ok in Hd as ([counts r3] & Hc & Hd). apply bind_Ok in Hd as ([txs r4] & Ht & Hd).
  injection Hd as <- <-. cbn [SpanBatchPayload.block_count SpanBatchPayload.block_tx_counts SpanBatchPayload.txs].
  split_and!.
  - unfold SpanBatchPayload.decode_block_count in Hn. apply bind_Ok in Hn as ([n r5] & Hu & Hn).
    destruct (decode_u64 r) as [[n' r']|] eqn:Hd; [|done]. injection Hu as -> ->.
    apply decode_u64_range in Hd. repeat case_decide; try done. injection Hn as <- <-. lia.
  - by apply decode_many_length in Hc.
  - by apply (decode_many_Forall _ _ _ _ _ _ decode_count_Ok) in Hc.
  - exists r3. unfold SpanBatchPayload.decode_txs in Ht. destruct counts as [|n counts]; [done|].
    apply bind_Ok in Ht as (total & Htot & Ht). apply total_tx_count_Ok in Htot as ->.
    case_decide; [done|]. exact Ht.
Qed.

Lemma block_origin_nums_length bits n l1 acc l :
  RawSpanBatch.block_origin_nums bits n l1 acc = Ok l -> length l = (n + length acc)%nat.
Proof.
  revert l1 acc. induction n as [|n IH]; intros l1 acc; cbn [RawSpanBatch.block_origin_nums].
  { by intros [= <-]. }
  intros Hd. apply bind_Ok in Hd as (bit & _ & Hd). apply IH in Hd. simpl in Hd. lia.
Qed.

Lemma block_origin_nums_no_panic bits n l1 acc :
  RawSpanBatch.block_origin_nums bits n l1 acc <> Panic.
Proof.
  revert l1 acc. induction n as [|n IH]; intros l1 acc; [discriminate|].
  cbn [RawSpanBatch.block_origin_nums]. apply bind_no_panic; [apply ok_or_no_panic|]. auto.
Qed.

Lemma elements_no_panic txs base bt i tx_idx origins counts :
  Forall (fun n => 0 <= n) counts -> length counts = length origins ->
  0 <= tx_idx -> tx_idx + sumZ id counts <= len txs ->
  RawSpanBatch.elements txs base bt i tx_idx origins counts <> Panic.
Proof.
  intros Hc. revert i tx_idx origins.
  induction Hc as [|n counts Hn Hc IH]; intros i tx_idx [|o origins] Hl Hi Hs; try done.
  cbn [RawSpanBatch.elements sumZ] in *. pose proof (counts_bounds _ Hc) as [Hsum _]. unfold id in *.
  destruct (slice_in_range txs tx_idx (tx_idx + n)) as [s ->]; [lia|lia|].
  cbn [or_panic mbind result_bind]. apply bind_no_panic; [|by intros ? _].
  apply IH; simpl in *; lia.
Qed.

(** C30: decoding a span batch is total.  Whatever bytes a channel holds,
    [RawSpanBatch::decode] returns a value or an error, and so does [derive] on
    the value, for every chain configuration: no index is out of range and no
    loop fails to end. *)
Theorem span_batch_decode_total r :
  match RawSpanBatch.decode r with
  | Ok (raw, _) => forall block_time genesis_time chain_id,
      RawSpanBatch.derive raw block_time genesis_time chain_id <> Panic
  | Err _ => True
  | Panic => False
  end.
Proof.
  destruct (RawSpanBatch.decode r) as [[raw rest]| |] eqn:Hd; [|done|].
  - intros bt g chain_id. unfold RawSpanBatch.decode in Hd.
    apply bind_Ok in Hd as ([prefix r1] & _ & Hd). apply bind_Ok in Hd as ([payload r2] & Hp & Hd).
    injection Hd as <- <-. apply decode_payload_Ok in Hp as (Hn & Hl & Hc & r' & Ht).
    pose proof (counts_bounds _ Hc) as [Hsum _].
    apply (SpanBatchTransactions.full_txs_total _ _ _ _ chain_id) in Ht as [Hfp Hfl]; [|exact Hsum].
    unfold RawSpanBatch.derive. cbn [RawSpanBatch.payload RawSpanBatch.prefix].
    case_decide; [discriminate|]. apply bind_no_panic; [apply block_origin_nums_no_panic|].
    intros origins Ho. apply block_origin_nums_length in Ho. rewrite Nat.add_0_r in Ho.
    apply bind_no_panic; [done|]. intros txs Htxs. apply Hfl in Htxs. simpl in Htxs.
    apply bind_no_panic; [|by intros ? _]. apply elements_no_panic; [done|lia|lia|lia].
  - revert Hd. unfold RawSpanBatch.decode. apply bind_no_panic; [apply decode_prefix_no_panic|].
    intros [prefix r1] _. apply bind_no_panic; [apply decode_payload_no_panic|]. by intros [p r2] _.
Qed.

End Total.

From S2P Require Import CodecModels.

(** Two blocks, the second of which moves to the next L1 origin. *)
Definition sample_batches : list (SingleBatch.t * Z) :=
  [(SingleBatch.mk (zeros 32) 100 (zeros 32) 1002 [encode_2718 sample_legacy], 0);
   (SingleBatch.mk (zeros 32) 101 (zeros 32) 1004 [encode_2718 sample_eip1559], 0)].

Lemma sample_spannable : spannable 1000 2 sample_batches.
Proof.
  split.
  - split; vm_compute; [done|discriminate].
  - vm_compute. discriminate.
  - split; [lia|]. split; [lia|]. exists 1002. split; [lia|].
    intros [|[|i]] b Hb; [injection Hb as <-..|done]; cbn [fst SingleBatch.timestamp];
      unfold u64_max; lia.
  - intros [|i] a b Ha Hb; [|done]. injection Ha as <-. injection Hb as <-. right. done.
  - repeat apply Forall_cons_2; try apply Forall_nil_2;
      (split; [cbn [fst SingleBatch.epoch_num]; unfold u64_max; lia|done]).
Qed.

Lemma sample_canonical :
  Forall canonical (concat (map (fun b => SingleBatch.transactions b.1) sample_batches)).
Proof.
  repeat apply Forall_cons_2; try apply Forall_nil_2; intros e d He Hd.
  - assert (e = sample_legacy) as -> by (apply (inj Some); rewrite <- He; vm_compute; done).
    injection Hd as <-. split; [done|]. split; [vm_compute; repeat split; discriminate|].
    split; [vm_compute; repeat split; discriminate|]. split; [vm_compute; discriminate|constructor].
  - assert (e = sample_eip1559) as -> by (apply (inj Some); rewrite <- He; vm_compute; done).
    injection Hd as <-. split; [done|]. split; [vm_compute; repeat split; discriminate|].
    split; [vm_compute; repeat split; discriminate|]. split; [vm_compute; discriminate|constructor].
Qed.

Definition sample_span : SpanBatch.t :=
  match append_all (empty_span 1000 8453) sample_batches with
  | Ok span => span
  | _ => SpanBatch.default
  end.

Lemma span_batch_round_trip_witness :
  exists w raw, SpanBatch.encode sample_span = Ok w /\
    RawSpanBatch.decode (w ++ [Byte.xff]) = Ok (raw, [Byte.xff]) /\
    SpanBatch.batches <$> RawSpanBatch.derive raw 2 1000 8453 = Ok (SpanBatch.batches sample_span).
Proof.
  destruct (span_batch_round_trip 1000 2 8453 sample_batches sample_span [Byte.xff]
    sample_spannable sample_canonical) as (w & raw & He & Hd & Hr); [vm_compute; reflexivity|].
  exists w, raw. split; [exact He|]. split; [exact Hd|]. rewrite Hr. vm_compute. reflexivity.
Defined.

Lemma span_batch_decode_total_witness : RawSpanBatch.decode [Byte.x02; Byte.x07; Byte.xff] <> Panic.
Proof.
  pose proof (span_batch_decode_total [Byte.x02; Byte.x07; Byte.xff]) as H. intros E. by rewrite E in H.
Defined.
