(* ===== verification/SpanChecks.v ===== *)
(** * Span batches: validation

    Models the validating half of
    [src/crates/consensus/protocol/src/batch/span.rs] ([check_batch_prefix],
    [check_batch], [get_singular_batches]), the provider trait of
    [.../batch/traits.rs] and [L2BlockInfo::from_block_and_genesis] of
    [src/crates/consensus/protocol/src/block.rs]. *)

From S2P Require Import Prelude Primitives Upgrades Rollup L1Info SingleBatches SpanBits SpanCodec.

(** ** L2 blocks *)

(** What the code reads of a transaction of an L2 block: the input of a deposit
    ([as_deposit().input()]), the type byte and the EIP-2718 bytes. *)
Module BlockTx.

Record t : Type := mk { deposit_input : option bytes; tx_type : Z; encoded : bytes }.

Definition is_deposit (tx : t) : bool := bool_decide (is_Some (deposit_input tx)).

End BlockTx.

(** [BaseBlock]: the block reference its header gives ([BlockInfo::from]) and
    the transactions. *)
Module L2Block.

Record t : Type := mk { block_info : BlockInfo.t; transactions : list BlockTx.t }.

End L2Block.

Inductive FromBlockError : Type :=
| InvalidGenesisHash
| MissingL1InfoDeposit (hash : B256)
| FirstTxNonDeposit (ty : Z)
| BlockInfoDecodeError (e : DecodeError).

(** [L2BlockInfo::from_block_and_genesis]. *)
Definition from_block_and_genesis (block : L2Block.t) (genesis : ChainGenesis.t)
    : result FromBlockError L2BlockInfo.t :=
  let block_info := L2Block.block_info block in
  '(l1_origin, sequence_number) ←
    (if decide (BlockInfo.number block_info = BlockNumHash.number (ChainGenesis.l2 genesis)) then
       if decide (BlockInfo.hash block_info <> BlockNumHash.hash (ChainGenesis.l2 genesis))
       then Err InvalidGenesisHash
       else Ok (ChainGenesis.l1 genesis, 0)
     else
       match L2Block.transactions block with
       | [] => Err (MissingL1InfoDeposit (BlockInfo.hash block_info))
       | tx :: _ =>
           match BlockTx.deposit_input tx with
           | None => Err (FirstTxNonDeposit (BlockTx.tx_type tx))
           | Some input =>
               l1_info ← map_err BlockInfoDecodeError (decode_calldata input);
               Ok (info_id l1_info, sequence_number l1_info)
           end
       end);
  Ok (L2BlockInfo.mk block_info l1_origin sequence_number).

(** [BatchValidationProvider]: the answers of the L2 chain during one check;
    [None] is an error of the provider. *)
Class BatchValidationProvider := {
  l2_block_info_by_number : Z -> option L2BlockInfo.t;
  l2_block_info_by_hash : B256 -> option L2BlockInfo.t;
  block_by_number : Z -> option L2Block.t
}.

(** A check can panic (division by a zero block time, an index out of range)
    but has no error of its own. *)
Abbreviation checked A := (result Empty_set A) (only parsing).

Module SpanBatchChecks.

Section Checks.
Context `{RuntimeUpgradeRegistry} `{BatchValidationProvider}.

(** ** [check_batch_prefix] *)

(** The loop over [l1_origins] that looks for the last block's origin. *)
Fixpoint check_end_origin (self : SpanBatch.t) (end_epoch_num : Z) (l1_origins : list BlockInfo.t)
    : BatchValidity :=
  match l1_origins with
  | [] => Undecided
  | l1_block :: l1_origins =>
      if decide (BlockInfo.number l1_block = end_epoch_num) then
        if SpanBatch.check_origin_hash self (BlockInfo.hash l1_block) then Accept
        else Drop EpochHashMismatch
      else check_end_origin self end_epoch_num l1_origins
  end.

(** The parent block of the span: the safe head, or an earlier block when the
    span overlaps the safe chain.  [is_multiple_of(0)] holds of 0 only, and the
    division by a zero block time panics. *)
Definition find_parent (cfg : RollupConfig.t) (starting_timestamp next_timestamp : Z)
    (l2_safe_head : L2BlockInfo.t) : checked (BatchValidity + L2BlockInfo.t) :=
  let head := L2BlockInfo.block_info l2_safe_head in
  if decide (starting_timestamp < next_timestamp) then
    if decide (BlockInfo.timestamp head < starting_timestamp)
    then Ok (inl (Drop SpanBatchMisalignedTimestamp)) else
    let elapsed := u64_sub (BlockInfo.timestamp head) starting_timestamp in
    let block_time := RollupConfig.block_time cfg in
    if decide (block_time = 0) then
      if decide (elapsed = 0) then Panic else Ok (inl (Drop SpanBatchNotOverlappedExactly))
    else if decide (elapsed mod block_time <> 0) then Ok (inl (Drop SpanBatchNotOverlappedExactly))
    else
      let parent_num := u64_sub (u64_sub (BlockInfo.number head) (elapsed / block_time)) 1 in
      match l2_block_info_by_number parent_num with
      | Some block => Ok (inr block)
      | None => Ok (inl Undecided)
      end
  else Ok (inr l2_safe_head).

(** The checks from the parent hash on. *)
Definition check_on_parent (self : SpanBatch.t) (cfg : RollupConfig.t) (l1_origins : list BlockInfo.t)
    (inclusion_block : BlockInfo.t) (starting_epoch_num end_epoch_num : Z) (parent_block : L2BlockInfo.t)
    : BatchValidity :=
  let parent_origin := BlockNumHash.number (L2BlockInfo.l1_origin parent_block) in
  if negb (SpanBatch.check_parent_hash self (BlockInfo.hash (L2BlockInfo.block_info parent_block)))
  then Drop ParentHashMismatch
  else if decide (u64_add starting_epoch_num (RollupConfig.seq_window_size cfg)
                    < BlockInfo.number inclusion_block)
  then Drop IncludedTooLate
  else if decide (u64_add parent_origin 1 < starting_epoch_num)
  then Drop EpochTooFarInFuture
  else
    match check_end_origin self end_epoch_num l1_origins with
    | Accept => if decide (starting_epoch_num < parent_origin) then Drop EpochTooOld else Accept
    | v => v
    end.

(** [SpanBatch::check_batch_prefix]. *)
Definition check_batch_prefix (self : SpanBatch.t) (cfg : RollupConfig.t)
    (l1_origins : list BlockInfo.t) (l2_safe_head : L2BlockInfo.t) (inclusion_block : BlockInfo.t)
    : checked (BatchValidity * option L2BlockInfo.t) :=
  match l1_origins, SpanBatch.batches self with
  | [], _ | _, [] => Ok (Undecided, None)
  | epoch :: later, first :: _ =>
      let next := u64_add (BlockInfo.number (L2BlockInfo.block_info l2_safe_head)) 1 in
      let next_timestamp := RollupConfig.l2_block_timestamp cfg next in
      if RollupConfig.is_denim_active cfg next_timestamp then Ok (Drop SpanBatchPostDenim, None) else
      let starting_epoch_num := SpanBatchElement.epoch_num first in
      let starting_timestamp := SpanBatchElement.timestamp first in
      final ← or_panic (SpanBatch.last self);
      let advances := bool_decide (starting_epoch_num = u64_add (BlockInfo.number epoch) 1) in
      match (if advances then head later else Some epoch) with
      | None => Ok (Undecided, None)
      | Some batch_origin =>
          if negb (RollupConfig.is_delta_active cfg (BlockInfo.timestamp batch_origin))
          then Ok (Drop SpanBatchPreDelta, None) else
          let holocene := RollupConfig.is_holocene_active cfg (BlockInfo.timestamp inclusion_block) in
          if decide (next_timestamp < starting_timestamp)
          then Ok (if holocene then Drop FutureTimestampHolocene else Future, None) else
          if decide (SpanBatchElement.timestamp final < next_timestamp)
          then Ok (if holocene then Past else Drop SpanBatchNoNewBlocksPreHolocene, None) else
          parent ← find_parent cfg starting_timestamp next_timestamp l2_safe_head;
          match parent with
          | inl v => Ok (v, None)
          | inr parent_block =>
              match check_on_parent self cfg l1_origins inclusion_block starting_epoch_num
                      (SpanBatchElement.epoch_num final) parent_block with
              | Accept => Ok (Accept, Some parent_block)
              | v => Ok (v, None)
              end
          end
      end
  end.

(** ** [check_batch] *)

(** The outcome of one iteration of the loop over the blocks: a verdict, or the
    new [origin_index] and [origin_advanced]. *)
Inductive step : Set :=
| Return (v : BatchValidity)
| Continue (origin_index : Z) (origin_advanced : bool).

(** [l1_blocks[origin_index..].iter().enumerate().find(..)], with the index in
    [l1_blocks]. *)
Definition find_origin (l1_blocks : list BlockInfo.t) (origin_index epoch_num : Z)
    : option (Z * BlockInfo.t) :=
  '(offset, b) ← list_find (fun b => BlockInfo.number b = epoch_num)
                   (drop (Z.to_nat origin_index) l1_blocks);
  Some (origin_index + Z.of_nat offset, b).

(** The sequencer drift rule; [None] when it does not decide. *)
Definition check_drift (cfg : RollupConfig.t) (l1_blocks : list BlockInfo.t) (origin_index : Z)
    (l1_origin : BlockInfo.t) (origin_advanced : bool) (batch : SpanBatchElement.t)
    : option BatchValidity :=
  let max_drift := RollupConfig.max_sequencer_drift cfg (BlockInfo.timestamp l1_origin) in
  if decide (u64_add (BlockInfo.timestamp l1_origin) max_drift < SpanBatchElement.timestamp batch) then
    match SpanBatchElement.transactions batch with
    | [] =>
        if origin_advanced then None else
        match index l1_blocks (origin_index + 1) with
        | None => Some Undecided
        | Some next =>
            if decide (BlockInfo.timestamp next <= SpanBatchElement.timestamp batch)
            then Some (Drop SequencerDriftNotAdoptedNextOrigin) else None
        end
    | _ => Some (Drop SequencerDriftExceeded)
    end
  else None.

(** One iteration; [prev] is [batches[i - 1]] for [i > 0]. *)
Definition check_element (cfg : RollupConfig.t) (l1_blocks : list BlockInfo.t)
    (l2_safe_head : L2BlockInfo.t) (origin_index : Z) (origin_advanced : bool)
    (prev : option SpanBatchElement.t) (batch : SpanBatchElement.t) : step :=
  let batch_timestamp := SpanBatchElement.timestamp batch in
  let batch_epoch := SpanBatchElement.epoch_num batch in
  if decide (batch_timestamp <= BlockInfo.timestamp (L2BlockInfo.block_info l2_safe_head))
  then Continue origin_index origin_advanced else
  if decide (batch_epoch < BlockNumHash.number (L2BlockInfo.l1_origin l2_safe_head))
  then Return (Drop L1OriginBeforeSafeHead) else
  match find_origin l1_blocks origin_index batch_epoch with
  | None => Return (Drop MissingL1Origin)
  | Some (origin_index, l1_origin) =>
      let origin_advanced :=
        match prev with
        | None => origin_advanced
        | Some p => bool_decide (SpanBatchElement.epoch_num p < batch_epoch)
        end in
      if decide (batch_timestamp < BlockInfo.timestamp l1_origin)
      then Return (Drop TimestampBeforeL1Origin) else
      match check_drift cfg l1_blocks origin_index l1_origin origin_advanced batch with
      | Some v => Return v
      | None =>
          match check_transactions cfg batch_timestamp (SpanBatchElement.transactions batch) with
          | Some r => Return (Drop r)
          | None => Continue origin_index origin_advanced
          end
      end
  end.

Fixpoint check_elements (cfg : RollupConfig.t) (l1_blocks : list BlockInfo.t)
    (l2_safe_head : L2BlockInfo.t) (origin_index : Z) (origin_advanced : bool)
    (prev : option SpanBatchElement.t) (batches : list SpanBatchElement.t) : BatchValidity :=
  match batches with
  | [] => Accept
  | batch :: batches =>
      match check_element cfg l1_blocks l2_safe_head origin_index origin_advanced prev batch with
      | Return v => v
      | Continue origin_index origin_advanced =>
          check_elements cfg l1_blocks l2_safe_head origin_index origin_advanced (Some batch) batches
      end
  end.

(** One overlapped block against the safe chain: the deposits come first in the
    block and are not in the batch. *)
Definition check_overlapped (cfg : RollupConfig.t) (batch : SpanBatchElement.t) (safe_block : L2Block.t)
    : BatchValidity :=
  let txs := L2Block.transactions safe_block in
  let batch_txs := SpanBatchElement.transactions batch in
  let deposit_count := len (filter (fun tx => BlockTx.is_deposit tx = true) txs) in
  if decide (len txs - deposit_count <> len batch_txs) then Drop OverlappedTxCountMismatch else
  if decide (map BlockTx.encoded (drop (Z.to_nat deposit_count) txs) <> batch_txs)
  then Drop OverlappedTxMismatch else
  match from_block_and_genesis safe_block (RollupConfig.genesis cfg) with
  | Ok safe_block_ref =>
      if decide (BlockNumHash.number (L2BlockInfo.l1_origin safe_block_ref)
                 <> SpanBatchElement.epoch_num batch)
      then Drop OverlappedL1OriginMismatch else Accept
  | _ => Drop L2BlockInfoExtractionFailed
  end.

(** The loop over the overlapped blocks: [n] of them from index [i] of the
    span, on top of block [parent_num]. *)
Fixpoint check_overlap (cfg : RollupConfig.t) (batches : list SpanBatchElement.t) (parent_num : Z)
    (n : nat) (i : Z) : checked BatchValidity :=
  match n with
  | O => Ok Accept
  | S n =>
      match block_by_number (u64_add (u64_add parent_num i) 1) with
      | None => Ok Undecided
      | Some safe_block =>
          batch ← or_panic (index batches i);
          match check_overlapped cfg batch safe_block with
          | Accept => check_overlap cfg batches parent_num n (i + 1)
          | v => Ok v
          end
      end
  end.

(** [SpanBatch::check_batch]. *)
Definition check_batch (self : SpanBatch.t) (cfg : RollupConfig.t) (l1_blocks : list BlockInfo.t)
    (l2_safe_head : L2BlockInfo.t) (inclusion_block : BlockInfo.t) : checked BatchValidity :=
  '(prefix_validity, parent_block) ←
    check_batch_prefix self cfg l1_blocks l2_safe_head inclusion_block;
  if negb (is_accept prefix_validity) then Ok prefix_validity else
  starting_epoch_num ← or_panic (SpanBatch.starting_epoch_num self);
  starting_timestamp ← or_panic (SpanBatch.starting_timestamp self);
  parent_block ← or_panic parent_block;
  let origin_advanced := bool_decide
    (starting_epoch_num = u64_add (BlockNumHash.number (L2BlockInfo.l1_origin parent_block)) 1) in
  match check_elements cfg l1_blocks l2_safe_head 0 origin_advanced None (SpanBatch.batches self) with
  | Accept =>
      let head_num := BlockInfo.number (L2BlockInfo.block_info l2_safe_head) in
      let parent_num := BlockInfo.number (L2BlockInfo.block_info parent_block) in
      let next_timestamp := RollupConfig.l2_block_timestamp cfg (u64_saturating_add head_num 1) in
      if decide (starting_timestamp < next_timestamp)
      then check_overlap cfg (SpanBatch.batches self) parent_num
             (Z.to_nat (u64_sub head_num parent_num)) 0
      else Ok Accept
  | v => Ok v
  end.

(** ** [get_singular_batches] *)

Fixpoint singular_batches (l1_origins : list BlockInfo.t) (l2_safe_head : L2BlockInfo.t)
    (origin_index : Z) (batches : list SpanBatchElement.t) : result SpanBatchError (list SingleBatch.t) :=
  match batches with
  | [] => Ok []
  | batch :: batches =>
      if decide (SpanBatchElement.timestamp batch
                 <= BlockInfo.timestamp (L2BlockInfo.block_info l2_safe_head))
      then singular_batches l1_origins l2_safe_head origin_index batches else
      if decide (SpanBatchElement.epoch_num batch
                 < BlockNumHash.number (L2BlockInfo.l1_origin l2_safe_head))
      then Err ErrL1OriginBeforeSafeHead else
      '(origin_index, origin) ← ok_or ErrMissingL1Origin
         (find_origin l1_origins origin_index (SpanBatchElement.epoch_num batch));
      rest ← singular_batches l1_origins l2_safe_head origin_index batches;
      Ok (SingleBatch.mk B256_ZERO (SpanBatchElement.epoch_num batch) (BlockInfo.hash origin)
            (SpanBatchElement.timestamp batch) (SpanBatchElement.transactions batch) :: rest)
  end.

Definition get_singular_batches (self : SpanBatch.t) (l1_origins : list BlockInfo.t)
    (l2_safe_head : L2BlockInfo.t) : result SpanBatchError (list SingleBatch.t) :=
  singular_batches l1_origins l2_safe_head 0 (SpanBatch.batches self).

(** ** Specification *)

(** A block of the span that is new: after the safe head. *)
Definition is_new (l2_safe_head : L2BlockInfo.t) (batch : SpanBatchElement.t) : Prop :=
  BlockInfo.timestamp (L2BlockInfo.block_info l2_safe_head) < SpanBatchElement.timestamp batch.

#[global] Instance is_new_decision l2_safe_head batch : Decision (is_new l2_safe_head batch).
Proof. unfold is_new. apply _. Defined.

(** A new block is valid with the L1 block [origin]: the origin is not behind
    the safe head's, not in the block's future, and the block is within the
    sequencer drift, or is empty; its transactions are allowed. *)
Record valid_block (cfg : RollupConfig.t) (l1_blocks : list BlockInfo.t) (l2_safe_head : L2BlockInfo.t)
    (batch : SpanBatchElement.t) (origin : BlockInfo.t) : Prop := {
  vb_known : origin ∈ l1_blocks;
  vb_number : BlockInfo.number origin = SpanBatchElement.epoch_num batch;
  vb_not_before : BlockNumHash.number (L2BlockInfo.l1_origin l2_safe_head) <= SpanBatchElement.epoch_num batch;
  vb_time : BlockInfo.timestamp origin <= SpanBatchElement.timestamp batch;
  vb_drift : SpanBatchElement.transactions batch <> [] ->
    SpanBatchElement.timestamp batch
    <= u64_add (BlockInfo.timestamp origin)
         (RollupConfig.max_sequencer_drift cfg (BlockInfo.timestamp origin));
  vb_txs : Forall (tx_allowed cfg (SpanBatchElement.timestamp batch)) (SpanBatchElement.transactions batch)
}.

(** The overlapped block [safe_block] is the batch's block. *)
Record same_block (cfg : RollupConfig.t) (batch : SpanBatchElement.t) (safe_block : L2Block.t) : Prop := {
  sb_txs : exists deposits rest,
    L2Block.transactions safe_block = deposits ++ rest /\
    len deposits = len (filter (fun tx => BlockTx.is_deposit tx = true) (L2Block.transactions safe_block)) /\
    map BlockTx.encoded rest = SpanBatchElement.transactions batch;
  sb_origin : exists ref, from_block_and_genesis safe_block (RollupConfig.genesis cfg) = Ok ref /\
    BlockNumHash.number (L2BlockInfo.l1_origin ref) = SpanBatchElement.epoch_num batch
}.

(** What an accepting prefix check says of the span and its parent. *)
Record valid_prefix (self : SpanBatch.t) (cfg : RollupConfig.t) (l1_blocks : list BlockInfo.t)
    (l2_safe_head : L2BlockInfo.t) (inclusion_block : BlockInfo.t)
    (first final : SpanBatchElement.t) (parent : L2BlockInfo.t) : Prop := {
  vp_first : head (SpanBatch.batches self) = Some first;
  vp_final : SpanBatch.last self = Some final;
  vp_next :
    let next := RollupConfig.l2_block_timestamp cfg
                  (u64_add (BlockInfo.number (L2BlockInfo.block_info l2_safe_head)) 1) in
    RollupConfig.is_denim_active cfg next = false /\
    SpanBatchElement.timestamp first <= next <= SpanBatchElement.timestamp final /\
    find_parent cfg (SpanBatchElement.timestamp first) next l2_safe_head = Ok (inr parent);
  vp_parent : SpanBatch.parent_check self
              = SpanBatch.check_of (BlockInfo.hash (L2BlockInfo.block_info parent));
  vp_window : BlockInfo.number inclusion_block
              <= u64_add (SpanBatchElement.epoch_num first) (RollupConfig.seq_window_size cfg);
  vp_epoch : BlockNumHash.number (L2BlockInfo.l1_origin parent) <= SpanBatchElement.epoch_num first
             <= u64_add (BlockNumHash.number (L2BlockInfo.l1_origin parent)) 1;
  vp_origin : exists l1_block, l1_block ∈ l1_blocks /\
    BlockInfo.number l1_block = SpanBatchElement.epoch_num final /\
    SpanBatch.l1_origin_check self = SpanBatch.check_of (BlockInfo.hash l1_block)
}.

(** ** Lemmas *)

Lemma check_end_origin_Accept self n l1_origins :
  check_end_origin self n l1_origins = Accept ->
  exists b, b ∈ l1_origins /\ BlockInfo.number b = n /\
    SpanBatch.l1_origin_check self = SpanBatch.check_of (BlockInfo.hash b).
Proof.
  induction l1_origins as [|b l1_origins IH]; cbn [check_end_origin]; [done|].
  case_decide as Hn.
  - unfold SpanBatch.check_origin_hash. case_bool_decide as Hh; [|done]. intros _. exists b. set_solver.
  - intros (b' & ? & ? & ?)%IH. exists b'. set_solver.
Qed.

Lemma check_on_parent_Accept self cfg l1_origins inclusion_block first_epoch end_epoch parent :
  check_on_parent self cfg l1_origins inclusion_block first_epoch end_epoch parent = Accept ->
  SpanBatch.parent_check self = SpanBatch.check_of (BlockInfo.hash (L2BlockInfo.block_info parent)) /\
  BlockInfo.number inclusion_block <= u64_add first_epoch (RollupConfig.seq_window_size cfg) /\
  BlockNumHash.number (L2BlockInfo.l1_origin parent) <= first_epoch
    <= u64_add (BlockNumHash.number (L2BlockInfo.l1_origin parent)) 1 /\
  exists b, b ∈ l1_origins /\ BlockInfo.number b = end_epoch /\
    SpanBatch.l1_origin_check self = SpanBatch.check_of (BlockInfo.hash b).
Proof.
  unfold check_on_parent, SpanBatch.check_parent_hash.
  case_bool_decide; cbn [negb]; [|done]. case_decide; [done|]. case_decide; [done|].
  destruct (check_end_origin _ _ _) eqn:He; try done. case_decide; [done|]. intros _.
  apply check_end_origin_Accept in He. split_and!; [done|lia|lia|lia|done].
Qed.

Lemma find_parent_inl cfg start next l2_safe_head v :
  find_parent cfg start next l2_safe_head = Ok (inl v) -> v <> Accept.
Proof.
  unfold find_parent. repeat (case_decide; try (intros [= <-]; discriminate); try done).
  destruct (l2_block_info_by_number _); intros [= <-]; discriminate.
Qed.

Lemma check_batch_prefix_Accept self cfg l1_origins l2_safe_head inclusion_block parent :
  check_batch_prefix self cfg l1_origins l2_safe_head inclusion_block = Ok (Accept, parent) ->
  exists first final parent_block, parent = Some parent_block /\
    valid_prefix self cfg l1_origins l2_safe_head inclusion_block first final parent_block.
Proof.
  unfold check_batch_prefix. destruct l1_origins as [|epoch later]; [done|].
  destruct (SpanBatch.batches self) as [|first bs] eqn:Hb; [done|].
  set (next := RollupConfig.l2_block_timestamp _ _).
  destruct (RollupConfig.is_denim_active cfg next) eqn:Hden; [done|]. intros Hc.
  apply bind_Ok in Hc as (final & Hf & Hc). destruct (SpanBatch.last self) as [f|] eqn:Hl; [|done].
  injection Hf as ->.
  destruct (if bool_decide _ then head later else Some epoch) as [origin|]; [|done].
  destruct (negb _); [done|]. destruct (decide (next < _)); [by destruct (RollupConfig.is_holocene_active _ _)|].
  destruct (decide (_ < next)); [by destruct (RollupConfig.is_holocene_active _ _)|].
  apply bind_Ok in Hc as (p & Hp & Hc). destruct p as [v|parent_block].
  { injection Hc as Hv _. by apply find_parent_inl in Hp. }
  destruct (check_on_parent _ _ _ _ _ _ _) eqn:Ho; try done. injection Hc as <-.
  apply check_on_parent_Accept in Ho as (? & ? & ? & ?).
  exists first, final, parent_block. split; [done|]. constructor; try done; [by rewrite Hb|].
  cbn zeta. fold next. split_and!; [done|lia|lia|done].
Qed.

(** A block the loop passes. *)
Lemma check_drift_None cfg l1_blocks i origin adv batch :
  check_drift cfg l1_blocks i origin adv batch = None ->
  SpanBatchElement.transactions batch <> [] ->
  SpanBatchElement.timestamp batch
  <= u64_add (BlockInfo.timestamp origin)
       (RollupConfig.max_sequencer_drift cfg (BlockInfo.timestamp origin)).
Proof.
  unfold check_drift. case_decide; [|intros; lia].
  destruct (SpanBatchElement.transactions batch); done.
Qed.

Lemma find_origin_Some l1_blocks i n j b :
  find_origin l1_blocks i n = Some (j, b) -> b ∈ l1_blocks /\ BlockInfo.number b = n.
Proof.
  unfold find_origin. intros Hf. apply bind_Some in Hf as ([o b'] & Hf & [= <- <-]).
  apply list_find_Some in Hf as (Hb & Hn & _). split; [|done].
  apply list_elem_of_lookup_2 in Hb. rewrite <- (take_drop (Z.to_nat i) l1_blocks). set_solver.
Qed.

Lemma check_element_Continue cfg l1_blocks l2_safe_head i adv prev batch j adv' :
  check_element cfg l1_blocks l2_safe_head i adv prev batch = Continue j adv' ->
  if decide (is_new l2_safe_head batch)
  then exists origin, find_origin l1_blocks i (SpanBatchElement.epoch_num batch) = Some (j, origin) /\
         valid_block cfg l1_blocks l2_safe_head batch origin
  else j = i.
Proof.
  unfold check_element, is_new. cbv zeta.
  destruct (decide (SpanBatchElement.timestamp batch <= _)) as [Hold|Hold].
  { rewrite (decide_False (P := _ < SpanBatchElement.timestamp batch)) by lia. by intros [= -> _]. }
  rewrite (decide_True (P := _ < SpanBatchElement.timestamp batch)) by lia. case_decide; [done|].
  destruct (find_origin _ _ _) as [[k origin]|] eqn:Hf; [|done]. case_decide; [done|].
  destruct (check_drift _ _ _ _ _ _) eqn:Hd; [done|].
  destruct (check_transactions _ _ _) eqn:Ht; [done|]. intros [= <- _].
  exists origin. split; [done|]. apply find_origin_Some in Hf as [Hin Hn].
  constructor; try done; [lia|lia|by eapply check_drift_None|by apply check_transactions_None].
Qed.

Lemma check_element_Return cfg l1_blocks l2_safe_head i adv prev batch v :
  check_element cfg l1_blocks l2_safe_head i adv prev batch = Return v -> v <> Accept.
Proof.
  unfold check_element, check_drift. case_decide; [done|]. case_decide; [by intros [= <-]|].
  destruct (find_origin _ _ _) as [[k origin]|]; [|by intros [= <-]].
  case_decide; [by intros [= <-]|].
  assert (forall b, match check_transactions cfg (SpanBatchElement.timestamp batch)
            (SpanBatchElement.transactions batch) with
          | Some r => Return (Drop r) | None => Continue k b end = Return v -> v <> Accept) as Ht
    by (intros b'; destruct (check_transactions _ _ _); [by intros [= <-]|done]).
  destruct (decide (u64_add _ _ < _)); [|apply Ht].
  destruct (SpanBatchElement.transactions batch) as [|tx txs]; [|by intros [= <-]].
  destruct (match prev with Some _ => _ | None => _ end); [apply Ht|].
  destruct (index _ _); [|by intros [= <-]]. destruct (decide _); [by intros [= <-]|apply Ht].
Qed.

(** The single batches of a span whose blocks all passed. *)
Definition singular_of (batch : SpanBatchElement.t) (origin : BlockInfo.t) : SingleBatch.t :=
  SingleBatch.mk B256_ZERO (SpanBatchElement.epoch_num batch) (BlockInfo.hash origin)
    (SpanBatchElement.timestamp batch) (SpanBatchElement.transactions batch).

Lemma check_elements_Accept cfg l1_blocks l2_safe_head i adv prev batches :
  check_elements cfg l1_blocks l2_safe_head i adv prev batches = Accept ->
  exists origins,
    Forall2 (valid_block cfg l1_blocks l2_safe_head) (filter (is_new l2_safe_head) batches) origins /\
    singular_batches l1_blocks l2_safe_head i batches =
      Ok (zip_with singular_of (filter (is_new l2_safe_head) batches) origins).
Proof.
  revert i adv prev. induction batches as [|batch batches IH]; intros i adv prev;
    cbn [check_elements singular_batches]; [by exists []|].
  destruct (check_element _ _ _ _ _ _ _) as [v|j adv'] eqn:Hc.
  { intros ->. by apply check_element_Return in Hc. }
  intros (origins & Hv & Hs)%IH. apply check_element_Continue in Hc.
  rewrite filter_cons. destruct (decide (is_new l2_safe_head batch)) as [Hn|Hn].
  - destruct Hc as (origin & Hf & Hb). exists (origin :: origins). split; [by constructor|].
    unfold is_new in Hn. rewrite decide_False by lia.
    rewrite decide_False by (destruct Hb; lia). rewrite Hf. cbn [ok_or mbind result_bind].
    rewrite Hs. done.
  - subst j. exists origins. split; [done|]. unfold is_new in Hn. by rewrite decide_True by lia.
Qed.

(** The overlapped blocks of a span that passed. *)
Lemma check_overlapped_Accept cfg batch safe_block :
  check_overlapped cfg batch safe_block = Accept -> same_block cfg batch safe_block.
Proof.
  unfold check_overlapped. set (n := len (filter _ _)). case_decide as Hl; [done|].
  case_decide as Ht; [done|].
  destruct (from_block_and_genesis _ _) as [ref| |] eqn:Hr; [|done|done]. case_decide as Ho; [done|].
  intros _. constructor; [|by exists ref].
  exists (take (Z.to_nat n) (L2Block.transactions safe_block)), (drop (Z.to_nat n) (L2Block.transactions safe_block)).
  rewrite take_drop. split_and!; [done| |done].
  pose proof (length_filter (fun tx => BlockTx.is_deposit tx = true) (L2Block.transactions safe_block)).
  fold n. unfold n, len in *. rewrite length_take. lia.
Qed.

Lemma check_overlap_Accept cfg batches parent_num n i :
  check_overlap cfg batches parent_num n i = Ok Accept ->
  forall k, i <= k < i + Z.of_nat n -> exists batch safe_block,
    index batches k = Some batch /\
    block_by_number (u64_add (u64_add parent_num k) 1) = Some safe_block /\
    same_block cfg batch safe_block.
Proof.
  revert i. induction n as [|n IH]; intros i Hc k Hk; [lia|]. cbn [check_overlap] in Hc.
  destruct (block_by_number _) as [safe_block|] eqn:Hb; [|done].
  apply bind_Ok in Hc as (batch & Hi & Hc). destruct (index batches i) as [b|] eqn:Hib; [|done].
  injection Hi as ->. destruct (check_overlapped _ _ _) eqn:Ho; try done.
  destruct (decide (k = i)) as [->|]; [|apply (IH (i + 1)); [done|lia]].
  exists batch, safe_block. by apply check_overlapped_Accept in Ho.
Qed.

Lemma span_check_batch_Accept self cfg l1_blocks l2_safe_head inclusion_block :
  check_batch self cfg l1_blocks l2_safe_head inclusion_block = Ok Accept ->
  exists first final parent adv,
    valid_prefix self cfg l1_blocks l2_safe_head inclusion_block first final parent /\
    check_elements cfg l1_blocks l2_safe_head 0 adv None (SpanBatch.batches self) = Accept /\
    (SpanBatchElement.timestamp first
       < RollupConfig.l2_block_timestamp cfg
           (u64_saturating_add (BlockInfo.number (L2BlockInfo.block_info l2_safe_head)) 1) ->
     check_overlap cfg (SpanBatch.batches self) (BlockInfo.number (L2BlockInfo.block_info parent))
       (Z.to_nat (u64_sub (BlockInfo.number (L2BlockInfo.block_info l2_safe_head))
                    (BlockInfo.number (L2BlockInfo.block_info parent)))) 0 = Ok Accept).
Proof.
  unfold check_batch. intros Hc. apply bind_Ok in Hc as ([v p] & Hp & Hc).
  destruct v; cbn [is_accept negb] in Hc; try done.
  destruct (check_batch_prefix_Accept _ _ _ _ _ _ Hp) as (first & final & parent & -> & Hv).
  apply bind_Ok in Hc as (e & _ & Hc). apply bind_Ok in Hc as (ts & Hts & Hc).
  cbn [or_panic mbind result_bind] in Hc.
  destruct (check_elements _ _ _ _ _ _ _) eqn:He in Hc; try done.
  exists first, final, parent, (bool_decide (e = u64_add (BlockNumHash.number (L2BlockInfo.l1_origin parent)) 1)).
  split_and!; [done|done|]. intros Hlt.
  assert (ts = SpanBatchElement.timestamp first) as ->.
  { pose proof (vp_first _ _ _ _ _ _ _ _ Hv) as Hf. unfold SpanBatch.starting_timestamp, SpanBatch.first in Hts.
    destruct (SpanBatch.batches self); [done|]. injection Hf as ->. by injection Hts as <-. }
  by rewrite decide_True in Hc.
Qed.

(** C8: an accepted span batch extends the safe chain.  It starts no later than
    the next block, ends with a new block, builds on its parent (20 bytes of
    the hash), was included in the sequencing window and ends on a known L1
    origin; every new block has a known L1 origin that is not behind the safe
    head's nor in the block's future, is within the sequencer drift unless it
    is empty, and carries only allowed transactions; and the blocks that
    overlap the safe chain have the same transactions and L1 origin there. *)
Theorem accepted_span_sound self cfg l1_blocks l2_safe_head inclusion_block :
  check_batch self cfg l1_blocks l2_safe_head inclusion_block = Ok Accept ->
  exists first final parent,
    valid_prefix self cfg l1_blocks l2_safe_head inclusion_block first final parent /\
    (forall batch, batch ∈ SpanBatch.batches self -> is_new l2_safe_head batch ->
       exists origin, valid_block cfg l1_blocks l2_safe_head batch origin) /\
    (let head_num := BlockInfo.number (L2BlockInfo.block_info l2_safe_head) in
     let parent_num := BlockInfo.number (L2BlockInfo.block_info parent) in
     SpanBatchElement.timestamp first
       < RollupConfig.l2_block_timestamp cfg (u64_saturating_add head_num 1) ->
     forall k, 0 <= k < u64_sub head_num parent_num ->
       exists batch safe_block, index (SpanBatch.batches self) k = Some batch /\
         block_by_number (u64_add (u64_add parent_num k) 1) = Some safe_block /\
         same_block cfg batch safe_block).
Proof.
  intros (first & final & parent & adv & Hv & He & Ho)%span_check_batch_Accept.
  exists first, final, parent. split_and!; [done| |].
  - intros batch Hb Hn. apply check_elements_Accept in He as (origins & Hf & _).
    pose proof (proj2 (list_elem_of_filter (is_new l2_safe_head) _ batch) (conj Hn Hb)) as Hin.
    apply list_elem_of_lookup in Hin as [j Hj].
    destruct (Forall2_lookup_l _ _ _ _ _ Hf Hj) as (origin & _ & Hvb). by exists origin.
  - intros head_num parent_num Hlt k Hk.
    apply (check_overlap_Accept _ _ _ _ _ (Ho Hlt)). unfold head_num, parent_num in Hk. lia.
Qed.

(** An accepted span batch always splits.  With the L1 blocks it was
    accepted on, [get_singular_batches] succeeds and returns one single batch
    for every block after the safe head, in order, with the block's timestamp
    and transactions and the hash of an L1 block that has the block's origin
    number. *)
Theorem accepted_span_splits self cfg l1_blocks l2_safe_head inclusion_block :
  check_batch self cfg l1_blocks l2_safe_head inclusion_block = Ok Accept ->
  exists origins,
    Forall2 (fun batch origin => origin ∈ l1_blocks /\
               BlockInfo.number origin = SpanBatchElement.epoch_num batch)
      (filter (is_new l2_safe_head) (SpanBatch.batches self)) origins /\
    get_singular_batches self l1_blocks l2_safe_head =
      Ok (zip_with singular_of (filter (is_new l2_safe_head) (SpanBatch.batches self)) origins).
Proof.
  intros (first & final & parent & adv & _ & He & _)%span_check_batch_Accept.
  apply check_elements_Accept in He as (origins & Hf & Hs). exists origins. split; [|done].
  apply (Forall2_impl _ _ _ _ Hf). by intros batch origin [].
Qed.

(** ** Totality *)

Lemma check_overlap_no_panic cfg batches parent_num n i :
  0 <= i -> i + Z.of_nat n <= len batches -> check_overlap cfg batches parent_num n i <> Panic.
Proof.
  revert i. induction n as [|n IH]; intros i Hi Hn; [discriminate|]. cbn [check_overlap].
  destruct (block_by_number _); [|discriminate].
  destruct (index_in_range batches i ltac:(lia)) as [batch ->]. cbn [or_panic mbind result_bind].
  destruct (check_overlapped _ _ _); try discriminate. apply IH; lia.
Qed.

Lemma find_parent_no_panic cfg start next l2_safe_head :
  RollupConfig.block_time cfg <> 0 -> find_parent cfg start next l2_safe_head <> Panic.
Proof.
  intros Hbt. unfold find_parent. repeat case_decide; try discriminate; try done.
  destruct (l2_block_info_by_number _); discriminate.
Qed.

Lemma check_batch_prefix_no_panic self cfg l1_origins l2_safe_head inclusion_block :
  RollupConfig.block_time cfg <> 0 ->
  check_batch_prefix self cfg l1_origins l2_safe_head inclusion_block <> Panic.
Proof.
  intros Hbt. unfold check_batch_prefix. destruct l1_origins as [|epoch later]; [discriminate|].
  destruct (SpanBatch.batches self) as [|first bs] eqn:Hb; [discriminate|].
  destruct (RollupConfig.is_denim_active _ _); [discriminate|].
  assert (is_Some (SpanBatch.last self)) as [final Hl].
  { unfold SpanBatch.last. apply index_in_range. rewrite Hb, len_cons. pose_lens. lia. }
  rewrite Hl. cbn [or_panic mbind result_bind].
  destruct (if bool_decide _ then _ else _); [|discriminate]. destruct (negb _); [discriminate|].
  case_decide; [discriminate|]. case_decide; [discriminate|].
  apply bind_no_panic; [by apply find_parent_no_panic|]. intros [v|parent] _; [discriminate|].
  destruct (check_on_parent _ _ _ _ _ _ _); discriminate.
Qed.

(** The parent of an overlapping span lies as many blocks before the head as
    blocks overlap, also where the block number wraps. *)
Lemma find_parent_overlap cfg start next l2_safe_head parent :
  (forall n b, l2_block_info_by_number n = Some b -> BlockInfo.number (L2BlockInfo.block_info b) = n) ->
  is_u64 (BlockInfo.number (L2BlockInfo.block_info l2_safe_head)) ->
  is_u64 (BlockInfo.timestamp (L2BlockInfo.block_info l2_safe_head)) -> is_u64 start ->
  0 < RollupConfig.block_time cfg ->
  find_parent cfg start next l2_safe_head = Ok (inr parent) -> start < next ->
  let head := L2BlockInfo.block_info l2_safe_head in
  exists k, 0 <= k /\ BlockInfo.timestamp head = start + RollupConfig.block_time cfg * k /\
    u64_sub (BlockInfo.number head) (BlockInfo.number (L2BlockInfo.block_info parent)) <= k + 1.
Proof.
  intros Hprov Hnum Hts Hstart Hbt Hf Hlt. unfold find_parent in Hf.
  rewrite decide_True in Hf by done. case_decide as Hle; [done|].
  set (head := L2BlockInfo.block_info l2_safe_head) in *. unfold u64_max in *.
  assert (u64_sub (BlockInfo.timestamp head) start = BlockInfo.timestamp head - start) as Hel
    by (apply wrap_small; lia). rewrite Hel in Hf.
  rewrite decide_False in Hf by lia. case_decide as Hm; [done|].
  destruct (l2_block_info_by_number _) as [b|] eqn:Hb; [|done]. injection Hf as ->.
  apply Hprov in Hb. rewrite Hb. exists ((BlockInfo.timestamp head - start) / RollupConfig.block_time cfg).
  split_and!.
  - apply Z.div_pos; lia.
  - pose proof (Z.div_mod (BlockInfo.timestamp head - start) (RollupConfig.block_time cfg)). lia.
  - set (k := _ / _). assert (0 <= k) by (apply Z.div_pos; lia).
    unfold u64_sub. rewrite wrap_sub_wrap_l.
    replace (BlockInfo.number head - wrap 64 (BlockInfo.number head - k - 1))
      with (- wrap 64 (BlockInfo.number head - k - 1) + BlockInfo.number head) by lia.
    unfold wrap. rewrite <- Zplus_mod_idemp_l.
    replace ((- ((BlockInfo.number head - k - 1) mod 2 ^ 64)) mod 2 ^ 64)
      with ((- (BlockInfo.number head - k - 1)) mod 2 ^ 64).
    + rewrite Zplus_mod_idemp_l.
      replace (- (BlockInfo.number head - k - 1) + BlockInfo.number head) with (k + 1) by lia.
      apply Z.mod_le; lia.
    + rewrite <- (Z.sub_0_l ((BlockInfo.number head - k - 1) mod 2 ^ 64)), Zminus_mod_idemp_r.
      done.
Qed.

(** Validating a span batch does not panic.  On a chain with a block time
    and a provider that answers with the block it was asked for, a span whose
    blocks are [block_time] apart (as [derive] makes them) is given a verdict:
    every overlapped block has a counterpart in the span. *)
Theorem span_check_no_panic self cfg l1_blocks l2_safe_head inclusion_block start :
  0 < RollupConfig.block_time cfg ->
  (forall n b, l2_block_info_by_number n = Some b -> BlockInfo.number (L2BlockInfo.block_info b) = n) ->
  (forall k batch, index (SpanBatch.batches self) k = Some batch ->
     SpanBatchElement.timestamp batch = start + RollupConfig.block_time cfg * k) ->
  is_u64 start -> is_u64 (BlockInfo.number (L2BlockInfo.block_info l2_safe_head)) ->
  is_u64 (BlockInfo.timestamp (L2BlockInfo.block_info l2_safe_head)) ->
  BlockInfo.timestamp (L2BlockInfo.block_info l2_safe_head)
    <= RollupConfig.l2_block_timestamp cfg (BlockInfo.number (L2BlockInfo.block_info l2_safe_head) + 1) ->
  BlockInfo.number (L2BlockInfo.block_info l2_safe_head) < u64_max ->
  check_batch self cfg l1_blocks l2_safe_head inclusion_block <> Panic.
Proof.
  intros Hbt Hprov Htimes Hst Hnum Hts Hnext Hmax. unfold check_batch.
  apply bind_no_panic; [apply check_batch_prefix_no_panic; lia|]. intros [v p] Hp.
  destruct v; cbn [is_accept negb]; try discriminate.
  destruct (check_batch_prefix_Accept _ _ _ _ _ _ Hp) as (first & final & parent & -> & Hv).
  destruct (vp_next _ _ _ _ _ _ _ _ Hv) as (_ & Hrange & Hfp). cbv zeta in Hrange, Hfp.
  pose proof (vp_first _ _ _ _ _ _ _ _ Hv) as Hf. pose proof (vp_final _ _ _ _ _ _ _ _ Hv) as Hl.
  unfold SpanBatch.starting_epoch_num, SpanBatch.starting_timestamp, SpanBatch.first.
  assert (index (SpanBatch.batches self) 0 = Some first) as Hi0 by (by destruct (SpanBatch.batches self)).
  rewrite Hi0. cbn [fmap option_fmap option_map or_panic mbind result_bind].
  destruct (check_elements _ _ _ _ _ _ _); try discriminate. case_decide as Hlt; [|discriminate].
  apply check_overlap_no_panic; [lia|].
  pose proof (Htimes 0 first Hi0) as Ht0. rewrite Z.mul_0_r, Z.add_0_r in Ht0. rewrite Ht0 in *.
  assert (u64_add (BlockInfo.number (L2BlockInfo.block_info l2_safe_head)) 1
          = u64_saturating_add (BlockInfo.number (L2BlockInfo.block_info l2_safe_head)) 1) as Hsat
    by (unfold u64_add, u64_saturating_add, u64_max in *; rewrite wrap_small; lia).
  rewrite Hsat in *.
  destruct (find_parent_overlap _ _ _ _ _ Hprov Hnum Hts Hst Hbt Hfp Hlt) as (k & Hk & Hhead & Hsub).
  pose proof (Htimes _ _ Hl) as Htl.
  replace (BlockInfo.number (L2BlockInfo.block_info l2_safe_head) + 1)
    with (u64_saturating_add (BlockInfo.number (L2BlockInfo.block_info l2_safe_head)) 1) in Hnext
    by (unfold u64_saturating_add; lia).
  pose_lens. nia.
Qed.

End Checks.

(** A two-block span on a chain at block 101: its first block is the safe head,
    its second the next block. *)
Definition sample_delta_config : RollupConfig.t :=
  RollupConfig.set_upgrade_activation_timestamp sample_config Delta 0.

Definition sample_span_head : L2BlockInfo.t :=
  L2BlockInfo.mk (BlockInfo.mk (zeros 32) 101 (zeros 32) 1002) (BlockNumHash.mk 7 (zeros 32)) 1.

Definition sample_info : bytes :=
  encode_calldata (InfoBedrock (Bedrock.mk
    (BedrockBase.mk 7 990 0 (zeros 32) 1 (zeros 20)) 0 0)).

Definition sample_safe_block : L2Block.t :=
  L2Block.mk (L2BlockInfo.block_info sample_span_head)
    [BlockTx.mk (Some sample_info) 126 [Byte.x7e]; BlockTx.mk None 2 [Byte.x02]].

Definition sample_provider : BatchValidationProvider := {|
  l2_block_info_by_number n := if decide (n = 100) then Some SingleBatch.sample_head else None;
  l2_block_info_by_hash _ := None;
  block_by_number n := if decide (n = 101) then Some sample_safe_block else None
|}.

Definition sample_overlap : SpanBatch.t :=
  SpanBatch.mk (zeros 20) (zeros 20) 1000 8453
    [SpanBatchElement.mk 7 1002 [[Byte.x02]]; SpanBatchElement.mk 7 1004 []] [] []
    SpanTxs.SpanBatchTransactions.default.

Lemma sample_overlap_accepted :
  @check_batch (∅ : Registry.t) sample_provider sample_overlap sample_delta_config
    [SingleBatch.sample_origin] sample_span_head SingleBatch.sample_origin = Ok Accept.
Proof. vm_compute. reflexivity. Qed.

Lemma accepted_span_sound_witness :
  exists safe_block, @block_by_number sample_provider 101 = Some safe_block /\
    same_block sample_delta_config (SpanBatchElement.mk 7 1002 [[Byte.x02]]) safe_block.
Proof.
  destruct (@accepted_span_sound (∅ : Registry.t) sample_provider _ _ _ _ _ sample_overlap_accepted)
    as (first & final & parent & Hv & _ & Ho).
  destruct (vp_next _ _ _ _ _ _ _ _ Hv) as (_ & _ & Hfp).
  pose proof (vp_first _ _ _ _ _ _ _ _ Hv) as Hf. injection Hf as <-.
  assert (parent = SingleBatch.sample_head) as -> by (vm_compute in Hfp; by injection Hfp as <-).
  destruct (Ho eq_refl 0 ltac:(by vm_compute)) as (batch & blk & Hi & Hb & Hs).
  injection Hi as <-. exists blk. split; [exact Hb|exact Hs].
Defined.

Lemma accepted_span_splits_witness :
  exists origins,
    get_singular_batches sample_overlap [SingleBatch.sample_origin] sample_span_head =
    Ok (zip_with singular_of [SpanBatchElement.mk 7 1004 []] origins).
Proof.
  destruct (@accepted_span_splits (∅ : Registry.t) sample_provider _ _ _ _ _ sample_overlap_accepted)
    as (origins & _ & Hs).
  exists origins. exact Hs.
Defined.

Lemma span_check_no_panic_witness :
  @check_batch (∅ : Registry.t) sample_provider sample_overlap sample_delta_config
    [SingleBatch.sample_origin] sample_span_head SingleBatch.sample_origin <> Panic.
Proof.
  apply (@span_check_no_panic (∅ : Registry.t) sample_provider) with (start := 1002).
  - done.
  - intros n b. cbn. case_decide as E; [|done]. intros [= <-]. by rewrite E.
  - intros k batch Hi. unfold index in Hi. case_decide; [|done].
    destruct (Z.to_nat k) as [|[|n]] eqn:Hk; simpl in Hi; [injection Hi as <-..|done]; cbn; lia.
  - by vm_compute.
  - by vm_compute.
  - by vm_compute.
  - by vm_compute.
  - by vm_compute.
Defined.

End SpanBatchChecks.
