(* ===== verification/Pipeline.v ===== *)
(** * Stages of the derivation pipeline

    The vocabulary the stages share: the errors of
    [src/crates/consensus/derive/src/errors], the monad in which a stage method
    runs, and one class per trait of [src/crates/consensus/derive/src/traits]
    and of the stage modules.  A stage is generic in the stage before it, as in
    the source: its operations are written, and its theorems proved, against
    these classes. *)

From S2P Require Import Prelude Effects Primitives Frames SystemConfig Rollup L1Info SingleBatches SpanBits SpanCodec SpanChecks.

(** ** Errors *)

(** The payloads of errors of crates that are not modelled are their messages. *)
Module BuilderError.

Inductive t : Type :=
| BlockMismatch (expected got : BlockNumHash.t)
| BlockMismatchEpochReset (expected got : BlockNumHash.t) (hash : B256)
| SystemConfigUpdate
| BrokenTimeInvariant (l1_origin : BlockNumHash.t) (next_l2_time : Z) (l1_block : BlockNumHash.t)
    (l1_timestamp : Z)
| AttributesUnavailable
| BaseTimeUpdate (message : string)
| Custom (message : string).

End BuilderError.

Module PipelineEncodingError.

Inductive t : Type :=
| EmptyBuffer
| DepositDecodeError (message : string)
| AlloyRlpError (message : string)
| SpanBatchError (e : SpanBits.SpanBatchError).

End PipelineEncodingError.

Module PipelineError.

Inductive t : Type :=
| Eof
| NotEnoughData
| ChannelProviderEmpty
| ChannelAlreadyBuilt
| ChannelNotFound
| ChannelReaderEmpty
| BatchQueueEmpty
| MissingOrigin
| MissingL1Data
| InvalidBatchType
| InvalidBatchValidity
| SystemConfigUpdate (e : SystemConfigUpdateError)
| AttributesBuilder (e : BuilderError.t)
| BadEncoding (e : PipelineEncodingError.t)
| EndOfSource
| Provider (message : string).

End PipelineError.

Module ResetError.

Inductive t : Type :=
| BadParentHash (expected got : B256)
| BadTimestamp (expected got : Z)
| L1OriginMismatch (expected got : Z)
| ReorgDetected (expected got : B256)
| AttributesBuilder (e : BuilderError.t)
| HoloceneActivation
| NextL1BlockHashMismatch (expected got : B256)
| BlobsUnavailable (slot : Z)
| BlobsUnderFill (expected got : Z)
| BlobsOverFill (expected got : Z)
| BlockNotFound (id : string).

End ResetError.

Inductive PipelineErrorKind : Type :=
| Temporary (e : PipelineError.t)
| Critical (e : PipelineError.t)
| Reset (e : ResetError.t).

(** [PipelineError::crit], [PipelineError::temp]. *)
Definition crit (e : PipelineError.t) : PipelineErrorKind := Critical e.
Definition temp (e : PipelineError.t) : PipelineErrorKind := Temporary e.

(** [matches!(e, PipelineErrorKind::Temporary(PipelineError::Eof))]. *)
Definition is_eof (e : PipelineErrorKind) : bool :=
  match e with Temporary PipelineError.Eof => true | _ => false end.

(** ** Methods of a stage *)

Abbreviation op := (eff PipelineErrorKind).

(** ** The traits *)

Class OriginProvider (P : Type) : Type := origin : P -> option BlockInfo.t.

Class OriginAdvancer (P : Type) : Type := advance_origin : op P ().

Class StageReset (P : Type) : Type := {
  reset : BlockNumHash.t -> SystemConfig.t -> op P ();
  activate : op P ();
  flush_channel : op P ()
}.

(** The bounds every stage puts on the stage before it. *)
Class Stage (P : Type) : Type := {
  stage_origin :: OriginProvider P;
  stage_advancer :: OriginAdvancer P;
  stage_reset :: StageReset P
}.

(** [L1RetrievalProvider]. *)
Class L1RetrievalProvider (P : Type) : Type := {
  next_l1_block : op P (option BlockInfo.t);
  batcher_addr : P -> Address
}.

(** [DataAvailabilityProvider]; the item is taken as the bytes it converts to. *)
Class DataAvailabilityProvider (D : Type) : Type := {
  da_next : BlockInfo.t -> Address -> op D bytes;
  da_clear : D -> D
}.

(** [FrameQueueProvider::next_data]. *)
Class FrameQueueProvider (P : Type) : Type := next_data : op P bytes.

(** [NextFrameProvider]. *)
Class NextFrameProvider (P : Type) : Type := next_frame : op P Frame.t.

(** The stage hands out the frames [fs], one per call, at the L1 origin [o]. *)
Inductive delivers {P} `{OriginProvider P} `{NextFrameProvider P} (o : BlockInfo.t)
    : P -> list Frame.t -> P -> Prop :=
| delivers_nil p : delivers o p [] p
| delivers_cons p f p' fs p'' :
    origin p = Some o -> next_frame p = (Ok f, p') -> delivers o p' fs p'' ->
    delivers o p (f :: fs) p''.

(** [ChannelReaderProvider::next_data]. *)
Class ChannelReaderProvider (P : Type) : Type := next_channel_data : op P (option bytes).

(** [Batch]. *)
Inductive Batch : Type :=
| BatchSingle (b : SingleBatch.t)
| BatchSpan (b : SpanBatch.t).

(** [BatchStreamProvider]. *)
Class BatchStreamProvider (P : Type) : Type := {
  stream_next_batch : op P Batch;
  stream_flush : P -> P
}.

(** [NextBatchProvider]. *)
Class NextBatchProvider (P : Type) : Type := {
  next_batch : L2BlockInfo.t -> list BlockInfo.t -> op P Batch;
  span_buffer_size : P -> Z;
  flush : P -> P
}.

(** [AttributesProvider]. *)
Class AttributesProvider (P : Type) : Type := {
  next_single_batch : L2BlockInfo.t -> op P SingleBatch.t;
  is_last_in_span : P -> bool
}.

(** What the attributes queue relies on: a batch handed out for a parent is built
    on that parent. *)
Class LinkedBatches (P : Type) `{AttributesProvider P} : Prop :=
  next_single_batch_linked : forall parent p b p',
    next_single_batch parent p = (Ok b, p') ->
    SingleBatch.parent_hash b = BlockInfo.hash (L2BlockInfo.block_info parent).

(** [ChainProvider]: the lookups on L1, with their errors already converted by
    [Into<PipelineErrorKind>]. *)
Class ChainProvider (F : Type) : Type := {
  header_by_hash : B256 -> op F L1Header.t;
  block_info_by_number : Z -> op F BlockInfo.t;
  receipts_by_hash : B256 -> op F (list Receipt.t);
  block_info_and_transactions_by_hash : B256 -> op F (BlockInfo.t * list L1Tx.t)
}.

(** [L2ChainProvider] with its supertraits.  A lookup answers from the state
    of the provider and does not change what later lookups answer. *)
Class L2ChainProvider (F : Type) : Type := {
  validation_view : F -> BatchValidationProvider;
  l2_block_info_by_hash : F -> B256 -> result PipelineErrorKind L2BlockInfo.t;
  system_config_by_l2_hash : F -> B256 -> RollupConfig.t -> result PipelineErrorKind SystemConfig.t
}.
