(* ===== verification/StageModels.v ===== *)
(** * A scripted stage

    A stage that answers from a list prepared in advance, one item per call and
    [Eof] once the list is empty, with a fixed L1 origin.  The theorems about a
    stage hold for any stage before it; here is the concrete one on which they
    are evaluated. *)

From S2P Require Import Prelude Effects Primitives SystemConfig Rollup L1Info Frames SpanChecks Pipeline.

Module Script.

Record t (A : Type) : Type := mk {
  script_origin : option BlockInfo.t;
  items : list (result PipelineErrorKind A)
}.
Arguments mk {A}.
Arguments script_origin {A}.
Arguments items {A}.

Section Script.
Context {A : Type}.

Definition pop : op (t A) A := fun self =>
  match items self with
  | [] => (Err (temp PipelineError.Eof), self)
  | r :: rs => (r, mk (script_origin self) rs)
  end.

#[global] Instance stage : Stage (t A) := {
  stage_origin := script_origin;
  stage_advancer := mret ();
  stage_reset := {| reset _ _ := mret (); activate := mret (); flush_channel := mret () |}
}.

End Script.

#[global] Instance frames : NextFrameProvider (t Frame.t) := pop.
#[global] Instance data : FrameQueueProvider (t bytes) := pop.
#[global] Instance channels : ChannelReaderProvider (t (option bytes)) := pop.

#[global] Instance stream : BatchStreamProvider (t Batch) := {
  stream_next_batch := pop;
  stream_flush self := self
}.

#[global] Instance batches : NextBatchProvider (t Batch) := {
  next_batch _ _ := pop;
  span_buffer_size _ := 0;
  flush self := self
}.

End Script.

(** ** A fixed L2 chain

    An L2 chain provider that answers from a list of blocks with their system
    configurations, and reports a temporary error for any other block. *)
Module StaticChain.

Record t : Type := mk { blocks : list (L2BlockInfo.t * SystemConfig.t) }.

Definition find (p : L2BlockInfo.t -> bool) (self : t) : option (L2BlockInfo.t * SystemConfig.t) :=
  List.find (fun b => p b.1) (blocks self).

Definition by_hash (hash : B256) (b : L2BlockInfo.t) : bool :=
  bool_decide (BlockInfo.hash (L2BlockInfo.block_info b) = hash).

Definition missing : PipelineErrorKind := temp (PipelineError.Provider "Block not found").

#[global] Instance provider : L2ChainProvider t := {
  validation_view self := {|
    SpanChecks.l2_block_info_by_number n :=
      fst <$> find (fun b => bool_decide (BlockInfo.number (L2BlockInfo.block_info b) = n)) self;
    SpanChecks.l2_block_info_by_hash hash := fst <$> find (by_hash hash) self;
    SpanChecks.block_by_number _ := None
  |};
  l2_block_info_by_hash self hash := ok_or missing (fst <$> find (by_hash hash) self);
  system_config_by_l2_hash self hash _ := ok_or missing (snd <$> find (by_hash hash) self)
}.

End StaticChain.

(** ** A fixed L1 chain

    An L1 chain provider that answers from a list of blocks. *)
Module StaticL1.

Record block : Type := mk_block {
  info : BlockInfo.t;
  header : L1Header.t;
  receipts : list Receipt.t;
  txs : list L1Tx.t
}.

Record t : Type := mk { blocks : list block }.

Definition find {A} (p : BlockInfo.t -> bool) (project : block -> A) : op t A := fun self =>
  (ok_or StaticChain.missing (project <$> List.find (fun b => p (info b)) (blocks self)), self).

Definition by_hash (hash : B256) (b : BlockInfo.t) : bool := bool_decide (BlockInfo.hash b = hash).

#[global] Instance provider : ChainProvider t := {
  header_by_hash hash := find (by_hash hash) header;
  block_info_by_number n := find (fun b => bool_decide (BlockInfo.number b = n)) info;
  receipts_by_hash hash := find (by_hash hash) receipts;
  block_info_and_transactions_by_hash hash := find (by_hash hash) (fun b => (info b, txs b))
}.

End StaticL1.
