(* ===== verification/Traversal.v ===== *)
(** * L1 traversal and retrieval

    Models [stages/traversal/polling.rs] and [stages/l1_retrieval.rs] of
    [src/crates/consensus/derive/src]: the bottom of the pipeline, which walks
    the L1 chain block by block, keeps the system configuration up to date, and
    reads the data of each block from the data availability provider. *)

From S2P Require Import Prelude Effects Primitives SystemConfig Upgrades Rollup Pipeline.

Module PollingTraversal.

Record t (F : Type) : Type := mk {
  block : option BlockInfo.t;
  data_source : F;
  done : bool;
  system_config : SystemConfig.t;
  rollup_config : RollupConfig.t
}.
Arguments mk {F}.
Arguments block {F}.
Arguments data_source {F}.
Arguments done {F}.
Arguments system_config {F}.
Arguments rollup_config {F}.

Section Traversal.
Context {F : Type} `{ChainProvider F} `{Abi} `{RuntimeUpgradeRegistry}.

Definition set_source (f : F) (self : t F) : t F :=
  mk (block self) f (done self) (system_config self) (rollup_config self).
Definition set_done (d : bool) (self : t F) : t F :=
  mk (block self) (data_source self) d (system_config self) (rollup_config self).
Definition set_system_config (c : SystemConfig.t) (self : t F) : t F :=
  mk (block self) (data_source self) (done self) c (rollup_config self).

(** [PollingTraversal::new]. *)
Definition new (source : F) (cfg : RollupConfig.t) : t F :=
  mk (Some BlockInfo.default) source false SystemConfig.default cfg.

(** [PollingTraversal::update_origin]. *)
Definition update_origin (b : BlockInfo.t) (self : t F) : t F :=
  mk (Some b) (data_source self) false (system_config self) (rollup_config self).

(** [next_l1_block]. *)
Definition next_l1_block : op (t F) (option BlockInfo.t) :=
  d ← gets done;
  if negb d then _ ← modify (set_done true); gets block
  else fail (temp PipelineError.Eof).

(** [update_system_config_with_receipts], without its logging. *)
Definition update_system_config_with_receipts (receipts : list Receipt.t) (address : Address)
    (ecotone_active : bool) : op (t F) () := fun self =>
  match update_with_receipts (system_config self) receipts address ecotone_active with
  | Ok (c, _) => (Ok (), set_system_config c self)
  | _ => (Panic, self)
  end.

(** [OriginAdvancer::advance_origin]. *)
Definition advance : op (t F) () :=
  b ← gets block;
  match b with
  | None => fail (temp PipelineError.Eof)
  | Some b =>
      next_l1_origin ← within data_source set_source
        (block_info_by_number (u64_add (BlockInfo.number b) 1));
      if decide (BlockInfo.hash b <> BlockInfo.parent_hash next_l1_origin) then
        fail (Reset (ResetError.ReorgDetected (BlockInfo.hash b)
                       (BlockInfo.parent_hash next_l1_origin)))
      else
        receipts ← within data_source set_source
          (receipts_by_hash (BlockInfo.hash next_l1_origin));
        cfg ← gets rollup_config;
        _ ← update_system_config_with_receipts receipts
              (RollupConfig.l1_system_config_address cfg)
              (RollupConfig.is_ecotone_active cfg (BlockInfo.timestamp next_l1_origin));
        _ ← modify (update_origin next_l1_origin);
        if negb (RollupConfig.is_holocene_active cfg (BlockInfo.timestamp b)) &&
           RollupConfig.is_holocene_active cfg (BlockInfo.timestamp next_l1_origin)
        then fail (Reset ResetError.HoloceneActivation)
        else mret ()
  end.

(** [StageReset::reset]. *)
Definition reset_to (l1_origin : BlockNumHash.t) (c : SystemConfig.t) : op (t F) () :=
  b ← within data_source set_source (block_info_by_number (BlockNumHash.number l1_origin));
  _ ← modify (update_origin b);
  modify (set_system_config c).

#[global] Instance retrieval_provider : L1RetrievalProvider (t F) := {
  Pipeline.next_l1_block := next_l1_block;
  batcher_addr self := SystemConfig.batcher_address (system_config self)
}.

#[global] Instance stage : Stage (t F) := {
  stage_origin := block;
  stage_advancer := advance;
  stage_reset := {| reset := reset_to; activate := mret (); flush_channel := mret () |}
}.

(** ** Properties *)

(** What an advance that did not complete leaves untouched. *)
Definition same_position (self self' : t F) : Prop :=
  block self' = block self /\ done self' = done self /\
  system_config self' = system_config self /\ rollup_config self' = rollup_config self.

(** The traversal has moved from [b] to [nb], applying [receipts]. *)
Record moved (self self' : t F) (b nb : BlockInfo.t) (receipts : list Receipt.t) : Prop := {
  moved_from : block self = Some b;
  moved_to : block self' = Some nb;
  moved_linked : BlockInfo.parent_hash nb = BlockInfo.hash b;
  moved_fresh : done self' = false;
  moved_config : rollup_config self' = rollup_config self;
  moved_receipts : exists u,
    update_with_receipts (system_config self) receipts
      (RollupConfig.l1_system_config_address (rollup_config self))
      (RollupConfig.is_ecotone_active (rollup_config self) (BlockInfo.timestamp nb)) =
    Ok (system_config self', u)
}.

Definition enters_holocene (self : t F) (b nb : BlockInfo.t) : bool :=
  negb (RollupConfig.is_holocene_active (rollup_config self) (BlockInfo.timestamp b)) &&
  RollupConfig.is_holocene_active (rollup_config self) (BlockInfo.timestamp nb).

(** Advancing the L1 origin is all or nothing.  Either the origin, the
    consumed flag and the system configuration are as before and the call did
    not succeed, or the origin has moved to a block whose parent hash is the
    hash of the old origin, the data of that block is still to be read, and the
    system configuration is the old one updated with that block's receipts; the
    call then succeeds, except that the block that activates Holocene makes it
    ask for a pipeline reset. *)
Theorem advance_origin_moves self :
  let '(r, self') := advance self in
  same_position self self' /\ r <> Ok () \/
  exists b nb receipts, moved self self' b nb receipts /\
    r = if enters_holocene self b nb then Err (Reset ResetError.HoloceneActivation) else Ok ().
Proof.
  unfold advance. run_ops. destruct (block self) as [b|] eqn:Hb; [|by left].
  destruct (block_info_by_number _ _) as [[nb|e|] f]; [|by left..].
  destruct (decide _) as [|Hp]; [by left|]. apply dec_stable in Hp.
  destruct (receipts_by_hash _ _) as [[receipts|e|] f']; [|by left..].
  unfold update_system_config_with_receipts, set_source, set_system_config, update_origin;
    cbn [system_config rollup_config block done data_source].
  destruct (update_with_receipts _ _ _ _) as [[c u]|e|] eqn:Hu; [|by left..].
  destruct (_ && _) eqn:Hh; right; exists b, nb, receipts; unfold enters_holocene; rewrite Hh;
    (split; [|done]); (constructor; try done; by exists u).
Qed.

End Traversal.

End PollingTraversal.

Module L1Retrieval.

Record t (D P : Type) : Type := mk {
  prev : P;
  provider : D;
  da_batcher_sender_override : option Address;
  next : option BlockInfo.t
}.
Arguments mk {D P}.
Arguments prev {D P}.
Arguments provider {D P}.
Arguments da_batcher_sender_override {D P}.
Arguments next {D P}.

Section Retrieval.
Context {D P : Type} `{DataAvailabilityProvider D} `{Stage P} `{L1RetrievalProvider P}.

Definition set_prev (p : P) (self : t D P) : t D P :=
  mk p (provider self) (da_batcher_sender_override self) (next self).
Definition set_provider (d : D) (self : t D P) : t D P :=
  mk (prev self) d (da_batcher_sender_override self) (next self).
Definition set_next (n : option BlockInfo.t) (self : t D P) : t D P :=
  mk (prev self) (provider self) (da_batcher_sender_override self) n.

(** [L1Retrieval::new], [with_da_batcher_sender_override]. *)
Definition new (p : P) (d : D) : t D P := mk p d None None.
Definition with_da_batcher_sender_override (o : option Address) (self : t D P) : t D P :=
  mk (prev self) (provider self) o (next self).

Definition clear (self : t D P) : t D P := set_provider (da_clear (provider self)) self.

(** The block the data of which is read: fetched from the traversal when there
    is none. *)
Definition load_next : op (t D P) () :=
  n ← gets next;
  match n with
  | Some _ => mret ()
  | None =>
      b ← within prev set_prev next_l1_block;
      b ← lift (ok_or (temp PipelineError.MissingL1Data) b);
      modify (set_next (Some b))
  end.

(** [FrameQueueProvider::next_data]. *)
Definition next_data : op (t D P) bytes :=
  _ ← load_next;
  n ← gets next;
  n ← lift (or_panic n);
  o ← gets da_batcher_sender_override;
  p ← gets prev;
  let batcher_address := default (batcher_addr p) o in
  r ← attempt (within provider set_provider (da_next n batcher_address));
  match r with
  | inr data => mret data
  | inl e =>
      if is_eof e then _ ← modify (set_next None); _ ← modify clear; fail e
      else fail e
  end.

Definition reset_to (l1_origin : BlockNumHash.t) (c : SystemConfig.t) : op (t D P) () :=
  _ ← within prev set_prev (reset l1_origin c);
  _ ← modify clear;
  o ← gets (fun self => origin (prev self));
  modify (set_next o).

Definition activate_stage : op (t D P) () :=
  _ ← within prev set_prev activate;
  _ ← modify clear;
  o ← gets (fun self => origin (prev self));
  modify (set_next o).

#[global] Instance frame_queue_provider : FrameQueueProvider (t D P) := next_data.

#[global] Instance stage : Stage (t D P) := {
  stage_origin self := origin (prev self);
  stage_advancer := within prev set_prev advance_origin;
  stage_reset := {|
    reset := reset_to;
    activate := activate_stage;
    flush_channel := within prev set_prev flush_channel
  |}
}.

End Retrieval.

End L1Retrieval.
