(* ===== verification/Sources.v ===== *)
(** * Data availability sources

    Models [src/crates/consensus/derive/src/sources]: where the pipeline gets
    the data of an L1 block from, the calldata of batcher transactions
    ([calldata.rs]), their blobs ([blobs.rs] and the slots of [blob_data.rs]),
    and the choice between the two ([ethereum.rs]); and the errors of
    [src/crates/consensus/derive/src/errors/sources.rs]. *)

From stdpp Require Import pretty.
From S2P Require Import Prelude Effects Primitives Frames Blobs Upgrades SystemConfig Rollup L1Info Pipeline StageModels.

(** ** Errors *)

Module BlobProviderError.

Inductive t : Type :=
| SidecarLengthMismatch (expected got : Z)
| SlotDerivation
| BlobDecoding (e : BlobDecodingError)
| BlobNotFound (slot : Z) (reason : string)
| Backend (message : string)
| NotEnoughBlobs (expected got : Z)
| ResetBy (e : ResetError.t).

(** The [#[error(..)]] messages of the variants that are turned into text. *)
Definition decoding_message (e : BlobDecodingError) : string :=
  match e with
  | InvalidFieldElement => "Invalid field element"
  | InvalidEncodingVersion => "Invalid encoding version"
  | InvalidLength => "Invalid length"
  | MissingData => "Missing data"
  end.

Definition provider (message : string) : PipelineError.t := PipelineError.Provider message.

(** [From<BlobProviderError> for PipelineErrorKind]. *)
Definition into (e : t) : PipelineErrorKind :=
  match e with
  | SidecarLengthMismatch expected got =>
      crit (provider ("Blob sidecar length mismatch: expected " +:+ pretty expected +:+ ", got " +:+ pretty got))
  | SlotDerivation => crit (provider "Failed to derive slot")
  | BlobDecoding e => crit (provider ("Blob decoding error: " +:+ decoding_message e))
  | BlobNotFound slot _ => Reset (ResetError.BlobsUnavailable slot)
  | Backend message => temp (provider message)
  | NotEnoughBlobs expected got => Reset (ResetError.BlobsUnderFill expected got)
  | ResetBy e => Reset e
  end.

End BlobProviderError.

(** ** What the sources are given *)

(** [BlobProvider], with its errors already converted. *)
Class BlobProvider (B : Type) : Type :=
  get_and_validate_blobs : BlockInfo.t -> list B256 -> op B (list bytes).

(** [SignerRecoverable::recover_signer] of [alloy_consensus]; [None] for an
    invalid signature. *)
Class SignerRecoverable : Type := recover_signer : L1Tx.t -> option Address.

(** ** Blobs *)

(** [BlobData::fill]. *)
Definition fill (self : BlobData.t) (blobs : list bytes) (i : Z) : result BlobProviderError.t (bool * BlobData.t) :=
  match BlobData.calldata self with
  | Some _ => Ok (false, self)
  | None =>
      if decide (len blobs <= i) then Err (BlobProviderError.NotEnoughBlobs i (len blobs))
      else
        blob ← or_panic (index blobs i);
        if decide (blob = []) then Err (BlobProviderError.BlobDecoding MissingData)
        else Ok (true, BlobData.mk (Some blob) (BlobData.calldata self))
  end.

Module BlobSource.

Record t (F B : Type) : Type := mk {
  chain_provider : F;
  blob_fetcher : B;
  batcher_address : Address;
  data : list BlobData.t;
  open : bool
}.
Arguments mk {F B}.
Arguments chain_provider {F B}.
Arguments blob_fetcher {F B}.
Arguments batcher_address {F B}.
Arguments data {F B}.
Arguments open {F B}.

Section Extract.
Context `{SignerRecoverable}.

(** The slots and the blob hashes one transaction contributes.  The field
    [batcher_address] of the source is the address of the batch inbox; the
    argument is the address of the sender. *)
Definition extract_tx (inbox sender : Address) (tx : L1Tx.t) : list BlobData.t * list B256 :=
  let keep to d :=
    match to with
    | None => ([], [])
    | Some to =>
        if decide (to <> inbox) then ([], [])
        else if decide (default Address_ZERO (recover_signer tx) <> sender) then ([], [])
        else d
    end in
  let calldata input := ([BlobData.mk None (Some input)], []) in
  match L1Tx.tx tx with
  | L1Tx.Legacy to input | L1Tx.Eip2930 to input | L1Tx.Eip1559 to input => keep to (calldata input)
  | L1Tx.Eip4844 _ to _ hashes => keep (Some to) (map (fun _ => BlobData.default) hashes, hashes)
  | L1Tx.Eip7702 _ _ => ([], [])
  end.

(** [BlobSource::extract_blob_data]. *)
Fixpoint extract_blob_data (inbox sender : Address) (txs : list L1Tx.t) : list BlobData.t * list B256 :=
  match txs with
  | [] => ([], [])
  | tx :: txs =>
      let '(d, h) := extract_tx inbox sender tx in
      let '(data, hashes) := extract_blob_data inbox sender txs in
      (d ++ data, h ++ hashes)
  end.

End Extract.

(** The loop that fills the slots, and the index it ends with. *)
Fixpoint fill_all (data : list BlobData.t) (blobs : list bytes) (blob_index : Z)
    : result BlobProviderError.t (list BlobData.t * Z) :=
  match data with
  | [] => Ok ([], blob_index)
  | d :: data =>
      '(should_increment, d) ← fill d blobs blob_index;
      '(data, blob_index) ← fill_all data blobs (if should_increment : bool then blob_index + 1 else blob_index);
      Ok (d :: data, blob_index)
  end.

Section Source.
Context {F B : Type} `{ChainProvider F} `{BlobProvider B} `{SignerRecoverable}.

Definition set_chain_provider (f : F) (self : t F B) : t F B :=
  mk f (blob_fetcher self) (batcher_address self) (data self) (open self).
Definition set_blob_fetcher (b : B) (self : t F B) : t F B :=
  mk (chain_provider self) b (batcher_address self) (data self) (open self).
Definition set_data (d : list BlobData.t) (o : bool) (self : t F B) : t F B :=
  mk (chain_provider self) (blob_fetcher self) (batcher_address self) d o.

(** [BlobSource::new]. *)
Definition new (f : F) (b : B) (inbox : Address) : t F B := mk f b inbox [] false.

(** [BlobSource::load_blobs]. *)
Definition load_blobs (block_ref : BlockInfo.t) (sender : Address) : op (t F B) () :=
  o ← gets open;
  if o : bool then mret () else
  info ← within chain_provider set_chain_provider
    (block_info_and_transactions_by_hash (BlockInfo.hash block_ref));
  inbox ← gets batcher_address;
  let '(d, blob_hashes) := extract_blob_data inbox sender info.2 in
  if decide (blob_hashes = []) then modify (set_data d true) else
  blobs ← within blob_fetcher set_blob_fetcher (get_and_validate_blobs block_ref blob_hashes);
  '(d, blob_index) ← lift (map_err BlobProviderError.into (fill_all d blobs 0));
  if decide (blob_index < len blobs)
  then fail (Reset (ResetError.BlobsOverFill blob_index (len blobs)))
  else modify (set_data d true).

(** [BlobSource::next_data]. *)
Definition next_data : op (t F B) BlobData.t :=
  d ← gets data;
  match d with
  | [] => fail (temp PipelineError.Eof)
  | d :: rest => _ ← modify (fun self => set_data rest (open self) self); mret d
  end.

(** [BlobSource::next] once the source is open.  The source calls itself when a
    blob cannot be decoded; it is still open then, and every call takes a slot,
    so one call per slot and a last one are enough. *)
Fixpoint next_open (fuel : nat) : op (t F B) bytes :=
  match fuel with
  | O => lift Panic
  | S fuel =>
      next_data ← next_data;
      match BlobData.calldata next_data with
      | Some c => mret c
      | None =>
          match BlobData.decode next_data with
          | Ok d => mret d
          | Err _ => next_open fuel
          | Panic => lift Panic
          end
      end
  end.

Definition next (block_ref : BlockInfo.t) (sender : Address) : op (t F B) bytes :=
  _ ← load_blobs block_ref sender;
  slots ← gets (fun self => length (data self));
  next_open (S slots).

(** [BlobSource::clear]. *)
Definition clear (self : t F B) : t F B := set_data [] false self.

#[global] Instance da_provider : DataAvailabilityProvider (t F B) := {
  da_next := next;
  da_clear := clear
}.

End Source.

End BlobSource.

(** ** Calldata *)

Module CalldataSource.

Record t (F : Type) : Type := mk {
  chain_provider : F;
  batch_inbox_address : Address;
  calldata : list bytes;
  open : bool
}.
Arguments mk {F}.
Arguments chain_provider {F}.
Arguments batch_inbox_address {F}.
Arguments calldata {F}.
Arguments open {F}.

Section Source.
Context {F : Type} `{ChainProvider F} `{SignerRecoverable}.

(** The [filter_map] of [load_calldata]. *)
Definition batch_calldata (inbox sender : Address) (tx : L1Tx.t) : option bytes :=
  '(to, input) ←
    match L1Tx.tx tx with
    | L1Tx.Legacy to input | L1Tx.Eip2930 to input | L1Tx.Eip1559 to input => Some (to, input)
    | L1Tx.Eip4844 _ to input _ => Some (Some to, input)
    | L1Tx.Eip7702 _ _ => None
    end;
  to ← to;
  if decide (to <> inbox) then None
  else
    signer ← recover_signer tx;
    if decide (signer <> sender) then None else Some input.

Definition set_chain_provider (f : F) (self : t F) : t F :=
  mk f (batch_inbox_address self) (calldata self) (open self).
Definition set_calldata (d : list bytes) (o : bool) (self : t F) : t F :=
  mk (chain_provider self) (batch_inbox_address self) d o.

(** [CalldataSource::new]. *)
Definition new (f : F) (inbox : Address) : t F := mk f inbox [] false.

(** [CalldataSource::load_calldata]. *)
Definition load_calldata (block_ref : BlockInfo.t) (sender : Address) : op (t F) () :=
  o ← gets open;
  if o : bool then mret () else
  info ← within chain_provider set_chain_provider
    (block_info_and_transactions_by_hash (BlockInfo.hash block_ref));
  modify (fun self => set_calldata (omap (batch_calldata (batch_inbox_address self) sender) info.2) true self).

(** [CalldataSource::next], [clear]. *)
Definition next (block_ref : BlockInfo.t) (sender : Address) : op (t F) bytes :=
  _ ← load_calldata block_ref sender;
  d ← gets calldata;
  match d with
  | [] => fail (temp PipelineError.Eof)
  | c :: rest => _ ← modify (fun self => set_calldata rest (open self) self); mret c
  end.

Definition clear (self : t F) : t F := set_calldata [] false self.

#[global] Instance da_provider : DataAvailabilityProvider (t F) := {
  da_next := next;
  da_clear := clear
}.

End Source.

End CalldataSource.

(** ** The choice *)

Module EthereumDataSource.

Record t (F B : Type) : Type := mk {
  ecotone_timestamp : option Z;
  blob_source : BlobSource.t F B;
  calldata_source : CalldataSource.t F
}.
Arguments mk {F B}.
Arguments ecotone_timestamp {F B}.
Arguments blob_source {F B}.
Arguments calldata_source {F B}.

Section Source.
Context {F B : Type} `{ChainProvider F} `{BlobProvider B} `{SignerRecoverable}.

(** [EthereumDataSource::new], [new_from_parts]. *)
Definition new (b : BlobSource.t F B) (c : CalldataSource.t F) (cfg : RollupConfig.t) : t F B :=
  mk (UpgradeConfig.ecotone_time (RollupConfig.upgrades cfg)) b c.

Definition new_from_parts (provider : F) (blobs : B) (cfg : RollupConfig.t) : t F B :=
  mk (UpgradeConfig.ecotone_time (RollupConfig.upgrades cfg))
    (BlobSource.new provider blobs (RollupConfig.batch_inbox_address cfg))
    (CalldataSource.new provider (RollupConfig.batch_inbox_address cfg)).

Definition set_blob_source (b : BlobSource.t F B) (self : t F B) : t F B :=
  mk (ecotone_timestamp self) b (calldata_source self).
Definition set_calldata_source (c : CalldataSource.t F) (self : t F B) : t F B :=
  mk (ecotone_timestamp self) (blob_source self) c.

(** [EthereumDataSource::next], [clear]. *)
Definition next (block_ref : BlockInfo.t) (sender : Address) : op (t F B) bytes :=
  ecotone ← gets ecotone_timestamp;
  if active_at ecotone (BlockInfo.timestamp block_ref)
  then within blob_source set_blob_source (da_next block_ref sender)
  else within calldata_source set_calldata_source (da_next block_ref sender).

Definition clear (self : t F B) : t F B :=
  mk (ecotone_timestamp self) (da_clear (blob_source self)) (da_clear (calldata_source self)).

#[global] Instance da_provider : DataAvailabilityProvider (t F B) := {
  da_next := next;
  da_clear := clear
}.

End Source.

End EthereumDataSource.

(** ** What the blob source delivers *)

Module BlobDelivery.
Import BlobSource.

(** What a transaction of the batcher to the inbox carries: calldata, or blobs by
    their hashes. *)
Definition carried `{SignerRecoverable} (inbox sender : Address) (tx : L1Tx.t) : list (bytes + B256) :=
  let from_batcher to := bool_decide (to = Some inbox /\ default Address_ZERO (recover_signer tx) = sender) in
  match L1Tx.tx tx with
  | L1Tx.Legacy to input | L1Tx.Eip2930 to input | L1Tx.Eip1559 to input =>
      if from_batcher to then [inl input] else []
  | L1Tx.Eip4844 _ to _ hashes => if from_batcher (Some to) then inr <$> hashes else []
  | L1Tx.Eip7702 _ _ => []
  end.

Definition items `{SignerRecoverable} (inbox sender : Address) (txs : list L1Tx.t) : list (bytes + B256) :=
  txs ≫= carried inbox sender.

Definition hashes_of (its : list (bytes + B256)) : list B256 :=
  omap (fun i => match i with inl _ => None | inr h => Some h end) its.

(** The data of a block: the calldata and the payloads of the blobs in the order
    of the transactions; blobs that are no encoding are left out. *)
Fixpoint delivered (its : list (bytes + B256)) (blobs : list bytes) : list bytes :=
  match its, blobs with
  | [], _ => []
  | inl c :: its, _ => c :: delivered its blobs
  | inr _ :: its, b :: blobs =>
      match BlobData.decode (BlobData.mk (Some b) None) with
      | Ok d => d :: delivered its blobs
      | _ => delivered its blobs
      end
  | inr _ :: _, [] => []
  end.

Fixpoint slots (its : list (bytes + B256)) (blobs : list bytes) : list BlobData.t :=
  match its, blobs with
  | [], _ => []
  | inl c :: its, _ => BlobData.mk None (Some c) :: slots its blobs
  | inr _ :: its, b :: blobs => BlobData.mk (Some b) None :: slots its blobs
  | inr _ :: _, [] => []
  end.

Definition empty_slot (i : bytes + B256) : BlobData.t :=
  match i with inl c => BlobData.mk None (Some c) | inr _ => BlobData.default end.

Lemma extract_items `{SignerRecoverable} inbox sender txs :
  extract_blob_data inbox sender txs = (empty_slot <$> items inbox sender txs, hashes_of (items inbox sender txs)).
Proof.
  assert (forall hs : list B256, hashes_of (inr <$> hs) = hs) as Hhs.
  { induction hs as [|h hs IH]; [done|]. cbn. by f_equal. }
  assert (forall tx, extract_tx inbox sender tx =
    (empty_slot <$> carried inbox sender tx, hashes_of (carried inbox sender tx))) as Htx.
  { intros tx. unfold extract_tx, carried.
    assert (forall hs : list B256, map (fun _ => BlobData.default) hs = empty_slot <$> (inr <$> hs)) as Hmap.
    { intros hs. by rewrite <- list_fmap_compose. }
    destruct (L1Tx.tx tx) as [[to|]|[to|]|[to|]|? to ? hs|]; cbn; try done;
      repeat case_decide; try case_bool_decide; try naive_solver; by rewrite ?Hmap, ?Hhs. }
  induction txs as [|tx txs IH]; [done|]. cbn [extract_blob_data]. rewrite Htx, IH. unfold items. cbn.
  rewrite fmap_app. f_equal. unfold hashes_of. by rewrite omap_app.
Qed.

Lemma fill_items its blobs k :
  0 <= k <= len blobs -> Forall (fun b => b <> []) blobs ->
  fill_all (empty_slot <$> its) blobs k =
    if decide (len (hashes_of its) <= len blobs - k)
    then Ok (slots its (drop (Z.to_nat k) blobs), k + len (hashes_of its))
    else Err (BlobProviderError.NotEnoughBlobs (len blobs) (len blobs)).
Proof.
  intros Hk Hne. revert k Hk. induction its as [|[c|h] its IH]; intros k Hk.
  - change (hashes_of []) with (@nil B256). rewrite len_nil, decide_True, Z.add_0_r by lia. done.
  - rewrite fmap_cons. cbn [fill_all empty_slot fill BlobData.calldata mbind result_bind]. change (hashes_of (inl c :: its)) with (hashes_of its). rewrite IH by done. by case_decide.
  - rewrite fmap_cons. cbn [fill_all empty_slot]. change (hashes_of (inr h :: its)) with (h :: hashes_of its). rewrite len_cons.
    pose proof (len_nonneg (hashes_of its)). unfold fill. cbn [BlobData.default BlobData.calldata].
    destruct (decide (len blobs <= k)).
    + rewrite decide_False by lia. by replace k with (len blobs) by lia.
    + destruct (index_in_range blobs k) as [b Hb]; [lia|]. rewrite Hb. cbn [or_panic mbind result_bind].
      assert (drop (Z.to_nat k) blobs = b :: drop (Z.to_nat (k + 1)) blobs) as Hdrop.
      { rewrite (index_drop _ _ _ Hb). do 2 f_equal. lia. }
      rewrite decide_False; [|unfold index in Hb; rewrite decide_True in Hb by lia; by apply (Forall_lookup_1 _ _ _ _ Hne Hb)].
      cbn [mbind result_bind]. rewrite IH by lia. rewrite Hdrop. destruct (decide (_ <= len blobs - (k + 1))).
      * rewrite decide_True by lia. cbn. by replace (k + 1 + len (hashes_of its)) with (k + (len (hashes_of its) + 1)) by lia.
      * by rewrite decide_False by lia.
Qed.

(** What is left to be delivered from filled slots. *)
Definition output (d : BlobData.t) : option bytes :=
  match BlobData.calldata d with
  | Some c => Some c
  | None => match BlobData.decode d with Ok x => Some x | _ => None end
  end.

Lemma slots_output its blobs : omap output (slots its blobs) = delivered its blobs.
Proof.
  revert blobs. induction its as [|[c|h] its IH]; intros blobs; [done| |].
  - cbn. by f_equal.
  - destruct blobs as [|b blobs]; [done|]. cbn -[BlobData.decode]. unfold output at 1. cbn -[BlobData.decode].
    destruct (BlobData.decode _); rewrite <- IH; done.
Qed.
Lemma slots_without_blobs its : hashes_of its = [] -> empty_slot <$> its = slots its [].
Proof.
  induction its as [|[c|h] its IH]; intros Hh; [done| |done]. rewrite fmap_cons. cbn [slots empty_slot].
  by rewrite IH.
Qed.

(** The first output of the slots and the slots after it. *)
Fixpoint first_output (ds : list BlobData.t) : option (bytes * list BlobData.t) :=
  match ds with
  | [] => None
  | d :: ds => match output d with Some o => Some (o, ds) | None => first_output ds end
  end.

Lemma first_output_omap ds :
  omap output ds = match first_output ds with Some (o, ds') => o :: omap output ds' | None => [] end.
Proof. induction ds as [|d ds IH]; [done|]. cbn. by destruct (output d). Qed.

Definition decodable (d : BlobData.t) : Prop := BlobData.calldata d = None -> BlobData.decode d <> Panic.

Lemma slots_decodable its blobs :
  Forall (fun b => len b = BYTES_PER_BLOB) blobs -> Forall decodable (slots its blobs).
Proof.
  revert blobs. induction its as [|[c|h] its IH]; intros blobs Hb; cbn; [constructor| |].
  - constructor; [done|by apply IH].
  - destruct Hb as [|b blobs Hb Hbs]; constructor; [|by apply IH]. intros _ Hp.
    pose proof (decode_spec b None Hb) as Hd. by rewrite Hp in Hd.
Qed.

Lemma first_output_decodable ds o ds' :
  first_output ds = Some (o, ds') -> Forall decodable ds -> Forall decodable ds'.
Proof.
  induction ds as [|d ds IH]; [done|]. cbn. intros Hf [_ Hds]%Forall_cons_iff.
  destruct (output d); [by injection Hf as <- <-|by apply IH].
Qed.

Section Delivery.
Context {F B : Type} `{ChainProvider F} `{BlobProvider B} `{SignerRecoverable}.

Lemma next_open_output fuel ds (self : t F B) :
  data self = ds -> (length ds < fuel)%nat -> Forall decodable ds ->
  next_open fuel self =
    match first_output ds with
    | Some (o, ds') => (Ok o, set_data ds' (open self) self)
    | None => (Err (temp PipelineError.Eof), set_data [] (open self) self)
    end.
Proof.
  revert ds self. induction fuel as [|fuel IH]; intros ds self Hd Hf Hds; [lia|].
  cbn [next_open]. unfold next_data. run_ops. rewrite Hd. destruct ds as [|d ds].
  - cbn. destruct self. cbn in *. by subst.
  - cbn [first_output]. unfold output. apply Forall_cons_iff in Hds as [Hd0 Hds]. cbn [length] in Hf.
    destruct (BlobData.calldata d) as [c|] eqn:Hc; [done|]. specialize (Hd0 Hc).
    destruct (BlobData.decode d); [done| |done]. rewrite (IH ds) by (done || lia).
    by destruct (first_output ds) as [[o ds']|].
Qed.

Lemma da_next_open block_ref sender ds (self : t F B) :
  open self = true -> data self = ds -> Forall decodable ds ->
  da_next block_ref sender self =
    match first_output ds with
    | Some (o, ds') => (Ok o, set_data ds' true self)
    | None => (Err (temp PipelineError.Eof), set_data [] true self)
    end.
Proof.
  intros Ho Hd Hds. cbn [da_next da_provider]. unfold next, load_blobs. run_ops. rewrite Ho. cbn beta iota.
  by rewrite (next_open_output _ ds), Ho by (subst; done || lia).
Qed.

Lemma calls_open block_ref sender ds (self : t F B) :
  open self = true -> data self = ds -> Forall decodable ds ->
  calls (S (length (omap output ds))) (da_next block_ref sender) self =
    ((Ok <$> omap output ds) ++ [Err (temp PipelineError.Eof)], set_data [] true self).
Proof.
  intros Ho Hd Hds. remember (omap output ds) as outs eqn:Houts.
  revert ds self Ho Hd Hds Houts. induction outs as [|o outs IH]; intros ds self Ho Hd Hds Houts;
    rewrite calls_S, (da_next_open _ _ ds) by done; rewrite first_output_omap in Houts;
    destruct (first_output ds) as [[o' ds']|] eqn:Hf; try done.
  injection Houts as -> Houts. cbn [length]. rewrite (IH ds' (set_data ds' true self)); try done.
  by eapply first_output_decodable.
Qed.

(** The answer of the blob provider for the hashes of the block. *)
Definition fetched (self : t F B) (block_ref : BlockInfo.t) (its : list (bytes + B256))
    : result PipelineErrorKind (list bytes) * B :=
  if decide (hashes_of its = []) then (Ok [], blob_fetcher self)
  else get_and_validate_blobs block_ref (hashes_of its) (blob_fetcher self).

(** The load step on an answer of the providers. *)
Lemma load_fetched (self : t F B) block_ref sender info txs f blobs b :
  let its := items (batcher_address self) sender txs in
  open self = false ->
  block_info_and_transactions_by_hash (BlockInfo.hash block_ref) (chain_provider self) = (Ok (info, txs), f) ->
  fetched self block_ref its = (Ok blobs, b) -> Forall (fun b => len b = BYTES_PER_BLOB) blobs ->
  load_blobs block_ref sender self =
    if decide (len blobs = len (hashes_of its)) then (Ok (), mk f b (batcher_address self) (slots its blobs) true)
    else (Err (Reset (if decide (len blobs < len (hashes_of its))
                      then ResetError.BlobsUnderFill (len blobs) (len blobs)
                      else ResetError.BlobsOverFill (len (hashes_of its)) (len blobs))),
          mk f b (batcher_address self) (data self) (open self)).
Proof.
  intros its Ho Hf Hb Hl. unfold load_blobs, fetched in *. run_ops. rewrite Ho, Hf. cbn [snd].
  cbn [batcher_address set_chain_provider]. rewrite extract_items. fold its.
  destruct (decide (hashes_of its = [])) as [Hnil|Hne].
  - injection Hb as <- <-. rewrite Hnil, decide_True by done. rewrite slots_without_blobs by done. done.
  - cbn [blob_fetcher set_chain_provider]. rewrite Hb. rewrite fill_items.
    2:{ pose proof (len_nonneg blobs). lia. }
    2:{ eapply Forall_impl; [exact Hl|]. intros x Hx ->. done. }
    rewrite Z.sub_0_r, Z.add_0_l, drop_0. destruct (decide (len (hashes_of its) <= len blobs)); cbn [map_err].
    + destruct (decide (len (hashes_of its) < len blobs)).
      * rewrite decide_False by lia. rewrite decide_False by lia. by rewrite <- Ho.
      * by rewrite decide_True by lia.
    + rewrite decide_False, decide_True by lia. by rewrite <- Ho.
Qed.

(** C31: on a block whose transactions can be fetched, with one blob per hash, the
    blob source delivers the calldata and the payloads of the blobs of the
    batcher's transactions to the inbox, in their order, leaving out the blobs
    that are no encoding, and then reports the end. *)
Theorem blob_source_delivers (self : t F B) block_ref sender info txs f blobs b :
  let its := items (batcher_address self) sender txs in
  open self = false ->
  block_info_and_transactions_by_hash (BlockInfo.hash block_ref) (chain_provider self) = (Ok (info, txs), f) ->
  fetched self block_ref its = (Ok blobs, b) -> Forall (fun b => len b = BYTES_PER_BLOB) blobs ->
  len blobs = len (hashes_of its) ->
  calls (S (length (delivered its blobs))) (da_next block_ref sender) self =
    ((Ok <$> delivered its blobs) ++ [Err (temp PipelineError.Eof)], mk f b (batcher_address self) [] true).
Proof.
  intros its Ho Hf Hb Hl Hn. pose proof (load_fetched self block_ref sender info txs f blobs b Ho Hf Hb Hl) as Hload.
  rewrite decide_True in Hload by done. set (loaded := mk f b (batcher_address self) (slots its blobs) true) in Hload.
  pose proof (calls_open block_ref sender (slots its blobs) loaded eq_refl eq_refl (slots_decodable _ _ Hl)) as Hcalls.
  rewrite slots_output in Hcalls. rewrite calls_S in Hcalls |- *.
  assert (da_next block_ref sender self = da_next block_ref sender loaded) as ->; [|exact Hcalls].
  cbn [da_next da_provider]. unfold next. rewrite !bind_run, Hload. done.
Qed.

(** A wrong number of blobs asks for a reset and leaves the source closed, so
    that the next call loads the block again; the two numbers in the error for
    missing blobs are always the same. *)
Theorem blob_count_mismatch (self : t F B) block_ref sender info txs f blobs b :
  let its := items (batcher_address self) sender txs in
  open self = false ->
  block_info_and_transactions_by_hash (BlockInfo.hash block_ref) (chain_provider self) = (Ok (info, txs), f) ->
  fetched self block_ref its = (Ok blobs, b) -> Forall (fun b => len b = BYTES_PER_BLOB) blobs ->
  len blobs <> len (hashes_of its) ->
  da_next block_ref sender self =
    (Err (Reset (if decide (len blobs < len (hashes_of its))
                 then ResetError.BlobsUnderFill (len blobs) (len blobs)
                 else ResetError.BlobsOverFill (len (hashes_of its)) (len blobs))),
     mk f b (batcher_address self) (data self) false).
Proof.
  intros its Ho Hf Hb Hl Hn. cbn [da_next da_provider]. unfold next. rewrite bind_run.
  rewrite (load_fetched self block_ref sender info txs f blobs b) by done. rewrite decide_False by done. by rewrite Ho.
Qed.

End Delivery.

(** ** A block with one transaction of calldata and one of two blobs *)

(** A provider that has the same blobs for every block. *)
Definition static_blobs (blobs : list bytes) : BlobProvider () := fun _ _ s => (Ok blobs, s).

(** Every transaction was signed by the zero address. *)
Definition zero_signer : SignerRecoverable := fun _ => Some Address_ZERO.

Definition zero_blob : bytes := zeros (Z.to_nat BYTES_PER_BLOB).

Definition sample_txs : list L1Tx.t :=
  [L1Tx.mk (L1Tx.Eip1559 (Some Address_ZERO) [Byte.x01; Byte.x02]) B256_ZERO;
   L1Tx.mk (L1Tx.Eip4844 false Address_ZERO [] [B256_ZERO; B256_ZERO]) B256_ZERO].

Definition sample_l1 : StaticL1.t :=
  StaticL1.mk [StaticL1.mk_block BlockInfo.default (L1Header.mk 0 0 None B256_ZERO B256_ZERO B256_ZERO None) [] sample_txs].

Lemma zero_blob_len : len zero_blob = BYTES_PER_BLOB.
Proof. unfold zero_blob. rewrite len_zeros. by apply Z2Nat.id. Qed.

Lemma blob_source_delivers_witness :
  (let _ := static_blobs [zero_blob; zero_blob] in let _ := zero_signer in
   let its := items Address_ZERO Address_ZERO sample_txs in
   calls (S (length (delivered its [zero_blob; zero_blob]))) (da_next BlockInfo.default Address_ZERO)
     (new sample_l1 () Address_ZERO) =
   ((Ok <$> delivered its [zero_blob; zero_blob]) ++ [Err (temp PipelineError.Eof)],
    mk sample_l1 () Address_ZERO [] true)) /\
  @items zero_signer Address_ZERO Address_ZERO sample_txs =
    [inl [Byte.x01; Byte.x02]; inr B256_ZERO; inr B256_ZERO].
Proof.
  split.
  - apply (@blob_source_delivers _ _ _ (static_blobs [zero_blob; zero_blob]) zero_signer
      (new sample_l1 () Address_ZERO) BlockInfo.default Address_ZERO BlockInfo.default sample_txs); try reflexivity.
    repeat constructor; apply zero_blob_len.
  - reflexivity.
Defined.

Lemma blob_count_mismatch_witness :
  (let _ := static_blobs [zero_blob] in let _ := zero_signer in
   da_next BlockInfo.default Address_ZERO (new sample_l1 () Address_ZERO) =
   (Err (Reset (ResetError.BlobsUnderFill 1 1)), mk sample_l1 () Address_ZERO [] false)).
Proof.
  apply (@blob_count_mismatch _ _ _ (static_blobs [zero_blob]) zero_signer
      (new sample_l1 () Address_ZERO) BlockInfo.default Address_ZERO BlockInfo.default sample_txs sample_l1 [zero_blob] ());
    try reflexivity.
  - repeat constructor; apply zero_blob_len.
  - done.
Defined.

End BlobDelivery.
