(* ===== verification/FrameQueues.v ===== *)
(** * The frame queue stage

    Models [src/crates/consensus/derive/src/stages/frame_queue.rs]: the frames
    of each batcher transaction are parsed, pruned to a well-ordered sequence
    once Holocene is active, and handed on one at a time. *)

From S2P Require Import Prelude Effects Primitives Frames SystemConfig Upgrades Rollup Pipeline.

Module FrameQueue.

Record t (P : Type) : Type := mk {
  prev : P;
  queue : list Frame.t;
  rollup_config : RollupConfig.t
}.
Arguments mk {P}.
Arguments prev {P}.
Arguments queue {P}.
Arguments rollup_config {P}.

(** ** Pruning *)

(** The loop of [prune] from index [i] on.  [queue.len() - 1] is a [usize]
    subtraction, [prev_frame.number + 1] a [u16] addition. *)
Fixpoint prune_loop (fuel : nat) (queue : list Frame.t) (i : Z) : result PipelineErrorKind (list Frame.t) :=
  if decide (i < u64_sub (len queue) 1) then
    match fuel with
    | O => Panic
    | S fuel =>
        prev_frame ← or_panic (index queue i);
        next_frame ← or_panic (index queue (i + 1));
        let extends_channel := bool_decide (Frame.id prev_frame = Frame.id next_frame) in
        let without_next := delete (Z.to_nat (i + 1)) queue in
        if extends_channel &&
           bool_decide (u16_add (Frame.number prev_frame) 1 <> Frame.number next_frame)
        then prune_loop fuel without_next i
        else if extends_channel && Frame.is_last prev_frame
        then prune_loop fuel without_next i
        else if negb extends_channel && bool_decide (Frame.number next_frame <> 0)
        then prune_loop fuel without_next i
        else if negb extends_channel && negb (Frame.is_last prev_frame) &&
                bool_decide (Frame.number next_frame = 0)
        then
          '(first_frame, _) ←
            or_panic (list_find (fun f => Frame.id f = Frame.id prev_frame) queue);
          let drained := i + 1 - Z.of_nat first_frame in
          prune_loop fuel (take first_frame queue ++ drop (Z.to_nat (i + 1)) queue)
            (u64_saturating_sub i drained)
        else prune_loop fuel queue (i + 1)
    end
  else Ok queue.

(** Each iteration removes a frame or moves on by one, so twice the length of
    the queue bounds their number. *)
Definition prune_queue (queue : list Frame.t) : result PipelineErrorKind (list Frame.t) :=
  prune_loop (2 * length queue) queue 0.

Section Stage.
Context {P : Type} `{Stage P} `{FrameQueueProvider P} `{RuntimeUpgradeRegistry}.

Definition set_prev (p : P) (self : t P) : t P := mk p (queue self) (rollup_config self).
Definition set_queue (q : list Frame.t) (self : t P) : t P := mk (prev self) q (rollup_config self).

(** [FrameQueue::new]. *)
Definition new (p : P) (cfg : RollupConfig.t) : t P := mk p [] cfg.

(** [FrameQueue::is_holocene_active]. *)
Definition is_holocene_active (self : t P) (o : BlockInfo.t) : bool :=
  RollupConfig.is_holocene_active (rollup_config self) (BlockInfo.timestamp o).

(** [FrameQueue::prune]. *)
Definition prune (o : BlockInfo.t) : op (t P) () :=
  active ← gets (fun self => is_holocene_active self o);
  if negb active then mret ()
  else
    q ← gets queue;
    q ← lift (prune_queue q);
    modify (set_queue q).

(** [FrameQueue::load_frames]. *)
Definition load_frames : op (t P) () :=
  q ← gets queue;
  match q with
  | _ :: _ => mret ()
  | [] =>
      data ← within prev set_prev next_data;
      match Frame.parse_frames data with
      | Err _ => mret ()
      | Panic => lift Panic
      | Ok frames =>
          _ ← modify (fun self => set_queue (queue self ++ frames) self);
          o ← gets (fun self => origin (prev self));
          o ← lift (ok_or (crit PipelineError.MissingOrigin) o);
          prune o
      end
  end.

(** [NextFrameProvider::next_frame]. *)
Definition next_frame : op (t P) Frame.t :=
  _ ← load_frames;
  q ← gets queue;
  match q with
  | [] => fail (temp PipelineError.NotEnoughData)
  | f :: q => _ ← modify (set_queue q); mret f
  end.

#[global] Instance next_frame_provider : NextFrameProvider (t P) := next_frame.

#[global] Instance stage : Stage (t P) := {
  stage_origin self := origin (prev self);
  stage_advancer := within prev set_prev advance_origin;
  stage_reset := {|
    reset l1_origin c :=
      _ ← within prev set_prev (reset l1_origin c); modify (set_queue []);
    activate := _ ← within prev set_prev activate; modify (set_queue []);
    flush_channel := _ ← within prev set_prev flush_channel; modify (set_queue [])
  |}
}.

End Stage.

(** ** Specification of pruning *)

(** [n] may come right after [p]: the next frame of a channel that is still
    open, or the first frame of another channel once the channel is closed. *)
Definition follows (p n : Frame.t) : Prop :=
  if decide (Frame.id p = Frame.id n)
  then u16_add (Frame.number p) 1 = Frame.number n /\ Frame.is_last p = false
  else Frame.is_last p = true /\ Frame.number n = 0.

#[global] Instance follows_decision p n : Decision (follows p n).
Proof. unfold follows. case_decide; apply _. Defined.

(** Every two neighbours up to index [i] are in order. *)
Definition chained_to (q : list Frame.t) (i : nat) : Prop :=
  forall j p n, (j < i)%nat -> q !! j = Some p -> q !! S j = Some n -> follows p n.

Definition chained (q : list Frame.t) : Prop := chained_to q (length q).

Lemma index_nat {A} (l : list A) (i : nat) : index l (Z.of_nat i) = l !! i.
Proof. unfold index. rewrite decide_True by lia. by rewrite Nat2Z.id. Qed.

(** A prefix of the queue determines which of its neighbours are in order. *)
Lemma chained_to_prefix q q' i i' :
  chained_to q i -> (i' <= i)%nat -> (forall j, (j <= i')%nat -> q' !! j = q !! j) -> chained_to q' i'.
Proof. intros Hc Hi He j p n Hj Hp Hn. rewrite He in Hp, Hn by lia. apply (Hc j); [lia|done..]. Qed.

(** The measure of the loop. *)
Definition steps_left (q : list Frame.t) (i : nat) : nat := 2 * length q - i.

Record pruned (q q' : list Frame.t) : Prop := {
  pruned_nonempty : q' <> [];
  pruned_sublist : q' `sublist_of` q;
  pruned_chained : chained q'
}.

Lemma pruned_sub q1 q q' : q1 `sublist_of` q -> pruned q1 q' -> pruned q q'.
Proof. intros Hs [? ? ?]. split; [done| |done]. by trans q1. Qed.

Lemma loop_bound (q : list Frame.t) (i : nat) :
  (i < length q)%nat -> len q <= u64_max ->
  Z.of_nat i < u64_sub (len q) 1 <-> (S i < length q)%nat.
Proof.
  unfold u64_sub, len, u64_max. intros Hi Hl. rewrite wrap_small by lia. lia.
Qed.

(** The first frame with the id of the frame at [i] is not after it. *)
Lemma find_first q i p :
  q !! i = Some p ->
  exists k f, list_find (fun f => Frame.id f = Frame.id p) q = Some (k, f) /\ (k <= i)%nat.
Proof.
  intros Hp. destruct (list_find_elem_of (fun f => Frame.id f = Frame.id p) q p) as [[k f] Hk].
  - by apply list_elem_of_lookup_2 in Hp.
  - done.
  - exists k, f. split; [done|]. apply list_find_Some in Hk as (_ & _ & Hmin).
    destruct (decide (k <= i)%nat); [done|]. destruct (Hmin i p Hp); [lia|done].
Qed.

Lemma sublist_take_drop {A} (q : list A) k i : (k <= i)%nat -> take k q ++ drop i q `sublist_of` q.
Proof.
  intros Hk. rewrite <- (take_drop k q) at 3. apply sublist_app; [done|].
  replace (drop i q) with (drop (i - k) (drop k q)) by (rewrite drop_drop; f_equal; lia).
  apply sublist_drop.
Qed.

(** The three ways an iteration continues: the next frame removed, the
    unfinished channel removed, or one step on. *)
Lemma prune_remove fuel q i :
  (forall q' j, (j < length q')%nat -> len q' <= u64_max -> chained_to q' j ->
     (steps_left q' j <= fuel)%nat ->
     exists q'', prune_loop fuel q' (Z.of_nat j) = Ok q'' /\ pruned q' q'') ->
  (S i < length q)%nat -> len q <= u64_max -> chained_to q i -> (steps_left q i <= S fuel)%nat ->
  exists q', prune_loop fuel (delete (S i) q) (Z.of_nat i) = Ok q' /\ pruned q q'.
Proof.
  intros IH Hi Hl Hc Hf. assert (length (delete (S i) q) = length q - 1)%nat as Hd
    by (apply length_delete, lookup_lt_is_Some_2; lia).
  destruct (IH (delete (S i) q) i) as (q' & -> & Hq').
  - lia.
  - unfold len in *. lia.
  - eapply chained_to_prefix; [done|done|]. intros j Hj. apply list_lookup_delete_lt. lia.
  - unfold steps_left in *. lia.
  - exists q'. split; [done|]. eapply pruned_sub; [|done]. apply sublist_delete.
Qed.

Lemma prune_drain fuel q i k :
  (forall q' j, (j < length q')%nat -> len q' <= u64_max -> chained_to q' j ->
     (steps_left q' j <= fuel)%nat ->
     exists q'', prune_loop fuel q' (Z.of_nat j) = Ok q'' /\ pruned q' q'') ->
  (S i < length q)%nat -> (k <= i)%nat -> len q <= u64_max -> chained_to q i ->
  (steps_left q i <= S fuel)%nat ->
  exists q', prune_loop fuel (take k q ++ drop (S i) q)
               (u64_saturating_sub (Z.of_nat i) (Z.of_nat (S i) - Z.of_nat k)) = Ok q' /\ pruned q q'.
Proof.
  intros IH Hi Hk Hl Hc Hf.
  assert (u64_saturating_sub (Z.of_nat i) (Z.of_nat (S i) - Z.of_nat k) = Z.of_nat (k - 1)) as ->
    by (unfold u64_saturating_sub; lia).
  assert (length (take k q ++ drop (S i) q) = length q - (S i - k))%nat as Hd
    by (rewrite length_app, length_take, length_drop; lia).
  destruct (IH (take k q ++ drop (S i) q) (k - 1)%nat) as (q' & -> & Hq').
  - lia.
  - unfold len in *. lia.
  - destruct (decide (k = 0%nat)) as [->|]; [intros j ??; lia|].
    eapply chained_to_prefix; [done|lia|]. intros j Hj.
    rewrite lookup_app_l by (rewrite length_take; lia). apply lookup_take_lt. lia.
  - unfold steps_left in *. lia.
  - exists q'. split; [done|]. eapply pruned_sub; [|done]. apply sublist_take_drop. lia.
Qed.

(** Pruning from index [i], where everything before it is in order. *)
Lemma prune_loop_spec fuel q i :
  (i < length q)%nat -> len q <= u64_max -> chained_to q i -> (steps_left q i <= fuel)%nat ->
  exists q', prune_loop fuel q (Z.of_nat i) = Ok q' /\ pruned q q'.
Proof.
  revert q i. induction fuel as [|fuel IH]; intros q i Hi Hl Hc Hf; [unfold steps_left in Hf; lia|].
  cbn [prune_loop]. destruct (decide (Z.of_nat i < _)) as [Hlt|Hge]; rewrite loop_bound in * by done.
  2: { exists q. split; [done|]. split; [by intros ->; cbn in Hi; lia|done|].
       intros j p n Hj Hp Hn. apply lookup_lt_Some in Hn as ?. apply (Hc j); [lia|done..]. }
  replace (Z.of_nat i + 1) with (Z.of_nat (S i)) by lia. rewrite !index_nat, Nat2Z.id.
  destruct (lookup_lt_is_Some_2 q i) as [p Hp]; [lia|].
  destruct (lookup_lt_is_Some_2 q (S i)) as [n Hn]; [lia|].
  pose proof (prune_remove fuel q i IH Hlt Hl Hc Hf) as Hremove.
  rewrite Hp, Hn. cbn [or_panic mbind result_bind].
  assert (follows p n -> exists q', prune_loop fuel q (Z.of_nat (S i)) = Ok q' /\ pruned q q') as Hon.
  { intros Hfol. apply IH; [done|done| |unfold steps_left in *; lia].
    intros j p' n' Hj Hp' Hn'. destruct (decide (j = i)) as [->|]; [by simplify_eq|].
    apply (Hc j); [lia|done..]. }
  unfold follows in Hon. destruct (decide (Frame.id p = Frame.id n)) as [Hid|Hid].
  - rewrite (bool_decide_eq_true_2 _ Hid); cbn [andb negb].
    case_bool_decide; [done|]. destruct (Frame.is_last p); [done|].
    by apply Hon.
  - rewrite (bool_decide_eq_false_2 _ Hid); cbn [andb negb].
    case_bool_decide as Hnum; [done|].
    destruct (Frame.is_last p); cbn [negb andb]; [by apply Hon|].
    rewrite bool_decide_eq_true_2 by done.
    destruct (find_first q i p Hp) as (k & f & -> & Hk). cbn [or_panic mbind result_bind].
    by apply prune_drain.
Qed.

(** Stepping over two frames that are in order. *)
Lemma prune_step_on fuel q i p n :
  len q <= u64_max -> q !! i = Some p -> q !! S i = Some n -> follows p n ->
  prune_loop (S fuel) q (Z.of_nat i) = prune_loop fuel q (Z.of_nat (S i)).
Proof.
  intros Hl Hp Hn Hfol. pose proof (lookup_lt_Some _ _ _ Hn) as Hi. cbn [prune_loop].
  rewrite decide_True by (apply loop_bound; [lia|done|done]).
  replace (Z.of_nat i + 1) with (Z.of_nat (S i)) by lia. rewrite !index_nat, Hp, Hn.
  cbn [or_panic mbind result_bind]. unfold follows in Hfol.
  destruct (decide (Frame.id p = Frame.id n)) as [Hid|Hid].
  - destruct Hfol as [Hnum ->]. rewrite (bool_decide_eq_true_2 _ Hid); cbn [andb negb].
    by rewrite bool_decide_eq_false_2 by tauto.
  - destruct Hfol as [-> Hnum]. rewrite (bool_decide_eq_false_2 _ Hid); cbn [andb negb].
    by rewrite bool_decide_eq_false_2 by tauto.
Qed.

(** Removing an unfinished channel. *)
Lemma prune_step_drain fuel q i p n k f :
  len q <= u64_max -> q !! i = Some p -> q !! S i = Some n ->
  Frame.id p <> Frame.id n -> Frame.is_last p = false -> Frame.number n = 0 ->
  list_find (fun f => Frame.id f = Frame.id p) q = Some (k, f) ->
  prune_loop (S fuel) q (Z.of_nat i) =
    prune_loop fuel (take k q ++ drop (S i) q)
      (u64_saturating_sub (Z.of_nat i) (Z.of_nat (S i) - Z.of_nat k)).
Proof.
  intros Hl Hp Hn Hid Hlast Hnum Hk. pose proof (lookup_lt_Some _ _ _ Hn) as Hi. cbn [prune_loop].
  rewrite decide_True by (apply loop_bound; [lia|done|done]).
  replace (Z.of_nat i + 1) with (Z.of_nat (S i)) by lia. rewrite !index_nat, Hp, Hn.
  cbn [or_panic mbind result_bind].
  rewrite (bool_decide_eq_false_2 _ Hid), Hlast, Hnum, Hk, Nat2Z.id; cbn [andb negb].
  by rewrite bool_decide_eq_false_2, bool_decide_eq_true_2 by tauto.
Qed.

(** A queue that is in order is left as it is. *)
Lemma prune_loop_chained fuel q i :
  (i < length q)%nat -> len q <= u64_max -> chained q -> (length q - i <= fuel)%nat ->
  prune_loop fuel q (Z.of_nat i) = Ok q.
Proof.
  revert i. induction fuel as [|fuel IH]; intros i Hi Hl Hc Hf; [lia|].
  destruct (decide (S i < length q)%nat) as [Hlt|Hge].
  - destruct (lookup_lt_is_Some_2 q i) as [p Hp]; [lia|].
    destruct (lookup_lt_is_Some_2 q (S i)) as [n Hn]; [lia|].
    rewrite (prune_step_on fuel q i p n Hl Hp Hn (Hc i p n Hi Hp Hn)). apply IH; [done..|lia].
  - cbn [prune_loop]. rewrite decide_False; [done|]. by rewrite loop_bound.
Qed.

Lemma prune_queue_chained q :
  q <> [] -> len q <= u64_max -> chained q -> prune_queue q = Ok q.
Proof.
  intros Hq Hl Hc. destruct q; [done|]. apply (prune_loop_chained _ _ 0); [cbn; lia|done|done|cbn; lia].
Qed.

(** C18: pruning puts the frame queue in order.  On a queue that is not empty
    the loop terminates without a panic, keeps at least one frame, only removes
    frames, and leaves every two neighbouring frames in order: consecutive
    frames of a channel that is still open, or the last frame of a channel
    followed by the first frame of another one.  A queue that is already in
    order is not changed. *)
Theorem prune_orders_queue q :
  q <> [] -> len q <= u64_max ->
  exists q', prune_queue q = Ok q' /\ q' <> [] /\ q' `sublist_of` q /\ chained q' /\
    (chained q -> q' = q).
Proof.
  intros Hq Hl. destruct (prune_loop_spec (2 * length q) q 0) as (q' & He & [? ? ?]).
  - destruct q; [done|cbn; lia].
  - done.
  - intros j ???. lia.
  - unfold steps_left. lia.
  - exists q'. repeat split; try done. intros Hc.
    pose proof (prune_queue_chained q Hq Hl Hc) as He'. unfold prune_queue in He'.
    change (Z.of_nat 0) with 0 in He. congruence.
Qed.

Lemma prune_orders_queue_witness :
  let f id n last := Frame.mk (replicate 16 id) n [] last in
  let q := [f Byte.x01 0 false; f Byte.x01 2 false; f Byte.x01 1 false; f Byte.x02 0 true;
            f Byte.x02 1 false; f Byte.x03 1 true; f Byte.x03 0 true] in
  chained [f Byte.x02 0 true; f Byte.x03 0 true] /\
  prune_queue q = Ok [f Byte.x02 0 true; f Byte.x03 0 true].
Proof.
  intros f q. destruct (prune_orders_queue q) as (q' & He & _ & _ & Hc & _); [done|by vm_compute|].
  assert (prune_queue q = Ok [f Byte.x02 0 true; f Byte.x03 0 true]) as He' by (by vm_compute).
  split; [|done]. rewrite He in He'. by injection He' as ->.
Defined.

(** An unfinished channel takes finished ones with it.  When a channel id
    is used again and left unfinished, pruning at the start of the next channel
    removes everything back to the first frame with that id, including the
    complete channels in between, and not only the frames of the unfinished
    channel. *)
Theorem prune_drops_finished_channel a b c d1 d2 d3 d4 :
  a <> b -> a <> c ->
  prune_queue [Frame.mk a 0 d1 true; Frame.mk b 0 d2 true; Frame.mk a 0 d3 false; Frame.mk c 0 d4 true]
    = Ok [Frame.mk c 0 d4 true].
Proof.
  intros Hb Hc. unfold prune_queue. change (2 * length _)%nat with 8%nat.
  set (q := Frame.mk a 0 d1 true :: _). assert (len q <= u64_max) as Hl by done.
  change 0 with (Z.of_nat 0). rewrite (prune_step_on 7 q 0 _ _ Hl eq_refl eq_refl).
  2: { unfold follows. by rewrite decide_False. }
  rewrite (prune_step_on 6 q 1 _ _ Hl eq_refl eq_refl).
  2: { unfold follows. by rewrite decide_False by (intros E; by apply Hb). }
  rewrite (prune_step_drain 5 q 2 _ _ 0 (Frame.mk a 0 d1 true) Hl eq_refl eq_refl); [done|done..|].
  apply list_find_Some. repeat split; try done. intros j y Hy Hj. lia.
Qed.

Lemma prune_drops_finished_channel_witness :
  let id b := replicate 16 b in
  prune_queue [Frame.mk (id Byte.x01) 0 [] true; Frame.mk (id Byte.x02) 0 [] true;
               Frame.mk (id Byte.x01) 0 [] false; Frame.mk (id Byte.x03) 0 [] true]
    = Ok [Frame.mk (id Byte.x03) 0 [] true].
Proof. intros id. by apply (prune_drops_finished_channel (id Byte.x01) (id Byte.x02)). Defined.

(** ** Delivery *)

Section Delivery.
Context {P : Type} `{Stage P} `{FrameQueueProvider P} `{RuntimeUpgradeRegistry}.

(** The queue is handed out from the front. *)
Lemma queue_delivers (self : t P) o fs :
  origin (prev self) = Some o -> queue self = fs -> delivers o self fs (set_queue [] self).
Proof.
  intros Ho. revert self Ho. induction fs as [|f fs IH]; intros self Ho Hq.
  - destruct self as [p q c]. cbn in Hq. subst q. constructor.
  - econstructor; [done| |].
    + unfold Pipeline.next_frame, next_frame_provider, next_frame, load_frames. run_ops. rewrite Hq.
      cbn iota beta. rewrite Hq. reflexivity.
    + by apply (IH (set_queue fs self)).
Qed.

(** The data of a batcher transaction arrives as its frames, when these need no
    pruning. *)
Lemma load_delivers (self : t P) o data p f fs :
  queue self = [] -> origin (prev self) = Some o -> next_data (prev self) = (Ok data, p) ->
  origin p = Some o -> Frame.parse_frames data = Ok (f :: fs) -> len (f :: fs) <= u64_max ->
  chained (f :: fs) -> delivers o self (f :: fs) (mk p [] (rollup_config self)).
Proof.
  intros Hq Ho Hd Hop Hparse Hl Hc.
  apply (delivers_cons o self f (mk p fs (rollup_config self)) fs); [done| |by apply queue_delivers].
  unfold Pipeline.next_frame, next_frame_provider, next_frame, load_frames, prune. run_ops.
  rewrite Hq, Hd. cbn iota beta. rewrite Hparse. unfold set_prev, set_queue; cbn [prev queue rollup_config].
  rewrite Hop, Hq. cbn [ok_or app]. destruct (negb _); [done|].
  rewrite prune_queue_chained by done. done.
Qed.

End Delivery.

End FrameQueue.
