(* ===== verification/ChannelBanks.v ===== *)
(** * The channel bank

    Models [src/crates/consensus/derive/src/stages/channel/channel_bank.rs]:
    before Holocene, frames of many channels are buffered at once and the
    channels are read in the order they were opened. *)

From S2P Require Import Prelude Effects Primitives Frames Channels SystemConfig Upgrades Rollup Pipeline StageModels.

Definition MAX_CHANNEL_BANK_SIZE : Z := 100000000.
Definition FJORD_MAX_CHANNEL_BANK_SIZE : Z := 1000000000.

(** [channel.open_block_number() + cfg.channel_timeout(origin.timestamp) <
    origin.number], as it stands in the bank and in the assembler. *)
Definition channel_timed_out `{RuntimeUpgradeRegistry} (cfg : RollupConfig.t) (o : BlockInfo.t)
    (c : Channel.t) : bool :=
  bool_decide (u64_add (Channel.open_block_number c)
                 (RollupConfig.channel_timeout cfg (BlockInfo.timestamp o)) < BlockInfo.number o).

Module ChannelBank.

Record t (P : Type) : Type := mk {
  cfg : RollupConfig.t;
  channels : gmap bytes Channel.t;
  channel_queue : list bytes;
  prev : P
}.
Arguments mk {P}.
Arguments cfg {P}.
Arguments channels {P}.
Arguments channel_queue {P}.
Arguments prev {P}.

Section Bank.
Context {P : Type} `{Stage P} `{NextFrameProvider P} `{RuntimeUpgradeRegistry}.

Definition set_prev (p : P) (self : t P) : t P := mk (cfg self) (channels self) (channel_queue self) p.
Definition set_channels (m : gmap bytes Channel.t) (q : list bytes) (self : t P) : t P :=
  mk (cfg self) m q (prev self).

(** [ChannelBank::new]. *)
Definition new (c : RollupConfig.t) (p : P) : t P := mk c ∅ [] p.

(** [ChannelBank::size]. *)
Definition size_of (m : gmap bytes Channel.t) : Z :=
  map_fold (fun _ c acc => u64_add acc (Channel.size c)) 0 m.
Definition size (self : t P) : Z := size_of (channels self).

(** The loop of [prune]: the outcome, the channels and the queue it leaves. *)
Fixpoint prune_loop (max_size total_size : Z) (queue : list bytes) (m : gmap bytes Channel.t)
    : result PipelineErrorKind () * (gmap bytes Channel.t * list bytes) :=
  if decide (max_size < total_size) then
    match queue with
    | [] => (Err (crit PipelineError.ChannelProviderEmpty), (m, []))
    | id :: queue =>
        match m !! id with
        | None => (Err (crit PipelineError.ChannelNotFound), (m, queue))
        | Some channel =>
            prune_loop max_size (u64_sub total_size (Channel.size channel)) queue (delete id m)
        end
    end
  else (Ok (), (m, queue)).

Definition max_channel_bank_size (self : t P) (o : BlockInfo.t) : Z :=
  if RollupConfig.is_fjord_active (cfg self) (BlockInfo.timestamp o)
  then FJORD_MAX_CHANNEL_BANK_SIZE else MAX_CHANNEL_BANK_SIZE.

(** [self.origin().ok_or(PipelineError::MissingOrigin.crit())?]. *)
Definition need_origin (e : PipelineErrorKind) : op (t P) BlockInfo.t :=
  o ← gets (fun self => origin (prev self)); lift (ok_or e o).

(** [ChannelBank::prune]. *)
Definition prune : op (t P) () :=
  o ← need_origin (crit PipelineError.MissingOrigin);
  (fun self =>
    let '(r, (m, q)) :=
      prune_loop (max_channel_bank_size self o) (size self) (channel_queue self) (channels self) in
    (r, set_channels m q self)) : op (t P) ().

(** The channel of a frame, opened when there is none. *)
Definition open_channel (id : bytes) (o : BlockInfo.t) (self : t P) : t P * Channel.t :=
  match channels self !! id with
  | Some c => (self, c)
  | None =>
      let c := Channel.new id o in
      (set_channels (<[id := c]> (channels self)) (channel_queue self ++ [id]) self, c)
  end.

(** [ChannelBank::ingest_frame]. *)
Definition ingest_frame (frame : Frame.t) : op (t P) () :=
  o ← need_origin (crit PipelineError.MissingOrigin);
  (fun self =>
    let '(self, c) := open_channel (Frame.id frame) o self in
    if channel_timed_out (cfg self) o c then (Ok (), self)
    else
      match Channel.add_frame c frame o with
      | Err _ => (Ok (), self)
      | Panic => (Panic, self)
      | Ok c =>
          prune (set_channels (<[Frame.id frame := c]> (channels self)) (channel_queue self) self)
      end) : op (t P) ().

(** [ChannelBank::try_read_channel_at_index]. *)
Definition try_read_channel_at_index (i : nat) : op (t P) bytes :=
  channel_id ← gets (fun self => channel_queue self !! i);
  channel_id ← lift (or_panic channel_id);
  channel ← gets (fun self => channels self !! channel_id);
  channel ← lift (ok_or (crit PipelineError.ChannelProviderEmpty) channel);
  o ← need_origin (crit PipelineError.MissingOrigin);
  config ← gets cfg;
  if channel_timed_out config o channel || negb (Channel.is_ready channel)
  then fail (temp PipelineError.Eof)
  else
    let frame_data := Channel.frame_data channel in
    _ ← modify (fun self => set_channels (delete channel_id (channels self))
                              (delete i (channel_queue self)) self);
    lift (ok_or (crit PipelineError.ChannelProviderEmpty) frame_data).

(** [(i..i + n).find_map(|i| self.try_read_channel_at_index(i).ok())]. *)
Fixpoint find_ready (n i : nat) : op (t P) (option bytes) :=
  match n with
  | O => mret None
  | S n =>
      r ← attempt (try_read_channel_at_index i);
      match r with
      | inr data => mret (Some data)
      | inl _ => find_ready n (S i)
      end
  end.

(** [ChannelBank::read]. *)
Definition read : op (t P) (option bytes) :=
  q ← gets channel_queue;
  match q with
  | [] => fail (temp PipelineError.Eof)
  | first :: rest =>
      channel ← gets (fun self => channels self !! first);
      channel ← lift (ok_or (crit PipelineError.ChannelProviderEmpty) channel);
      o ← need_origin (crit PipelineError.ChannelProviderEmpty);
      config ← gets cfg;
      if channel_timed_out config o channel then
        _ ← modify (fun self => set_channels (delete first (channels self)) rest self);
        mret None
      else if negb (RollupConfig.is_canyon_active config (BlockInfo.timestamp o)) then
        data ← try_read_channel_at_index 0; mret (Some data)
      else
        data ← find_ready (length q) 0;
        match data with
        | None => fail (temp PipelineError.Eof)
        | Some data => mret (Some data)
        end
  end.

(** [ChannelReaderProvider::next_data]. *)
Definition next_data : op (t P) (option bytes) :=
  r ← attempt read;
  match r with
  | inr data => mret data
  | inl e =>
      if negb (is_eof e) then fail (crit PipelineError.ChannelProviderEmpty)
      else
        frame ← within prev set_prev next_frame;
        _ ← ingest_frame frame;
        fail (temp PipelineError.NotEnoughData)
  end.

Definition forget (self : t P) : t P := set_channels ∅ [] self.

#[global] Instance channel_reader_provider : ChannelReaderProvider (t P) := next_data.

#[global] Instance stage : Stage (t P) := {
  stage_origin self := origin (prev self);
  stage_advancer := within prev set_prev advance_origin;
  stage_reset := {|
    reset l1_origin c := _ ← within prev set_prev (reset l1_origin c); modify forget;
    activate := _ ← within prev set_prev activate; modify forget;
    flush_channel := _ ← within prev set_prev flush_channel; modify forget
  |}
}.

(** ** Invariant *)

(** The queue lists the buffered channels, each once; every channel is stored
    under its id and satisfies the channel invariant. *)
Record bank_ok (m : gmap bytes Channel.t) (q : list bytes) : Prop := {
  ok_NoDup : NoDup q;
  ok_queue id : id ∈ q <-> is_Some (m !! id);
  ok_channel id c : m !! id = Some c -> Channel.inv c /\ Channel.id c = id
}.

Definition inv (self : t P) : Prop := bank_ok (channels self) (channel_queue self).

Lemma new_ok c p : inv (new c p).
Proof.
  split; cbn; [constructor| |by intros ? ? ?%lookup_empty_Some].
  intros id. rewrite lookup_empty. split; [by intros ?%not_elem_of_nil|by intros [? ?]].
Qed.

Lemma size_of_sum m : size_of m = wrap 64 (map_sumZ Channel.size m).
Proof. unfold size_of. change 0 with (wrap 64 0). by rewrite map_fold_u64_add. Qed.

Lemma size_of_delete m id c :
  m !! id = Some c -> u64_sub (size_of m) (Channel.size c) = size_of (delete id m).
Proof.
  intros Hc. rewrite !size_of_sum, (map_sumZ_delete _ m id c Hc). unfold u64_sub.
  rewrite wrap_sub_wrap_l. f_equal. lia.
Qed.

(** Removing the channel at a position of the queue. *)
Lemma bank_ok_remove m pre id post :
  bank_ok m (pre ++ id :: post) -> bank_ok (delete id m) (pre ++ post).
Proof.
  intros [Hn Hq Hc]. rewrite <- Permutation_middle in Hn. apply NoDup_cons in Hn as [Hid Hn].
  split; [done| |].
  - intros k. rewrite lookup_delete_is_Some. specialize (Hq k). set_solver.
  - intros k c [? ?]%lookup_delete_Some. by apply Hc.
Qed.

Lemma bank_ok_head m id q : bank_ok m (id :: q) -> exists c, m !! id = Some c.
Proof. intros [_ Hq _]. apply Hq. by left. Qed.

Lemma bank_ok_nil m : bank_ok m [] -> m = ∅.
Proof.
  intros [_ Hq _]. apply map_empty. intros k. apply eq_None_not_Some. rewrite <- Hq. set_solver.
Qed.

(** The channels of a bank are those its queue lists. *)
Lemma bank_ok_ext m m' q :
  bank_ok m q -> bank_ok m' q -> (forall id, id ∈ q -> m' !! id = m !! id) -> m' = m.
Proof.
  intros Hm Hm' He. apply map_eq. intros id. destruct (decide (id ∈ q)) as [|Hn]; [by apply He|].
  pose proof (ok_queue _ _ Hm id) as H2. pose proof (ok_queue _ _ Hm' id) as H3.
  destruct (m !! id), (m' !! id); try done; exfalso; apply Hn; [apply H2|apply H2|apply H3]; eauto.
Qed.

(** What pruning leaves of a bank: it has dropped channels from the front of
    the queue, the oldest first, and no more of them than necessary. *)
Record pruned_to (max_size : Z) (m : gmap bytes Channel.t) (q : list bytes)
    (m' : gmap bytes Channel.t) (q' dropped : list bytes) : Prop := {
  pruned_queue : q = dropped ++ q';
  pruned_ok : bank_ok m' q';
  pruned_size : size_of m' <= max_size;
  pruned_kept id : id ∈ q' -> m' !! id = m !! id;
  pruned_needed d id : dropped = d ++ [id] ->
    exists c, m !! id = Some c /\ max_size < size_of (<[id := c]> m')
}.

Lemma bank_prune_spec max_size q m :
  0 <= max_size -> bank_ok m q ->
  exists m' q' dropped, prune_loop max_size (size_of m) q m = (Ok (), (m', q')) /\
    pruned_to max_size m q m' q' dropped.
Proof.
  intros Hmax. revert m. induction q as [|id q IH]; intros m Hm; cbn [prune_loop].
  - pose proof (bank_ok_nil m Hm). subst m. change (size_of ∅) with 0.
    rewrite decide_False by lia. exists ∅, [], []. split; [done|]. split; try done. by intros [].
  - destruct (decide (max_size < size_of m)) as [Hlt|Hge].
    2: { exists m, (id :: q), []. split; [done|]. split; try done; [lia|by intros []]. }
    destruct (bank_ok_head m id q Hm) as [c Hc]. rewrite Hc, (size_of_delete m id c Hc).
    pose proof (bank_ok_remove m [] id q Hm) as Hrest.
    destruct (IH _ Hrest) as (m' & q' & d & -> & [-> Hok Hsize Hkept Hneed]).
    pose proof (ok_NoDup _ _ Hm) as Hn. apply NoDup_cons in Hn as [Hn _].
    exists m', q', (id :: d). split; [done|]. split; try done.
    + intros k Hk. rewrite Hkept by done. apply lookup_delete_ne. set_solver.
    + intros [|k' d'] k Hd; simplify_eq/=.
      * exists c. split; [done|]. rewrite (bank_ok_ext _ _ _ Hrest Hok Hkept).
        by rewrite insert_delete_id.
      * destruct (Hneed d' k eq_refl) as (c' & Hc' & ?). exists c'. split; [|done].
        by apply lookup_delete_Some in Hc' as [_ ?].
Qed.

Lemma max_size_nonneg self o : 0 <= max_channel_bank_size self o.
Proof. unfold max_channel_bank_size. by destruct (RollupConfig.is_fjord_active _ _). Qed.

(** Opening a channel for a frame that has none. *)
Lemma open_channel_spec id o self self' c :
  inv self -> open_channel id o self = (self', c) ->
  inv self' /\ channels self' !! id = Some c /\ prev self' = prev self /\
  cfg self' = cfg self /\ size self' = size self.
Proof.
  unfold open_channel, inv. intros Hok. destruct (channels self !! id) as [c'|] eqn:Hc; intros [= <- <-].
  { done. }
  cbn [channels channel_queue prev cfg set_channels]. rewrite lookup_insert_eq.
  split; [|split; [done|split; [done|split; [done|]]]].
  - assert (id ∉ channel_queue self) as Hid.
    { rewrite (ok_queue _ _ Hok), Hc. apply is_Some_None. }
    split.
    + apply NoDup_app. split; [apply Hok|]. split; [set_solver|]. apply NoDup_singleton.
    + intros k. rewrite elem_of_app, list_elem_of_singleton, (ok_queue _ _ Hok), lookup_insert_is_Some'.
      naive_solver.
    + intros k c [[<- <-]|[_ Hk]]%lookup_insert_Some; [|by eapply (ok_channel _ _ Hok)].
      split; [apply Channel.new_inv|done].
  - unfold size. cbn [channels set_channels]. rewrite !size_of_sum, map_sumZ_insert by done. f_equal.
Qed.

(** Replacing a buffered channel by one with the same id. *)
Lemma bank_ok_update m q id c c' :
  bank_ok m q -> m !! id = Some c -> Channel.inv c' -> Channel.id c' = id -> bank_ok (<[id := c']> m) q.
Proof.
  intros Hm Hc Hc' Hid. split; [apply Hm| |].
  - intros k. rewrite (ok_queue _ _ Hm), lookup_insert_is_Some'. split; [tauto|].
    intros [<-|?]; [by exists c|done].
  - intros k d [[<- <-]|[_ Hk]]%lookup_insert_Some; [done|by eapply (ok_channel _ _ Hm)].
Qed.

(** Ingesting a frame never fails, and leaves the bank within its limit unless
    it was above it already and the frame was ignored. *)
Lemma ingest_frame_spec self o f :
  inv self -> origin (prev self) = Some o -> 0 <= Frame.number f ->
  exists self', ingest_frame f self = (Ok (), self') /\ inv self' /\
    size self' <= Z.max (size self) (max_channel_bank_size self o).
Proof.
  intros Hok Ho Hf. unfold ingest_frame, need_origin. run_ops. rewrite Ho; cbn [ok_or].
  destruct (open_channel _ _ _) as [self1 c] eqn:Hopen.
  apply open_channel_spec in Hopen as (Hok1 & Hc & Hp & Hcfg & Hsize); [|done].
  rewrite <- Hp in Ho. destruct (channel_timed_out _ _ _).
  { exists self1. split; [done|]. split; [done|lia]. }
  pose proof (Channel.add_frame_no_panic c f o) as Hnp.
  destruct (Channel.add_frame c f o) as [c'|e|] eqn:Hadd; [|exists self1; split; [done|]; split; [done|lia]|done].
  destruct (ok_channel _ _ Hok1 _ _ Hc) as [Hci Hcid].
  assert (bank_ok (<[Frame.id f := c']> (channels self1)) (channel_queue self1)) as Hok2.
  { apply (bank_ok_update _ _ _ c); [done|done| |].
    - by eapply Channel.add_frame_inv.
    - by rewrite (Channel.add_frame_id _ _ _ _ Hadd). }
  unfold prune, need_origin. run_ops. cbn [prev set_channels]. rewrite Ho; cbn [ok_or].
  assert (max_channel_bank_size (set_channels (<[Frame.id f:=c']> (channels self1)) (channel_queue self1) self1) o
          = max_channel_bank_size self o) as ->
    by (unfold max_channel_bank_size; cbn [cfg set_channels]; by rewrite Hcfg).
  destruct (bank_prune_spec (max_channel_bank_size self o) _ _ (max_size_nonneg self o) Hok2)
    as (m' & q' & d & Hrun & Hpr).
  unfold size at 1. cbn [channels channel_queue set_channels] in *. rewrite Hrun.
  eexists. split; [done|]. split; [apply Hpr|]. unfold size at 1; cbn [channels set_channels].
  pose proof (pruned_size _ _ _ _ _ _ Hpr). lia.
Qed.

(** ** Reading *)

Definition readable (self : t P) (o : BlockInfo.t) (c : Channel.t) : bool :=
  negb (channel_timed_out (cfg self) o c) && Channel.is_ready c.

(** No channel of [ids] can be read. *)
Definition none_readable (self : t P) (o : BlockInfo.t) (ids : list bytes) : Prop :=
  forall id c, id ∈ ids -> channels self !! id = Some c -> readable self o c = false.

(** The channel [c], behind the channels [pre] in the queue, is read and
    removed. *)
Record reads (self : t P) (o : BlockInfo.t) (pre : list bytes) (c : Channel.t) (data : bytes)
    (self' : t P) : Prop := {
  reads_queue : exists post, channel_queue self = pre ++ Channel.id c :: post /\
    channel_queue self' = pre ++ post;
  reads_channel : channels self !! Channel.id c = Some c;
  reads_removed : channels self' = delete (Channel.id c) (channels self);
  reads_readable : readable self o c = true;
  reads_data : Channel.frame_data c = Some data;
  reads_prev : prev self' = prev self
}.

Lemma reads_inv self o pre c data self' : inv self -> reads self o pre c data self' -> inv self'.
Proof.
  unfold inv. intros Hok [(post & Hq & Hq') _ Hm _ _ _]. rewrite Hq', Hm.
  apply bank_ok_remove. by rewrite <- Hq.
Qed.

Lemma try_read_spec self o pre id post :
  inv self -> origin (prev self) = Some o -> channel_queue self = pre ++ id :: post ->
  exists c, channels self !! id = Some c /\
    if readable self o c then exists data self',
      try_read_channel_at_index (length pre) self = (Ok data, self') /\ reads self o pre c data self'
    else try_read_channel_at_index (length pre) self = (Err (temp PipelineError.Eof), self).
Proof.
  intros Hok Ho Hq. destruct (proj1 (ok_queue _ _ Hok id)) as [c Hc]; [rewrite Hq; set_solver|].
  exists c. split; [done|]. destruct (ok_channel _ _ Hok id c Hc) as [Hci <-].
  unfold readable, try_read_channel_at_index, need_origin. run_ops.
  rewrite Hq, list_lookup_middle by done. cbn [or_panic]. rewrite Hc, Ho. cbn [ok_or].
  destruct (channel_timed_out _ _ _) eqn:Ht; cbn [negb andb orb]; [done|].
  destruct (Channel.is_ready c) eqn:Hr; cbn [negb]; [|done].
  destruct (Channel.ready_frame_data c Hci Hr) as [data Hd]. rewrite Hd. cbn [ok_or].
  exists data. eexists. split; [done|]. split; try done.
  - exists post. split; [done|]. cbn [channel_queue set_channels].
    rewrite Hq, delete_middle. done.
  - unfold readable. by rewrite Ht, Hr.
Qed.

(** The search for the first channel that can be read. *)
Lemma find_ready_spec self o pre post :
  inv self -> origin (prev self) = Some o -> channel_queue self = pre ++ post ->
  none_readable self o pre ->
  find_ready (length post) (length pre) self = (Ok None, self) /\
    none_readable self o (pre ++ post) \/
  exists pre' c data self', find_ready (length post) (length pre) self = (Ok (Some data), self') /\
    reads self o pre' c data self' /\ none_readable self o pre'.
Proof.
  intros Hok Ho. revert pre. induction post as [|id post IH]; intros pre Hq Hpre.
  { left. by rewrite app_nil_r. }
  destruct (try_read_spec self o pre id post Hok Ho Hq) as (c & Hc & Htry).
  cbn [find_ready length]. run_ops. destruct (readable self o c) eqn:Hr.
  - destruct Htry as (data & self' & -> & Hreads). right. by exists pre, c, data, self'.
  - rewrite Htry. destruct (IH (pre ++ [id])) as [[He Hn]|He].
    + by rewrite <- app_assoc.
    + intros k d [Hk| ->%list_elem_of_singleton]%elem_of_app Hd; [by eapply Hpre|congruence].
    + left. rewrite length_app, Nat.add_1_r in He. by rewrite <- app_assoc in Hn.
    + right. by rewrite length_app, Nat.add_1_r in He.
Qed.

(** The three outcomes of [read] on a bank that satisfies its invariant. *)
Lemma read_spec self o :
  inv self -> origin (prev self) = Some o ->
  read self = (Err (temp PipelineError.Eof), self) \/
  (exists id c q self', read self = (Ok None, self') /\ channel_queue self = id :: q /\
     channels self !! id = Some c /\ channel_timed_out (cfg self) o c = true /\
     self' = set_channels (delete id (channels self)) q self) \/
  (exists pre c data self', read self = (Ok (Some data), self') /\ reads self o pre c data self' /\
     none_readable self o pre).
Proof.
  intros Hok Ho. unfold read, need_origin. run_ops.
  destruct (channel_queue self) as [|id q] eqn:Hq; [by left|].
  destruct (try_read_spec self o [] id q Hok Ho Hq) as (c & Hc & Htry).
  rewrite Hc, Ho. cbn [ok_or]. destruct (channel_timed_out _ _ _) eqn:Ht.
  { right; left. by exists id, c, q, (set_channels (delete id (channels self)) q self). }
  destruct (negb _).
  - destruct (readable self o c).
    + destruct Htry as (data & self' & Htry & Hr). cbn [length] in Htry. rewrite Htry.
      right; right. exists [], c, data, self'. split; [done|]. split; [done|].
      intros k d ?%not_elem_of_nil. done.
    + cbn [length] in Htry. rewrite Htry. by left.
  - destruct (find_ready_spec self o [] (id :: q) Hok Ho Hq) as [[He _]|He].
    + intros k d ?%not_elem_of_nil. done.
    + cbn [length] in He |- *. rewrite He. by left.
    + destruct He as (pre & d & data & self' & He & Hr & Hn). cbn [length] in He |- *. rewrite He.
      right; right. by exists pre, d, data, self'.
Qed.

(** ** Property *)

(** C20: the channel bank keeps its invariant and never fails by itself.  With
    an L1 origin, each request either drops the oldest channel because it timed
    out, or hands out and removes the first channel of the queue that is
    complete and not timed out, whose payload it returns, or takes one frame
    from the stage before and asks for more data, the bank then being within
    its size limit if it was before; any other error, and any panic, is one of
    the stage before.  (The comment on the bank says that it prunes before it
    ingests and may become too large; [ingest_frame] prunes after the frame is
    in.) *)
Theorem bank_next_data self o :
  inv self -> origin (prev self) = Some o ->
  (forall f p, next_frame (prev self) = (Ok f, p) -> 0 <= Frame.number f /\ origin p = Some o) ->
  let '(r, self') := next_data self in
  inv self' /\
  match r with
  | Ok None => exists id c, channel_queue self = id :: channel_queue self' /\
      channels self !! id = Some c /\ channel_timed_out (cfg self) o c = true
  | Ok (Some data) => exists pre c, reads self o pre c data self' /\ none_readable self o pre
  | Err e => exists p, next_frame (prev self) = (Err e, p) /\ channels self' = channels self \/
      exists f, next_frame (prev self) = (Ok f, p) /\ e = temp PipelineError.NotEnoughData /\
        size self' <= Z.max (size self) (max_channel_bank_size self o)
  | Panic => exists p, next_frame (prev self) = (Panic, p)
  end.
Proof.
  intros Hok Ho Hprev. unfold next_data. rewrite bind_run. unfold attempt at 1.
  destruct (read_spec self o Hok Ho) as [He|[(id & c & q & self' & He & Hq & Hc & Ht & ->)|
    (pre & c & data & self' & He & Hr & Hn)]]; rewrite He.
  - cbn [is_eof temp negb]. rewrite bind_run. unfold within.
    destruct (next_frame (prev self)) as [[f|e|] p] eqn:Hf; cbn iota.
    + destruct (Hprev f p eq_refl) as [Hnum Hop]. rewrite bind_run.
      destruct (ingest_frame_spec (set_prev p self) o f) as (self' & -> & Hok' & Hs); [done..|].
      split; [done|]. exists p. right. exists f. done.
    + split; [done|]. exists p. by left.
    + split; [done|]. by exists p.
  - split; [|by exists id, c]. unfold inv. cbn [channels channel_queue set_channels].
    apply (bank_ok_remove _ []). cbn. by rewrite <- Hq.
  - split; [by eapply reads_inv|]. by exists pre, c.
Qed.

End Bank.

Lemma bank_next_data_witness :
  let frame := Frame.mk (zeros 16) 0 [Byte.x07] false in
  let bank := new RollupConfig.default (Script.mk (Some BlockInfo.default) [Ok frame]) in
  let after := @next_data _ Script.stage Script.frames (∅ : Registry.t) bank in
  inv after.2 /\ after.1 = Err (temp PipelineError.NotEnoughData) /\
  channel_queue after.2 = [zeros 16].
Proof.
  intros frame bank after. split; [|by vm_compute].
  pose proof (@bank_next_data _ Script.stage Script.frames (∅ : Registry.t) bank BlockInfo.default
                (new_ok _ _) eq_refl) as Hspec.
  unfold after. destruct (next_data bank) as [r bank']. apply Hspec. intros f p Hf.
  assert (next_frame (prev bank) = (Ok frame, Script.mk (Some BlockInfo.default) [])) as E by reflexivity.
  rewrite E in Hf. injection Hf as <- <-. split; [cbn; lia|reflexivity].
Defined.

End ChannelBank.
