(* ===== verification/ChannelAssemblers.v ===== *)
(** * The channel assembler

    Models [src/crates/consensus/derive/src/stages/channel/channel_assembler.rs]:
    once Holocene is active a single channel is assembled at a time and its
    frames must arrive in order.  The stage is shown to refine an abstract
    assembler whose state is the list of the frames taken so far. *)

From S2P Require Import Prelude Effects Primitives Frames Channels SystemConfig Upgrades Rollup Pipeline StageModels ChannelBanks.

Module ChannelAssembler.

Record t (P : Type) : Type := mk {
  cfg : RollupConfig.t;
  prev : P;
  channel : option Channel.t
}.
Arguments mk {P}.
Arguments cfg {P}.
Arguments prev {P}.
Arguments channel {P}.

Section Assembler.
Context {P : Type} `{Stage P} `{NextFrameProvider P} `{RuntimeUpgradeRegistry}.

Definition set_prev (p : P) (self : t P) : t P := mk (cfg self) p (channel self).
Definition set_channel (c : option Channel.t) (self : t P) : t P := mk (cfg self) (prev self) c.

(** [ChannelAssembler::new]. *)
Definition new (c : RollupConfig.t) (p : P) : t P := mk c p None.

Definition need_origin : op (t P) BlockInfo.t :=
  o ← gets (fun self => origin (prev self));
  lift (ok_or (crit PipelineError.MissingOrigin) o).

(** [ChannelAssembler::is_timed_out]. *)
Definition is_timed_out : op (t P) bool :=
  o ← need_origin;
  gets (fun self =>
    match channel self with
    | Some c => channel_timed_out (cfg self) o c
    | None => false
    end).

Definition max_rlp_bytes_per_channel (config : RollupConfig.t) (o : BlockInfo.t) : Z :=
  if RollupConfig.is_fjord_active config (BlockInfo.timestamp o)
  then RollupConfig.MAX_RLP_BYTES_PER_CHANNEL_FJORD
  else RollupConfig.MAX_RLP_BYTES_PER_CHANNEL_BEDROCK.

(** The second half of [next_data]: the frame is given to the channel that is
    being assembled. *)
Definition take_frame (o : BlockInfo.t) (next_frame : Frame.t) : op (t P) (option bytes) :=
  _ ← (if decide (Frame.number next_frame = 0)
       then modify (set_channel (Some (Channel.new (Frame.id next_frame) o)))
       else mret ());
  c ← gets channel;
  match c with
  | None => fail (temp PipelineError.NotEnoughData)
  | Some c =>
      if decide (Frame.number next_frame <> Channel.len c)
      then fail (temp PipelineError.NotEnoughData)
      else
        match Channel.add_frame c next_frame o with
        | Panic => lift Panic
        | Err _ => fail (temp PipelineError.NotEnoughData)
        | Ok c =>
            _ ← modify (set_channel (Some c));
            config ← gets cfg;
            if decide (max_rlp_bytes_per_channel config o < Channel.size c) then
              _ ← modify (set_channel None);
              fail (temp PipelineError.NotEnoughData)
            else if Channel.is_ready c then
              channel_bytes ← lift (ok_or (crit PipelineError.ChannelNotFound) (Channel.frame_data c));
              _ ← modify (set_channel None);
              mret (Some channel_bytes)
            else fail (temp PipelineError.NotEnoughData)
        end
  end.

(** [ChannelReaderProvider::next_data]. *)
Definition next_data : op (t P) (option bytes) :=
  o ← need_origin;
  timed_out ← is_timed_out;
  _ ← (if timed_out : bool then modify (set_channel None) else mret ());
  next_frame ← within prev set_prev next_frame;
  take_frame o next_frame.

#[global] Instance channel_reader_provider : ChannelReaderProvider (t P) := next_data.

#[global] Instance stage : Stage (t P) := {
  stage_origin self := origin (prev self);
  stage_advancer := within prev set_prev advance_origin;
  stage_reset := {|
    reset l1_origin c := _ ← within prev set_prev (reset l1_origin c); modify (set_channel None);
    activate := _ ← within prev set_prev activate; modify (set_channel None);
    flush_channel := _ ← within prev set_prev flush_channel; modify (set_channel None)
  |}
}.

End Assembler.

(** ** The abstract assembler *)

(** The channel being assembled: its id, the L1 block it was opened in, and its
    frames so far, in order. *)
Record partial_channel : Type := Partial {
  pc_id : bytes;
  pc_open : BlockInfo.t;
  pc_frames : list Frame.t
}.

Section Spec.
Context `{RuntimeUpgradeRegistry}.

Definition expired (config : RollupConfig.t) (o : BlockInfo.t) (pc : partial_channel) : bool :=
  bool_decide (u64_add (BlockInfo.number (pc_open pc))
                 (RollupConfig.channel_timeout config (BlockInfo.timestamp o)) < BlockInfo.number o).

(** The channel the frame is meant for: none once it has timed out, a new one
    for a first frame. *)
Definition target (config : RollupConfig.t) (o : BlockInfo.t) (f : Frame.t)
    (st : option partial_channel) : option partial_channel :=
  if decide (Frame.number f = 0) then Some (Partial (Frame.id f) o [])
  else pc ← st; if expired config o pc then None else Some pc.

(** Taking one frame: the new state, and the frames of the channel when the
    frame completes it.  A closing frame with the last of the 16-bit numbers does
    not complete its channel, which then waits for a frame that cannot come. *)
Definition assemble (config : RollupConfig.t) (o : BlockInfo.t) (f : Frame.t)
    (st : option partial_channel) : option partial_channel * option (list Frame.t) :=
  match target config o f st with
  | None => (None, None)
  | Some pc =>
      let fs := pc_frames pc ++ [f] in
      if decide (Frame.number f = len (pc_frames pc) /\ Frame.id f = pc_id pc) then
        if decide (max_rlp_bytes_per_channel config o < sumZ Frame.size fs) then (None, None)
        else if Frame.is_last f && bool_decide (Frame.number f < u16_max) then (None, Some fs)
        else (Some (Partial (pc_id pc) (pc_open pc) fs), None)
      else (Some pc, None)
  end.

(** What the next stage sees of it. *)
Definition outcome (done : option (list Frame.t)) : result PipelineErrorKind (option bytes) :=
  match done with
  | None => Err (temp PipelineError.NotEnoughData)
  | Some fs => Ok (Some (concat (Frame.data <$> fs)))
  end.

End Spec.

(** ** Refinement *)

(** Frames of the channel [i], numbered from 0. *)
Definition in_order (i : bytes) (fs : list Frame.t) : Prop :=
  forall k f, fs !! k = Some f -> Frame.id f = i /\ Frame.number f = Z.of_nat k.

(** The channel [c] holds exactly the frames of [pc]. *)
Record holds (pc : partial_channel) (c : Channel.t) : Prop := {
  h_id : Channel.id c = pc_id pc;
  h_open : Channel.open_block c = pc_open pc;
  h_frames : in_order (pc_id pc) (pc_frames pc);
  h_inputs : Channel.inputs c = list_to_map (Channel.by_number <$> pc_frames pc);
  h_closed : Channel.closed c = true -> u16_max < len (pc_frames pc);
  h_highest : Channel.highest_frame_number c <= len (pc_frames pc);
  h_small : sumZ Frame.size (pc_frames pc) <= RollupConfig.MAX_RLP_BYTES_PER_CHANNEL_FJORD;
  h_inv : Channel.inv c
}.

Definition represents (st : option partial_channel) (c : option Channel.t) : Prop :=
  match st, c with
  | None, None => True
  | Some pc, Some c => holds pc c
  | _, _ => False
  end.

Lemma in_order_NoDup i fs : in_order i fs -> NoDup (Frame.number <$> fs).
Proof.
  intros Hfs. apply NoDup_alt. intros j k z Hj Hk.
  apply list_lookup_fmap_Some in Hj as (f & -> & Hj), Hk as (g & Hg & Hk).
  destruct (Hfs _ _ Hj) as [_ E], (Hfs _ _ Hk) as [_ E']. lia.
Qed.

Lemma in_order_fresh i fs : in_order i fs -> len fs ∉ (Frame.number <$> fs).
Proof.
  intros Hfs (f & Hl & [k Hk]%list_elem_of_lookup)%list_elem_of_fmap.
  destruct (Hfs k f Hk) as [_ E]. apply lookup_lt_Some in Hk. unfold len in Hl. lia.
Qed.

Lemma in_order_snoc i fs f :
  in_order i fs -> Frame.id f = i -> Frame.number f = len fs -> in_order i (fs ++ [f]).
Proof.
  intros Hfs Hi Hn k g Hg. apply lookup_snoc_Some in Hg as [[_ Hg]|[-> <-]]; [by apply Hfs|].
  done.
Qed.

Lemma new_holds i o : holds (Partial i o []) (Channel.new i o).
Proof. split; done || apply Channel.new_inv. Qed.

Lemma holds_len pc c : holds pc c -> Channel.len c = len (pc_frames pc).
Proof.
  intros Hc. unfold Channel.len, len. rewrite (h_inputs _ _ Hc), map_size_list_to_map, length_fmap.
  - done.
  - rewrite Channel.by_number_fst. eapply in_order_NoDup, Hc.
Qed.

Section Accept.
Context (pc : partial_channel) (c : Channel.t) (f : Frame.t) (o : BlockInfo.t).
Context (Hc : holds pc c) (Hid : Frame.id f = pc_id pc).
Context (Hnum : Frame.number f = len (pc_frames pc)) (Hmax : Frame.number f <= u16_max).

Lemma still_open : Channel.closed c = false.
Proof using Hc Hnum Hmax. destruct (Channel.closed c) eqn:Hcl; [|done]. apply (h_closed _ _ Hc) in Hcl. lia. Qed.

(** The next frame in order is accepted. *)
Definition accepted : Channel.t :=
  Channel.insert_frame (if Frame.is_last f then Channel.close_at c (Frame.number f) else c) f o.

Lemma add_next_frame : Channel.add_frame c f o = Ok accepted.
Proof using Hc Hid Hnum Hmax.
  apply Channel.add_frame_accepts.
  - by rewrite (h_id _ _ Hc).
  - rewrite (h_inputs _ _ Hc), Hnum. apply not_elem_of_list_to_map_1.
    rewrite Channel.by_number_fst. eapply in_order_fresh, Hc.
  - by rewrite still_open.
Qed.

Lemma accepted_inv : Channel.inv accepted.
Proof using Hc Hid Hnum Hmax.
  eapply Channel.add_frame_inv; [apply Hc| |apply add_next_frame].
  rewrite Hnum. apply len_nonneg.
Qed.

Lemma accepted_inputs :
  Channel.inputs accepted = list_to_map (Channel.by_number <$> (pc_frames pc ++ [f])).
Proof using Hc Hid Hnum Hmax.
  assert (Channel.inputs accepted = <[Frame.number f := f]> (Channel.inputs c)) as ->.
  { unfold accepted. destruct (Frame.is_last f); [|done]. unfold Channel.close_at.
    rewrite decide_False; [done|]. cbn [Channel.last_frame_number Channel.highest_frame_number].
    pose proof (h_highest _ _ Hc). lia. }
  rewrite fmap_app, (h_inputs _ _ Hc). symmetry. apply (list_to_map_snoc _ (Frame.number f) f).
  rewrite Channel.by_number_fst, Hnum. eapply in_order_fresh, Hc.
Qed.

Lemma snoc_numbers : NoDup (Frame.number <$> (pc_frames pc ++ [f])).
Proof using Hc Hid Hnum Hmax.
  rewrite fmap_app. apply NoDup_app. split; [eapply in_order_NoDup, Hc|]. split.
  - intros z Hz ->%list_elem_of_singleton. rewrite Hnum in Hz. by eapply in_order_fresh, Hz; apply Hc.
  - apply NoDup_singleton.
Qed.

Lemma accepted_size : Channel.size accepted = wrap 64 (sumZ Frame.size (pc_frames pc ++ [f])).
Proof using Hc Hid Hnum Hmax.
  unfold Channel.size. rewrite (Channel.inv_size _ accepted_inv), accepted_inputs.
  by rewrite Channel.sum_by_number by apply snoc_numbers.
Qed.

Lemma accepted_lookup k g :
  (pc_frames pc ++ [f]) !! k = Some g -> Channel.inputs accepted !! Z.of_nat k = Some g.
Proof using Hc Hid Hnum Hmax.
  intros Hk. rewrite accepted_inputs. apply elem_of_list_to_map.
  - rewrite Channel.by_number_fst. apply snoc_numbers.
  - apply list_elem_of_fmap. exists g. split; [|by eapply list_elem_of_lookup_2].
    unfold Channel.by_number. f_equal.
    apply lookup_snoc_Some in Hk as [[_ Hk]|[-> <-]]; [|by rewrite Hnum].
    by destruct (h_frames _ _ Hc k g Hk) as [_ ->].
Qed.

(** A frame that does not complete the channel extends it. *)
Lemma accepted_holds :
  Frame.is_last f && bool_decide (Frame.number f < u16_max) = false ->
  sumZ Frame.size (pc_frames pc ++ [f]) <= RollupConfig.MAX_RLP_BYTES_PER_CHANNEL_FJORD ->
  holds (Partial (pc_id pc) (pc_open pc) (pc_frames pc ++ [f])) accepted /\
  Channel.is_ready accepted = false.
Proof using Hc Hid Hnum Hmax.
  intros Hl Hs. pose proof accepted_inputs as Hi. pose proof accepted_inv as Hv. pose proof still_open as Hop.
  destruct (Channel.close_at_fields c (Frame.number f)) as (Ei & Ec & El & Eh).
  pose proof (h_highest _ _ Hc) as Hhigh. pose proof (len_nonneg (pc_frames pc)).
  assert (Channel.open_block (Channel.close_at c (Frame.number f)) = Channel.open_block c) as Eo
    by (unfold Channel.close_at; by destruct (decide (_ < _))).
  assert (len (pc_frames pc ++ [f]) = Frame.number f + 1) as Hlen by (rewrite len_app, len_cons, len_nil; lia).
  assert (Frame.is_last f = true -> Frame.number f = u16_max) as Hfull.
  { intros E. rewrite E in Hl. apply bool_decide_eq_false in Hl. lia. }
  split.
  - split; try done; cbn [pc_id pc_open pc_frames]; rewrite ?Hlen.
    + unfold accepted. destruct (Frame.is_last f); cbn; rewrite ?Ei; apply Hc.
    + unfold accepted. destruct (Frame.is_last f); cbn; rewrite ?Eo; apply Hc.
    + by apply in_order_snoc; [apply Hc|..].
    + unfold accepted. destruct (Frame.is_last f); cbn; [specialize (Hfull eq_refl); lia|congruence].
    + unfold accepted. rewrite Channel.insert_frame_highest. destruct (Frame.is_last f); lia.
  - unfold accepted. destruct (Frame.is_last f) eqn:E.
    + apply Channel.full_channel_never_ready. cbn. rewrite El. by apply Hfull.
    + unfold Channel.is_ready. cbn [Channel.insert_frame Channel.closed]. by rewrite Hop.
Qed.

(** A closing frame completes it. *)
Lemma accepted_ready :
  Frame.is_last f = true -> Frame.number f < u16_max ->
  Channel.is_ready accepted = true /\
  Channel.frame_data accepted = Some (concat (Frame.data <$> (pc_frames pc ++ [f]))).
Proof using Hc Hid Hnum Hmax.
  intros Hl Hlt. pose proof accepted_lookup as Hlook. pose proof accepted_inv as Hv.
  destruct (Channel.close_at_fields c (Frame.number f)) as (_ & Ec & El & _).
  assert (Channel.closed accepted = true /\ Channel.last_frame_number accepted = len (pc_frames pc))
    as [Hcl Hlast] by (unfold accepted; rewrite Hl; cbn; by rewrite Ec, El, Hnum).
  pose proof (len_nonneg (pc_frames pc)) as Hpos.
  assert (forall k, 0 <= k <= len (pc_frames pc) -> is_Some (Channel.inputs accepted !! k)) as Hall.
  { intros k Hk. destruct (lookup_lt_is_Some_2 (pc_frames pc ++ [f]) (Z.to_nat k)) as [g Hg].
    - rewrite length_app. unfold len in Hk. cbn. lia.
    - exists g. rewrite <- (Hlook _ _ Hg). f_equal. lia. }
  split.
  - apply Channel.is_ready_iff; [done|lia|]. rewrite Hlast. done.
  - apply Channel.frame_data_list; [|by rewrite len_app, Hlast|done].
    intros E. destruct (Hall 0) as [x Hx]; [lia|]. by rewrite E, lookup_empty in Hx.
Qed.

End Accept.

Section Refinement.
Context {P : Type} `{Stage P} `{NextFrameProvider P} `{RuntimeUpgradeRegistry}.

Lemma max_rlp_fjord config o :
  max_rlp_bytes_per_channel config o <= RollupConfig.MAX_RLP_BYTES_PER_CHANNEL_FJORD.
Proof. unfold max_rlp_bytes_per_channel. by destruct (RollupConfig.is_fjord_active _ _). Qed.

(** The frame for a channel that is being assembled. *)
Lemma take_frame_into (self : t P) o f pc c :
  channel self = Some c -> holds pc c -> Frame.sendable f ->
  Frame.number f <> 0 \/ pc = Partial (Frame.id f) o [] /\ c = Channel.new (Frame.id f) o ->
  let '(st', done) :=
    if decide (Frame.number f = len (pc_frames pc) /\ Frame.id f = pc_id pc) then
      if decide (max_rlp_bytes_per_channel (cfg self) o < sumZ Frame.size (pc_frames pc ++ [f]))
      then (None, None)
      else if Frame.is_last f && bool_decide (Frame.number f < u16_max) then (None, Some (pc_frames pc ++ [f]))
      else (Some (Partial (pc_id pc) (pc_open pc) (pc_frames pc ++ [f])), None)
    else (Some pc, None) in
  exists self', take_frame o f self = (outcome done, self') /\ represents st' (channel self') /\
    prev self' = prev self /\ cfg self' = cfg self.
Proof.
  intros Hch Hc [[Hwf [_ Hmax]] Hlen] Hzero. unfold take_frame. rewrite bind_run.
  assert (exists self0, (if decide (Frame.number f = 0)
            then modify (set_channel (Some (Channel.new (Frame.id f) o))) else mret ()) self = (Ok (), self0) /\
          channel self0 = Some c /\ prev self0 = prev self /\ cfg self0 = cfg self)
    as (self0 & -> & Hch0 & Hp & Hcfg).
  { destruct Hzero as [Hz|[-> ->]]; [rewrite decide_False by done; by exists self|].
    case_decide; [|by exists self]. by eexists. }
  run_ops. rewrite Hch0, (holds_len pc c Hc).
  destruct (decide (Frame.number f = len (pc_frames pc) /\ _)) as [[Hnum Hid]|Hno].
  2: { case_decide as Hne; [by exists self0; rewrite Hch0|].
       rewrite Channel.add_frame_wrong_id by (rewrite (h_id _ _ Hc); tauto).
       by exists self0; rewrite Hch0. }
  rewrite (decide_False (P := Frame.number f <> len (pc_frames pc))) by tauto. rewrite (add_next_frame pc c f o) by done.
  cbn [channel cfg set_channel prev]. rewrite Hcfg, (accepted_size pc c f o), wrap_small by
    (try done; rewrite sumZ_app; cbn [sumZ]; pose proof (h_small _ _ Hc);
     pose proof (sumZ_nonneg Frame.size (pc_frames pc) Frame.size_nonneg);
     unfold Frame.size, Frame.OVERHEAD, Frame.MAX_LEN, RollupConfig.MAX_RLP_BYTES_PER_CHANNEL_FJORD in *;
     pose proof (len_nonneg (Frame.data f)); lia).
  case_decide as Hbig; [by eexists|]. pose proof (max_rlp_fjord (cfg self) o).
  destruct (Frame.is_last f && bool_decide (Frame.number f < u16_max)) eqn:Hl.
  - apply andb_true_iff in Hl as [Hl Hlt%bool_decide_eq_true].
    destruct (accepted_ready pc c f o) as [-> ->]; [done..|]. cbn [ok_or]. by eexists.
  - destruct (accepted_holds pc c f o) as [Hh ->]; [done..|lia|]. by eexists.
Qed.

(** One request of the next stage is one step of the abstract assembler. *)
Lemma next_data_refines (self : t P) o f p st :
  represents st (channel self) -> origin (prev self) = Some o ->
  next_frame (prev self) = (Ok f, p) -> Frame.sendable f ->
  let '(st', done) := assemble (cfg self) o f st in
  exists self', next_data self = (outcome done, self') /\ represents st' (channel self') /\
    prev self' = p /\ cfg self' = cfg self.
Proof.
  intros Hst Ho Hf Hreg.
  set (expire := match channel self with Some c => channel_timed_out (cfg self) o c | None => false end).
  set (self0 := mk (cfg self) p (if expire then None else channel self)).
  assert (next_data self = take_frame o f self0) as Hrun.
  { unfold next_data, is_timed_out, need_origin. run_ops. rewrite Ho. cbn [ok_or].
    fold expire. destruct expire; unfold set_channel; cbn [prev]; by rewrite Hf. }
  rewrite Hrun. unfold assemble, target. destruct (decide (Frame.number f = 0)) as [Hz|Hnz].
  - assert (take_frame o f self0 =
      take_frame o f (set_channel (Some (Channel.new (Frame.id f) o)) self0)) as ->.
    { unfold take_frame. rewrite !bind_run. by rewrite decide_True by done. }
    apply (take_frame_into (set_channel _ self0)
             o f (Partial (Frame.id f) o []) (Channel.new (Frame.id f) o)); [done| |done|by right].
    apply new_holds.
  - subst self0. unfold represents in Hst.
    destruct st as [pc|], (channel self) as [c|] eqn:Hc; try done; cbn [mbind option_bind].
    2: { unfold take_frame. rewrite bind_run, decide_False by done. by eexists. }
    assert (expire = expired (cfg self) o pc) as ->.
    { unfold expire, channel_timed_out, expired, Channel.open_block_number. by rewrite (h_open _ _ Hst). }
    destruct (expired (cfg self) o pc).
    + unfold take_frame. rewrite bind_run, decide_False by done. by eexists.
    + apply (take_frame_into (mk (cfg self) p (Some c)) o f pc c); [done..|by left].
Qed.

(** A run of the abstract assembler. *)
Fixpoint assemble_all (config : RollupConfig.t) (o : BlockInfo.t) (fs : list Frame.t)
    (st : option partial_channel) : option partial_channel * list (option (list Frame.t)) :=
  match fs with
  | [] => (st, [])
  | f :: fs =>
      let '(st, done) := assemble config o f st in
      let '(st, dones) := assemble_all config o fs st in (st, done :: dones)
  end.

(** The simulation, call by call. *)
Lemma run_refines (self : t P) o fs p st :
  represents st (channel self) -> delivers o (prev self) fs p -> Forall Frame.sendable fs ->
  let '(st', dones) := assemble_all (cfg self) o fs st in
  exists self', calls (length fs) next_data self = (outcome <$> dones, self') /\
    represents st' (channel self') /\ prev self' = p.
Proof.
  intros Hst Hd Hreg. revert self st Hst Hd.
  induction Hreg as [|f fs Hf Hreg IH]; intros self st Hst Hd; inversion Hd; subst.
  { cbn. by exists self. }
  cbn [assemble_all calls length].
  pose proof (next_data_refines self o f p' st Hst) as Hstep.
  destruct (assemble (cfg self) o f st) as [st' done].
  destruct Hstep as (self' & -> & Hst' & <- & Hcfg); [done..|].
  specialize (IH self' st' Hst'). rewrite Hcfg in IH.
  destruct (assemble_all (cfg self) o fs st') as [st'' dones].
  destruct IH as (self'' & -> & ? & ?); [done|]. by exists self''.
Qed.

(** C10: the channel assembler refines the abstract assembler.  From states that
    correspond, while the stage before hands out frames that the parser lets through
    at one L1 origin, every request returns what the abstract assembler produces for
    the next frame (the payloads of a completed channel in order, or a request for
    more data) and the states correspond again.  Like the code, the abstract
    assembler never completes a channel whose closing frame has number 65535. *)
Theorem assembler_refines (self : t P) o fs p st :
  represents st (channel self) -> delivers o (prev self) fs p -> Forall Frame.sendable fs ->
  let '(st', dones) := assemble_all (cfg self) o fs st in
  exists self', calls (length fs) next_data self = (outcome <$> dones, self') /\
    represents st' (channel self') /\ prev self' = p.
Proof. apply run_refines. Qed.

End Refinement.

Lemma assembler_refines_witness :
  let self := new RollupConfig.default
    (Script.mk (Some BlockInfo.default) (Ok <$> Channel.sample_frames)) in
  exists self', calls 3 (@next_data _ Script.stage Script.frames (∅ : Registry.t)) self =
    ([Err (temp PipelineError.NotEnoughData); Err (temp PipelineError.NotEnoughData);
      Ok (Some [Byte.x01; Byte.x02; Byte.x03])], self') /\ channel self' = None.
Proof.
  intros self. set (registry := (∅ : Registry.t)).
  pose proof (@assembler_refines _ Script.stage Script.frames registry self BlockInfo.default
    Channel.sample_frames (Script.mk (Some BlockInfo.default) []) None I) as Hspec.
  destruct Hspec as (self' & Hcalls & Hst & _).
  - repeat econstructor.
  - repeat constructor; by vm_compute.
  - exists self'. split; [exact Hcalls|by destruct (channel self')].
Defined.

End ChannelAssembler.
