(* ===== verification/ChannelStages.v ===== *)
(** * From batcher transactions to channels

    Models [src/crates/consensus/derive/src/stages/channel/channel_provider.rs],
    the multiplexer that puts the channel bank or the channel assembler between
    the frame queue and the channel reader, and composes the assembler with the
    frame queue. *)

From S2P Require Import Prelude Effects Primitives Frames Channels SystemConfig Upgrades Rollup Pipeline StageModels FrameQueues ChannelBanks ChannelAssemblers.

Module ChannelProvider.

Record t (P : Type) : Type := mk {
  cfg : RollupConfig.t;
  prev : option P;
  channel_bank : option (ChannelBank.t P);
  channel_assembler : option (ChannelAssembler.t P)
}.
Arguments mk {P}.
Arguments cfg {P}.
Arguments prev {P}.
Arguments channel_bank {P}.
Arguments channel_assembler {P}.

Section Provider.
Context {P : Type} `{Stage P} `{NextFrameProvider P} `{RuntimeUpgradeRegistry}.

(** [ChannelProvider::new]. *)
Definition new (c : RollupConfig.t) (p : P) : t P := mk c (Some p) None None.

Definition set_bank (b : ChannelBank.t P) (self : t P) : t P :=
  mk (cfg self) (prev self) (Some b) (channel_assembler self).
Definition set_assembler (a : ChannelAssembler.t P) (self : t P) : t P :=
  mk (cfg self) (prev self) (channel_bank self) (Some a).

(** [OriginProvider::origin]. *)
Definition provider_origin (self : t P) : option BlockInfo.t :=
  match channel_assembler self with
  | Some a => origin a
  | None =>
      match channel_bank self with
      | Some b => origin b
      | None => p ← prev self; origin p
      end
  end.

(** [ChannelProvider::attempt_update], at the L1 origin [o]. *)
Definition update_at (o : BlockInfo.t) (self : t P) : t P :=
  let holocene := RollupConfig.is_holocene_active (cfg self) (BlockInfo.timestamp o) in
  match prev self with
  | Some p =>
      if holocene
      then mk (cfg self) None (channel_bank self) (Some (ChannelAssembler.new (cfg self) p))
      else mk (cfg self) None (Some (ChannelBank.new (cfg self) p)) (channel_assembler self)
  | None =>
      match channel_bank self, channel_assembler self with
      | Some b, a =>
          if holocene
          then mk (cfg self) None None (Some (ChannelAssembler.new (cfg self) (ChannelBank.prev b)))
          else
            match a with
            | Some a => mk (cfg self) None (Some (ChannelBank.new (cfg self) (ChannelAssembler.prev a))) None
            | None => self
            end
      | None, Some a =>
          if negb holocene
          then mk (cfg self) None (Some (ChannelBank.new (cfg self) (ChannelAssembler.prev a))) None
          else self
      | None, None => self
      end
  end.

Definition attempt_update : op (t P) () :=
  o ← gets provider_origin;
  o ← lift (ok_or (crit PipelineError.MissingOrigin) o);
  modify (update_at o).

(** The dispatch that ends every method: the assembler when there is one, else
    the bank. *)
Definition dispatch {A} (on_assembler : op (ChannelAssembler.t P) A)
    (on_bank : op (ChannelBank.t P) A) : op (t P) A := fun self =>
  match channel_assembler self, channel_bank self with
  | Some a, _ => let '(r, a) := on_assembler a in (r, set_assembler a self)
  | None, Some b => let '(r, b) := on_bank b in (r, set_bank b self)
  | None, None => (Err (temp PipelineError.NotEnoughData), self)
  end.

Definition mux {A} (on_assembler : op (ChannelAssembler.t P) A)
    (on_bank : op (ChannelBank.t P) A) : op (t P) A :=
  _ ← attempt_update; dispatch on_assembler on_bank.

#[global] Instance channel_reader_provider : ChannelReaderProvider (t P) :=
  mux next_channel_data next_channel_data.

#[global] Instance stage : Stage (t P) := {
  stage_origin := provider_origin;
  stage_advancer := mux advance_origin advance_origin;
  stage_reset := {|
    reset l1_origin c := mux (reset l1_origin c) (reset l1_origin c);
    activate := mux activate activate;
    flush_channel := mux flush_channel flush_channel
  |}
}.

(** ** The active stage *)

(** The copies of the previous stage the provider holds: its own, or the one of
    the stage it has made active. *)
Definition owners (self : t P) : list P :=
  option_list (prev self) ++ option_list (ChannelBank.prev <$> channel_bank self) ++
  option_list (ChannelAssembler.prev <$> channel_assembler self).

Definition runs_assembler (self : t P) (p : P) (a : ChannelAssembler.t P) : Prop :=
  channel_assembler self = Some a \/ channel_assembler self = None /\ a = ChannelAssembler.new (cfg self) p.

Definition runs_bank (self : t P) (p : P) (b : ChannelBank.t P) : Prop :=
  channel_bank self = Some b \/ channel_bank self = None /\ b = ChannelBank.new (cfg self) p.

(** The channel provider is the stage that the upgrade schedule calls for.
    As long as exactly one stage owns the stage before, every method runs, when
    Holocene is active at the L1 origin, on the channel assembler that is
    already there or on a fresh one on top of the same previous stage, and
    otherwise in the same way on the channel bank; afterwards that stage is the
    only one, so again exactly one owns the stage before. *)
Theorem provider_runs_active_stage {A} (f : op (ChannelAssembler.t P) A) (g : op (ChannelBank.t P) A)
    self p o :
  owners self = [p] -> origin p = Some o ->
  if RollupConfig.is_holocene_active (cfg self) (BlockInfo.timestamp o) then
    exists a r a', runs_assembler self p a /\ ChannelAssembler.prev a = p /\ f a = (r, a') /\
      mux f g self = (r, mk (cfg self) None None (Some a'))
  else
    exists b r b', runs_bank self p b /\ ChannelBank.prev b = p /\ g b = (r, b') /\
      mux f g self = (r, mk (cfg self) None (Some b') None).
Proof.
  unfold owners, runs_assembler, runs_bank, mux, attempt_update, provider_origin, update_at, dispatch.
  destruct self as [c [q|] [b|] [a|]]; cbn [prev channel_bank channel_assembler cfg]; try done;
    cbn; intros [= <-] Ho; run_ops; cbn [prev channel_bank channel_assembler];
    unfold origin in *; cbn [stage_origin ChannelBank.stage ChannelAssembler.stage] in *;
    unfold mbind, option_bind; unfold origin; rewrite Ho; cbn [ok_or cfg channel_assembler channel_bank prev];
    destruct (RollupConfig.is_holocene_active c (BlockInfo.timestamp o));
    cbn [negb cfg channel_assembler channel_bank prev];
    match goal with
    | |- context [f ?x] => destruct (f x) as [r x'] eqn:He; exists x, r, x'
    | |- context [g ?x] => destruct (g x) as [r x'] eqn:He; exists x, r, x'
    end; repeat split; auto.
Qed.

End Provider.

(** On a configuration without Holocene the provider runs a fresh bank. *)
Lemma provider_runs_active_stage_witness :
  let p := Script.mk (Some BlockInfo.default) (Ok <$> Channel.sample_frames) in
  let self := new RollupConfig.default p in
  exists b r b', @runs_bank _ self p b /\ ChannelBank.prev b = p /\
    @ChannelBank.next_data _ Script.stage Script.frames (∅ : Registry.t) b = (r, b') /\
    @mux _ Script.stage (∅ : Registry.t) _
      (@ChannelAssembler.next_data _ Script.stage Script.frames (∅ : Registry.t))
      (@ChannelBank.next_data _ Script.stage Script.frames (∅ : Registry.t)) self =
      (r, mk RollupConfig.default None (Some b') None).
Proof.
  intros p self.
  exact (@provider_runs_active_stage _ Script.stage (∅ : Registry.t) _
    (@ChannelAssembler.next_data _ Script.stage Script.frames (∅ : Registry.t))
    (@ChannelBank.next_data _ Script.stage Script.frames (∅ : Registry.t))
    self p BlockInfo.default eq_refl eq_refl).
Defined.

End ChannelProvider.

(** ** From a batcher transaction to its channel *)

Section Assembly.
Context `{RuntimeUpgradeRegistry}.

Import ChannelAssembler.

(** The channel is not timed out in the block it was opened in. *)
Lemma not_expired config o fs i :
  0 <= RollupConfig.channel_timeout config (BlockInfo.timestamp o) ->
  0 <= BlockInfo.number o ->
  BlockInfo.number o + RollupConfig.channel_timeout config (BlockInfo.timestamp o) <= u64_max ->
  expired config o (Partial i o fs) = false.
Proof.
  intros Ht Hn Hm. unfold expired, u64_add. cbn [pc_open].
  rewrite wrap_small by (unfold u64_max in Hm; lia). apply bool_decide_eq_false_2. lia.
Qed.

(** The abstract assembler on the frames of one channel in order. *)
Lemma assemble_numbered config o i fs pre post :
  0 <= RollupConfig.channel_timeout config (BlockInfo.timestamp o) ->
  0 <= BlockInfo.number o ->
  BlockInfo.number o + RollupConfig.channel_timeout config (BlockInfo.timestamp o) <= u64_max ->
  Channel.numbered i fs -> len fs <= u16_max -> sumZ Frame.size fs <= max_rlp_bytes_per_channel config o ->
  fs = pre ++ post -> post <> [] ->
  forall st, pre = [] \/ st = Some (Partial i o pre) ->
  assemble_all config o post st = (None, replicate (pred (length post)) None ++ [Some fs]).
Proof.
  intros Ht Hn Hm Hfs Hl Hsize. revert pre. induction post as [|f post IH]; intros pre Hpp Hne st Hst; [done|].
  assert (fs !! length pre = Some f) as Hf by (rewrite Hpp; by apply list_lookup_middle).
  destruct (Hfs _ _ Hf) as (Hid & Hnum & Hlast).
  assert (target config o f st = Some (Partial i o pre)) as Htarget.
  { unfold target. destruct Hst as [->| ->].
    - rewrite decide_True by done. by rewrite Hid.
    - destruct (decide _) as [Hz|Hz].
      + rewrite Hid. assert (pre = []) as -> by (apply length_zero_iff_nil; lia). done.
      + cbn [mbind option_bind]. by rewrite not_expired. }
  assert (sumZ Frame.size (pre ++ [f]) <= sumZ Frame.size fs) as Hle.
  { rewrite Hpp, (app_assoc pre [f] post : pre ++ f :: post = _), (sumZ_app _ (pre ++ [f])).
    pose proof (sumZ_nonneg Frame.size post Frame.size_nonneg). lia. }
  cbn [assemble_all]. unfold assemble. rewrite Htarget. cbn [pc_frames pc_id pc_open].
  rewrite (decide_True (P := _ /\ _)) by (split; [unfold len; lia|done]).
  rewrite decide_False by lia. rewrite Hlast, Hpp, length_app. cbn [length].
  destruct post as [|g post].
  - rewrite bool_decide_eq_true_2 by (cbn; lia). rewrite bool_decide_eq_true_2; [done|].
    rewrite Hpp, len_app, len_cons, len_nil in Hl. unfold len in *. lia.
  - rewrite bool_decide_eq_false_2 by (cbn; lia). cbn [andb].
    rewrite (IH (pre ++ [f])); [|by rewrite <- app_assoc|done|by right].
    cbn [pred length replicate]. by rewrite Hpp.
Qed.

(** The frames of one channel in order need no pruning. *)
Lemma numbered_chained i fs :
  Channel.numbered i fs -> len fs <= u16_max -> FrameQueue.chained fs.
Proof.
  intros Hfs Hl j p n _ Hp Hn. destruct (Hfs _ _ Hp) as (Hi & Hnp & Hlp), (Hfs _ _ Hn) as (Hi' & Hnn & _).
  apply lookup_lt_Some in Hn. unfold FrameQueue.follows. rewrite decide_True by congruence.
  split; [|rewrite Hlp; apply bool_decide_eq_false_2; lia].
  rewrite Hnp, Hnn. unfold u16_add, len, u16_max in *. rewrite wrap_small by lia. lia.
Qed.

Context {P : Type} `{Stage P} `{FrameQueueProvider P}.

(** A channel sent in one batcher transaction reaches the channel reader.
    When the data of the next transaction is the encoding of the frames of a
    channel in order, within the size limits, then whatever channel was being
    assembled before, the calls of the channel reader ask for more data until
    the last frame is taken, which returns the payloads of the channel, and
    both the frame queue and the assembler are empty again. *)
Lemma transaction_to_channel (self : ChannelAssembler.t (FrameQueue.t P)) st o i fs p :
  let config := cfg self in let q := prev self in
  represents st (channel self) -> FrameQueue.queue q = [] ->
  origin (FrameQueue.prev q) = Some o -> origin p = Some o ->
  Pipeline.next_data (FrameQueue.prev q) =
    (Ok (DERIVATION_VERSION_0 :: concat (map Frame.encode fs)), p) ->
  Channel.numbered i fs -> fs <> [] -> Forall Frame.sendable fs -> len fs <= u16_max ->
  sumZ Frame.size fs <= max_rlp_bytes_per_channel config o ->
  0 <= BlockInfo.number o -> 0 <= RollupConfig.channel_timeout config (BlockInfo.timestamp o) ->
  BlockInfo.number o + RollupConfig.channel_timeout config (BlockInfo.timestamp o) <= u64_max ->
  exists self', calls (length fs) next_channel_data self =
      (replicate (pred (length fs)) (Err (temp PipelineError.NotEnoughData)) ++
         [Ok (Some (concat (Frame.data <$> fs)))], self') /\
    channel self' = None /\ prev self' = FrameQueue.mk p [] (FrameQueue.rollup_config q).
Proof.
  intros config q Hst Hq Ho Hop Hdata Hfs Hne Hsend Hl Hsize Hn Ht Hm.
  assert (delivers o q fs (FrameQueue.mk p [] (FrameQueue.rollup_config q))) as Hdel.
  { destruct fs as [|f fs]; [done|]. eapply FrameQueue.load_delivers; [done..| | |].
    - by apply Frame.parse_encoded.
    - unfold u16_max, u64_max in *. lia.
    - by eapply numbered_chained. }
  pose proof (run_refines self o fs _ st Hst Hdel Hsend) as Hrun.
  rewrite (assemble_numbered (cfg self) o i fs [] fs) in Hrun by (done || by left).
  destruct Hrun as (self' & Hcalls & Hst' & Hp). exists self'.
  rewrite fmap_app, fmap_replicate in Hcalls. split; [exact Hcalls|]. split; [|done].
  by destruct (channel self').
Qed.

End Assembly.
