(* ===== verification/Brotlis.v ===== *)
(** * Brotli decompression

    Models [src/crates/consensus/protocol/src/brotli.rs]: the loop that calls the
    streaming decoder of the [brotli] crate and grows the output buffer up to
    the limit.  The decoder itself is a parameter. *)

From S2P Require Import Prelude.

(** [brotli::BrotliResult]. *)
Inductive BrotliResult : Set :=
| ResultSuccess
| NeedsMoreInput
| NeedsMoreOutput
| ResultFailure.

#[global] Instance BrotliResult_eq_dec : EqDecision BrotliResult.
Proof. solve_decision. Defined.

(** The arguments [BrotliDecompressStream] reads and writes. *)
Module StreamIo.

Record t : Type := mk {
  available_in : Z;
  input_offset : Z;
  available_out : Z;
  output_offset : Z;
  output : bytes;
  written : Z
}.

(** The output buffer is filled up to [output_offset] and free after it, and
    [written] counts what was filled. *)
Record wf (io : t) : Prop := {
  wf_offset : 0 <= output_offset io;
  wf_available : 0 <= available_out io;
  wf_split : output_offset io + available_out io = len (output io);
  wf_written : written io = output_offset io
}.

(** The bytes produced so far. *)
Definition produced (io : t) : bytes := take (Z.to_nat (output_offset io)) (output io).

End StreamIo.

(** [brotli::BrotliState] and [brotli::BrotliDecompressStream]. *)
Class BrotliDecoder : Type := {
  BrotliState : Type;
  brotli_state_new : BrotliState;
  BrotliDecompressStream : bytes -> StreamIo.t -> BrotliState -> BrotliResult * StreamIo.t * BrotliState
}.

(** The decoder writes into the free part of the buffer it is given and accounts
    for what it wrote. *)
Class BrotliContract `{BrotliDecoder} : Prop := brotli_stream_wf data io st :
  StreamIo.wf io ->
  let '(_, io', _) := BrotliDecompressStream data io st in
  StreamIo.wf io' /\ len (StreamIo.output io') = len (StreamIo.output io).

(** [decodes data st r]: in the state [st] of decoding the well-formed stream
    [data] the bytes [r] are still to be produced.  A call produces as many of
    them as fit.  It asks for more output space when some are left and succeeds
    when there was space to spare; with the buffer exactly full it may do
    either. *)
Class BrotliFormat `{BrotliContract} : Type := {
  decodes : bytes -> BrotliState -> bytes -> Prop;
  brotli_stream_decodes data io st r :
    decodes data st r -> StreamIo.wf io ->
    let '(res, io', st') := BrotliDecompressStream data io st in
    let n := Z.to_nat (StreamIo.available_out io) in
    StreamIo.produced io' = StreamIo.produced io ++ take n r /\
    decodes data st' (drop n r) /\
    (res = NeedsMoreOutput /\ StreamIo.available_out io <= len r \/
     res = ResultSuccess /\ len r <= StreamIo.available_out io)
}.

Module Brotli.

Section Decompress.
Context `{BrotliDecoder}.

(** [output.resize(new_len, 0); available_out += new_len - old_len]. *)
Definition grow (io : StreamIo.t) (new_len : Z) : StreamIo.t :=
  let old_len := len (StreamIo.output io) in
  StreamIo.mk (StreamIo.available_in io) (StreamIo.input_offset io)
    (u64_add (StreamIo.available_out io) (u64_sub new_len old_len)) (StreamIo.output_offset io)
    (take (Z.to_nat new_len) (StreamIo.output io) ++ zeros (Z.to_nat (new_len - old_len)))
    (StreamIo.written io).

(** The loop.  Every iteration that continues at least doubles the buffer or
    takes it to the limit, so [loop_fuel] iterations are enough for a 64-bit
    limit. *)
Fixpoint decompress_loop (fuel : nat) (data : bytes) (limit : Z) (io : StreamIo.t) (st : BrotliState)
    : result BrotliResult bytes :=
  match fuel with
  | O => Panic
  | S fuel =>
      let '(res, io, st) := BrotliDecompressStream data io st in
      let old_len := len (StreamIo.output io) in
      let done := Ok (take (Z.to_nat (StreamIo.written io)) (StreamIo.output io)) in
      if decide (res = NeedsMoreOutput) then
        if decide (limit <= old_len) then done
        else
          let new_len := Z.min (Z.max (u64_mul old_len 2) 1) limit in
          decompress_loop fuel data limit (grow io new_len) st
      else if decide (StreamIo.written io = 0) then Err res
      else done
  end.

Definition loop_fuel : nat := 66.

(** [Brotli::decompress]; the error is [DecompressionFailed]. *)
Definition decompress (data : bytes) (max_rlp_bytes_per_channel : Z) : result BrotliResult bytes :=
  let output := zeros (Z.to_nat (Z.min (len data) max_rlp_bytes_per_channel)) in
  decompress_loop loop_fuel data max_rlp_bytes_per_channel
    (StreamIo.mk (len data) 0 (len output) 0 output 0) brotli_state_new.

End Decompress.

(** ** Termination and truncation *)

(** The next buffer length. *)
Definition next_len (n limit : Z) : Z := Z.min (Z.max (u64_mul n 2) 1) limit.

(** [fuel] iterations are enough from a buffer of [n] bytes: each one but the
    last doubles [n], or takes it from zero to one. *)
Definition enough (fuel : nat) (n limit : Z) : Prop :=
  exists k : nat, fuel = S k /\ 2 * limit <= Z.max (2 * n) 1 * 2 ^ Z.of_nat k.

Lemma next_len_bounds n limit :
  0 <= n < limit -> 2 * limit <= u64_max -> n < next_len n limit <= limit.
Proof. unfold next_len, u64_mul, u64_max. intros ? ?. rewrite wrap_small by lia. lia. Qed.

Lemma enough_next fuel n limit :
  0 <= n < limit -> 2 * limit <= u64_max -> enough (S fuel) n limit -> enough fuel (next_len n limit) limit.
Proof.
  intros Hn Hl (k & [= ->] & Hk). destruct k as [|k]; [simpl in Hk; lia|]. exists k. split; [done|].
  rewrite Nat2Z.inj_succ, Z.pow_succ_r in Hk by lia.
  assert (1 <= 2 ^ Z.of_nat k) by (pose proof (Z.pow_pos_nonneg 2 (Z.of_nat k)); lia).
  unfold next_len, u64_mul, u64_max in *. rewrite wrap_small by lia. nia.
Qed.

Section Grow.
Context (io : StreamIo.t) (limit : Z).
Hypothesis Hwf : StreamIo.wf io.
Hypothesis Hn : len (StreamIo.output io) < limit.
Hypothesis Hlimit : 2 * limit <= u64_max.

Local Abbreviation grown := (grow io (next_len (len (StreamIo.output io)) limit)).

Lemma grow_bounds : len (StreamIo.output io) < next_len (len (StreamIo.output io)) limit <= limit.
Proof. apply next_len_bounds; [|done]. pose proof (len_nonneg (StreamIo.output io)). lia. Qed.

Lemma grow_len : len (StreamIo.output grown) = next_len (len (StreamIo.output io)) limit.
Proof.
  pose proof grow_bounds. cbn [StreamIo.output grow]. rewrite len_app, len_zeros.
  rewrite take_ge by (unfold len in *; lia). lia.
Qed.

Lemma grow_wf : StreamIo.wf grown.
Proof.
  pose proof grow_bounds. pose proof grow_len as Hg. destruct Hwf as [? ? Hsplit ?].
  split; rewrite ?Hg; cbn [grow StreamIo.output_offset StreamIo.available_out StreamIo.written];
    unfold u64_add, u64_sub, u64_max in *; rewrite ?wrap_small by (rewrite ?wrap_small; lia); lia.
Qed.

Lemma grow_produced : StreamIo.produced grown = StreamIo.produced io.
Proof.
  pose proof grow_bounds. destruct Hwf as [? ? Hsplit ?].
  unfold StreamIo.produced, grow. cbn [StreamIo.output_offset StreamIo.output].
  rewrite (take_ge (StreamIo.output io)) by (unfold len in *; lia).
  apply take_app_le. unfold len in *. lia.
Qed.

End Grow.

Section Laws.
Context `{BrotliContract}.

(** The loop ends and stays within the limit. *)
Lemma loop_bounded fuel data limit io st :
  StreamIo.wf io -> len (StreamIo.output io) <= limit -> 2 * limit <= u64_max ->
  enough fuel (len (StreamIo.output io)) limit ->
  match decompress_loop fuel data limit io st with
  | Ok out => len out <= limit
  | Err res => res <> NeedsMoreOutput
  | Panic => False
  end.
Proof.
  revert io st. induction fuel as [|fuel IH]; intros io st Hwf Hle Hl He; [by destruct He as (k & ? & _)|].
  cbn [decompress_loop]. pose proof (brotli_stream_wf data io st Hwf) as Hs.
  destruct (BrotliDecompressStream data io st) as [[res io'] st']. destruct Hs as [Hwf' Hlen].
  rewrite Hlen. assert (forall n, len (take n (StreamIo.output io')) <= limit).
  { intros n. unfold len in *. rewrite length_take. lia. }
  pose proof (len_nonneg (StreamIo.output io)).
  case_decide; [case_decide; [done|]|by case_decide].
  fold (next_len (len (StreamIo.output io)) limit). rewrite <- Hlen in *.
  apply IH; rewrite ?grow_len by (done || lia); [apply grow_wf; (done || lia) | | done |].
  - apply next_len_bounds; lia.
  - apply enough_next; (done || lia).
Qed.

Lemma start_wf (data : bytes) n :
  StreamIo.wf (StreamIo.mk (len data) 0 (len (zeros n)) 0 (zeros n) 0).
Proof. split; cbn; lia || apply len_nonneg. Qed.

Lemma start_enough n limit : 0 <= n -> 2 * limit <= u64_max -> enough loop_fuel n limit.
Proof. intros Hn Hl. exists 65%nat. split; [done|]. unfold u64_max in Hl. change (2 ^ Z.of_nat 65) with 36893488147419103232. lia. Qed.

Lemma start_len (data : bytes) limit :
  0 <= limit -> len (zeros (Z.to_nat (Z.min (len data) limit))) = Z.min (len data) limit.
Proof. intros Hl. rewrite len_zeros. pose proof (len_nonneg data). lia. Qed.

End Laws.

Lemma produced_len io : StreamIo.wf io -> len (StreamIo.produced io) = StreamIo.output_offset io.
Proof. intros [? ? Hsplit ?]. unfold StreamIo.produced, len in *. rewrite length_take. lia. Qed.

Lemma wf_written_take io :
  StreamIo.wf io -> take (Z.to_nat (StreamIo.written io)) (StreamIo.output io) = StreamIo.produced io.
Proof. intros [? ? ? Hw]. by rewrite Hw. Qed.

Section Format.
Context `{BrotliFormat}.

(** What the loop returns for a well-formed stream of which [r] is left. *)
Lemma loop_decodes fuel data limit io st r :
  decodes data st r -> StreamIo.wf io -> StreamIo.produced io ++ r <> [] ->
  len (StreamIo.output io) <= limit -> 2 * limit <= u64_max ->
  enough fuel (len (StreamIo.output io)) limit ->
  decompress_loop fuel data limit io st = Ok (take (Z.to_nat limit) (StreamIo.produced io ++ r)).
Proof.
  revert io st r. induction fuel as [|fuel IH]; intros io st r Hr Hwf Hne Hle Hl He;
    [by destruct He as (k & ? & _)|].
  cbn [decompress_loop]. pose proof (brotli_stream_wf data io st Hwf) as Hs.
  pose proof (brotli_stream_decodes data io st r Hr Hwf) as Hd.
  destruct (BrotliDecompressStream data io st) as [[res io'] st']. cbn zeta in Hd.
  destruct Hs as [Hwf' Hlen], Hd as (Hp & Hr' & Hres).
  pose proof (produced_len _ Hwf) as Hoff. pose proof (produced_len _ Hwf') as Hoff'.
  assert (StreamIo.produced io ++ r = StreamIo.produced io' ++ drop (Z.to_nat (StreamIo.available_out io)) r) as HT.
  { by rewrite Hp, <- app_assoc, take_drop. }
  pose proof Hoff' as Hoff2. rewrite Hp, len_app in Hoff2. unfold len at 2 in Hoff2. rewrite length_take in Hoff2.
  rewrite HT in Hne |- *. rewrite (wf_written_take _ Hwf'). destruct Hwf as [Ho Ha Hsp Hw].
  destruct Hres as [[-> Hmore]|[-> Hfits]]; cbn [decide].
  - rewrite decide_True by done. rewrite Hlen. case_decide as Hlim.
    + f_equal. symmetry. apply take_app_length'. unfold len in *. lia.
    + fold (next_len (len (StreamIo.output io)) limit). rewrite <- Hlen in *.
      pose proof (len_nonneg (StreamIo.output io')).
      rewrite <- (grow_produced io' limit) by (done || lia).
      apply IH; rewrite ?grow_len, ?grow_produced by (done || lia); try done.
      * apply grow_wf; (done || lia).
      * apply next_len_bounds; lia.
      * apply enough_next; (done || lia).
  - rewrite decide_False by done. rewrite drop_ge, app_nil_r in Hne |- * by (unfold len in *; lia).
    rewrite decide_False.
    + f_equal. symmetry. apply take_ge. unfold len in *. lia.
    + destruct Hwf' as [_ _ _ Hw']. intros Hz. apply Hne, len_zero_nil. lia.
Qed.

End Format.

Section Decompression.
Context `{BrotliFormat}.

(** C28: brotli decompression ends within its fuel for every input and limit,
    never returns more than the limit, and reports an error only for a stream
    that stopped without output.  For a well-formed stream of at least one byte
    it returns the content, cut off at the limit. *)
Theorem brotli_truncates (data : bytes) (limit : Z) :
  0 <= limit -> 2 * limit <= u64_max ->
  match decompress data limit with
  | Ok out => len out <= limit
  | Err res => res <> NeedsMoreOutput
  | Panic => False
  end /\
  (forall r, decodes data brotli_state_new r -> r <> [] ->
     decompress data limit = Ok (take (Z.to_nat limit) r)).
Proof.
  intros Hl Hm. pose proof (len_nonneg data). unfold decompress.
  split; [apply loop_bounded | intros r Hr Hne; rewrite (loop_decodes _ _ _ _ _ r)];
    cbn [StreamIo.output]; try apply start_wf; rewrite ?start_len by done;
    first [done | apply start_enough; lia | lia].
Qed.

End Decompression.

End Brotli.

(** ** A decoder for stored streams

    The stream is its own content: a concrete decoder for which the laws above
    hold. *)
Module Stored.

Definition stored_stream (data : bytes) (io : StreamIo.t) (st : option bytes)
    : BrotliResult * StreamIo.t * option bytes :=
  let r := default data st in
  let n := Z.to_nat (StreamIo.available_out io) in
  let w := take n r in
  ((if decide (len r <= StreamIo.available_out io) then ResultSuccess else NeedsMoreOutput),
   StreamIo.mk (StreamIo.available_in io - len w) (StreamIo.input_offset io + len w)
     (StreamIo.available_out io - len w) (StreamIo.output_offset io + len w)
     (StreamIo.produced io ++ w ++ drop (Z.to_nat (StreamIo.output_offset io) + length w) (StreamIo.output io))
     (StreamIo.written io + len w),
   Some (drop n r)).

#[global] Instance decoder : BrotliDecoder := {|
  BrotliState := option bytes;
  brotli_state_new := None;
  BrotliDecompressStream := stored_stream
|}.

#[global] Instance contract : BrotliContract.
Proof.
  intros data io st [? ? Hsplit ?]. cbn -[len]. set (w := take _ _).
  assert (len w <= StreamIo.available_out io) by (unfold w, len; rewrite length_take; lia).
  pose proof (len_nonneg w).
  match goal with |- context [StreamIo.mk _ _ _ _ ?o _] => assert (len o = len (StreamIo.output io)) as Hlen end.
  { unfold StreamIo.produced, len in *. rewrite !length_app, length_take, length_drop. lia. }
  split; [|done]. split; cbn -[len]; rewrite ?Hlen; lia.
Qed.

#[global] Instance format : BrotliFormat.
Proof.
  refine {| decodes data st r := r = default data st |}.
  intros data io st r -> Hwf. pose proof (Brotli.produced_len io Hwf) as Hp. destruct Hwf as [? ? Hsplit ?].
  cbn -[len]. set (w := take _ _). split; [|split; [done|case_decide; [by right|left; split; [done|lia]]]].
  unfold StreamIo.produced at 1. cbn [StreamIo.output StreamIo.output_offset].
  rewrite app_assoc. apply take_app_length'. rewrite length_app. unfold len in *. lia.
Defined.

End Stored.

(** Ten stored bytes with a limit of three. *)
Lemma brotli_truncates_witness :
  Brotli.decompress (H := Stored.decoder) (zeros 9 ++ [Byte.x01]) 3 = Ok [Byte.x00; Byte.x00; Byte.x00].
Proof.
  apply (proj2 (Brotli.brotli_truncates (H1 := Stored.format) (zeros 9 ++ [Byte.x01]) 3
    ltac:(lia) ltac:(by vm_compute)) (zeros 9 ++ [Byte.x01])); done.
Defined.
