(* ===== verification/BatchReaders.v ===== *)
(** * From channels to batches

    Models the batch codec of [src/crates/consensus/protocol/src/batch/core.rs]
    and [.../batch/type.rs], the reader of [.../batch/reader.rs] that
    decompresses a channel and decodes its batches one after the other, and the
    stage of [src/crates/consensus/derive/src/stages/channel/channel_reader.rs]
    that runs it. *)

From S2P Require Import Prelude Effects Primitives Upgrades SystemConfig Rollup SingleBatches SpanBits SpanTxData SpanTxs CodecModels SpanCodec Pipeline StageModels Brotlis.

(** ** Errors *)

Inductive BatchDecodingError : Type :=
| EmptyBuffer
| AlloyRlpError
| BatchSpanError (e : SpanBatchError)
| InvalidBatchType (val : byte).

Inductive BatchEncodingError : Type :=
| EncodingRlpError
| EncodingSpanError (e : SpanBatchError).

Inductive DecompressionError : Type :=
| EmptyData
| UnsupportedType (ty : byte)
| BrotliError (res : BrotliResult)
| ZlibError.

Inductive BatchReaderError : Type :=
| Decompression (e : DecompressionError)
| ReaderRlp
| ReaderBatch (e : BatchDecodingError).

(** ** The codecs of other crates *)

(** The RLP codec [alloy_rlp] derives for [SingleBatch]. *)
Class SingleBatchRlp : Type := rlp_single : Codec.t SingleBatch.t.

(** [miniz_oxide::inflate::decompress_to_vec_zlib_with_limit]: the output, or an
    error with the output so far and whether more was left
    ([TINFLStatus::HasMoreOutput]). *)
Inductive Inflated : Type :=
| InflateOk (output : bytes)
| InflateErr (has_more_output : bool) (output : bytes).

Class Zlib : Type := decompress_to_vec_zlib_with_limit : bytes -> Z -> Inflated.

(** ** Batches *)

Inductive BatchType : Set := TypeSingle | TypeSpan.

(** [BatchType::SINGLE], [BatchType::SPAN]. *)
Definition SINGLE : byte := Byte.x00.
Definition SPAN : byte := Byte.x01.

(** [BatchType::try_from]. *)
Definition batch_type_try_from (val : byte) : result BatchDecodingError BatchType :=
  if decide (val = SINGLE) then Ok TypeSingle else
  if decide (val = SPAN) then Ok TypeSpan else Err (InvalidBatchType val).

Module BatchCodec.

Section Ops.
Context `{TxTypes} `{!Rlp} `{!Varint} `{!Envelope} `{SingleBatchRlp}.

(** [Batch::timestamp]; a span batch without blocks panics. *)
Definition timestamp (self : Batch) : result Empty_set Z :=
  match self with
  | BatchSingle sb => Ok (SingleBatch.timestamp sb)
  | BatchSpan sb => or_panic (SpanBatch.starting_timestamp sb)
  end.

(** [Batch::decode]. *)
Definition decode (r : bytes) (cfg : RollupConfig.t) : result BatchDecodingError (Batch * bytes) :=
  match r with
  | [] => Err EmptyBuffer
  | ty :: r =>
      batch_type ← batch_type_try_from ty;
      match batch_type with
      | TypeSingle =>
          '(single_batch, r) ← ok_or AlloyRlpError (Codec.decode rlp_single r);
          Ok (BatchSingle single_batch, r)
      | TypeSpan =>
          '(raw_span_batch, r) ← map_err BatchSpanError (RawSpanBatch.decode r);
          span_batch ← map_err BatchSpanError
            (RawSpanBatch.derive raw_span_batch (RollupConfig.block_time cfg)
               (ChainGenesis.l2_time (RollupConfig.genesis cfg)) (RollupConfig.l2_chain_id cfg));
          Ok (BatchSpan span_batch, r)
      end
  end.

(** [Batch::encode]. *)
Definition encode (self : Batch) : result BatchEncodingError bytes :=
  match self with
  | BatchSingle sb => Ok (SINGLE :: Codec.encode rlp_single sb)
  | BatchSpan sb =>
      out ← map_err EncodingSpanError (SpanBatch.encode sb);
      Ok (SPAN :: out)
  end.

(** [SingleBatch::rlp_header]. *)
Definition rlp_header (sb : SingleBatch.t) : RlpHeader.t :=
  RlpHeader.mk false (1 + len (Codec.encode rlp_single sb)).

End Ops.

End BatchCodec.

(** ** The reader *)

Module BatchReader.

Record t : Type := mk {
  data : option bytes;
  decompressed : bytes;
  cursor : Z;
  max_rlp_bytes_per_channel : Z;
  brotli_used : bool;
  brotli_supported : bool
}.

Definition ZLIB_DEFLATE_COMPRESSION_METHOD : Z := 8.
Definition ZLIB_RESERVED_COMPRESSION_METHOD : Z := 15.
Definition CHANNEL_VERSION_BROTLI : Z := 1.

Definition new (data : bytes) (max_rlp_bytes_per_channel : Z) (brotli_supported : bool) : t :=
  mk (Some data) [] 0 max_rlp_bytes_per_channel false brotli_supported.

Definition set_decompressed (out : bytes) (self : t) : t :=
  mk (data self) out (cursor self) (max_rlp_bytes_per_channel self) (brotli_used self)
    (brotli_supported self).
Definition take_data (self : t) : t :=
  mk None (decompressed self) (cursor self) (max_rlp_bytes_per_channel self) (brotli_used self)
    (brotli_supported self).
Definition use_brotli (self : t) : t :=
  mk (data self) (decompressed self) (cursor self) (max_rlp_bytes_per_channel self) true
    (brotli_supported self).
Definition set_cursor (c : Z) (self : t) : t :=
  mk (data self) (decompressed self) c (max_rlp_bytes_per_channel self) (brotli_used self)
    (brotli_supported self).

Section Decompress.
Context `{Zlib} `{BrotliDecoder}.

(** [BatchReader::decompress_zlib]. *)
Definition decompress_zlib (data : bytes) (self : t) : result DecompressionError () * t :=
  match decompress_to_vec_zlib_with_limit data (max_rlp_bytes_per_channel self) with
  | InflateOk decompressed => (Ok (), set_decompressed decompressed self)
  | InflateErr has_more_output output =>
      if has_more_output || negb (bool_decide (output = []))
      then (Ok (), set_decompressed output self)
      else (Err ZlibError, self)
  end.

(** [BatchReader::decompress_brotli]. *)
Definition decompress_brotli (data : bytes) (self : t) : result DecompressionError () * t :=
  let self := use_brotli self in
  match Brotli.decompress (tail data) (max_rlp_bytes_per_channel self) with
  | Ok out => (Ok (), set_decompressed out self)
  | Err e => (Err (BrotliError e), self)
  | Panic => (Panic, self)
  end.

(** [BatchReader::decompress]. *)
Definition decompress (self : t) : result DecompressionError () * t :=
  if decide (decompressed self <> []) then (Ok (), self) else
  let taken := take_data self in
  match data self with
  | None | Some [] => (Err EmptyData, taken)
  | Some ((compression_type :: _) as data) =>
      let method := Z.land (byte.unsigned compression_type) 15 in
      if decide (method = ZLIB_DEFLATE_COMPRESSION_METHOD \/ method = ZLIB_RESERVED_COMPRESSION_METHOD)
      then decompress_zlib data taken
      else if decide (byte.unsigned compression_type = CHANNEL_VERSION_BROTLI /\ brotli_supported self = true)
      then decompress_brotli data taken
      else (Err (UnsupportedType compression_type), taken)
  end.

End Decompress.

Section Read.
Context `{TxTypes} `{!Rlp} `{!Varint} `{!Envelope} `{SingleBatchRlp} `{Zlib} `{BrotliDecoder}.

(** The entry of a channel that starts at [r]: the batch in the byte string, and
    what follows it. *)
Definition read_entry (cfg : RollupConfig.t) (r : bytes) : result BatchReaderError (Batch * bytes) :=
  '(payload, r) ← ok_or ReaderRlp (Codec.decode rlp_bytes r);
  '(batch, _) ← map_err ReaderBatch (BatchCodec.decode payload cfg);
  Ok (batch, r).

(** [BatchReader::next_batch_strict]. *)
Definition next_batch_strict (cfg : RollupConfig.t) (self : t)
    : result BatchReaderError (option Batch) * t :=
  match decompress self with
  | (Err e, self) => (Err (Decompression e), self)
  | (Panic, self) => (Panic, self)
  | (Ok _, self) =>
      let out := decompressed self in
      if decide (len out <= cursor self) then (Ok None, self) else
      match read_entry cfg (drop (Z.to_nat (cursor self)) out) with
      | Ok (batch, rest) => (Ok (Some batch), set_cursor (len out - len rest) self)
      | Err e => (Err e, self)
      | Panic => (Panic, self)
      end
  end.

(** [BatchReader::next_batch]: [.ok().flatten()]. *)
Definition next_batch (cfg : RollupConfig.t) (self : t) : result Empty_set (option Batch) * t :=
  match next_batch_strict cfg self with
  | (Ok b, self) => (Ok b, self)
  | (Err _, self) => (Ok None, self)
  | (Panic, self) => (Panic, self)
  end.

End Read.

End BatchReader.

(** ** The stage *)

Module ChannelReader.

Record t (P : Type) : Type := mk {
  prev : P;
  next_batch : option BatchReader.t;
  cfg : RollupConfig.t
}.
Arguments mk {P}.
Arguments prev {P}.
Arguments next_batch {P}.
Arguments cfg {P}.

Section Reader.
Context {P : Type} `{Stage P} `{ChannelReaderProvider P} `{RuntimeUpgradeRegistry}.
Context `{TxTypes} `{!Rlp} `{!Varint} `{!Envelope} `{SingleBatchRlp} `{Zlib} `{BrotliDecoder}.

Definition set_prev (p : P) (self : t P) : t P := mk p (next_batch self) (cfg self).
Definition set_next_batch (r : option BatchReader.t) (self : t P) : t P := mk (prev self) r (cfg self).

(** [ChannelReader::new]. *)
Definition new (p : P) (c : RollupConfig.t) : t P := mk p None c.

Definition max_rlp_bytes_per_channel (fjord_active : bool) : Z :=
  if fjord_active
  then RollupConfig.MAX_RLP_BYTES_PER_CHANNEL_FJORD
  else RollupConfig.MAX_RLP_BYTES_PER_CHANNEL_BEDROCK.

(** [ChannelReader::set_batch_reader]. *)
Definition set_batch_reader : op (t P) () :=
  reader ← gets next_batch;
  match reader with
  | Some _ => mret ()
  | None =>
      channel ← within prev set_prev next_channel_data;
      channel ← lift (ok_or (temp PipelineError.ChannelReaderEmpty) channel);
      o ← gets (fun self => origin (prev self));
      o ← lift (ok_or (crit PipelineError.MissingOrigin) o);
      c ← gets cfg;
      let fjord_active := RollupConfig.is_fjord_active c (BlockInfo.timestamp o) in
      modify (set_next_batch
        (Some (BatchReader.new channel (max_rlp_bytes_per_channel fjord_active) fjord_active)))
  end.

(** [ChannelReader::next_channel]. *)
Definition next_channel : op (t P) () := modify (set_next_batch None).

(** The part of [next_batch] that uses the reader. *)
Definition read_batch : op (t P) Batch :=
  reader ← gets next_batch;
  match reader with
  | None => lift Panic
  | Some reader =>
      match BatchReader.decompress reader with
      | (Panic, _) => lift Panic
      | (Err _, _) => _ ← next_channel; fail (temp PipelineError.NotEnoughData)
      | (Ok _, reader) =>
          c ← gets cfg;
          match BatchReader.next_batch c reader with
          | (Ok (Some batch), reader) => _ ← modify (set_next_batch (Some reader)); mret batch
          | (Ok None, _) | (Err _, _) => _ ← next_channel; fail (temp PipelineError.NotEnoughData)
          | (Panic, _) => lift Panic
          end
      end
  end.

(** [BatchStreamProvider::next_batch]. *)
Definition reader_next_batch : op (t P) Batch :=
  r ← attempt set_batch_reader;
  match r with
  | inl e => _ ← next_channel; fail e
  | inr _ => read_batch
  end.

#[global] Instance batch_stream_provider : BatchStreamProvider (t P) := {
  stream_next_batch := reader_next_batch;
  stream_flush := set_next_batch None
}.

#[global] Instance stage : Stage (t P) := {
  stage_origin self := origin (prev self);
  stage_advancer := within prev set_prev advance_origin;
  stage_reset := {|
    reset l1_origin c := _ ← within prev set_prev (reset l1_origin c); next_channel;
    activate := _ ← within prev set_prev activate; next_channel;
    flush_channel := next_channel
  |}
}.

End Reader.

(** ** The batches of a channel *)

Section Channel.
Context {P : Type} `{Stage P} `{ChannelReaderProvider P} `{RuntimeUpgradeRegistry}.
Context `{TxTypes} `{!Rlp} `{!RlpLaws} `{!Varint} `{!Envelope} `{SingleBatchRlp} `{Zlib} `{BrotliDecoder}.

(** A channel is a sequence of byte strings, each holding one batch. *)
Definition entries (payloads : list bytes) : bytes := concat (Codec.encode rlp_bytes <$> payloads).

Definition carries (c : RollupConfig.t) (payload : bytes) (b : Batch) : Prop :=
  exists r, BatchCodec.decode payload c = Ok (b, r).

(** No batch can be read at [rest]: the channel ends there or is cut off. *)
Definition unreadable (c : RollupConfig.t) (rest : bytes) : Prop :=
  rest = [] \/ exists e, BatchReader.read_entry c rest = Err e.

(** The reader [r] stands before the entries of [payloads]. *)
Record stands_before (r : BatchReader.t) (payloads : list bytes) (rest : bytes) : Prop := {
  sb_taken : BatchReader.data r = None;
  sb_cursor : 0 <= BatchReader.cursor r <= len (BatchReader.decompressed r);
  sb_left : drop (Z.to_nat (BatchReader.cursor r)) (BatchReader.decompressed r) = entries payloads ++ rest;
  sb_fits : len (BatchReader.decompressed r) < 2 ^ 64
}.

Lemma rlp_bytes_nonempty payload : Codec.encode rlp_bytes payload <> [].
Proof.
  intros He. pose proof (rlp_short_string [] (or_introl eq_refl)) as Hs.
  pose proof (rlp_bytes_law payload (Codec.encode rlp_bytes []) I) as Hp. rewrite He in Hp.
  pose proof (rlp_bytes_law [] [] I) as Hn. rewrite app_nil_r in Hn.
  cbn [app] in Hp. rewrite Hn in Hp by (rewrite Hs; by vm_compute).
  specialize (Hp ltac:(by vm_compute)). injection Hp as <- _. by rewrite He in Hs.
Qed.

(** Decompressing again changes nothing. *)
Lemma decompress_again r :
  BatchReader.decompressed r <> [] -> BatchReader.decompress r = (Ok (), r).
Proof. intros Hr. unfold BatchReader.decompress. by rewrite decide_True. Qed.

Lemma left_len r payloads rest : stands_before r payloads rest ->
  len (BatchReader.decompressed r) - BatchReader.cursor r = len (entries payloads ++ rest).
Proof. intros [_ Hc <- _]. unfold len in *. rewrite length_drop. lia. Qed.

Lemma next_batch_entry c r payload payloads rest b :
  stands_before r (payload :: payloads) rest -> carries c payload b ->
  exists r', BatchReader.next_batch c r = (Ok (Some b), r') /\
    BatchReader.decompress r' = (Ok (), r') /\ stands_before r' payloads rest.
Proof.
  intros Hr [r0 Hb]. pose proof (left_len _ _ _ Hr) as Hlen. destruct Hr as [Ht Hc Hl Hf].
  unfold entries in Hlen, Hl. cbn [fmap list_fmap concat] in Hlen, Hl.
  fold (entries payloads) in Hlen, Hl. rewrite <- app_assoc in Hlen, Hl.
  pose proof (rlp_bytes_nonempty payload) as Hne.
  rewrite len_app in Hlen. pose proof (len_nonneg (entries payloads ++ rest)).
  assert (0 < len (Codec.encode rlp_bytes payload)) by (destruct (Codec.encode _ payload); [done|rewrite len_cons; pose proof (len_nonneg l); lia]).
  assert (BatchReader.decompressed r <> []) as Hd by (intros E; rewrite E, len_nil in Hlen; lia).
  unfold BatchReader.next_batch, BatchReader.next_batch_strict. rewrite decompress_again by done.
  rewrite decide_False by lia. unfold BatchReader.read_entry. rewrite Hl, rlp_bytes_law by (done || lia).
  cbn. rewrite Hb. cbn. eexists. split; [done|]. split; [by apply decompress_again|].
  split; cbn [BatchReader.set_cursor BatchReader.data BatchReader.cursor BatchReader.decompressed]; [done|lia| |done].
  replace (Z.to_nat _) with (Z.to_nat (BatchReader.cursor r) + length (Codec.encode rlp_bytes payload))%nat
    by (unfold len in *; lia).
  by rewrite <- drop_drop, Hl, drop_app_length.
Qed.

Lemma next_batch_end c r rest :
  stands_before r [] rest -> unreadable c rest -> exists r', BatchReader.next_batch c r = (Ok None, r').
Proof.
  intros Hr Hrest. pose proof (left_len _ _ _ Hr) as Hlen. destruct Hr as [Ht Hc Hl Hf].
  change (entries []) with (@nil byte) in *. cbn [app] in *.
  unfold BatchReader.next_batch, BatchReader.next_batch_strict.
  destruct (decide (BatchReader.decompressed r = [])) as [Hd|Hd].
  - unfold BatchReader.decompress. rewrite decide_False by auto. rewrite Ht. by eexists.
  - rewrite decompress_again by done. case_decide as Hend; [by eexists|].
    destruct Hrest as [->|[e He]]; [rewrite len_nil in Hlen; lia|]. rewrite Hl, He. by eexists.
Qed.

(** The stage reads the batches one by one and then lets go of the channel. *)
Lemma read_entries c p payloads bs rest : Forall2 (carries c) payloads bs -> unreadable c rest ->
  forall r0 r, BatchReader.decompress r0 = (Ok (), r) -> stands_before r payloads rest ->
  calls (S (length bs)) reader_next_batch (mk p (Some r0) c) =
    ((Ok <$> bs) ++ [Err (temp PipelineError.NotEnoughData)], mk p None c).
Proof.
  intros Hbs Hrest. induction Hbs as [|payload b payloads bs Hb _ IH]; intros r0 r Hr0 Hr.
  - destruct (next_batch_end c r rest Hr Hrest) as [r' Hn]. cbn [calls length].
    unfold reader_next_batch, set_batch_reader, read_batch, next_channel. run_ops. cbn [next_batch].
    rewrite Hr0. cbn [cfg]. by rewrite Hn.
  - destruct (next_batch_entry c r payload payloads rest b Hr Hb) as (r' & Hn & Hd & Hr').
    specialize (IH r' r' Hd Hr'). cbn [length]. rewrite calls_S.
    assert (reader_next_batch (mk p (Some r0) c) = (Ok b, mk p (Some r') c)) as ->.
    { unfold reader_next_batch, set_batch_reader, read_batch. run_ops. cbn [next_batch].
      rewrite Hr0. cbn [cfg]. by rewrite Hn. }
    by rewrite IH.
Qed.

(** A fresh reader that decompressed its channel stands before all of it. *)
Lemma decompress_new channel limit fjord r :
  BatchReader.decompress (BatchReader.new channel limit fjord) = (Ok (), r) ->
  BatchReader.data r = None /\ BatchReader.cursor r = 0.
Proof.
  unfold BatchReader.decompress, BatchReader.decompress_zlib, BatchReader.decompress_brotli.
  cbn [BatchReader.new BatchReader.decompressed BatchReader.data]. rewrite decide_False by auto.
  destruct channel; [done|].
  repeat (case_match || case_decide); intros [=]; subst; done.
Qed.

Lemma read_channel (self : t P) o channel p payloads bs rest r :
  let fjord := RollupConfig.is_fjord_active (cfg self) (BlockInfo.timestamp o) in
  next_batch self = None ->
  next_channel_data (prev self) = (Ok (Some channel), p) -> origin p = Some o ->
  BatchReader.decompress (BatchReader.new channel (max_rlp_bytes_per_channel fjord) fjord) = (Ok (), r) ->
  BatchReader.decompressed r = entries payloads ++ rest -> len (BatchReader.decompressed r) < 2 ^ 64 ->
  Forall2 (carries (cfg self)) payloads bs -> unreadable (cfg self) rest ->
  calls (S (length bs)) stream_next_batch self =
    ((Ok <$> bs) ++ [Err (temp PipelineError.NotEnoughData)], new p (cfg self)).
Proof.
  intros fjord Hn Hch Ho Hd Hout Hfits Hbs Hrest. destruct (decompress_new _ _ _ _ Hd) as [Hdata Hcursor].
  unfold new. rewrite <- (read_entries (cfg self) p payloads bs rest Hbs Hrest _ r Hd).
  - cbn [stream_next_batch batch_stream_provider]. rewrite !calls_S. unfold reader_next_batch at 1, set_batch_reader.
    run_ops. rewrite Hn, Hch. cbn [ok_or set_prev prev cfg]. rewrite Ho. done.
  - split; rewrite ?Hcursor; [done| |done|done]. pose proof (len_nonneg (BatchReader.decompressed r)). lia.
Qed.


(** C12: the channel reader delivers the batches of a channel in order.  When the
    decompressed channel starts with the encodings of some batches and no batch
    can be read after them, because the channel ends or was cut off at the size
    limit or is corrupt from there on, then the calls of the next stage return
    exactly those batches, and the call after that asks for more data and lets
    go of the channel. *)
Theorem channel_to_batches (self : t P) o channel p payloads bs rest r :
  let fjord := RollupConfig.is_fjord_active (cfg self) (BlockInfo.timestamp o) in
  next_batch self = None ->
  next_channel_data (prev self) = (Ok (Some channel), p) -> origin p = Some o ->
  BatchReader.decompress (BatchReader.new channel (max_rlp_bytes_per_channel fjord) fjord) = (Ok (), r) ->
  BatchReader.decompressed r = entries payloads ++ rest -> len (BatchReader.decompressed r) < 2 ^ 64 ->
  Forall2 (carries (cfg self)) payloads bs -> unreadable (cfg self) rest ->
  calls (S (length bs)) stream_next_batch self =
    ((Ok <$> bs) ++ [Err (temp PipelineError.NotEnoughData)], new p (cfg self)).
Proof. apply read_channel. Qed.

End Channel.

(** A codec for single batches, and a stored format in the place of deflate. *)
Fixpoint model_transactions (n : nat) (r : bytes) : option (list bytes * bytes) :=
  match n with
  | O => Some ([], r)
  | S n => '(tx, r) ← Codec.decode model_bytes r; '(txs, r) ← model_transactions n r; Some (tx :: txs, r)
  end.

Definition model_single : SingleBatchRlp := model_struct
  (fun b => SingleBatch.parent_hash b ++ to_be_bytes 8 (SingleBatch.epoch_num b) ++
     SingleBatch.epoch_hash b ++ to_be_bytes 8 (SingleBatch.timestamp b) ++
     to_be_bytes 8 (len (SingleBatch.transactions b)) ++
     concat (Codec.encode model_bytes <$> SingleBatch.transactions b))
  (fun r =>
     '(parent_hash, r) ← get 32 r; '(epoch_num, r) ← get_uint 8 r; '(epoch_hash, r) ← get 32 r;
     '(timestamp, r) ← get_uint 8 r; '(n, r) ← get_uint 8 r;
     '(transactions, r) ← model_transactions (Z.to_nat n) r;
     Some (SingleBatch.mk parent_hash epoch_num epoch_hash timestamp transactions, r)).

Definition stored_zlib : Zlib := fun data limit =>
  let out := tail data in
  if decide (len out <= limit) then InflateOk out else InflateErr true (take (Z.to_nat limit) out).

Definition sample_payload : bytes := SINGLE :: Codec.encode model_single SingleBatch.sample_batch.

(** A channel with two batches and a cut off third. *)
Definition sample_channel : bytes :=
  Byte.x78 :: concat (Codec.encode model_bytes <$> [sample_payload; sample_payload]) ++ [Byte.x80].

Lemma sample_carried :
  @carries plain_types model_rlp leb128 model_envelope model_single RollupConfig.default sample_payload
    (BatchSingle SingleBatch.sample_batch).
Proof. exists []. vm_compute. reflexivity. Qed.

Lemma sample_unreadable :
  @unreadable plain_types model_rlp leb128 model_envelope model_single RollupConfig.default [Byte.x80].
Proof. right. eexists. vm_compute. reflexivity. Qed.

Lemma channel_to_batches_witness :
  let self := new (Script.mk (Some BlockInfo.default) [Ok (Some sample_channel)]) RollupConfig.default in
  calls 3 (@stream_next_batch _ (@batch_stream_provider _ Script.stage Script.channels (∅ : Registry.t)
      plain_types model_rlp leb128 model_envelope model_single stored_zlib Stored.decoder)) self =
    ([Ok (BatchSingle SingleBatch.sample_batch); Ok (BatchSingle SingleBatch.sample_batch);
      Err (temp PipelineError.NotEnoughData)],
     new (Script.mk (Some BlockInfo.default) []) RollupConfig.default).
Proof.
  intros self.
  apply (@channel_to_batches _ Script.stage Script.channels (∅ : Registry.t) plain_types model_rlp
    model_rlp_laws leb128 model_envelope model_single stored_zlib Stored.decoder self BlockInfo.default
    sample_channel (Script.mk (Some BlockInfo.default) []) [sample_payload; sample_payload]
    [BatchSingle SingleBatch.sample_batch; BatchSingle SingleBatch.sample_batch] [Byte.x80]
    (BatchReader.mk None (tail sample_channel) 0 RollupConfig.MAX_RLP_BYTES_PER_CHANNEL_BEDROCK false false)).
  - reflexivity.
  - reflexivity.
  - reflexivity.
  - vm_compute; reflexivity.
  - vm_compute; reflexivity.
  - vm_compute; reflexivity.
  - constructor; [exact sample_carried|]. constructor; [exact sample_carried|constructor].
  - exact sample_unreadable.
Defined.

End ChannelReader.
