(* ===== verification/Compressors.v ===== *)
(** * Channel compression

    Models [src/crates/batcher/comp/src]: the Brotli levels and the compression
    of a whole channel ([types.rs], [brotli.rs]), and the incremental compressor
    of a channel ([stream.rs]).  The encoder of the [brotli] crate is a
    parameter. *)

From S2P Require Import Prelude Effects Brotlis.

(** ** Errors and levels *)

(** [CompressionError]; the [std::io::Error] is given by its text. *)
Inductive CompressionError : Type :=
| BrotliFailed (error : string).

Inductive BrotliLevel : Set :=
| Brotli0 | Brotli1 | Brotli2 | Brotli3 | Brotli4 | Brotli5
| Brotli6 | Brotli7 | Brotli8 | Brotli9 | Brotli10 | Brotli11.

(** The encoder of the [brotli] crate: the one-shot [BrotliCompress] with a
    quality, and the writer that passes its output on to a [Vec<u8>]. *)
Class BrotliEncoder : Type := {
  BrotliCompress : bytes -> Z -> result string bytes;
  BrotliEncoderMaxCompressedSize : Z -> Z;
  CompressorWriter : Type;
  writer_new : bytes -> Z -> Z -> Z -> CompressorWriter;
  write_all : bytes -> eff string CompressorWriter ();
  writer_flush : eff string CompressorWriter ();
  get_ref : CompressorWriter -> bytes;
  set_inner : bytes -> CompressorWriter -> CompressorWriter;
  into_inner : CompressorWriter -> bytes
}.

Module Level.

(** [BrotliLevel::DEFAULT], [CHANNEL_VERSION]. *)
Definition DEFAULT : BrotliLevel := Brotli9.
Definition CHANNEL_VERSION : byte := Byte.x01.

(** [BrotliLevel::as_u32], [from_u8]. *)
Definition as_u32 (self : BrotliLevel) : Z :=
  match self with
  | Brotli0 => 0 | Brotli1 => 1 | Brotli2 => 2 | Brotli3 => 3 | Brotli4 => 4 | Brotli5 => 5
  | Brotli6 => 6 | Brotli7 => 7 | Brotli8 => 8 | Brotli9 => 9 | Brotli10 => 10 | Brotli11 => 11
  end.

Definition from_u8 (quality : Z) : option BrotliLevel :=
  match quality with
  | 0 => Some Brotli0 | 1 => Some Brotli1 | 2 => Some Brotli2 | 3 => Some Brotli3
  | 4 => Some Brotli4 | 5 => Some Brotli5 | 6 => Some Brotli6 | 7 => Some Brotli7
  | 8 => Some Brotli8 | 9 => Some Brotli9 | 10 => Some Brotli10 | 11 => Some Brotli11
  | _ => None
  end.

Section Compress.
Context `{BrotliEncoder}.

(** [BrotliCompressor::compress]. *)
Definition compress (input : bytes) (level : BrotliLevel) : result string bytes :=
  BrotliCompress input (as_u32 level).

(** [BrotliLevel::compress_channel]. *)
Definition compress_channel (self : BrotliLevel) (input : bytes) : result CompressionError bytes :=
  compressed ← map_err BrotliFailed (compress input self);
  Ok (CHANNEL_VERSION :: compressed).

End Compress.

End Level.

(** ** The stream of a channel *)

Module CompressionStream.

Definition BROTLI_BUFFER_SIZE : Z := 4096.
Definition BROTLI_LGWIN : Z := 22.
Definition FLUSH_OVERHEAD : Z := 6.

Section Stream.
Context `{BrotliEncoder}.

Record t : Type := mk {
  compressor : CompressorWriter;
  output_size : Z;
  flush_interval : option Z;
  unflushed_input : Z
}.

Definition set_compressor (w : CompressorWriter) (self : t) : t :=
  mk w (output_size self) (flush_interval self) (unflushed_input self).
Definition set_output_size (n : Z) (self : t) : t :=
  mk (compressor self) n (flush_interval self) (unflushed_input self).
Definition set_unflushed_input (n : Z) (self : t) : t :=
  mk (compressor self) (output_size self) (flush_interval self) n.

(** [CompressionStream::new]. *)
Definition new (level : BrotliLevel) (flush_interval : option Z) : t :=
  mk (writer_new [Level.CHANNEL_VERSION] BROTLI_BUFFER_SIZE (Level.as_u32 level) BROTLI_LGWIN) 0 flush_interval 0.

(** A call on the writer, with its error converted by [?]. *)
Definition on_writer {A} (m : eff string CompressorWriter A) : eff CompressionError t A := fun self =>
  let '(r, w) := m (compressor self) in (map_err BrotliFailed r, set_compressor w self).

(** [CompressionStream::append]. *)
Definition append (input : bytes) : eff CompressionError t bytes :=
  _ ← on_writer (write_all input);
  _ ← modify (fun self => set_unflushed_input (u64_add (unflushed_input self) (len input)) self);
  due ← gets (fun self =>
    match flush_interval self with
    | None => false
    | Some interval => bool_decide (interval <= unflushed_input self)
    end);
  _ ← (if due : bool
       then (_ ← on_writer writer_flush; modify (set_unflushed_input 0))
       else mret ());
  output ← gets (fun self => get_ref (compressor self));
  _ ← modify (fun self => set_compressor (set_inner [] (compressor self)) self);
  _ ← modify (fun self => set_output_size (u64_add (output_size self) (len output)) self);
  mret output.

(** [CompressionStream::max_output_size]; the interval is not zero. *)
Definition max_output_size (self : t) (input_size : Z) : Z :=
  let max_flushes := match flush_interval self with None => 0 | Some interval => input_size / interval end in
  u64_saturating_add
    (u64_saturating_add (BrotliEncoderMaxCompressedSize input_size)
       (u64_saturating_mul max_flushes FLUSH_OVERHEAD)) 1.

(** [CompressionStream::finish]. *)
Definition finish (self : t) : bytes := into_inner (compressor self).

End Stream.

Arguments t {_}.

End CompressionStream.

(** ** What the encoder promises *)

(** [wrote w out input n]: so far the writer [w] was given [input], emitted the
    compressed bytes [out] for it, and was flushed [n] times.  Its output only
    ever grows; [into_inner] completes it to a stream that decodes to the input
    and has at most the documented size, plus 6 bytes per flush: the bound on a
    flush is the one that the comment on [CompressionStream::FLUSH_OVERHEAD] states
    of the encoder. *)
Class BrotliEncoderLaws `{BrotliEncoder} `{BrotliFormat} : Type := {
  max_compressed_size_usize n : is_u64 (BrotliEncoderMaxCompressedSize n);
  max_compressed_size_empty : BrotliEncoderMaxCompressedSize 0 = 2;
  wrote : CompressorWriter -> bytes -> bytes -> Z -> Prop;
  wrote_new inner size quality lgwin :
    get_ref (writer_new inner size quality lgwin) = inner /\ wrote (writer_new inner size quality lgwin) [] [] 0;
  wrote_write w out input n data w' :
    wrote w out input n -> write_all data w = (Ok (), w') ->
    exists emitted, get_ref w' = get_ref w ++ emitted /\ wrote w' (out ++ emitted) (input ++ data) n;
  wrote_flush w out input n w' :
    wrote w out input n -> writer_flush w = (Ok (), w') ->
    exists emitted, get_ref w' = get_ref w ++ emitted /\ wrote w' (out ++ emitted) input (n + 1);
  wrote_set_inner w out input n inner :
    wrote w out input n -> get_ref (set_inner inner w) = inner /\ wrote (set_inner inner w) out input n;
  wrote_into_inner w out input n :
    wrote w out input n ->
    exists emitted, into_inner w = get_ref w ++ emitted /\ decodes (out ++ emitted) brotli_state_new input /\
      (is_u64 (len input) -> len (out ++ emitted) <= BrotliEncoderMaxCompressedSize (len input) + 6 * n)
}.

(** ** The chunks of a stream form one compressed channel *)

Module StreamProofs.
Import CompressionStream.

Section Laws.
Context `{BrotliEncoderLaws}.

(** [s] was given [input] and returned [out]: what it returned and what is left
    in the writer is the version byte and the compressed bytes so far, and every
    flush came after an interval of input of its own. *)
Definition streams (s : t) (out input : bytes) : Prop :=
  exists c n, wrote (compressor s) c input n /\ out ++ get_ref (compressor s) = Level.CHANNEL_VERSION :: c /\
    0 <= n /\ 0 <= unflushed_input s /\
    match flush_interval s with
    | None => n = 0
    | Some interval => 0 < interval /\ n * interval + unflushed_input s <= len input
    end.

Lemma new_streams level interval :
  (forall i, interval = Some i -> 0 < i) -> streams (new level interval) [] [].
Proof.
  intros Hi. unfold new. destruct (wrote_new [Level.CHANNEL_VERSION] BROTLI_BUFFER_SIZE (Level.as_u32 level) BROTLI_LGWIN)
    as [Hr Hw]. exists [], 0. cbn [compressor unflushed_input flush_interval]. rewrite Hr.
  split_and!; [done..|]. destruct interval as [i|]; [|done]. rewrite len_nil. specialize (Hi i eq_refl). lia.
Qed.

Lemma u64_add_le a b : 0 <= a + b -> 0 <= u64_add a b <= a + b.
Proof. intros Hab. unfold u64_add, wrap. split; [apply Z.mod_pos_bound; lia|apply Z.mod_le; lia]. Qed.

Lemma append_streams s s' data o out input :
  append data s = (Ok o, s') -> streams s out input ->
  streams s' (out ++ o) (input ++ data) /\ flush_interval s' = flush_interval s /\
  output_size s' = u64_add (output_size s) (len o).
Proof.
  intros Ha (c & n & Hw & Hout & Hn & Hu & Hi). unfold append, on_writer in Ha. run_ops.
  destruct (write_all data (compressor s)) as [[[]|e|] w1] eqn:Hwrite; cbn [map_err] in Ha; [|done..].
  destruct (wrote_write _ _ _ _ _ _ Hw Hwrite) as (e1 & Hr1 & Hw1).
  cbn [set_compressor set_unflushed_input flush_interval unflushed_input compressor output_size] in Ha.
  pose proof (len_nonneg data). pose proof (u64_add_le (unflushed_input s) (len data) ltac:(lia)) as Hadd.
  match goal with H : context [if ?b then _ else _] |- _ => destruct b eqn:Hdue end.
  - cbn [set_compressor set_unflushed_input flush_interval unflushed_input compressor output_size] in Ha.
    destruct (writer_flush w1) as [[[]|e|] w2] eqn:Hflush; cbn [map_err] in Ha; [|done..].
    destruct (wrote_flush _ _ _ _ _ Hw1 Hflush) as (e2 & Hr2 & Hw2). injection Ha as <- <-.
    cbn [set_compressor set_unflushed_input set_output_size flush_interval unflushed_input compressor output_size].
    split; [|done]. destruct (wrote_set_inner _ _ _ _ [] Hw2) as [Hr3 Hw3].
    exists ((c ++ e1) ++ e2), (n + 1). unfold set_output_size, set_compressor, set_unflushed_input.
    cbn [flush_interval unflushed_input compressor]. rewrite Hr3. split_and!; [done| |lia|done|].
    + rewrite app_nil_r, Hr2, Hr1, !app_assoc, Hout. done.
    + destruct (flush_interval s) as [i|]; [|done]. apply bool_decide_eq_true in Hdue. rewrite len_app. lia.
  - injection Ha as <- <-. split; [|done]. destruct (wrote_set_inner _ _ _ _ [] Hw1) as [Hr3 Hw3].
    exists (c ++ e1), n. unfold set_output_size, set_compressor, set_unflushed_input.
    cbn [flush_interval unflushed_input compressor]. rewrite Hr3. split_and!; [done| |lia|lia|].
    + rewrite app_nil_r, Hr1, !app_assoc, Hout. done.
    + destruct (flush_interval s) as [i|]; [|done]. rewrite len_app. lia.
Qed.

Lemma finish_streams s out input :
  streams s out input ->
  exists c, out ++ finish s = Level.CHANNEL_VERSION :: c /\ decodes c brotli_state_new input /\
    (is_u64 (len input) -> max_output_size s (len input) < u64_max ->
     len (out ++ finish s) <= max_output_size s (len input)).
Proof.
  intros (c & n & Hw & Hout & Hn & Hu & Hi). destruct (wrote_into_inner _ _ _ _ Hw) as (e & He & Hd & Hl).
  exists (c ++ e). unfold finish. rewrite He, app_assoc, Hout. split_and!; [done|done|]. intros Hin%Hl.
  unfold max_output_size, u64_saturating_add, u64_saturating_mul, FLUSH_OVERHEAD, u64_max.
  change ((Level.CHANNEL_VERSION :: c) ++ e) with (Level.CHANNEL_VERSION :: (c ++ e)). rewrite len_cons.
  assert (n <= match flush_interval s with None => 0 | Some interval => len input / interval end) as Hf.
  { destruct (flush_interval s) as [i|]; [|lia]. apply Z.div_le_lower_bound; lia. }
  pose proof (max_compressed_size_usize (len input)). lia.
Qed.

Lemma appends_stream datas : forall s s' outs out input,
  run_all (append <$> datas) s = (Ok <$> outs, s') -> streams s out input ->
  streams s' (out ++ concat outs) (input ++ concat datas).
Proof.
  induction datas as [|d datas IH]; intros s s' outs out input Hrun Hs.
  - cbn in Hrun. destruct outs; [|done]. injection Hrun as <-. cbn. by rewrite !app_nil_r.
  - rewrite fmap_cons in Hrun. cbn [run_all] in Hrun. destruct (append d s) as [r s1] eqn:Ha.
    destruct (run_all (append <$> datas) s1) as [rs s2] eqn:Hr. destruct outs as [|o outs]; [done|].
    rewrite fmap_cons in Hrun. injection Hrun as -> -> ->.
    destruct (append_streams _ _ _ _ _ _ Ha Hs) as [Hs1 _]. cbn [concat]. rewrite !app_assoc.
    by apply (IH s1).
Qed.

(** The pieces that a compression stream returns for its inputs and at the
    end form one channel: the version byte and a Brotli stream that decodes to
    the inputs, not longer than the bound the stream announces, however the
    input is cut and whatever the flush interval. *)
Theorem stream_is_channel level interval datas outs s :
  (forall i, interval = Some i -> 0 < i) ->
  run_all (append <$> datas) (new level interval) = (Ok <$> outs, s) ->
  exists c, concat outs ++ finish s = Level.CHANNEL_VERSION :: c /\ decodes c brotli_state_new (concat datas) /\
    (is_u64 (len (concat datas)) -> max_output_size s (len (concat datas)) < u64_max ->
     len (concat outs ++ finish s) <= max_output_size s (len (concat datas))).
Proof.
  intros Hi Hrun. apply finish_streams. apply (appends_stream _ _ _ _ [] [] Hrun). by apply new_streams.
Qed.

End Laws.

End StreamProofs.

(** ** An encoder for stored streams

    The stream is its own content; the writer holds the last input back until
    the next one or a flush. *)
Module StoredEncoder.

Record writer : Type := mk { inner : bytes; pending : bytes }.

Definition hand_over (next : bytes) : eff string writer () := fun w => (Ok (), mk (inner w ++ pending w) next).

#[global] Instance encoder : BrotliEncoder := {|
  BrotliCompress input _ := Ok input;
  BrotliEncoderMaxCompressedSize n := Z.max 2 (Z.min n u64_max);
  CompressorWriter := writer;
  writer_new sink _ _ _ := mk sink [];
  write_all := hand_over;
  writer_flush := hand_over [];
  get_ref := inner;
  set_inner sink w := mk sink (pending w);
  into_inner w := inner w ++ pending w
|}.

#[global] Instance encoder_laws : BrotliEncoderLaws (H0 := Stored.decoder).
Proof.
  refine {| wrote w out input n := out ++ pending w = input /\ 0 <= n |}.
  - intros n. cbn. unfold u64_max. lia.
  - done.
  - done.
  - intros w out input n data w' [Hw ?] [= <-]. exists (pending w). cbn. by rewrite Hw.
  - intros w out input n w' [Hw ?] [= <-]. exists (pending w). cbn. rewrite app_nil_r. split; [done|]. split; [done|lia].
  - intros w out input n sink [Hw ?]. done.
  - intros w out input n [Hw ?]. exists (pending w). rewrite Hw. split_and!; [done|done|].
    cbn -[len]. lia.
Defined.

End StoredEncoder.

(** Three inputs with a flush after every two bytes. *)
Lemma stream_is_channel_witness :
  let datas := [[Byte.x0a]; [Byte.x0b; Byte.x0c]; [Byte.x0d]] in
  let run := run_all (CompressionStream.append (H := StoredEncoder.encoder) <$> datas)
    (CompressionStream.new Level.DEFAULT (Some 2)) in
  run.1 = [Ok [Byte.x01]; Ok [Byte.x0a; Byte.x0b; Byte.x0c]; Ok []] /\
  exists c, [Byte.x01; Byte.x0a; Byte.x0b; Byte.x0c] ++ CompressionStream.finish run.2 = Level.CHANNEL_VERSION :: c /\
    decodes c brotli_state_new (concat datas).
Proof.
  intros datas run. split; [reflexivity|].
  destruct (StreamProofs.stream_is_channel (H := StoredEncoder.encoder) (H0 := Stored.decoder) Level.DEFAULT (Some 2)
    datas [[Byte.x01]; [Byte.x0a; Byte.x0b; Byte.x0c]; []] run.2) as (c & Hc & Hd & _).
  - intros i [= <-]. done.
  - reflexivity.
  - exists c. split; [exact Hc|exact Hd].
Defined.
