(* ===== verification/EncoderChannels.v ===== *)
(** * The channels of the batcher

    Models [src/crates/batcher/encoder/src/config.rs] (the configuration of the
    encoder and its validation) and [.../encoder/src/channel.rs]: a channel that
    accepts batches, compresses them, and is cut into frames. *)

From S2P Require Import Prelude Effects Primitives Frames Channels Blobs Upgrades SystemConfig Rollup SingleBatches SpanBits SpanTxData SpanTxs CodecModels SpanCodec Pipeline Brotlis BatchReaders Compressors.

(** ** Configuration *)

Inductive DaType : Set := DaBlob | DaCalldata.

#[global] Instance DaType_eq_dec : EqDecision DaType.
Proof. solve_decision. Defined.

Inductive EncoderConfigError : Type :=
| SafetyMarginTooLarge (sub_safety_margin max_channel_duration : Z)
| FrameSizeTooSmall (max_frame_size min_frame_size : Z)
| FrameSizeTooLarge (max_frame_size max_protocol_frame_size : Z)
| CompressedTargetZero
| MaxBlobsPerTxZero
| TooManyBlobsPerTx (configured maximum : Z)
| FrameExceedsBlobPackingLimit (max_frame_size max_blob_frame_size : Z)
| BrotliRequiresFjord (next_l2_timestamp : Z)
| ChannelDurationExceedsTimeout
    (max_channel_duration sub_safety_margin effective_channel_duration channel_timeout : Z).

Module EncoderConfig.

Record t : Type := mk {
  compressed_size_target : option Z;
  max_frame_size : Z;
  max_channel_duration : Z;
  sub_safety_margin : Z;
  max_blobs_per_tx : Z;
  da_type : DaType;
  brotli_level : BrotliLevel
}.

Definition MAX_BLOBS_PER_TX : Z := 6.

Definition default : t := mk None MAX_BLOB_FRAME_SIZE 2 0 6 DaBlob Level.DEFAULT.

(** [EncoderConfig::validate]. *)
Definition validate (self : t) : result EncoderConfigError () :=
  let min_frame_size := Frame.ENCODED_OVERHEAD + 1 in
  let max_protocol_frame_size := Frame.ENCODED_OVERHEAD + Frame.MAX_LEN in
  if decide (max_channel_duration self <= sub_safety_margin self)
  then Err (SafetyMarginTooLarge (sub_safety_margin self) (max_channel_duration self))
  else if decide (max_frame_size self < min_frame_size)
  then Err (FrameSizeTooSmall (max_frame_size self) min_frame_size)
  else if decide (max_protocol_frame_size < max_frame_size self)
  then Err (FrameSizeTooLarge (max_frame_size self) max_protocol_frame_size)
  else if decide (compressed_size_target self = Some 0) then Err CompressedTargetZero
  else if decide (max_blobs_per_tx self = 0) then Err MaxBlobsPerTxZero
  else if decide (MAX_BLOBS_PER_TX < max_blobs_per_tx self)
  then Err (TooManyBlobsPerTx (max_blobs_per_tx self) MAX_BLOBS_PER_TX)
  else if decide (MAX_BLOB_FRAME_SIZE < max_frame_size self)
  then Err (FrameExceedsBlobPackingLimit (max_frame_size self) MAX_BLOB_FRAME_SIZE)
  else Ok ().

Section Rollup.
Context `{RuntimeUpgradeRegistry}.

(** [EncoderConfig::confirmation_channel_timeout]. *)
Definition confirmation_channel_timeout (rollup_config : RollupConfig.t) : Z :=
  let pre_granite := RollupConfig.channel_timeout rollup_config 0 in
  let post_granite := RollupConfig.channel_timeout rollup_config u64_max in
  if decide (pre_granite = 0) then post_granite
  else if decide (post_granite = 0) then pre_granite
  else Z.min pre_granite post_granite.

(** [EncoderConfig::validate_for_rollup_config]. *)
Definition validate_for_rollup_config (self : t) (rollup_config : RollupConfig.t) (next_l2_timestamp : Z)
    : result EncoderConfigError () :=
  _ ← validate self;
  if negb (RollupConfig.is_fjord_active rollup_config next_l2_timestamp)
  then Err (BrotliRequiresFjord next_l2_timestamp)
  else
    let channel_timeout := confirmation_channel_timeout rollup_config in
    let effective_channel_duration := u64_sub (max_channel_duration self) (sub_safety_margin self) in
    if decide (0 < channel_timeout /\ channel_timeout <= effective_channel_duration)
    then Err (ChannelDurationExceedsTimeout (max_channel_duration self) (sub_safety_margin self)
           effective_channel_duration channel_timeout)
    else Ok ().

End Rollup.

End EncoderConfig.

(** ** Channels *)

Inductive ChannelLimit : Type :=
| RlpBytes (required maximum : Z)
| FrameCount (required maximum : Z)
| AssembledBytes (required maximum : Z).

Inductive ChannelAddOutcome : Type :=
| Accepted
| TargetReached
| Rejected (limit : ChannelLimit).

Inductive ChannelCloseReason : Set := SoftTarget | ProtocolLimit | Timeout | Flush.

Inductive ChannelError : Type :=
| Compression (e : CompressionError)
| ChannelClosed
| OutputUnderflow (requested available : Z)
| TooManyFrames (frame_count maximum : Z)
| InvalidTerminalTransition.

(** Rust's [div_ceil], which panics on a zero divisor. *)
Definition checked_div_ceil (a b : Z) : option Z := if decide (b = 0) then None else Some (div_ceil a b).

(** The loop of [Channel::take_output]: the bytes cut off and the chunks left.
    A chunk that is longer than what remains ends the loop. *)
Fixpoint take_chunks (output : list bytes) (remaining : Z) (acc : bytes) : option (bytes * list bytes) :=
  if decide (0 < remaining) then
    match output with
    | [] => None
    | chunk :: output =>
        let consumed := Z.min remaining (len chunk) in
        let acc := acc ++ take (Z.to_nat consumed) chunk in
        if decide (consumed < len chunk)
        then Some (acc, drop (Z.to_nat consumed) chunk :: output)
        else take_chunks output (remaining - consumed) acc
    end
  else Some (acc, output).

Module EncoderChannel.

(** [Channel::MAX_FRAMES]. *)
Definition MAX_FRAMES : Z := u16_max.

(** [Channel::flush_interval]. *)
Definition flush_interval_of (target : Z) : option Z :=
  let n := div_ceil target 4 in if decide (n = 0) then None else Some n.

Section Data.
Context `{BrotliEncoder}.

Record t : Type := mk {
  id : bytes;
  rollup_config : RollupConfig.t;
  compressor : option CompressionStream.t;
  output : list bytes;
  available_output : Z;
  compressed_bytes : Z;
  max_frame_size : Z;
  compressed_size_target : option Z;
  input_bytes : Z;
  candidate_scratch : bytes;
  block_start : Z;
  blocks_added : Z;
  da_backlog_bytes : Z;
  opened_l1_block : Z;
  deadline_l1_block : Z;
  next_frame_number : Z;
  terminal_pending : bool;
  first_confirmed_l1_block : option Z;
  last_confirmed_l1_block : option Z
}.

Definition set_compressor (c : option CompressionStream.t) (s : t) : t :=
  mk (id s) (rollup_config s) c (output s) (available_output s) (compressed_bytes s) (max_frame_size s)
    (compressed_size_target s) (input_bytes s) (candidate_scratch s) (block_start s) (blocks_added s)
    (da_backlog_bytes s) (opened_l1_block s) (deadline_l1_block s) (next_frame_number s) (terminal_pending s)
    (first_confirmed_l1_block s) (last_confirmed_l1_block s).
Definition set_output (o : list bytes) (available compressed : Z) (s : t) : t :=
  mk (id s) (rollup_config s) (compressor s) o available compressed (max_frame_size s)
    (compressed_size_target s) (input_bytes s) (candidate_scratch s) (block_start s) (blocks_added s)
    (da_backlog_bytes s) (opened_l1_block s) (deadline_l1_block s) (next_frame_number s) (terminal_pending s)
    (first_confirmed_l1_block s) (last_confirmed_l1_block s).
Definition set_candidate_scratch (b : bytes) (s : t) : t :=
  mk (id s) (rollup_config s) (compressor s) (output s) (available_output s) (compressed_bytes s) (max_frame_size s)
    (compressed_size_target s) (input_bytes s) b (block_start s) (blocks_added s)
    (da_backlog_bytes s) (opened_l1_block s) (deadline_l1_block s) (next_frame_number s) (terminal_pending s)
    (first_confirmed_l1_block s) (last_confirmed_l1_block s).
Definition set_accepted (input added backlog : Z) (s : t) : t :=
  mk (id s) (rollup_config s) (compressor s) (output s) (available_output s) (compressed_bytes s) (max_frame_size s)
    (compressed_size_target s) input (candidate_scratch s) (block_start s) added
    backlog (opened_l1_block s) (deadline_l1_block s) (next_frame_number s) (terminal_pending s)
    (first_confirmed_l1_block s) (last_confirmed_l1_block s).
Definition set_blocks (start added : Z) (s : t) : t :=
  mk (id s) (rollup_config s) (compressor s) (output s) (available_output s) (compressed_bytes s) (max_frame_size s)
    (compressed_size_target s) (input_bytes s) (candidate_scratch s) start added
    (da_backlog_bytes s) (opened_l1_block s) (deadline_l1_block s) (next_frame_number s) (terminal_pending s)
    (first_confirmed_l1_block s) (last_confirmed_l1_block s).
Definition set_deadline_l1_block (d : Z) (s : t) : t :=
  mk (id s) (rollup_config s) (compressor s) (output s) (available_output s) (compressed_bytes s) (max_frame_size s)
    (compressed_size_target s) (input_bytes s) (candidate_scratch s) (block_start s) (blocks_added s)
    (da_backlog_bytes s) (opened_l1_block s) d (next_frame_number s) (terminal_pending s)
    (first_confirmed_l1_block s) (last_confirmed_l1_block s).
Definition set_framing (number : Z) (pending : bool) (s : t) : t :=
  mk (id s) (rollup_config s) (compressor s) (output s) (available_output s) (compressed_bytes s) (max_frame_size s)
    (compressed_size_target s) (input_bytes s) (candidate_scratch s) (block_start s) (blocks_added s)
    (da_backlog_bytes s) (opened_l1_block s) (deadline_l1_block s) number pending
    (first_confirmed_l1_block s) (last_confirmed_l1_block s).
Definition set_confirmed (first last : option Z) (s : t) : t :=
  mk (id s) (rollup_config s) (compressor s) (output s) (available_output s) (compressed_bytes s) (max_frame_size s)
    (compressed_size_target s) (input_bytes s) (candidate_scratch s) (block_start s) (blocks_added s)
    (da_backlog_bytes s) (opened_l1_block s) (deadline_l1_block s) (next_frame_number s) (terminal_pending s)
    first last.

(** ** Queries *)

Definition is_open (self : t) : bool := bool_decide (is_Some (compressor self)).
Definition is_empty (self : t) : bool := bool_decide (blocks_added self = 0).
Definition max_frame_data (self : t) : Z := u64_sub (max_frame_size self) Frame.ENCODED_OVERHEAD.
Definition deadline_due (self : t) (l1_head : Z) : bool := bool_decide (deadline_l1_block self <= l1_head).
Definition block_range (self : t) : Z * Z := (block_start self, u64_add (block_start self) (blocks_added self)).
Definition framing_complete (self : t) : bool := negb (is_open self) && negb (terminal_pending self).
Definition frame_count (self : t) : Z := next_frame_number self.

(** ** Small transitions *)

(** [Channel::new]. *)
Definition new (id : bytes) (rollup_config : RollupConfig.t) (config : EncoderConfig.t)
    (block_start opened_l1_block : Z) : result EncoderConfigError t :=
  _ ← EncoderConfig.validate config;
  let duration_blocks :=
    u64_saturating_sub (EncoderConfig.max_channel_duration config) (EncoderConfig.sub_safety_margin config) in
  Ok (mk id rollup_config
        (Some (CompressionStream.new (EncoderConfig.brotli_level config)
                 (EncoderConfig.compressed_size_target config ≫= flush_interval_of)))
        [] 0 0 (EncoderConfig.max_frame_size config) (EncoderConfig.compressed_size_target config) 0 []
        block_start 0 0 opened_l1_block (u64_saturating_add opened_l1_block duration_blocks) 0 false None None).

(** [Channel::release_at]. *)
Definition release_at (l1_head : Z) (self : t) : t :=
  set_deadline_l1_block (Z.min (deadline_l1_block self) l1_head) self.

(** [Channel::record_confirmation]. *)
Definition record_confirmation (l1_block : Z) (self : t) : t :=
  set_confirmed
    (Some (match first_confirmed_l1_block self with None => l1_block | Some first => Z.min first l1_block end))
    (Some (match last_confirmed_l1_block self with None => l1_block | Some last => Z.max last l1_block end)) self.

(** [Channel::rebase_after_prune]. *)
Definition rebase_after_prune (prune_count : Z) (self : t) : t :=
  let old_end := u64_add (block_start self) (blocks_added self) in
  let start := u64_saturating_sub (block_start self) prune_count in
  set_blocks start (u64_saturating_sub (u64_saturating_sub old_end prune_count) start) self.

(** [Channel::push_output]. *)
Definition push_output (out : bytes) (self : t) : t :=
  if decide (out = []) then self
  else set_output (output self ++ [out]) (u64_add (available_output self) (len out))
         (u64_add (compressed_bytes self) (len out)) self.

(** [Channel::close].  It returns a [Result] because [CompressionStream::finish]
    does; [finish] has no error path, so the result is always [Ok]. *)
Definition close (self : t) : t :=
  match compressor self with
  | None => self
  | Some compressor =>
      push_output (CompressionStream.finish compressor)
        (set_candidate_scratch [] (set_framing (next_frame_number self) true (set_compressor None self)))
  end.

(** ** Frames *)

(** [Channel::take_output]. *)
Definition take_output (n : Z) : eff ChannelError t bytes :=
  chunks ← gets output;
  '(data, rest) ← lift (or_panic (take_chunks chunks n []));
  _ ← modify (fun self => set_output rest (u64_sub (available_output self) n) (compressed_bytes self) self);
  mret data.

(** [Channel::take_frame]. *)
Definition take_frame (data_len : Z) (is_last : bool) : eff ChannelError t Frame.t :=
  self ← gets (fun s => s);
  if decide (available_output self < data_len) then fail (OutputUnderflow data_len (available_output self)) else
  if decide (MAX_FRAMES <= next_frame_number self)
  then fail (TooManyFrames (u64_add (next_frame_number self) 1) MAX_FRAMES) else
  if is_last && (is_open self || negb (bool_decide (data_len = available_output self)) || negb (terminal_pending self))
  then fail InvalidTerminalTransition else
  let number := wrap 16 (next_frame_number self) in
  data ← take_output data_len;
  _ ← modify (fun self => set_framing (u64_add (next_frame_number self) 1)
                            (if is_last then false else terminal_pending self) self);
  mret (Frame.mk (id self) number data is_last).

End Data.

Arguments t {_}.

(** ** Accepting a batch *)

Section Add.
Context `{TxTypes} `{!Rlp} `{SingleBatchRlp} `{BrotliEncoder} `{RuntimeUpgradeRegistry}.

(** What [add_batch] compresses for a batch: the header of an RLP string, the
    type of the batch and the batch. *)
Definition wire (batch : SingleBatch.t) : bytes :=
  header_encode (BatchCodec.rlp_header batch) ++ SINGLE :: Codec.encode rlp_single batch.

(** The projected numbers of frames and of assembled bytes for a compressed size. *)
Definition max_total_frames (max_compressed_bytes max_frame_data : Z) : option Z :=
  max_frame_count ← checked_div_ceil max_compressed_bytes max_frame_data;
  let blob_payload_capacity := BLOB_MAX_DATA_SIZE - BLOB_DERIVATION_PREFIX_SIZE in
  let max_blob_boundary_frames :=
    u64_saturating_add (div_ceil max_compressed_bytes (blob_payload_capacity - Frame.ENCODED_OVERHEAD)) 1 in
  Some (u64_saturating_add max_frame_count max_blob_boundary_frames).

Definition max_assembled_bytes (max_compressed_bytes total_frames : Z) : Z :=
  u64_saturating_add max_compressed_bytes (u64_saturating_mul total_frames Frame.OVERHEAD).

(** A call on the compressor, which is there. *)
Definition on_compressor {A} (m : eff CompressionError CompressionStream.t A) : eff ChannelError t A := fun self =>
  match compressor self with
  | None => (Panic, self)
  | Some c => let '(r, c) := m c in (map_err Compression r, set_compressor (Some c) self)
  end.

(** [Channel::add_batch]. *)
Definition add_batch (batch : SingleBatch.t) (da_bytes : Z) : eff ChannelError t ChannelAddOutcome :=
  self ← gets (fun s => s);
  let max_channel_bytes := RollupConfig.max_rlp_bytes_per_channel (rollup_config self) (SingleBatch.timestamp batch) in
  match compressor self with
  | None => fail ChannelClosed
  | Some compressor =>
      let candidate := wire batch in
      _ ← modify (set_candidate_scratch candidate);
      let next_input_bytes := u64_saturating_add (input_bytes self) (len candidate) in
      if decide (max_channel_bytes < next_input_bytes)
      then mret (Rejected (RlpBytes next_input_bytes max_channel_bytes)) else
      let max_compressed_bytes := CompressionStream.max_output_size compressor next_input_bytes in
      total_frames ← lift (or_panic (max_total_frames max_compressed_bytes (max_frame_data self)));
      let assembled_bytes := max_assembled_bytes max_compressed_bytes total_frames in
      if decide (MAX_FRAMES < total_frames)
      then mret (Rejected (FrameCount total_frames MAX_FRAMES)) else
      if decide (max_channel_bytes < assembled_bytes)
      then mret (Rejected (AssembledBytes assembled_bytes max_channel_bytes)) else
      out ← on_compressor (CompressionStream.append candidate);
      total_output ← on_compressor (gets CompressionStream.output_size);
      _ ← modify (push_output out);
      _ ← modify (fun s => set_accepted next_input_bytes (u64_add (blocks_added s) 1)
                             (u64_add (da_backlog_bytes s) da_bytes) s);
      match compressed_size_target self with
      | Some target => mret (if decide (target <= total_output) then TargetReached else Accepted)
      | None => mret Accepted
      end
  end.

End Add.

End EncoderChannel.

(** ** The frames of a channel carry its batches *)

Module ChannelProofs.
Import EncoderChannel StreamProofs.

Lemma take_chunks_spec output n acc :
  0 <= n <= len (concat output) ->
  exists rest, take_chunks output n acc = Some (acc ++ take (Z.to_nat n) (concat output), rest) /\
    concat rest = drop (Z.to_nat n) (concat output).
Proof.
  revert n acc. induction output as [|c output IH]; intros n acc Hn; cbn [take_chunks concat].
  - rewrite decide_False by (change (len (concat [])) with 0 in Hn; lia). exists [].
    by rewrite take_nil, drop_nil, app_nil_r.
  - cbn [concat] in Hn. rewrite len_app in Hn. case_decide as H0.
    2:{ assert (n = 0) as -> by lia. exists (c :: output). by rewrite take_0, drop_0, app_nil_r. }
    case_decide as Hc.
    + exists (drop (Z.to_nat n) c :: output). rewrite Z.min_l by lia. cbn [concat].
      rewrite take_app_le, drop_app_le by (unfold len in *; lia). done.
    + rewrite Z.min_r by lia. destruct (IH (n - len c) (acc ++ take (Z.to_nat (len c)) c)) as (rest & -> & Hr); [lia|].
      exists rest. assert (Z.to_nat n = length c + Z.to_nat (n - len c))%nat as Hl by (unfold len in *; lia).
      rewrite Hr, Hl, take_app_add', drop_app_add' by done. unfold len. rewrite Nat2Z.id, firstn_all.
      by rewrite <- app_assoc.
Qed.

Lemma bound_len (n : Z) : n <= RollupConfig.MAX_RLP_BYTES_PER_CHANNEL_FJORD -> n < 2 ^ 64.
Proof. unfold RollupConfig.MAX_RLP_BYTES_PER_CHANNEL_FJORD. lia. Qed.

Section Invariant.
Context `{TxTypes} `{!Rlp} `{SingleBatchRlp} `{BrotliEncoderLaws} `{RuntimeUpgradeRegistry}.

(** The uncompressed content of a channel with the batches [bs]. *)
Definition content (bs : list SingleBatch.t) : bytes := concat (wire <$> bs).

(** What the compressor of the channel emitted so far: the version byte and a
    stream, complete once the channel is closed. *)
Definition emits (c : option CompressionStream.t) (out input : bytes) : Prop :=
  match c with
  | Some s => streams s out input /\
      CompressionStream.max_output_size s (len input) <= RollupConfig.MAX_RLP_BYTES_PER_CHANNEL_FJORD
  | None => exists c, out = Level.CHANNEL_VERSION :: c /\ decodes c brotli_state_new input
  end.

(** The channel accepted [bs] and was cut into [fs] so far. *)
Record holds (ch : t) (bs : list SingleBatch.t) (fs : list Frame.t) : Prop := {
  h_frame_size : Frame.ENCODED_OVERHEAD < max_frame_size ch <= MAX_BLOB_FRAME_SIZE;
  h_input : input_bytes ch = len (content bs);
  h_input_max : input_bytes ch <= RollupConfig.MAX_RLP_BYTES_PER_CHANNEL_FJORD;
  h_emits : emits (compressor ch) (concat (Frame.data <$> fs) ++ concat (output ch)) (content bs);
  h_max : len (concat (Frame.data <$> fs) ++ concat (output ch)) <= RollupConfig.MAX_RLP_BYTES_PER_CHANNEL_FJORD;
  h_available : available_output ch = len (concat (output ch));
  h_number : next_frame_number ch = len fs;
  h_number_max : len fs <= MAX_FRAMES;
  h_terminal : is_open ch = true -> terminal_pending ch = false;
  h_complete : framing_complete ch = true -> fs <> [] /\ concat (output ch) = [];
  h_frames k f : fs !! k = Some f -> Frame.id f = id ch /\ Frame.number f = Z.of_nat k /\
    Frame.is_last f = bool_decide (framing_complete ch = true /\ S k = length fs)
}.

Lemma streams_len s out input :
  streams s out input -> is_u64 (len input) ->
  CompressionStream.max_output_size s (len input) <= RollupConfig.MAX_RLP_BYTES_PER_CHANNEL_FJORD ->
  len (out ++ CompressionStream.finish s) <= RollupConfig.MAX_RLP_BYTES_PER_CHANNEL_FJORD.
Proof.
  intros Hs Hi Hm. destruct (finish_streams _ _ _ Hs) as (c & _ & _ & Hl).
  unfold RollupConfig.MAX_RLP_BYTES_PER_CHANNEL_FJORD, u64_max in *. lia.
Qed.

Lemma validate_frame_size config :
  EncoderConfig.validate config = Ok () ->
  Frame.ENCODED_OVERHEAD < EncoderConfig.max_frame_size config <= MAX_BLOB_FRAME_SIZE.
Proof. unfold EncoderConfig.validate. repeat case_decide; try done. lia. Qed.

Lemma flush_interval_pos t i : 0 <= t -> flush_interval_of t = Some i -> 0 < i.
Proof.
  unfold flush_interval_of, div_ceil. intros Ht. pose proof (Z.div_pos t 4).
  repeat case_decide; intros [= <-]; lia.
Qed.

Lemma channel_new_holds i cfg config start l1 ch :
  (forall t, EncoderConfig.compressed_size_target config = Some t -> 0 <= t) ->
  new i cfg config start l1 = Ok ch -> holds ch [] [].
Proof.
  intros Ht. unfold new. destruct (EncoderConfig.validate config) as [[]| |] eqn:Hv; cbn [mbind result_bind]; [|done..].
  intros [= <-]. split; cbn [input_bytes compressor output available_output next_frame_number terminal_pending
    is_open framing_complete max_frame_size]; try done.
  { by apply validate_frame_size. }
  split; [apply new_streams|].
  - intros j Hj. apply bind_Some in Hj as (t & Hct & Hf). eapply flush_interval_pos; [|done]. by apply Ht.
  - unfold CompressionStream.max_output_size, CompressionStream.new. cbn [CompressionStream.flush_interval].
    change (len (content [])) with 0. rewrite max_compressed_size_empty.
    assert (forall o : option Z, match o with None => 0 | Some i => 0 / i end = 0) as -> by (intros [j|]; [apply Zdiv_0_l|done]).
    done.
Qed.

Lemma content_snoc bs b : content (bs ++ [b]) = content bs ++ wire b.
Proof. unfold content. rewrite fmap_app, concat_app. cbn. by rewrite app_nil_r. Qed.

(** Appending what the compressor returned to the output. *)
Lemma push_output_spec o ch :
  available_output ch + len o < 2 ^ 64 -> 0 <= available_output ch ->
  exists chunks, push_output o ch = set_output chunks (available_output ch + len o)
    (compressed_bytes (push_output o ch)) ch /\ concat chunks = concat (output ch) ++ o.
Proof.
  intros Ha Hz. unfold push_output. case_decide as Ho.
  - subst o. exists (output ch). rewrite len_nil, Z.add_0_r, app_nil_r. by destruct ch.
  - exists (output ch ++ [o]). unfold u64_add. rewrite (wrap_small 64 (_ + _)) by (pose proof (len_nonneg o); lia).
    split; [done|]. rewrite concat_app. cbn. by rewrite app_nil_r.
Qed.

Lemma max_channel_bytes_le cfg ts :
  RollupConfig.max_rlp_bytes_per_channel cfg ts <= RollupConfig.MAX_RLP_BYTES_PER_CHANNEL_FJORD.
Proof. unfold RollupConfig.max_rlp_bytes_per_channel. by case_match. Qed.

Lemma assembled_ge compressed frames n :
  0 <= frames -> max_assembled_bytes compressed frames <= n -> n < u64_max -> compressed <= n.
Proof.
  unfold max_assembled_bytes, u64_saturating_add, u64_saturating_mul, Frame.OVERHEAD. unfold u64_max. lia.
Qed.

Lemma total_frames_nonneg compressed d n :
  0 <= compressed -> 0 <= d -> max_total_frames compressed d = Some n -> 0 <= n.
Proof.
  intros Hc Hd. unfold max_total_frames, checked_div_ceil. case_decide; cbn; [done|]. intros [= <-].
  unfold u64_saturating_add, u64_max.
  assert (forall x y, 0 <= x -> 0 < y -> 0 <= div_ceil x y) as Hdiv.
  { intros x y Hx Hy. unfold div_ceil. pose proof (Z.div_pos x y Hx Hy). case_decide; lia. }
  pose proof (Hdiv compressed d Hc ltac:(lia)). pose proof (Hdiv compressed 130020 Hc ltac:(lia)).
  change (BLOB_MAX_DATA_SIZE - BLOB_DERIVATION_PREFIX_SIZE - Frame.ENCODED_OVERHEAD) with 130020. lia.
Qed.

Lemma max_output_nonneg s n : 0 <= n ->
  (forall i, CompressionStream.flush_interval s = Some i -> 0 < i) -> 0 <= CompressionStream.max_output_size s n.
Proof.
  intros Hn Hi. unfold CompressionStream.max_output_size, u64_saturating_add, u64_saturating_mul, CompressionStream.FLUSH_OVERHEAD, u64_max.
  pose proof (max_compressed_size_usize n). destruct (CompressionStream.flush_interval s) as [i|]; [|lia].
  pose proof (Z.div_pos n i Hn (Hi i eq_refl)). lia.
Qed.

Lemma append_emits s s' data o out input :
  CompressionStream.append data s = (Ok o, s') -> streams s out input -> is_u64 (len (input ++ data)) ->
  CompressionStream.max_output_size s (len (input ++ data)) <= RollupConfig.MAX_RLP_BYTES_PER_CHANNEL_FJORD ->
  emits (Some s') (out ++ o) (input ++ data) /\
  len (out ++ o) <= RollupConfig.MAX_RLP_BYTES_PER_CHANNEL_FJORD.
Proof.
  intros Ha Hs Hi Hm. destruct (append_streams _ _ _ _ _ _ Ha Hs) as (Hs' & Hf & _).
  assert (CompressionStream.max_output_size s' (len (input ++ data)) <= RollupConfig.MAX_RLP_BYTES_PER_CHANNEL_FJORD)
    as Hm' by (unfold CompressionStream.max_output_size in *; by rewrite Hf).
  split; [by split|]. pose proof (streams_len _ _ _ Hs' Hi Hm') as Hl. rewrite len_app in Hl.
  pose proof (len_nonneg (CompressionStream.finish s')). lia.
Qed.

(** The limits under which [add_batch] appends bound the stream. *)
Lemma admitted_output s out input next cfg ts frames d :
  streams s out input -> 0 <= next -> 0 <= d ->
  max_total_frames (CompressionStream.max_output_size s next) d = Some frames ->
  ~ RollupConfig.max_rlp_bytes_per_channel cfg ts
      < max_assembled_bytes (CompressionStream.max_output_size s next) frames ->
  CompressionStream.max_output_size s next <= RollupConfig.MAX_RLP_BYTES_PER_CHANNEL_FJORD.
Proof.
  intros (c & n & _ & _ & _ & _ & Hi) Hn Hd Hf Ha. pose proof (max_channel_bytes_le cfg ts) as Hcap.
  assert (0 <= CompressionStream.max_output_size s next) as Hnn.
  { apply max_output_nonneg; [done|]. intros i Hs. rewrite Hs in Hi. lia. }
  pose proof (total_frames_nonneg _ _ _ Hnn Hd Hf) as Hfr.
  etrans; [|exact Hcap]. eapply assembled_ge; [exact Hfr|lia|].
  unfold RollupConfig.MAX_RLP_BYTES_PER_CHANNEL_FJORD, u64_max in *. lia.
Qed.

Lemma channel_accepted_holds ch s o w chunks n k m p q b bs fs :
  holds ch bs fs -> is_open ch = true ->
  emits (Some s) ((concat (Frame.data <$> fs) ++ concat (output ch)) ++ o) (content (bs ++ [b])) ->
  len ((concat (Frame.data <$> fs) ++ concat (output ch)) ++ o) <= RollupConfig.MAX_RLP_BYTES_PER_CHANNEL_FJORD ->
  n = len (content (bs ++ [b])) -> n <= RollupConfig.MAX_RLP_BYTES_PER_CHANNEL_FJORD ->
  concat chunks = concat (output ch) ++ o -> p = available_output ch + len o ->
  holds (set_accepted n k m (set_output chunks p q
    (set_compressor (Some s) (set_compressor (Some s) (set_candidate_scratch w ch))))) (bs ++ [b]) fs.
Proof.
  intros [Hsize Hin Hmax _ Hm Hav Hnum Hnmax Hterm Hcomp Hfs] Hopen Hem Hl Hn Hnm Hchunks Hp.
  assert (framing_complete ch = false) as Hfc by (unfold framing_complete; by rewrite Hopen).
  split; cbn [set_accepted set_output set_compressor set_candidate_scratch input_bytes compressor output
    available_output next_frame_number id]; try done.
  - by rewrite Hchunks, app_assoc.
  - by rewrite Hchunks, app_assoc.
  - by rewrite Hp, Hav, Hchunks, len_app.
  - intros _. by apply Hterm.
  - intros k' f Hf. destruct (Hfs k' f Hf) as (-> & -> & ->). rewrite Hfc. done.
Qed.

(** An accepted batch is appended; a rejected one leaves the channel as it was. *)
Lemma add_batch_holds b da ch ch' bs fs r :
  add_batch b da ch = (Ok r, ch') -> holds ch bs fs ->
  match r with
  | Rejected _ => ch' = set_candidate_scratch (wire b) ch
  | _ => holds ch' (bs ++ [b]) fs /\ is_open ch = true /\ id ch' = id ch
  end.
Proof.
  intros Ha Hh. pose proof Hh as [_ Hin _ Hem _ Hav _ _ _ _ _]. unfold add_batch in Ha. run_ops.
  unfold emits in Hem. destruct (compressor ch) as [s|] eqn:Hc; [|done]. destruct Hem as [Hs Hout].
  assert (u64_saturating_add (input_bytes ch) (len (wire b)) = len (content (bs ++ [b])) \/
    RollupConfig.MAX_RLP_BYTES_PER_CHANNEL_FJORD < u64_saturating_add (input_bytes ch) (len (wire b))) as Hnext.
  { pose proof (h_input_max _ _ _ Hh). rewrite content_snoc, len_app, <- Hin. unfold u64_saturating_add, RollupConfig.MAX_RLP_BYTES_PER_CHANNEL_FJORD, u64_max. lia. }
  pose proof (max_channel_bytes_le (rollup_config ch) (SingleBatch.timestamp b)) as Hcap.
  case_decide as Hrlp; [by injection Ha as <- <-|]. destruct Hnext as [Hnext|?]; [|lia]. rewrite Hnext in *.
  destruct (max_total_frames _ _) as [frames|] eqn:Hframes; cbn [or_panic] in Ha; [|done].
  case_decide as Hfc; [by injection Ha as <- <-|].
  case_decide as Has; [by injection Ha as <- <-|].
  assert (0 <= len (content (bs ++ [b]))) as Hnn by apply len_nonneg.
  pose proof (admitted_output _ _ _ _ _ _ _ _ Hs Hnn (proj1 (wrap_range 64 _ ltac:(lia))) Hframes Has) as Hbound.
  unfold on_compressor in Ha. cbn [set_candidate_scratch compressor] in Ha. rewrite Hc in Ha.
  destruct (CompressionStream.append (wire b) s) as [[o|e|] s'] eqn:Happ; cbn [map_err] in Ha; [|done..].
  rewrite content_snoc in Hbound.
  destruct (append_emits _ _ _ _ _ _ Happ Hs) as [Hem' Hl']; [|done|].
  { rewrite <- content_snoc. unfold RollupConfig.MAX_RLP_BYTES_PER_CHANNEL_FJORD, u64_max in *. lia. }
  cbn [CompressionStream.output_size set_compressor compressor map_err] in Ha.
  set (ch1 := set_compressor (Some s') (set_compressor (Some s') (set_candidate_scratch (wire b) ch))) in Ha.
  destruct (push_output_spec o ch1) as (chunks & Hpush & Hchunks).
  { cbn. rewrite Hav, <- len_app. rewrite <- app_assoc, len_app in Hl'. pose proof (len_nonneg (concat (Frame.data <$> fs))).
    by apply bound_len; lia. }
  { cbn. rewrite Hav. apply len_nonneg. }
  rewrite Hpush in Ha. rewrite <- content_snoc in Hem'.
  assert (is_open ch = true) as Hopen by (unfold is_open; by rewrite Hc).
  assert (forall k m q, holds (set_accepted (len (content (bs ++ [b]))) k m
    (set_output chunks (available_output ch1 + len o) q ch1)) (bs ++ [b]) fs) as Hacc.
  { intros k m q. apply channel_accepted_holds with o; try done. lia. }
  destruct (compressed_size_target ch) as [target|]; [|by injection Ha as <- <-].
  case_decide; by injection Ha as <- <-.
Qed.

Lemma close_holds ch bs fs : holds ch bs fs -> holds (close ch) bs fs /\ is_open (close ch) = false.
Proof.
  intros Hh. pose proof Hh as [Hsize Hin Hmax Hem Hm Hav Hnum Hnmax Hterm Hcomp Hfs]. unfold close.
  unfold emits in Hem. destruct (compressor ch) as [s|] eqn:Hc; [|split; [done|]; unfold is_open; by rewrite Hc].
  destruct Hem as [Hs Hout]. destruct (finish_streams _ _ _ Hs) as (c & Hfin & Hdec & _).
  pose proof (streams_len _ _ _ Hs ltac:(rewrite <- Hin; unfold RollupConfig.MAX_RLP_BYTES_PER_CHANNEL_FJORD, u64_max in *;
    pose proof (len_nonneg (content bs)); lia) Hout) as Hlen.
  set (o := CompressionStream.finish s) in *. set (ch1 := set_candidate_scratch _ _).
  assert (framing_complete ch = false) as Hfc by (unfold framing_complete, is_open; by rewrite Hc).
  destruct (push_output_spec o ch1) as (chunks & -> & Hchunks).
  { cbn. rewrite Hav, <- len_app. rewrite <- app_assoc, len_app in Hlen.
    pose proof (len_nonneg (concat (Frame.data <$> fs))). by apply bound_len; lia. }
  { cbn. rewrite Hav. apply len_nonneg. }
  split; [|done]. split; cbn [ch1 set_output set_compressor set_framing set_candidate_scratch input_bytes compressor output
    available_output next_frame_number id is_open framing_complete terminal_pending]; try done.
  - exists c. by rewrite Hchunks, app_assoc.
  - by rewrite Hchunks, app_assoc.
  - by rewrite Hav, Hchunks, len_app.
  - intros k f Hf. destruct (Hfs k f Hf) as (-> & -> & ->). by rewrite Hfc.
Qed.

(** When a frame can be cut off, and the channel after it. *)
Definition cuttable (ch : t) (n : Z) (last : bool) : Prop :=
  framing_complete ch = false /\ 0 <= n <= available_output ch /\ next_frame_number ch < MAX_FRAMES /\
  (last = true -> is_open ch = false /\ n = available_output ch /\ terminal_pending ch = true).

Lemma take_frame_ok n last ch bs fs :
  holds ch bs fs -> cuttable ch n last ->
  exists data rest, 
    let ch' := set_framing (next_frame_number ch + 1) (if last then false else terminal_pending ch)
                 (set_output rest (available_output ch - n) (compressed_bytes ch) ch) in
    let f := Frame.mk (id ch) (next_frame_number ch) data last in
    take_frame n last ch = (Ok f, ch') /\ len data = n /\ holds ch' bs (fs ++ [f]).
Proof.
  intros [Hsize Hin Hmax Hem Hm Hav Hnum Hnmax Hterm Hcomp Hfs] (Hfc & Hn & Hframes & Hlast).
  destruct (take_chunks_spec (output ch) n []) as (rest & Htake & Hrest); [by rewrite <- Hav|].
  exists (take (Z.to_nat n) (concat (output ch))), rest.
  assert (len (take (Z.to_nat n) (concat (output ch))) = n) as Hlen.
  { unfold len in *. rewrite length_take. lia. }
  assert (len (concat (output ch)) < 2 ^ 64) as Hb.
  { apply bound_len. rewrite len_app in Hm. pose proof (len_nonneg (concat (Frame.data <$> fs))). lia. }
  split; [|split; [done|]].
  - unfold take_frame, take_output. run_ops. rewrite decide_False by lia. rewrite decide_False by lia.
    match goal with |- context [if ?b then _ else _] => assert (b = false) as -> end.
    { destruct last; [|done]. destruct Hlast as (-> & <- & ->); [done|]. by rewrite bool_decide_eq_true_2. }
    rewrite Htake. cbn [or_panic set_output next_frame_number terminal_pending available_output compressed_bytes].
    unfold u64_add, u64_sub. unfold MAX_FRAMES, u16_max in *. pose proof (len_nonneg fs).
    rewrite !wrap_small by lia. done.
  - unfold MAX_FRAMES, u16_max in *.
    assert (concat (Frame.data <$> fs ++ [Frame.mk (id ch) (next_frame_number ch)
      (take (Z.to_nat n) (concat (output ch))) last]) ++ concat rest = concat (Frame.data <$> fs) ++ concat (output ch)) as Hcat.
    { rewrite fmap_app, concat_app, Hrest. cbn [fmap list_fmap concat Frame.data]. rewrite app_nil_r, <- app_assoc.
      by rewrite take_drop. }
    split; cbn [set_output set_framing input_bytes compressor output available_output next_frame_number id
      terminal_pending]; try done.
    + by rewrite Hcat.
    + by rewrite Hcat.
    + rewrite Hrest, Hav. unfold len in *. rewrite length_drop. lia.
    + rewrite len_app, len_cons, len_nil. lia.
    + rewrite len_app, len_cons, len_nil. unfold MAX_FRAMES, u16_max. lia.
    + intros Hopen. destruct last; [done|]. by apply Hterm.
    + intros Hfc'. split; [by destruct fs|]. destruct last; [|change (framing_complete ch = true) in Hfc'; congruence].
      rewrite Hrest. apply drop_ge. destruct Hlast as (_ & -> & _); [done|]. unfold len in *. lia.
    + intros k f Hf. apply lookup_app_Some in Hf as [Hf|[Hk Hf]].
      * destruct (Hfs k f Hf) as (-> & -> & ->). apply lookup_lt_Some in Hf. split_and!; [done..|].
        rewrite !bool_decide_eq_false_2; [done| |]; rewrite ?length_app; cbn; [lia|]. rewrite Hfc. by intros [].
      * destruct (k - length fs)%nat eqn:Hk'; [|done]. injection Hf as <-. split_and!; [done|cbn; unfold len in Hnum; lia|].
        cbn [Frame.is_last]. destruct last.
        -- rewrite bool_decide_eq_true_2; [done|]. destruct Hlast as (Hop & _ & _); [done|].
           unfold framing_complete. cbn. unfold is_open in *. cbn. rewrite Hop, length_app. cbn. split; [done|lia].
        -- rewrite bool_decide_eq_false_2; [done|]. unfold framing_complete, is_open in *. cbn. rewrite Hfc. by intros [].
Qed.

(** The other transitions leave what the channel carries as it is. *)
Definition same_stream (ch ch' : t) : Prop :=
  id ch' = id ch /\ compressor ch' = compressor ch /\ output ch' = output ch /\
  available_output ch' = available_output ch /\ input_bytes ch' = input_bytes ch /\
  next_frame_number ch' = next_frame_number ch /\ terminal_pending ch' = terminal_pending ch /\
  max_frame_size ch' = max_frame_size ch.

Lemma same_stream_holds ch ch' bs fs : same_stream ch ch' -> holds ch bs fs -> holds ch' bs fs.
Proof.
  intros (Hid & Hc & Ho & Ha & Hi & Hn & Ht & Hs) [Hsize Hin Hmax Hem Hm Hav Hnum Hnmax Hterm Hcomp Hfs].
  assert (is_open ch' = is_open ch) as Hop by (unfold is_open; by rewrite Hc).
  assert (framing_complete ch' = framing_complete ch) as Hfc by (unfold framing_complete; by rewrite Hop, Ht).
  split; rewrite ?Hid, ?Hc, ?Ho, ?Ha, ?Hi, ?Hn, ?Ht, ?Hs, ?Hop, ?Hfc; done.
Qed.

Lemma take_frame_cuttable n last ch bs fs f ch' :
  holds ch bs fs -> framing_complete ch = false -> 0 <= n -> take_frame n last ch = (Ok f, ch') ->
  cuttable ch n last.
Proof.
  intros Hh Hfc Hn. unfold take_frame, take_output. run_ops.
  case_decide; [done|]. case_decide; [done|]. case_match eqn:Hb; [done|]. intros _. split_and!; [done|done|lia|lia|].
  intros ->. cbn [andb] in Hb. apply orb_false_iff in Hb as [[Hop Heq]%orb_false_iff Ht].
  apply negb_false_iff, bool_decide_eq_true in Heq. apply negb_false_iff in Ht. done.
Qed.

(** ** The life of a channel *)

(** The states of a channel with the batches accepted and the frames cut so far.
    The encoder does not cut frames from a channel whose last frame was cut. *)
Inductive lives : t -> list SingleBatch.t -> list Frame.t -> Prop :=
| lives_new i cfg config start l1 ch :
    (forall n, EncoderConfig.compressed_size_target config = Some n -> 0 <= n) ->
    new i cfg config start l1 = Ok ch -> lives ch [] []
| lives_accepted ch bs fs b da r ch' :
    lives ch bs fs -> add_batch b da ch = (Ok r, ch') -> r = Accepted \/ r = TargetReached ->
    lives ch' (bs ++ [b]) fs
| lives_rejected ch bs fs b da limit ch' :
    lives ch bs fs -> add_batch b da ch = (Ok (Rejected limit), ch') -> lives ch' bs fs
| lives_closed ch bs fs : lives ch bs fs -> lives (close ch) bs fs
| lives_framed ch bs fs n last f ch' :
    lives ch bs fs -> framing_complete ch = false -> 0 <= n -> take_frame n last ch = (Ok f, ch') ->
    lives ch' bs (fs ++ [f])
| lives_released ch bs fs l1_head : lives ch bs fs -> lives (release_at l1_head ch) bs fs
| lives_confirmed ch bs fs l1_block : lives ch bs fs -> lives (record_confirmation l1_block ch) bs fs
| lives_rebased ch bs fs n : lives ch bs fs -> lives (rebase_after_prune n ch) bs fs.

Lemma lives_holds ch bs fs : lives ch bs fs -> holds ch bs fs.
Proof.
  induction 1 as [|ch bs fs b da r ch' _ IH Ha Hr|ch bs fs b da limit ch' _ IH Ha|ch bs fs _ IH
    |ch bs fs n last f ch' _ IH Hfc Hn Ht|ch bs fs h _ IH|ch bs fs h _ IH|ch bs fs h _ IH].
  - by eapply channel_new_holds.
  - pose proof (add_batch_holds _ _ _ _ _ _ _ Ha IH) as Hadd. by destruct Hr as [-> | ->]; apply Hadd.
  - rewrite (add_batch_holds _ _ _ _ _ _ _ Ha IH). by eapply same_stream_holds; [|exact IH].
  - by apply close_holds.
  - pose proof (take_frame_cuttable _ _ _ _ _ _ _ IH Hfc Hn Ht) as Hcut.
    destruct (take_frame_ok _ _ _ _ _ IH Hcut) as (data & rest & Heq & _ & Hh). rewrite Ht in Heq. by injection Heq as -> ->.
  - by eapply same_stream_holds; [|exact IH].
  - by eapply same_stream_holds; [|exact IH].
  - by eapply same_stream_holds; [|exact IH].
Qed.

(** C33: once the last frame of a channel was cut, whatever the order in which
    batches were offered and frames were cut and however large the frames, its
    frames are numbered from zero, only the last is marked, and their payloads are
    the version byte and one Brotli stream that decodes to exactly the accepted
    batches in order, within the limits of the protocol. *)
Theorem channel_carries_batches ch bs fs :
  lives ch bs fs -> framing_complete ch = true ->
  Channel.numbered (id ch) fs /\ fs <> [] /\ len fs <= u16_max /\
  exists c, concat (Frame.data <$> fs) = Level.CHANNEL_VERSION :: c /\ decodes c brotli_state_new (content bs) /\
    len (concat (Frame.data <$> fs)) <= RollupConfig.MAX_RLP_BYTES_PER_CHANNEL_FJORD /\
    len (content bs) <= RollupConfig.MAX_RLP_BYTES_PER_CHANNEL_FJORD.
Proof.
  intros Hl Hc. destruct (lives_holds _ _ _ Hl) as [Hsize Hin Hmax Hem Hm Hav Hnum Hnmax Hterm Hcomp Hfs].
  destruct (Hcomp Hc) as [Hne Hout]. rewrite Hout, app_nil_r in *.
  assert (compressor ch = None) as Hnone.
  { unfold framing_complete, is_open in Hc. destruct (compressor ch); [|done]. by rewrite bool_decide_eq_true_2 in Hc. }
  rewrite Hnone in Hem. destruct Hem as (c & Hc1 & Hc2). split_and!; [|done|done|by exists c; rewrite <- Hin].
  intros k f Hf. destruct (Hfs k f Hf) as (-> & -> & ->). split_and!; [done..|]. apply bool_decide_ext. rewrite Hc. naive_solver.
Qed.

End Invariant.

End ChannelProofs.

(** ** A channel with one batch, cut into two frames *)

Module SampleChannel.
Import EncoderChannel ChannelProofs.

#[local] Existing Instance StoredEncoder.encoder.
#[local] Existing Instance plain_types.
#[local] Existing Instance model_rlp.
#[local] Existing Instance ChannelReader.model_single.
#[local] Instance no_overrides : RuntimeUpgradeRegistry := ∅ : Registry.t.

Definition opened : t :=
  mk (zeros 16) RollupConfig.default (Some (CompressionStream.new Level.DEFAULT None)) [] 0 0 MAX_BLOB_FRAME_SIZE
    None 0 [] 0 0 0 0 2 0 false None None.

Definition closed : t := close (add_batch SingleBatch.sample_batch 70 opened).2.

Definition cut : t := (take_frame 10 false closed).2.
Definition framed : t := (take_frame (available_output closed - 10) true cut).2.

Definition first_frame : Frame.t := Frame.mk (zeros 16) 0 (take 10 (concat (output closed))) false.
Definition last_frame : Frame.t := Frame.mk (zeros 16) 1 (drop 10 (concat (output closed))) true.
Definition frames : list Frame.t := [first_frame; last_frame].

Lemma sample_lives : lives framed [SingleBatch.sample_batch] frames.
Proof.
  apply (lives_framed cut [SingleBatch.sample_batch] [first_frame] (available_output closed - 10) true last_frame framed).
  - apply (lives_framed closed [SingleBatch.sample_batch] [] 10 false first_frame cut).
    + apply lives_closed.
      apply (lives_accepted opened [] [] SingleBatch.sample_batch 70 Accepted).
      * by apply (lives_new (zeros 16) RollupConfig.default EncoderConfig.default 0 0).
      * apply injective_projections; [by vm_compute|done].
      * by left.
    + by vm_compute.
    + done.
    + apply injective_projections; [by vm_compute|done].
  - by vm_compute.
  - by vm_compute.
  - apply injective_projections; [by vm_compute|done].
Qed.

Lemma channel_carries_batches_witness :
  Channel.numbered (zeros 16) frames /\
  exists c, concat (Frame.data <$> frames) = Level.CHANNEL_VERSION :: c /\
    decodes c brotli_state_new (content [SingleBatch.sample_batch]).
Proof.
  destruct (channel_carries_batches framed [SingleBatch.sample_batch] frames sample_lives ltac:(by vm_compute))
    as (Hn & _ & _ & c & Hc & Hd & _).
  split; [exact Hn|]. exists c. split; [exact Hc|exact Hd].
Defined.

End SampleChannel.
