(* ===== verification/Egress.v ===== *)
(** * Submissions and data availability egress

    Models [src/crates/batcher/encoder/src/submission.rs] (what one L1
    transaction carries), [.../artifact.rs] (the ledger of the blobs and calldata
    frames built so far) and [.../egress.rs] (how frames are packed from the
    channels into them, and how they are leased to submissions). *)

From S2P Require Import Prelude Effects Primitives Frames Channels Blobs Upgrades SystemConfig Rollup SingleBatches SpanTxData SpanTxs CodecModels Brotlis BatchReaders Compressors EncoderChannels.

(** ** Submissions *)

(** [SubmissionId] and [ArtifactId] are wrapped [u64]s. *)
Abbreviation SubmissionId := Z (only parsing).
Abbreviation ArtifactId := Z (only parsing).

Module BlobPayload.

Record t : Type := mk { frames : list Frame.t }.

(** [BlobPayload::frame_bytes]. *)
Definition frame_bytes (self : t) : Z := sumZ Frame.encoded_len (frames self).

End BlobPayload.

Inductive SubmissionPayload : Type :=
| PayloadBlobs (blobs : list BlobPayload.t)
| PayloadCalldata (frame : Frame.t).

Module BatchSubmission.

Record t : Type := mk { id : SubmissionId; payload : SubmissionPayload }.

Definition calldata (id : SubmissionId) (frame : Frame.t) : t := mk id (PayloadCalldata frame).
Definition blobs (id : SubmissionId) (blobs : list BlobPayload.t) : t := mk id (PayloadBlobs blobs).

Definition da_type (self : t) : DaType :=
  match payload self with PayloadBlobs _ => DaBlob | PayloadCalldata _ => DaCalldata end.

Definition frame_count (self : t) : Z :=
  match payload self with
  | PayloadBlobs blobs => sumZ (fun b => len (BlobPayload.frames b)) blobs
  | PayloadCalldata _ => 1
  end.

Definition blob_count (self : t) : Z :=
  match payload self with PayloadBlobs blobs => len blobs | PayloadCalldata _ => 0 end.

Definition frame_bytes (self : t) : Z :=
  match payload self with
  | PayloadBlobs blobs => sumZ (fun b => sumZ (fun f => len (Frame.data f)) (BlobPayload.frames b)) blobs
  | PayloadCalldata frame => len (Frame.data frame)
  end.

End BatchSubmission.

(** [FrameEncoder::to_calldata]. *)
Definition to_calldata (frame : Frame.t) : bytes := DERIVATION_VERSION_0 :: Frame.encode frame.

(** ** The ledger *)

Inductive ArtifactState : Set := Ready | Pending | Confirmed.

#[global] Instance ArtifactState_eq_dec : EqDecision ArtifactState.
Proof. solve_decision. Defined.

Inductive DaArtifactPayload : Type :=
| ArtifactBlob (payload : BlobPayload.t)
| ArtifactCalldata (frame : Frame.t).

Definition artifact_frame_count (p : DaArtifactPayload) : Z :=
  match p with ArtifactBlob payload => len (BlobPayload.frames payload) | ArtifactCalldata _ => 1 end.

Definition is_blob (p : DaArtifactPayload) : bool :=
  match p with ArtifactBlob _ => true | ArtifactCalldata _ => false end.

Module DaArtifact.

Record t : Type := mk {
  id : ArtifactId;
  payload : DaArtifactPayload;
  channel_ids : list bytes;
  state : ArtifactState
}.

Definition set_state (s : ArtifactState) (a : t) : t := mk (id a) (payload a) (channel_ids a) s.
Definition set_channel_ids (cs : list bytes) (a : t) : t := mk (id a) (payload a) cs (state a).

End DaArtifact.

(** [Iterator::take_while]. *)
Fixpoint take_while {A} (p : A -> bool) (l : list A) : list A :=
  match l with
  | [] => []
  | a :: l => if p a then a :: take_while p l else []
  end.

(** Appending what is not there yet. *)
Definition push_new `{EqDecision A} (acc : list A) (x : A) : list A := if decide (x ∈ acc) then acc else acc ++ [x].
Definition extend_new `{EqDecision A} (acc xs : list A) : list A := foldl push_new acc xs.

Module DaArtifacts.

Record t : Type := mk { artifacts : list DaArtifact.t; next_id : Z }.

Definition new : t := mk [] 0.

(** Applying [f] to the listed artifacts ([select_mut]). *)
Definition select_mut (artifact_ids : list ArtifactId) (f : DaArtifact.t -> DaArtifact.t) (self : t) : t :=
  mk ((fun a => if decide (DaArtifact.id a ∈ artifact_ids) then f a else a) <$> artifacts self) (next_id self).

Definition selected (artifact_ids : list ArtifactId) (self : t) : list DaArtifact.t :=
  filter (fun a => DaArtifact.id a ∈ artifact_ids) (artifacts self).

(** [DaArtifacts::push]. *)
Definition push (payload : DaArtifactPayload) (channel_ids : list bytes) (self : t) : ArtifactId * t :=
  (next_id self,
   mk (artifacts self ++ [DaArtifact.mk (next_id self) payload channel_ids Ready]) (u64_add (next_id self) 1)).

(** [DaArtifacts::ready], [has_ready], [ready_blob_count], [ready_frame_count]. *)
Definition ready (self : t) : list DaArtifact.t := filter (fun a => DaArtifact.state a = Ready) (artifacts self).
Definition has_ready (self : t) : bool := existsb (fun a => bool_decide (DaArtifact.state a = Ready)) (artifacts self).
Definition ready_blob_count (self : t) : Z := len (filter (fun a => is_blob (DaArtifact.payload a) = true) (ready self)).
Definition ready_frame_count (self : t) : Z := sumZ (fun a => artifact_frame_count (DaArtifact.payload a)) (ready self).

Definition set_state_at (index : nat) (s : ArtifactState) (self : t) : t :=
  mk (alter (DaArtifact.set_state s) index (artifacts self)) (next_id self).

Definition blob_at (self : t) (index : nat) : option (BlobPayload.t * ArtifactId) :=
  a ← artifacts self !! index;
  match DaArtifact.payload a with
  | ArtifactBlob p => Some (p, DaArtifact.id a)
  | ArtifactCalldata _ => None
  end.

(** [DaArtifacts::lease_blobs]; a calldata artifact among the indexes is
    [unreachable!]. *)
Definition lease_blobs (first_ready : nat) (maximum : Z) (submission_id : SubmissionId)
    : eff Empty_set t (BatchSubmission.t * list ArtifactId) :=
  indexes ← gets (fun self =>
    fst <$> take (Z.to_nat maximum) (take_while (fun ia => is_blob (DaArtifact.payload ia.2))
      (filter (fun ia : nat * DaArtifact.t => DaArtifact.state ia.2 = Ready)
         (drop first_ready (imap pair (artifacts self))))));
  self ← gets (fun s => s);
  leased ← lift (or_panic (mapM (blob_at self) indexes));
  _ ← modify (fun self => foldl (fun s i => set_state_at i Pending s) self indexes);
  mret (BatchSubmission.blobs submission_id (fst <$> leased), snd <$> leased).

(** [DaArtifacts::lease_calldata]. *)
Definition lease_calldata (index : nat) (submission_id : SubmissionId)
    : eff Empty_set t (BatchSubmission.t * list ArtifactId) :=
  self ← gets (fun s => s);
  a ← lift (or_panic (artifacts self !! index));
  match DaArtifact.payload a with
  | ArtifactBlob _ => lift Panic
  | ArtifactCalldata frame =>
      _ ← modify (set_state_at index Pending);
      mret (BatchSubmission.calldata submission_id frame, [DaArtifact.id a])
  end.

(** [DaArtifacts::lease]. *)
Definition lease (submission_id : SubmissionId) (max_blobs : Z)
    : eff Empty_set t (option (BatchSubmission.t * list ArtifactId)) :=
  self ← gets (fun s => s);
  match list_find (fun a => DaArtifact.state a = Ready) (artifacts self) with
  | None => mret None
  | Some (first_ready, a) =>
      leased ← (match DaArtifact.payload a with
                | ArtifactBlob _ => lease_blobs first_ready max_blobs submission_id
                | ArtifactCalldata _ => lease_calldata first_ready submission_id
                end);
      mret (Some leased)
  end.

(** [DaArtifacts::all_pending]. *)
Definition all_pending (self : t) (artifact_ids : list ArtifactId) : bool :=
  forallb (fun id => existsb (fun a => bool_decide (DaArtifact.id a = id) && bool_decide (DaArtifact.state a = Pending))
                       (artifacts self)) artifact_ids.

(** [DaArtifacts::confirm], [requeue]. *)
Definition confirm (artifact_ids : list ArtifactId) (self : t) : list bytes * t :=
  (foldl (fun acc a => extend_new acc (DaArtifact.channel_ids a)) [] (selected artifact_ids self),
   select_mut artifact_ids (DaArtifact.set_state Confirmed) self).

Definition requeue (artifact_ids : list ArtifactId) (self : t) : Z * t :=
  (sumZ (fun a => artifact_frame_count (DaArtifact.payload a)) (selected artifact_ids self),
   select_mut artifact_ids (DaArtifact.set_state Ready) self).

(** [DaArtifacts::all_confirmed_for]. *)
Definition all_confirmed_for (self : t) (channel_id : bytes) : bool :=
  match filter (fun a => channel_id ∈ DaArtifact.channel_ids a) (artifacts self) with
  | [] => false
  | first :: rest =>
      bool_decide (DaArtifact.state first = Confirmed) &&
      forallb (fun a => bool_decide (DaArtifact.state a = Confirmed)) rest
  end.

(** [DaArtifacts::prune_channels], [invalidate], [contains], [clear]. *)
Definition prune_channels (channel_ids : list bytes) (self : t) : t :=
  let pruned := (fun a => DaArtifact.set_channel_ids
    (filter (fun id => id ∉ channel_ids) (DaArtifact.channel_ids a)) a) <$> artifacts self in
  mk (filter (fun a => DaArtifact.channel_ids a <> []) pruned) (next_id self).

Definition invalidate (artifact_ids : list ArtifactId) (self : t) : t :=
  mk (filter (fun a => DaArtifact.id a ∉ artifact_ids) (artifacts self)) (next_id self).

Definition contains (self : t) (artifact_id : ArtifactId) : bool :=
  existsb (fun a => bool_decide (DaArtifact.id a = artifact_id)) (artifacts self).

Definition clear (self : t) : t := mk [] (next_id self).

End DaArtifacts.

(** ** The egress *)

Module DaEgress.

(** [DaEgress::BLOB_CAPACITY]. *)
Definition BLOB_CAPACITY : Z := BLOB_MAX_DATA_SIZE - BLOB_DERIVATION_PREFIX_SIZE.

(** A planned frame: its channel, the length of its payload, whether it is the
    last one. *)
Definition planned : Type := bytes * Z * bool.

Record t : Type := mk {
  artifacts : DaArtifacts.t;
  pending : gmap SubmissionId (list ArtifactId)
}.

Definition new : t := mk DaArtifacts.new ∅.

Definition set_artifacts (a : DaArtifacts.t) (self : t) : t := mk a (pending self).

Section Plan.
Context `{BrotliEncoder}.

(** The loop of [plan_channel_frames]: what is left of the output and of the
    blob, whether the last frame is still to come, and the frames.  Every turn
    takes the overhead of a frame from the blob. *)
Fixpoint plan_data_frames (fuel : nat) (channel : EncoderChannel.t) (available remaining : Z)
    (terminal_pending : bool) (frames : list planned) : result Empty_set (Z * Z * bool * list planned) :=
  if decide (0 < available /\ Frame.ENCODED_OVERHEAD < remaining) then
    match fuel with
    | O => Panic
    | S fuel =>
        let data_capacity := Z.min (remaining - Frame.ENCODED_OVERHEAD) (EncoderChannel.max_frame_data channel) in
        let data_len := Z.min available data_capacity in
        let is_last := bool_decide (data_len = available) && terminal_pending in
        let frames := frames ++ [(EncoderChannel.id channel, data_len, is_last)] in
        let available := available - data_len in
        let remaining := remaining - (Frame.ENCODED_OVERHEAD + data_len) in
        if is_last then Ok (available, remaining, false, frames)
        else plan_data_frames fuel channel available remaining terminal_pending frames
    end
  else Ok (available, remaining, terminal_pending, frames).

(** [DaEgress::plan_channel_frames]: whether the channel is complete, the space
    left and the frames. *)
Definition plan_channel_frames (channel : EncoderChannel.t) (remaining : Z) (frames : list planned)
    : result Empty_set (bool * Z * list planned) :=
  '(available, remaining, terminal_pending, frames) ←
    plan_data_frames (Z.to_nat (remaining / Frame.ENCODED_OVERHEAD)) channel (EncoderChannel.available_output channel)
      remaining (EncoderChannel.terminal_pending channel) frames;
  let '(remaining, terminal_pending, frames) :=
    if decide (available = 0 /\ terminal_pending = true /\ Frame.ENCODED_OVERHEAD <= remaining)
    then (remaining - Frame.ENCODED_OVERHEAD, false, frames ++ [(EncoderChannel.id channel, 0, true)])
    else (remaining, terminal_pending, frames) in
  Ok (negb (EncoderChannel.is_open channel) && bool_decide (available = 0) && negb terminal_pending, remaining, frames).

(** The loop over the channels of [plan_blob]: the space left, the frames, and
    whether a closed channel among them is due. *)
Fixpoint plan_channels (channels : list EncoderChannel.t) (l1_head remaining : Z) (frames : list planned)
    (release_due : bool) : result Empty_set (Z * list planned * bool) :=
  match channels with
  | [] => Ok (remaining, frames, release_due)
  | channel :: channels =>
      if EncoderChannel.framing_complete channel
      then plan_channels channels l1_head remaining frames release_due
      else
        let first_frame := len frames in
        '(channel_complete, remaining, frames) ← plan_channel_frames channel remaining frames;
        let release_due :=
          if decide (first_frame < len frames /\ EncoderChannel.is_open channel = false)
          then release_due || EncoderChannel.deadline_due channel l1_head
          else release_due in
        if channel_complete : bool
        then plan_channels channels l1_head remaining frames release_due
        else Ok (remaining, frames, release_due)
  end.

(** [DaEgress::plan_blob]. *)
Definition plan_blob (channels : list EncoderChannel.t) (l1_head : Z) : result Empty_set (option (list planned)) :=
  '(remaining, frames, release_due) ← plan_channels channels l1_head BLOB_CAPACITY [] false;
  if decide (frames = []) then Ok None
  else
    let saturated := bool_decide (remaining < Frame.ENCODED_OVERHEAD + 1) in
    Ok (if saturated || release_due then Some frames else None).

(** [DaEgress::plan_calldata]. *)
Fixpoint plan_calldata (channels : list EncoderChannel.t) : option planned :=
  match channels with
  | [] => None
  | channel :: channels =>
      if EncoderChannel.framing_complete channel then plan_calldata channels
      else
        let available := EncoderChannel.available_output channel in
        let data_len := EncoderChannel.max_frame_data channel in
        if decide (data_len <= available)
        then Some (EncoderChannel.id channel, data_len,
                   bool_decide (data_len = available) && EncoderChannel.terminal_pending channel)
        else if EncoderChannel.terminal_pending channel
        then Some (EncoderChannel.id channel, available, true)
        else None
  end.

(** Cutting one planned frame off its channel; a missing channel and an error of
    [take_frame] fail an [expect]. *)
Definition take_planned (p : planned) : eff Empty_set (list EncoderChannel.t) Frame.t := fun channels =>
  let '(channel_id, data_len, is_last) := p in
  match list_find (fun c => EncoderChannel.id c = channel_id) channels with
  | None => (Panic, channels)
  | Some (i, channel) =>
      match EncoderChannel.take_frame data_len is_last channel with
      | (Ok frame, channel) => (Ok frame, <[i := channel]> channels)
      | (_, channel) => (Panic, <[i := channel]> channels)
      end
  end.

(** The loop of [commit_blob]: the frames, and their channels. *)
Fixpoint take_plan (plan : list planned) (channel_ids : list bytes)
    : eff Empty_set (list EncoderChannel.t) (list Frame.t * list bytes) :=
  match plan with
  | [] => mret ([], channel_ids)
  | p :: plan =>
      frame ← take_planned p;
      '(frames, channel_ids) ← take_plan plan (push_new channel_ids p.1.1);
      mret (frame :: frames, channel_ids)
  end.

(** The egress and the channels it takes frames from. *)
Abbreviation both := (t * list EncoderChannel.t)%type.

Definition on_channels {A} (m : eff Empty_set (list EncoderChannel.t) A) : eff Empty_set both A :=
  within snd (fun cs s => (s.1, cs)) m.

Definition push_artifact (payload : DaArtifactPayload) (channel_ids : list bytes) : eff Empty_set both ArtifactId :=
  fun '(self, channels) =>
    let '(id, a) := DaArtifacts.push payload channel_ids (artifacts self) in
    (Ok id, (set_artifacts a self, channels)).

(** [DaEgress::commit_blob], [commit_calldata]. *)
Definition commit_blob (plan : list planned) : eff Empty_set both ArtifactId :=
  '(frames, channel_ids) ← on_channels (take_plan plan []);
  push_artifact (ArtifactBlob (BlobPayload.mk frames)) channel_ids.

Definition commit_calldata (plan : planned) : eff Empty_set both ArtifactId :=
  frame ← on_channels (take_planned plan);
  push_artifact (ArtifactCalldata frame) [plan.1.1].

(** The loop that builds blobs; every turn adds one ready blob. *)
Fixpoint build_blobs (fuel : nat) (l1_head max_blobs : Z) : eff Empty_set both () :=
  '(self, channels) ← gets (fun s => s);
  if decide (DaArtifacts.ready_blob_count (artifacts self) < max_blobs) then
    match fuel with
    | O => lift Panic
    | S fuel =>
        plan ← lift (plan_blob channels l1_head);
        match plan with
        | None => mret ()
        | Some plan => _ ← commit_blob plan; build_blobs fuel l1_head max_blobs
        end
    end
  else mret ().

(** [DaEgress::build_ready_artifacts]. *)
Definition build_ready_artifacts (da_type : DaType) (l1_head max_blobs : Z) : eff Empty_set both () :=
  match da_type with
  | DaBlob => build_blobs (Z.to_nat max_blobs) l1_head max_blobs
  | DaCalldata =>
      channels ← gets snd;
      match plan_calldata channels with
      | Some plan => _ ← commit_calldata plan; mret ()
      | None => mret ()
      end
  end.

(** [DaEgress::next_submission]. *)
Definition next_submission (da_type : DaType) (l1_head max_blobs_per_tx : Z) (id : SubmissionId)
    : eff Empty_set both (option BatchSubmission.t) :=
  ready ← gets (fun s => DaArtifacts.has_ready (artifacts s.1));
  _ ← (if ready : bool then mret () else build_ready_artifacts da_type l1_head max_blobs_per_tx);
  leased ← within (fun s => artifacts s.1) (fun a s => (set_artifacts a s.1, s.2)) (DaArtifacts.lease id max_blobs_per_tx);
  match leased with
  | None => mret None
  | Some (submission, artifact_ids) =>
      _ ← modify (fun s => (mk (artifacts s.1) (<[id := artifact_ids]> (pending s.1)), s.2));
      mret (Some submission)
  end.

End Plan.

(** [DaEgress::confirm], [requeue]. *)
Definition confirm (submission_id : SubmissionId) (self : t) : option (list bytes) * t :=
  match pending self !! submission_id with
  | None => (None, self)
  | Some artifact_ids =>
      let self := mk (artifacts self) (delete submission_id (pending self)) in
      if negb (DaArtifacts.all_pending (artifacts self) artifact_ids) then (None, self)
      else
        let '(channel_ids, a) := DaArtifacts.confirm artifact_ids (artifacts self) in
        (Some channel_ids, set_artifacts a self)
  end.

Definition requeue (submission_id : SubmissionId) (self : t) : option Z * t :=
  match pending self !! submission_id with
  | None => (None, self)
  | Some artifact_ids =>
      let self := mk (artifacts self) (delete submission_id (pending self)) in
      if negb (DaArtifacts.all_pending (artifacts self) artifact_ids) then (None, self)
      else
        let '(frame_count, a) := DaArtifacts.requeue artifact_ids (artifacts self) in
        (Some frame_count, set_artifacts a self)
  end.

(** [DaEgress::channel_fully_confirmed]. *)
Definition channel_fully_confirmed `{BrotliEncoder} (self : t) (channel : EncoderChannel.t) : bool :=
  EncoderChannel.framing_complete channel && DaArtifacts.all_confirmed_for (artifacts self) (EncoderChannel.id channel).

(** [DaEgress::retain_existing_pending_artifacts], [prune_channels]. *)
Definition retain_existing_pending_artifacts (self : t) : t :=
  mk (artifacts self)
    (filter (fun kv => kv.2 <> [])
       (filter (fun id => DaArtifacts.contains (artifacts self) id = true) <$> pending self)).

Definition prune_channels (channel_ids : list bytes) (self : t) : t :=
  retain_existing_pending_artifacts (set_artifacts (DaArtifacts.prune_channels channel_ids (artifacts self)) self).

(** [DaEgress::invalidate_artifacts]. *)
Definition invalidate_artifacts (artifact_ids : list ArtifactId) (self : t) : t :=
  mk (DaArtifacts.invalidate artifact_ids (artifacts self))
    (filter (fun kv => Forall (fun id => id ∉ artifact_ids) kv.2) (pending self)).

(** [DaEgress::extend_with_submission_artifacts].  The order in which the
    submissions are visited is that of a hash map; one order is chosen here. *)
Definition extend_with_submission_artifacts (self : t) (affected : list ArtifactId) : list ArtifactId :=
  foldl (fun affected '(_, ids) => if decide (Exists (fun id => id ∈ affected) ids) then extend_new affected ids else affected)
    affected (map_to_list (pending self)).

(** [DaEgress::reset], [pending_submission_count]. *)
Definition reset (self : t) : t := mk (DaArtifacts.clear (artifacts self)) ∅.

Definition pending_submission_count (self : t) : Z := Z.of_nat (size (pending self)).

End DaEgress.

(** ** Plans can be carried out and fit into a blob *)

Module EgressProofs.
Import DaEgress ChannelProofs.

Section Cuts.
Context `{TxTypes} `{!Rlp} `{SingleBatchRlp} `{BrotliEncoderLaws}.

(** Lengths and last marks that can be cut off one after the other from a
    channel that is [open], has [a] bytes and a last frame to come ([tp]). *)
Fixpoint cuts (open : bool) (a : Z) (tp : bool) (es : list (Z * bool)) : Prop :=
  match es with
  | [] => True
  | (n, last) :: es =>
      open || tp = true /\ 0 <= n <= a /\ (last = true -> open = false /\ n = a /\ tp = true) /\
      cuts open (a - n) (if last then false else tp) es
  end.

Definition channel_cuts (ch : EncoderChannel.t) (es : list (Z * bool)) : Prop :=
  cuts (EncoderChannel.is_open ch) (EncoderChannel.available_output ch) (EncoderChannel.terminal_pending ch) es.

(** Only the output and the frame counters differ. *)
Definition reframed (ch ch' : EncoderChannel.t) : Prop :=
  exists o a c n p, ch' = EncoderChannel.set_framing n p (EncoderChannel.set_output o a c ch).

(** [ch'] is [ch] after the frames [new] were cut off. *)
Definition advances (ch ch' : EncoderChannel.t) (new : list Frame.t) : Prop :=
  reframed ch ch' /\ forall bs fs, holds ch bs fs -> holds ch' bs (fs ++ new).

Definition live (ch : EncoderChannel.t) : Prop := exists bs fs, holds ch bs fs.

Lemma reframed_trans a b c : reframed a b -> reframed b c -> reframed a c.
Proof. intros (? & ? & ? & ? & ? & ->) (o & av & cb & n & p & ->). exists o, av, cb, n, p. by destruct a. Qed.

Lemma reframed_refl a : reframed a a.
Proof.
  exists (EncoderChannel.output a), (EncoderChannel.available_output a), (EncoderChannel.compressed_bytes a),
    (EncoderChannel.next_frame_number a), (EncoderChannel.terminal_pending a). by destruct a.
Qed.

#[global] Instance reframed_preorder : PreOrder reframed.
Proof. split; [exact reframed_refl|exact reframed_trans]. Qed.

Lemma advances_nil ch : advances ch ch [].
Proof. split; [apply reframed_refl|]. intros bs fs. by rewrite app_nil_r. Qed.

Lemma advances_trans a b c f g : advances a b f -> advances b c g -> advances a c (f ++ g).
Proof.
  intros [Hr Hf] [Hr' Hg]. split; [by eapply reframed_trans|]. intros bs fs Hh. rewrite app_assoc. by apply Hg, Hf.
Qed.

Lemma advances_live ch ch' new : live ch -> advances ch ch' new -> live ch'.
Proof. intros (bs & fs & Hh) [_ Ha]. eexists _, _. by apply Ha. Qed.

Lemma reframed_id ch ch' : reframed ch ch' -> EncoderChannel.id ch' = EncoderChannel.id ch.
Proof. by intros (? & ? & ? & ? & ? & ->). Qed.

(** A channel that is not cut completely and has no frame number left: cutting
    one more frame off it fails an [expect]. *)
Definition exhausted (ch : EncoderChannel.t) : Prop :=
  EncoderChannel.next_frame_number ch = EncoderChannel.MAX_FRAMES /\ EncoderChannel.framing_complete ch = false.

(** One frame. *)
Lemma cut_one ch n last es :
  live ch -> channel_cuts ch ((n, last) :: es) ->
  (exists f ch', EncoderChannel.take_frame n last ch = (Ok f, ch') /\ advances ch ch' [f] /\
    len (Frame.data f) = n /\ Frame.id f = EncoderChannel.id ch /\ channel_cuts ch' es) \/
  (exists err, EncoderChannel.take_frame n last ch = (Err err, ch)) /\ exhausted ch.
Proof.
  intros (bs & fs & Hh) (Hlive & Hn & Hlast & Hes). pose proof (h_number _ _ _ Hh) as Hnum. pose proof (h_number_max _ _ _ Hh) as Hmax.
  assert (EncoderChannel.framing_complete ch = false) as Hfc.
  { unfold EncoderChannel.framing_complete. destruct (EncoderChannel.is_open ch), (EncoderChannel.terminal_pending ch); done. }
  destruct (decide (EncoderChannel.next_frame_number ch < EncoderChannel.MAX_FRAMES)) as [Hroom|Hroom]; [left|right].
  - assert (cuttable ch n last) as Hcut by (split_and!; [exact Hfc|lia..|exact Hlast]).
    destruct (take_frame_ok _ _ _ _ _ Hh Hcut) as (data & rest & Htake & Hlen & Hh').
    eexists _, _. split; [exact Htake|]. split_and!; [|done|done|exact Hes].
    split; [by eexists _, _, _, _, _|]. intros bs' fs' Hh2.
    destruct (take_frame_ok _ _ _ _ _ Hh2 Hcut) as (data2 & rest2 & Htake2 & _ & Hh2').
    rewrite Htake in Htake2. injection Htake2 as -> ->. exact Hh2'.
  - split; [|split; [lia|done]]. unfold EncoderChannel.take_frame. run_ops. rewrite decide_False by lia. rewrite decide_True by lia. by eexists.
Qed.

(** The planned frames of one channel, and cutting them off within the FIFO. *)
Definition tag (ch : EncoderChannel.t) (es : list (Z * bool)) : list planned :=
  (fun '(n, last) => (EncoderChannel.id ch, n, last)) <$> es.

Lemma find_middle (pre post : list EncoderChannel.t) ch :
  NoDup (EncoderChannel.id <$> pre ++ ch :: post) ->
  list_find (fun c => EncoderChannel.id c = EncoderChannel.id ch) (pre ++ ch :: post) = Some (length pre, ch).
Proof.
  intros Hnd. apply list_find_Some. split_and!; [by apply list_lookup_middle|done|].
  intros j y Hj Hlt Hid. apply lookup_app_Some in Hj as [Hj|[? _]]; [|lia].
  rewrite fmap_app, fmap_cons in Hnd. apply NoDup_app in Hnd as (_ & Hd & _).
  apply (Hd (EncoderChannel.id y)); [apply list_elem_of_fmap; exists y; split; [done|by eapply list_elem_of_lookup_2]|].
  rewrite Hid. constructor.
Qed.

Lemma take_plan_channel es : forall ch rest ids pre post,
  live ch -> channel_cuts ch es -> NoDup (EncoderChannel.id <$> pre ++ ch :: post) ->
  (exists ch' new ids',
    take_plan (tag ch es ++ rest) ids (pre ++ ch :: post) =
      ('(frames, ids) ← take_plan rest ids'; mret (new ++ frames, ids)) (pre ++ ch' :: post) /\
    advances ch ch' new /\ Forall2 (fun f e => len (Frame.data f) = e.1 /\ Frame.id f = EncoderChannel.id ch) new es) \/
  (exists ch', take_plan (tag ch es ++ rest) ids (pre ++ ch :: post) = (Panic, pre ++ ch' :: post) /\ exhausted ch').
Proof.
  induction es as [|[n last] es IH]; intros ch rest ids pre post Hl Hc Hnd.
  - left. exists ch, [], ids. split_and!; [|apply advances_nil|constructor]. cbn [tag fmap list_fmap app].
    run_ops. by destruct (take_plan rest ids _) as [[[? ?]|[]|] ?].
  - change (tag ch ((n, last) :: es)) with ((EncoderChannel.id ch, n, last) :: tag ch es). cbn [app take_plan].
    rewrite bind_run. unfold take_planned. rewrite find_middle by done.
    destruct (cut_one _ _ _ _ Hl Hc) as [(f & ch1 & Htake & Hadv & Hlen & Hid & Hc1)|[[err Htake] Hex]]; rewrite Htake;
      rewrite insert_app_r_alt, Nat.sub_diag by done; cbn [list_insert insert fst]; [|right; by exists ch].
    pose proof (reframed_id _ _ (proj1 Hadv)) as Hid1. rewrite bind_run.
    assert (tag ch1 es = tag ch es) as Htag by (unfold tag; by rewrite Hid1).
    destruct (IH ch1 rest (push_new ids (EncoderChannel.id ch)) pre post) as
      [(ch2 & new & ids' & Heq & Hadv2 & Hnew)|(ch2 & Heq & Hex)];
      [by eapply advances_live|done|rewrite fmap_app, fmap_cons in *; by rewrite Hid1|left|right]; rewrite Htag in Heq; rewrite Heq.
    + exists ch2, (f :: new), ids'. split_and!; [|by eapply (advances_trans _ _ _ [f])|].
      * rewrite !bind_run. by destruct (take_plan rest ids' _) as [[[? ?]|[]|] ?].
      * constructor; [done|]. eapply Forall2_impl; [exact Hnew|]. cbn. intros ? ? [? ->]. done.
    + by exists ch2.
Qed.

(** ** The planner *)

(** What is left after the cuts. *)
Fixpoint after (a : Z) (tp : bool) (es : list (Z * bool)) : Z * bool :=
  match es with
  | [] => (a, tp)
  | (n, last) :: es => after (a - n) (if last then false else tp) es
  end.

Lemma cuts_snoc open es : forall a tp n last,
  cuts open a tp es -> open || (after a tp es).2 = true -> 0 <= n <= (after a tp es).1 ->
  (last = true -> open = false /\ n = (after a tp es).1 /\ (after a tp es).2 = true) ->
  cuts open a tp (es ++ [(n, last)]).
Proof.
  induction es as [|[m l] es IH]; intros a tp n last Hc Ho Hn Hl; [done|].
  destruct Hc as (? & ? & ? & Hc). cbn [cuts app]. split_and!; try done; try lia. by apply IH.
Qed.

Lemma after_snoc es : forall a tp n (last : bool),
  after a tp (es ++ [(n, last)]) = ((after a tp es).1 - n, if last then false else (after a tp es).2).
Proof. induction es as [|[m l] es IH]; intros a tp n last; [done|]. cbn [after app]. by rewrite IH. Qed.

(** The space that planned frames take in a blob. *)
Definition plan_size (plan : list planned) : Z := sumZ (fun p => Frame.ENCODED_OVERHEAD + p.1.2) plan.

Lemma plan_size_app p q : plan_size (p ++ q) = plan_size p + plan_size q.
Proof. apply sumZ_app. Qed.

Lemma tag_snoc ch es n last : tag ch (es ++ [(n, last)]) = tag ch es ++ [(EncoderChannel.id ch, n, last)].
Proof. unfold tag. by rewrite fmap_app. Qed.

(** A partial plan for a channel, with [a'] bytes and the space [rem'] left. *)
Definition planned_so_far (ch : EncoderChannel.t) (rem : Z) (es : list (Z * bool)) (a' rem' : Z) (tp' : bool) : Prop :=
  channel_cuts ch es /\
  after (EncoderChannel.available_output ch) (EncoderChannel.terminal_pending ch) es = (a', tp') /\
  rem' = rem - plan_size (tag ch es) /\ 0 <= rem' /\ 0 <= a'.

Lemma planned_snoc ch rem es a' rem' (tp' : bool) n (last : bool) :
  planned_so_far ch rem es a' rem' tp' -> EncoderChannel.is_open ch || tp' = true -> 0 <= n <= a' ->
  Frame.ENCODED_OVERHEAD + n <= rem' ->
  (last = true -> EncoderChannel.is_open ch = false /\ n = a' /\ tp' = true) ->
  planned_so_far ch rem (es ++ [(n, last)]) (a' - n) (rem' - (Frame.ENCODED_OVERHEAD + n)) (if last then false else tp').
Proof.
  intros (Hc & Haft & Hrem & Hr0 & Ha0) Ho Hn Hfit Hl. unfold planned_so_far, channel_cuts. split_and!; [|..|lia|lia].
  - apply cuts_snoc; [done|by rewrite Haft..|by rewrite Haft].
  - by rewrite after_snoc, Haft.
  - rewrite tag_snoc, plan_size_app. unfold plan_size at 2. cbn [sumZ fst snd]. lia.
Qed.

Lemma plan_data_frames_spec ch rem frames fuel : forall es a' rem' tp',
  1 <= EncoderChannel.max_frame_data ch -> (tp' = true -> EncoderChannel.is_open ch = false) ->
  EncoderChannel.is_open ch || tp' = true ->
  planned_so_far ch rem es a' rem' tp' -> rem' / Frame.ENCODED_OVERHEAD <= Z.of_nat fuel ->
  exists es2 a2 rem2 tp2,
    plan_data_frames fuel ch a' rem' tp' (frames ++ tag ch es) = Ok (a2, rem2, tp2, frames ++ tag ch es2) /\
    planned_so_far ch rem es2 a2 rem2 tp2 /\ (tp2 = true -> tp' = true) /\
    (a2 = 0 \/ rem2 <= Frame.ENCODED_OVERHEAD) /\ (tp2 = false -> tp' = true -> a2 = 0).
Proof.
  induction fuel as [|fuel IH]; intros es a' rem' tp' Hd Ho Hlive Hp Hf; cbn [plan_data_frames];
    (case_decide as Hgo; [|exists es, a', rem', tp'; split_and!; try done; [|congruence];
      destruct Hp as (_ & _ & _ & _ & ?); lia]).
  { pose proof (Z.div_le_lower_bound rem' Frame.ENCODED_OVERHEAD 1). unfold Frame.ENCODED_OVERHEAD in *. lia. }
  set (n := Z.min a' _). set (last := bool_decide (n = a') && tp').
  assert (planned_so_far ch rem (es ++ [(n, last)]) (a' - n) (rem' - (Frame.ENCODED_OVERHEAD + n))
    (if last then false else tp')) as Hp'.
  { apply planned_snoc; [done|done|lia|lia|]. intros [Hn%bool_decide_eq_true Htp]%andb_true_iff. auto. }
  rewrite <- app_assoc, <- tag_snoc. destruct last eqn:Hlast.
  - apply andb_true_iff in Hlast as [Hn%bool_decide_eq_true ->].
    exists (es ++ [(n, true)]), (a' - n), (rem' - (Frame.ENCODED_OVERHEAD + n)), false. split_and!; try done; [|intros; lia].
    left. lia.
  - destruct (IH (es ++ [(n, false)]) (a' - n) (rem' - (Frame.ENCODED_OVERHEAD + n)) tp') as
      (es2 & a2 & rem2 & tp2 & Heq & Hp2 & Ht2 & Hend & Hdone); try done.
    + pose proof (Z.div_mod rem' Frame.ENCODED_OVERHEAD). pose proof (Z.mod_pos_bound rem' Frame.ENCODED_OVERHEAD).
      apply Z.lt_succ_r, Z.div_lt_upper_bound; unfold Frame.ENCODED_OVERHEAD in *; lia.
    + exists es2, a2, rem2, tp2. done.
Qed.

Lemma live_frame_data ch : live ch -> 1 <= EncoderChannel.max_frame_data ch.
Proof.
  intros (bs & fs & Hh). pose proof (h_frame_size _ _ _ Hh) as Hs. unfold EncoderChannel.max_frame_data, u64_sub.
  unfold Frame.ENCODED_OVERHEAD, MAX_BLOB_FRAME_SIZE, BLOB_MAX_DATA_SIZE, BLOB_DERIVATION_PREFIX_SIZE in *.
  rewrite wrap_small; lia.
Qed.

Lemma live_max_frame_data ch : live ch -> EncoderChannel.max_frame_data ch <= Frame.MAX_LEN.
Proof.
  intros (bs & fs & Hh). pose proof (h_frame_size _ _ _ Hh) as Hs. unfold EncoderChannel.max_frame_data, u64_sub, Frame.MAX_LEN.
  unfold Frame.ENCODED_OVERHEAD, MAX_BLOB_FRAME_SIZE, BLOB_MAX_DATA_SIZE, BLOB_DERIVATION_PREFIX_SIZE in *.
  rewrite wrap_small; lia.
Qed.

Lemma live_available ch : live ch -> 0 <= EncoderChannel.available_output ch.
Proof. intros (bs & fs & Hh). rewrite (h_available _ _ _ Hh). apply len_nonneg. Qed.

(** The plan of one channel.  A complete plan ends with the last frame; an
    incomplete one has used up the output of an open channel or the blob. *)
Lemma plan_channel_frames_spec ch rem frames :
  live ch -> EncoderChannel.framing_complete ch = false -> 0 <= rem ->
  exists complete es a' rem' tp',
    plan_channel_frames ch rem frames = Ok (complete, rem', frames ++ tag ch es) /\
    planned_so_far ch rem es a' rem' tp' /\
    (if complete : bool then a' = 0 /\ tp' = false /\ EncoderChannel.is_open ch = false
     else a' = 0 /\ EncoderChannel.is_open ch = true \/ rem' <= Frame.ENCODED_OVERHEAD).
Proof.
  intros Hl Hfc Hrem. pose proof (live_frame_data _ Hl) as Hd. pose proof (live_available _ Hl) as Ha.
  assert (EncoderChannel.terminal_pending ch = true -> EncoderChannel.is_open ch = false) as Ho.
  { destruct Hl as (bs & fs & Hh). pose proof (h_terminal _ _ _ Hh). destruct (EncoderChannel.is_open ch); naive_solver. }
  assert (EncoderChannel.is_open ch || EncoderChannel.terminal_pending ch = true) as Hlive.
  { unfold EncoderChannel.framing_complete in Hfc. by destruct (EncoderChannel.is_open ch), (EncoderChannel.terminal_pending ch). }
  assert (planned_so_far ch rem [] (EncoderChannel.available_output ch) rem (EncoderChannel.terminal_pending ch)) as Hp0.
  { split_and!; try done. change (plan_size (tag ch [])) with 0. lia. }
  destruct (plan_data_frames_spec ch rem frames (Z.to_nat (rem / Frame.ENCODED_OVERHEAD)) [] _ _ _ Hd Ho Hlive Hp0)
    as (es & a' & rem' & tp' & Heq & Hp & Htp & Hend & Hdone).
  { rewrite Z2Nat.id; [done|]. apply Z.div_pos; unfold Frame.ENCODED_OVERHEAD; lia. }
  change (tag ch []) with (@nil planned) in Heq. rewrite app_nil_r in Heq.
  unfold plan_channel_frames. rewrite Heq. cbn [mbind result_bind].
  destruct (decide (a' = 0 /\ tp' = true /\ Frame.ENCODED_OVERHEAD <= rem')) as [(-> & -> & Hfit)|Hno].
  - specialize (Ho (Htp eq_refl)). rewrite Ho. exists true, (es ++ [(0, true)]), 0, (rem' - Frame.ENCODED_OVERHEAD), false.
    rewrite tag_snoc, app_assoc. split_and!; try done.
    apply (planned_snoc _ _ _ _ _ _ 0 true) in Hp; [by rewrite Z.add_0_r in Hp|by rewrite orb_true_r|lia|lia|done].
  - eexists _, es, a', rem', tp'. split_and!; [done|done|].
    destruct (EncoderChannel.is_open ch) eqn:Hopen; cbn [negb andb].
    + destruct Hend; [left; done|right; lia].
    + destruct tp'.
      * rewrite andb_false_r. right. destruct Hend; [|done]. assert (~ Frame.ENCODED_OVERHEAD <= rem') by tauto. lia.
      * rewrite Hdone by (done || by apply Hlive). done.
Qed.

(** The plan of a blob: every channel can give its part, and all parts together
    fill the space that was taken. *)
Lemma plan_channels_spec channels l1_head : forall rem frames due,
  Forall live channels -> 0 <= rem ->
  exists ess rem' due',
    plan_channels channels l1_head rem frames due = Ok (rem', frames ++ concat (zip_with tag channels ess), due') /\
    Forall2 channel_cuts channels ess /\ rem' = rem - plan_size (concat (zip_with tag channels ess)) /\ 0 <= rem'.
Proof.
  assert (forall cs : list EncoderChannel.t, concat (zip_with tag cs (replicate (length cs) [])) = []) as Hnone.
  { induction cs as [|c cs IH]; [done|]. cbn. exact IH. }
  assert (forall cs : list EncoderChannel.t, Forall2 channel_cuts cs (replicate (length cs) [])) as Hcuts.
  { induction cs; constructor; done. }
  induction channels as [|ch channels IH]; intros rem frames due Hl Hrem.
  { exists [], rem, due. cbn. rewrite app_nil_r. split_and!; [done|constructor|unfold plan_size; cbn; lia|done]. }
  apply Forall_cons in Hl as [Hch Hl]. cbn [plan_channels].
  destruct (EncoderChannel.framing_complete ch) eqn:Hfc.
  { destruct (IH rem frames due Hl Hrem) as (ess & rem' & due' & -> & Hc & Hr & H0'). exists ([] :: ess), rem', due'.
    split_and!; try done. by constructor. }
  destruct (plan_channel_frames_spec ch rem frames Hch Hfc Hrem) as (complete & es & a' & rem1 & tp' & -> & Hp & _).
  cbn [mbind result_bind]. destruct Hp as (Hc1 & _ & Hr1 & Hr1' & _). destruct complete.
  - match goal with |- context [plan_channels channels l1_head rem1 _ ?d] =>
      destruct (IH rem1 (frames ++ tag ch es) d Hl Hr1') as (ess & rem' & due' & -> & Hc & Hr & H0') end.
    exists (es :: ess), rem', due'. cbn [zip_with concat]. rewrite app_assoc, plan_size_app. split_and!; [done|by constructor|lia|done].
  - eexists (es :: replicate (length channels) []), rem1, _. cbn [zip_with concat].
    rewrite Hnone, app_nil_r. split_and!; [done|by constructor|done|done].
Qed.

(** ** Carrying out a plan *)

Lemma take_plan_channels post : forall pre ess ids,
  Forall live post -> Forall2 channel_cuts post ess -> NoDup (EncoderChannel.id <$> pre ++ post) ->
  (exists post' news ids',
    take_plan (concat (zip_with tag post ess)) ids (pre ++ post) = (Ok (concat news, ids'), pre ++ post') /\
    Forall3 advances post post' news /\
    sumZ Frame.encoded_len (concat news) = plan_size (concat (zip_with tag post ess))) \/
  (exists cs, take_plan (concat (zip_with tag post ess)) ids (pre ++ post) = (Panic, cs) /\ Exists exhausted cs).
Proof.
  induction post as [|ch post IH]; intros pre ess ids Hl Hc Hnd.
  { apply Forall2_nil_inv_l in Hc as ->. left. exists [], [], ids. split_and!; [done|constructor|done]. }
  apply Forall2_cons_inv_l in Hc as (es & ess' & Hce & Hc & ->). apply Forall_cons in Hl as [Hch Hl]. cbn [zip_with concat].
  destruct (take_plan_channel es ch (concat (zip_with tag post ess')) ids pre post Hch Hce Hnd)
    as [(ch' & new & ids1 & Heq & Hadv & Hnew)|(ch' & Heq & Hex)]; rewrite Heq;
    [|right; eexists; split; [done|]; apply Exists_app; right; by constructor].
  pose proof (reframed_id _ _ (proj1 Hadv)) as Hid. rewrite bind_run.
  change (pre ++ ch' :: post) with (pre ++ [ch'] ++ post). rewrite app_assoc.
  destruct (IH (pre ++ [ch']) ess' ids1 Hl Hc) as [(post' & news & ids' & Heq' & Hadvs & Hsize)|(cs & Heq' & Hex)];
    [rewrite <- app_assoc; cbn [app]; rewrite fmap_app, fmap_cons in *; by rewrite Hid|left|right]; rewrite Heq'; [|by exists cs].
  exists (ch' :: post'), (new :: news), ids'. split_and!; [cbn; by rewrite <- app_assoc|by constructor|].
  cbn [concat]. rewrite sumZ_app, Hsize, plan_size_app. f_equal. unfold plan_size, tag. clear -Hnew.
  induction Hnew as [|f [n last] new es [Hn _] _ IH]; [done|]. rewrite fmap_cons. cbn [sumZ]. rewrite IH.
  unfold Frame.encoded_len. cbn in *. lia.
Qed.

Lemma plan_size_count plan : Forall (fun p : planned => 0 <= p.1.2) plan -> Frame.ENCODED_OVERHEAD * len plan <= plan_size plan.
Proof.
  induction 1 as [|p plan Hp _ IH]; [done|]. rewrite len_cons. unfold plan_size in *. cbn [sumZ]. lia.
Qed.

Lemma cuts_nonneg open es : forall a tp, cuts open a tp es -> Forall (fun e : Z * bool => 0 <= e.1) es.
Proof.
  induction es as [|[n last] es IH]; intros a tp Hc; constructor; destruct Hc as (_ & Hn & _ & Hc); [cbn; lia|by eapply IH].
Qed.

Lemma tag_nonneg ch es : channel_cuts ch es -> Forall (fun p : planned => 0 <= p.1.2) (tag ch es).
Proof. intros Hc%cuts_nonneg. apply Forall_fmap. eapply Forall_impl; [exact Hc|]. by intros [n last]. Qed.

Lemma elem_of_extend_new `{EqDecision A} (xs : list A) : forall acc x, x ∈ extend_new acc xs <-> x ∈ acc \/ x ∈ xs.
Proof.
  induction xs as [|y xs IH]; intros acc x; cbn [extend_new foldl].
  - rewrite elem_of_nil. tauto.
  - fold (extend_new (push_new acc y) xs). rewrite IH, elem_of_cons. unfold push_new. case_decide.
    + split; [tauto|]. intros [?|[->|?]]; tauto.
    + rewrite elem_of_app, list_elem_of_singleton. tauto.
Qed.

Lemma take_frame_id n last ch f ch' : EncoderChannel.take_frame n last ch = (Ok f, ch') -> Frame.id f = EncoderChannel.id ch.
Proof.
  unfold EncoderChannel.take_frame, EncoderChannel.take_output. run_ops. case_decide; [done|]. case_decide; [done|].
  case_match; [done|]. destruct (take_chunks _ _ _) as [[data rest]|]; cbn [or_panic]; [|done]. by intros [= <- _].
Qed.

(** An artifact lists the channels of its frames. *)
Lemma take_plan_ids plan : forall ids cs frames ids' cs',
  take_plan plan ids cs = (Ok (frames, ids'), cs') ->
  ids' = extend_new ids ((fun p => p.1.1) <$> plan) /\ Frame.id <$> frames = (fun p => p.1.1) <$> plan.
Proof.
  induction plan as [|[[i n] last] plan IH]; intros ids cs frames ids' cs'; cbn [take_plan].
  - by intros [= <- <- <-].
  - rewrite bind_run. unfold take_planned at 1. destruct (list_find _ cs) as [[k c]|] eqn:Hfind; [|done].
    apply list_find_Some in Hfind as (_ & Hid & _).
    destruct (EncoderChannel.take_frame n last c) as [[f|e|] c'] eqn:Ht; [|done..].
    assert (Frame.id f = i) as Hf.
    { by rewrite (take_frame_id _ _ _ _ _ Ht). }
    rewrite bind_run. destruct (take_plan plan _ _) as [[[fs is']|[]|] cs1] eqn:Hp; [|done..].
    intros [= <- <- _]. destruct (IH _ _ _ _ _ Hp) as [-> Hids]. rewrite !fmap_cons, Hids, Hf. done.
Qed.

Lemma commit_blob_spec e channels l1_head plan :
  Forall live channels -> NoDup (EncoderChannel.id <$> channels) ->
  plan_blob channels l1_head = Ok (Some plan) ->
  (exists channels' news channel_ids,
    let '(id, a) := DaArtifacts.push (ArtifactBlob (BlobPayload.mk (concat news))) channel_ids (artifacts e) in
    commit_blob plan (e, channels) = (Ok id, (set_artifacts a e, channels')) /\
    Forall3 advances channels channels' news /\
    (forall i, i ∈ channel_ids <-> i ∈ Frame.id <$> concat news) /\
    concat news <> [] /\ BlobPayload.frame_bytes (BlobPayload.mk (concat news)) <= BLOB_CAPACITY) \/
  (exists e' channels', commit_blob plan (e, channels) = (Panic, (e', channels')) /\ Exists exhausted channels').
Proof.
  intros Hl Hnd. unfold plan_blob.
  destruct (plan_channels_spec channels l1_head BLOB_CAPACITY [] false Hl) as (ess & rem & due & -> & Hc & Hrem & H0'); [done|].
  cbn [mbind result_bind app]. case_decide as Hne; [done|]. intros Hplan.
  assert (plan = concat (zip_with tag channels ess)) as -> by (by destruct (bool_decide _ || due); injection Hplan).
  destruct (take_plan_channels channels [] ess [] Hl Hc Hnd) as [(channels' & news & ids & Htake & Hadv & Hsize)|(cs & Htake & Hex)];
    [left|right]; cbn [app] in Htake;
    [|exists e, cs; split; [|done]; unfold commit_blob, on_channels; run_ops; cbn [snd]; by rewrite Htake].
  exists channels', news, ids. cbn. split_and!; [|done| | |].
  - unfold commit_blob, on_channels. run_ops. cbn [snd]. by rewrite Htake.
  - intros i. destruct (take_plan_ids _ _ _ _ _ _ Htake) as [-> ->]. rewrite elem_of_extend_new, elem_of_nil. tauto.
  - intros Hnil. rewrite Hnil in Hsize. destruct (concat (zip_with tag channels ess)) as [|p plan'] eqn:Hz; [done|].
    pose proof (plan_size_count (p :: plan')) as Hcnt. rewrite len_cons in Hcnt. pose proof (len_nonneg plan').
    assert (Forall (fun p : planned => 0 <= p.1.2) (p :: plan')) as Hnn.
    { rewrite <- Hz. clear -Hc. induction Hc as [|ch es cs ess' Hce _ IH]; [constructor|]. cbn [zip_with concat].
      apply Forall_app_2; [by apply tag_nonneg|done]. }
    specialize (Hcnt Hnn). cbn [sumZ] in Hsize. unfold Frame.ENCODED_OVERHEAD in *. lia.
  - unfold BlobPayload.frame_bytes. cbn [BlobPayload.frames]. lia.
Qed.

End Cuts.

End EgressProofs.

(** ** The ledger and the submissions in flight agree *)

Module Ledger.
Import DaEgress.

Abbreviation arts e := (DaArtifacts.artifacts (artifacts e)).

(** The artifacts have distinct identifiers below the next one; every submission
    in flight holds artifacts that are leased, no two submissions share one, and
    every leased artifact belongs to a submission. *)
Record wf (e : t) : Prop := {
  wf_ids : NoDup (DaArtifact.id <$> arts e);
  wf_next : Forall (fun a => DaArtifact.id a < DaArtifacts.next_id (artifacts e)) (arts e);
  wf_nonempty s ids : pending e !! s = Some ids -> ids <> [];
  wf_pending s ids i : pending e !! s = Some ids -> i ∈ ids ->
    exists a, a ∈ arts e /\ DaArtifact.id a = i /\ DaArtifact.state a = Pending;
  wf_disjoint s s' ids ids' i : pending e !! s = Some ids -> pending e !! s' = Some ids' ->
    i ∈ ids -> i ∈ ids' -> s = s';
  wf_leased a : a ∈ arts e -> DaArtifact.state a = Pending ->
    exists s ids, pending e !! s = Some ids /\ DaArtifact.id a ∈ ids
}.

(** An artifact is determined by its identifier. *)
Lemma by_id (l : list DaArtifact.t) a b :
  NoDup (DaArtifact.id <$> l) -> a ∈ l -> b ∈ l -> DaArtifact.id a = DaArtifact.id b -> a = b.
Proof.
  intros Hnd [i Ha]%list_elem_of_lookup_1 [j Hb]%list_elem_of_lookup_1 Hid.
  assert (i = j) as -> by (eapply NoDup_lookup; [exact Hnd|by rewrite list_lookup_fmap, Ha|by rewrite list_lookup_fmap, Hb; cbn; rewrite Hid]).
  congruence.
Qed.

(** Changing the state of some artifacts. *)
Lemma select_ids ids st a :
  DaArtifact.id <$> DaArtifacts.artifacts (DaArtifacts.select_mut ids (DaArtifact.set_state st) a) =
  DaArtifact.id <$> DaArtifacts.artifacts a.
Proof.
  cbn. rewrite <- list_fmap_compose. apply list_fmap_ext. intros i x _. cbn. by case_decide.
Qed.

Lemma elem_of_select ids st a x :
  x ∈ DaArtifacts.artifacts (DaArtifacts.select_mut ids (DaArtifact.set_state st) a) <->
  exists y, y ∈ DaArtifacts.artifacts a /\ x = if decide (DaArtifact.id y ∈ ids) then DaArtifact.set_state st y else y.
Proof. cbn. rewrite list_elem_of_fmap. naive_solver. Qed.

Lemma select_next ids st a :
  Forall (fun x => DaArtifact.id x < DaArtifacts.next_id a) (DaArtifacts.artifacts a) ->
  Forall (fun x => DaArtifact.id x < DaArtifacts.next_id a)
    (DaArtifacts.artifacts (DaArtifacts.select_mut ids (DaArtifact.set_state st) a)).
Proof. intros Hf. cbn. apply Forall_fmap. eapply Forall_impl; [exact Hf|]. intros x Hx. cbn. by case_decide. Qed.

(** The new artifact of a commit. *)
Lemma push_wf e payload cs :
  wf e -> 0 <= DaArtifacts.next_id (artifacts e) < u64_max ->
  wf (set_artifacts (DaArtifacts.push payload cs (artifacts e)).2 e).
Proof.
  intros [Hids Hnext Hne Hp Hd Hl] Hn. split; cbn [set_artifacts artifacts pending DaArtifacts.push DaArtifacts.artifacts snd].
  - rewrite fmap_app. apply NoDup_app. split_and!; [done| |apply NoDup_singleton].
    intros i Hi Hi'. apply list_elem_of_singleton in Hi'. cbn in Hi'. subst.
    apply list_elem_of_fmap in Hi as (a & Ha & Ha'). rewrite Forall_forall in Hnext. specialize (Hnext a Ha'). lia.
  - cbn [DaArtifacts.next_id]. unfold u64_add. rewrite wrap_small by (unfold u64_max in *; lia).
    apply Forall_app_2; [eapply Forall_impl; [exact Hnext|cbn; lia]|]. constructor; [cbn; lia|constructor].
  - done.
  - intros s ids i Hs Hi. destruct (Hp s ids i Hs Hi) as (a & Ha & ?). exists a. split; [|done].
    apply elem_of_app. by left.
  - done.
  - intros a [Ha|Ha]%elem_of_app Hst; [by apply Hl|]. apply list_elem_of_singleton in Ha. by subst.
Qed.

(** A lease marks the artifacts of a new submission. *)
Lemma lease_wf e s ids :
  wf e -> pending e !! s = None -> ids <> [] ->
  (forall i, i ∈ ids -> exists a, a ∈ arts e /\ DaArtifact.id a = i /\ DaArtifact.state a = Ready) ->
  wf (mk (DaArtifacts.select_mut ids (DaArtifact.set_state Pending) (artifacts e)) (<[s := ids]> (pending e))).
Proof.
  intros [Hids Hnext Hne Hp Hd Hl] Hs Hids0 Hr.
  assert (forall s' ids' i, pending e !! s' = Some ids' -> i ∈ ids' -> i ∉ ids) as Hfresh.
  { intros s' ids' i Hs' Hi Hi'. destruct (Hp _ _ _ Hs' Hi) as (a & Ha & <- & Hst).
    destruct (Hr _ Hi') as (b & Hb & Hid & Hst'). rewrite (by_id (arts e) b a) in Hst'; [congruence|done..]. }
  split; cbn [artifacts pending].
  - by rewrite select_ids.
  - exact (select_next _ _ _ Hnext).
  - intros s' ids' [[<- <-]|[_ H']]%lookup_insert_Some; [done|by eapply Hne].
  - intros s' ids' i [[<- <-]|[_ H']]%lookup_insert_Some Hi.
    + destruct (Hr i Hi) as (a & Ha & <- & _). exists (DaArtifact.set_state Pending a). split; [|done].
      apply elem_of_select. exists a. by rewrite decide_True.
    + destruct (Hp _ _ _ H' Hi) as (a & Ha & <- & Hst). exists a. split; [|done]. apply elem_of_select. exists a.
      rewrite decide_False; [done|]. by eapply Hfresh.
  - intros s1 s2 i1 i2 i [[<- <-]|[_ H1]]%lookup_insert_Some [[<- <-]|[_ H2]]%lookup_insert_Some Hi1 Hi2; [done|..].
    + by destruct (Hfresh _ _ _ H2 Hi2).
    + by destruct (Hfresh _ _ _ H1 Hi1).
    + by eapply Hd.
  - intros x (y & Hy & ->)%elem_of_select Hst. case_decide as Hi.
    + exists s, ids. by rewrite lookup_insert_eq.
    + destruct (Hl y Hy Hst) as (s' & ids' & Hs' & Hi'). exists s', ids'. rewrite lookup_insert_ne; [done|]. congruence.
Qed.

(** Resolving a submission returns its artifacts to another state. *)
Lemma resolve_wf e s ids st :
  wf e -> pending e !! s = Some ids -> st <> Pending ->
  wf (mk (DaArtifacts.select_mut ids (DaArtifact.set_state st) (artifacts e)) (delete s (pending e))).
Proof.
  intros [Hids Hnext Hne Hp Hd Hl] Hs Hst. split; cbn [artifacts pending].
  - by rewrite select_ids.
  - exact (select_next _ _ _ Hnext).
  - intros s' ids' [_ H']%lookup_delete_Some. by eapply Hne.
  - intros s' ids' i [Hss H']%lookup_delete_Some Hi. destruct (Hp _ _ _ H' Hi) as (a & Ha & <- & Hp').
    exists a. split; [|done]. apply elem_of_select. exists a. rewrite decide_False; [done|]. intros Hi'.
    by destruct Hss; eapply Hd.
  - intros s1 s2 i1 i2 i [_ H1]%lookup_delete_Some [_ H2]%lookup_delete_Some. by eapply Hd.
  - intros x (y & Hy & ->)%elem_of_select Hx. case_decide as Hi; [done|].
    destruct (Hl y Hy Hx) as (s' & ids' & Hs' & Hi'). exists s', ids'. split; [|done].
    apply lookup_delete_Some. split; [|done]. intros <-. congruence.
Qed.

(** A submission in flight can always be resolved. *)
Lemma all_pending_wf e s ids : wf e -> pending e !! s = Some ids -> DaArtifacts.all_pending (artifacts e) ids = true.
Proof.
  intros Hwf Hs. apply forallb_forall. intros i Hi%list_elem_of_In. apply existsb_exists.
  destruct (wf_pending e Hwf s ids i Hs Hi) as (a & Ha & Hid & Hst). exists a.
  split; [by apply list_elem_of_In|]. by rewrite !bool_decide_eq_true_2.
Qed.

Lemma confirm_wf e s : wf e -> wf (confirm s e).2.
Proof.
  intros Hwf. unfold confirm. destruct (pending e !! s) as [ids|] eqn:Hs; [|done]. cbn [artifacts].
  rewrite (all_pending_wf e s ids) by done. by apply (resolve_wf e s ids Confirmed).
Qed.

Lemma requeue_wf e s : wf e -> wf (requeue s e).2.
Proof.
  intros Hwf. unfold requeue. destruct (pending e !! s) as [ids|] eqn:Hs; [|done]. cbn [artifacts].
  rewrite (all_pending_wf e s ids) by done. by apply (resolve_wf e s ids Ready).
Qed.

Lemma reset_wf e : wf (reset e).
Proof. split; cbn; [constructor|constructor|..]; try by setoid_rewrite lookup_empty. by intros a Ha%elem_of_nil. Qed.

(** Dropping artifacts together with the submissions that hold one of them. *)
Lemma invalidate_wf e ids :
  wf e -> (forall s l i, pending e !! s = Some l -> i ∈ l -> i ∈ ids -> Forall (fun j => j ∈ ids) l) ->
  wf (invalidate_artifacts ids e).
Proof.
  intros [Hids Hnext Hne Hp Hd Hl] Hclosed. split; cbn [artifacts pending invalidate_artifacts DaArtifacts.invalidate
    DaArtifacts.artifacts DaArtifacts.next_id].
  - eapply sublist_NoDup; [exact Hids|]. apply fmap_sublist, sublist_filter.
  - apply Forall_forall. intros a [_ Ha]%list_elem_of_filter. by eapply Forall_forall in Hnext.
  - intros s l [Hs _]%map_lookup_filter_Some. by eapply Hne.
  - intros s l i [Hs Hf]%map_lookup_filter_Some Hi. destruct (Hp _ _ _ Hs Hi) as (a & Ha & <- & Hst).
    exists a. split; [|done]. apply list_elem_of_filter. split; [|done]. rewrite Forall_forall in Hf. by apply Hf.
  - intros s s' l l' i [Hs _]%map_lookup_filter_Some [Hs' _]%map_lookup_filter_Some. by eapply Hd.
  - intros a [Hni Ha]%list_elem_of_filter Hst. destruct (Hl a Ha Hst) as (s & l & Hs & Hi). exists s, l. split; [|done].
    apply map_lookup_filter_Some. split; [done|]. cbn. apply Forall_forall. intros j Hj Hj'.
    apply Hni. pose proof (Hclosed _ _ _ Hs Hj Hj') as Hall. rewrite Forall_forall in Hall. by apply Hall.
Qed.

(** Dropping the references to some channels. *)
Lemma contains_spec a i : DaArtifacts.contains a i = true <-> exists x, x ∈ DaArtifacts.artifacts a /\ DaArtifact.id x = i.
Proof.
  unfold DaArtifacts.contains. rewrite existsb_exists. setoid_rewrite bool_decide_eq_true.
  by setoid_rewrite list_elem_of_In.
Qed.

Definition forget (cs : list bytes) (a : DaArtifact.t) : DaArtifact.t :=
  DaArtifact.set_channel_ids (filter (fun id => id ∉ cs) (DaArtifact.channel_ids a)) a.

Lemma elem_of_prune cs a x :
  x ∈ DaArtifacts.artifacts (DaArtifacts.prune_channels cs a) <->
  exists y, y ∈ DaArtifacts.artifacts a /\ x = forget cs y /\ DaArtifact.channel_ids x <> [].
Proof. cbn. rewrite list_elem_of_filter, list_elem_of_fmap. unfold forget. naive_solver. Qed.

Lemma pending_prune e cs s l :
  pending (prune_channels cs e) !! s = Some l <->
  exists l0, pending e !! s = Some l0 /\ l <> [] /\
    l = filter (fun i => DaArtifacts.contains (DaArtifacts.prune_channels cs (artifacts e)) i = true) l0.
Proof.
  cbn [prune_channels retain_existing_pending_artifacts pending set_artifacts artifacts].
  rewrite map_lookup_filter_Some, lookup_fmap, fmap_Some. cbn. naive_solver.
Qed.

Lemma prune_wf e cs : wf e -> wf (prune_channels cs e).
Proof.
  intros [Hids Hnext Hne Hp Hd Hl].
  assert (DaArtifact.id <$> DaArtifacts.artifacts (DaArtifacts.prune_channels cs (artifacts e)) `sublist_of` DaArtifact.id <$> arts e) as Hsub.
  { cbn. transitivity (DaArtifact.id <$> (forget cs <$> arts e)).
    - apply fmap_sublist, sublist_filter.
    - by rewrite <- list_fmap_compose. }
  split.
  - by eapply sublist_NoDup.
  - apply Forall_forall. intros x (y & Hy & -> & _)%elem_of_prune. rewrite Forall_forall in Hnext. exact (Hnext y Hy).
  - by intros s l (l0 & _ & ? & _)%pending_prune.
  - intros s l i (l0 & Hs & _ & ->)%pending_prune [Hc Hi]%list_elem_of_filter.
    apply contains_spec in Hc as (x & Hx & Hid). exists x. split_and!; [done|done|].
    apply elem_of_prune in Hx as (y & Hy & -> & _). destruct (Hp _ _ _ Hs Hi) as (a & Ha & Hia & Hst).
    rewrite (by_id (arts e) a y) in Hst; [done..|]. by rewrite Hia, <- Hid.
  - intros s s' l l' i (l0 & Hs & _ & ->)%pending_prune (l0' & Hs' & _ & ->)%pending_prune
      [_ Hi]%list_elem_of_filter [_ Hi']%list_elem_of_filter. by eapply Hd.
  - intros x Hx Hst. pose proof Hx as (y & Hy & -> & Hcs)%elem_of_prune. destruct (Hl y Hy Hst) as (s & l & Hs & Hi).
    eexists s, _. assert (DaArtifact.id y ∈ filter (fun i => DaArtifacts.contains (DaArtifacts.prune_channels cs (artifacts e)) i = true) l) as Hin.
    { apply list_elem_of_filter. split; [|done]. apply contains_spec. by exists (forget cs y). }
    split; [|exact Hin]. apply pending_prune. exists l. split_and!; [done| |done]. intros Hnil. rewrite Hnil in Hin.
    by apply elem_of_nil in Hin.
Qed.

(** ** Leases *)

Lemma set_states_lookup ks st : forall (a : DaArtifacts.t) k,
  DaArtifacts.artifacts (foldl (fun s i => DaArtifacts.set_state_at i st s) a ks) !! k =
    (fun x => if decide (k ∈ ks) then DaArtifact.set_state st x else x) <$> DaArtifacts.artifacts a !! k.
Proof.
  induction ks as [|j ks IH]; intros a k; cbn [foldl].
  - by destruct (DaArtifacts.artifacts a !! k).
  - rewrite IH. cbn [DaArtifacts.set_state_at DaArtifacts.artifacts]. destruct (decide (k = j)) as [->|Hne].
    + rewrite list_lookup_alter_eq, <- option_fmap_compose. apply option_fmap_ext. intros x. cbn.
      rewrite (decide_True (P := j ∈ j :: ks)) by constructor. by case_decide.
    + rewrite list_lookup_alter_ne by done. apply option_fmap_ext. intros x.
      destruct (decide (k ∈ ks)) as [Hk|Hk].
      * by rewrite decide_True by (by constructor).
      * rewrite decide_False; [done|]. intros [?|?]%elem_of_cons; done.
Qed.

Lemma set_states_next ks st : forall a : DaArtifacts.t,
  DaArtifacts.next_id (foldl (fun s i => DaArtifacts.set_state_at i st s) a ks) = DaArtifacts.next_id a.
Proof. induction ks as [|j ks IH]; intros a; [done|]. cbn [foldl]. by rewrite IH. Qed.

(** Marking by position and by identifier is the same. *)
Lemma set_states_select (a : DaArtifacts.t) chosen st :
  NoDup (DaArtifact.id <$> DaArtifacts.artifacts a) ->
  Forall (fun kx : nat * DaArtifact.t => DaArtifacts.artifacts a !! kx.1 = Some kx.2) chosen ->
  foldl (fun s i => DaArtifacts.set_state_at i st s) a (fst <$> chosen) =
  DaArtifacts.select_mut (DaArtifact.id ∘ snd <$> chosen) (DaArtifact.set_state st) a.
Proof.
  intros Hnd Hch. set (l := foldl _ _ _).
  assert (DaArtifacts.artifacts l = DaArtifacts.artifacts
    (DaArtifacts.select_mut (DaArtifact.id ∘ snd <$> chosen) (DaArtifact.set_state st) a)) as Heq.
  { apply list_eq. intros k. unfold l. rewrite set_states_lookup. cbn. rewrite list_lookup_fmap.
    destruct (DaArtifacts.artifacts a !! k) as [x|] eqn:Hx; [|done]. cbn. f_equal. apply decide_ext.
    rewrite !list_elem_of_fmap. rewrite Forall_forall in Hch. split.
    - intros ([k' y] & -> & Hin). exists (k', y). split; [|done]. specialize (Hch _ Hin). cbn in *. congruence.
    - intros ([k' y] & Hid & Hin). specialize (Hch _ Hin). cbn in *. exists (k', y). split; [|done]. cbn.
      eapply NoDup_lookup; [exact Hnd|rewrite list_lookup_fmap, Hx; done|rewrite list_lookup_fmap, Hch; cbn; by rewrite Hid]. }
  pose proof (set_states_next (fst <$> chosen) st a) as Hn. fold l in Hn. destruct l. cbn in *. by subst.
Qed.

(** The submission that carries the artifacts [xs]. *)
Definition carries_artifacts (sub : BatchSubmission.t) (xs : list DaArtifact.t) (max_blobs : Z) : Prop :=
  (exists ps, BatchSubmission.payload sub = PayloadBlobs ps /\ ArtifactBlob <$> ps = DaArtifact.payload <$> xs /\
     len ps <= max_blobs) \/
  (exists f x, BatchSubmission.payload sub = PayloadCalldata f /\ xs = [x] /\ DaArtifact.payload x = ArtifactCalldata f).

Lemma take_while_Forall {A} (p : A -> bool) l : Forall (fun x => p x = true) (take_while p l).
Proof. induction l as [|x l IH]; [constructor|]. cbn. destruct (p x) eqn:Hp; by constructor. Qed.

Lemma take_while_sub {A} (p : A -> bool) l : take_while p l ⊆ l.
Proof.
  induction l as [|x l IH]; [done|]. cbn. destruct (p x); [|apply list_subseteq_nil]. intros y [->|Hy]%elem_of_cons; [constructor|].
  constructor. by apply IH.
Qed.

(** The artifacts that [lease_blobs] chooses. *)
Definition chosen_blobs (first : nat) (maximum : Z) (l : list DaArtifact.t) : list (nat * DaArtifact.t) :=
  take (Z.to_nat maximum) (take_while (fun ia => is_blob (DaArtifact.payload ia.2))
    (filter (fun ia : nat * DaArtifact.t => DaArtifact.state ia.2 = Ready) (drop first (imap pair l)))).

Lemma chosen_blobs_spec first maximum l x :
  l !! first = Some x -> DaArtifact.state x = Ready -> is_blob (DaArtifact.payload x) = true -> 1 <= maximum ->
  chosen_blobs first maximum l <> [] /\ len (chosen_blobs first maximum l) <= maximum /\
  Forall (fun ia => l !! ia.1 = Some ia.2 /\ DaArtifact.state ia.2 = Ready /\ is_blob (DaArtifact.payload ia.2) = true)
    (chosen_blobs first maximum l).
Proof.
  intros Hx Hr Hb Hm. unfold chosen_blobs. split_and!.
  - rewrite (drop_S _ (first, x)) by (by rewrite list_lookup_imap, Hx). rewrite filter_cons_True by done.
    cbn [take_while snd]. rewrite Hb. by destruct (Z.to_nat maximum) eqn:Hz; [lia|].
  - unfold len. rewrite length_take. lia.
  - apply Forall_take, Forall_forall. intros [i y] Hin.
    pose proof (proj1 (Forall_forall _ _) (take_while_Forall _ _) _ Hin) as Hblob.
    apply take_while_sub, list_elem_of_filter in Hin as [Hready Hin]. split_and!; [|done|done]. cbn.
    apply list_elem_of_lookup_1 in Hin as [k Hk]. rewrite lookup_drop, list_lookup_imap in Hk.
    apply fmap_Some in Hk as (z & Hz & [= -> ->]). done.
Qed.

Lemma lease_blobs_spec sid first maximum (a : DaArtifacts.t) x :
  NoDup (DaArtifact.id <$> DaArtifacts.artifacts a) -> DaArtifacts.artifacts a !! first = Some x ->
  DaArtifact.state x = Ready -> is_blob (DaArtifact.payload x) = true -> 1 <= maximum ->
  exists sub xs,
    DaArtifacts.lease_blobs first maximum sid a =
      (Ok (sub, DaArtifact.id <$> xs), DaArtifacts.select_mut (DaArtifact.id <$> xs) (DaArtifact.set_state Pending) a) /\
    xs <> [] /\ Forall (fun y => y ∈ DaArtifacts.artifacts a /\ DaArtifact.state y = Ready) xs /\
    BatchSubmission.id sub = sid /\ carries_artifacts sub xs maximum.
Proof.
  intros Hnd Hx Hr Hb Hm. destruct (chosen_blobs_spec first maximum _ x Hx Hr Hb Hm) as (Hne & Hlen & Hall).
  unfold DaArtifacts.lease_blobs. run_ops. fold (chosen_blobs first maximum (DaArtifacts.artifacts a)).
  set (chosen := chosen_blobs _ _ _) in *.
  assert (exists ps,
    Forall2 (fun i r => DaArtifacts.blob_at a i = Some r) (fst <$> chosen) (zip ps (DaArtifact.id ∘ snd <$> chosen)) /\
    ArtifactBlob <$> ps = DaArtifact.payload ∘ snd <$> chosen /\ length ps = length chosen) as (ps & Hps & Hpay & Hl).
  { clear -Hall. induction Hall as [|[i y] chosen (Hi & _ & Hby) _ (ps & Hps & Hpay & Hl)]; [exists []; split_and!; constructor|].
    cbn in Hi, Hby. destruct (DaArtifact.payload y) as [p|] eqn:Hp; [|done]. exists (p :: ps). rewrite !fmap_cons, Hpay. cbn.
    rewrite Hp, Hl. split_and!; [|done..]. constructor; [|done]. unfold DaArtifacts.blob_at. rewrite Hi. cbn. by rewrite Hp. }
  apply mapM_Some in Hps. rewrite Hps. cbn [or_panic].
  assert (length ps = length (DaArtifact.id ∘ snd <$> chosen)) as Hl' by (by rewrite length_fmap).
  rewrite fst_zip, snd_zip by lia. rewrite (set_states_select a chosen) by (done || by eapply Forall_impl; [exact Hall|naive_solver]).
  eexists _, (snd <$> chosen). rewrite <- list_fmap_compose. split_and!; [done| | |done|].
  - by intros ?%fmap_nil_inv.
  - apply Forall_fmap. eapply Forall_impl; [exact Hall|]. intros [i y] (Hi & Hs & _). split; [by eapply list_elem_of_lookup_2|done].
  - left. exists ps. split_and!; [done|by rewrite <- list_fmap_compose|]. unfold len in *. lia.
Qed.

(** A lease takes ready artifacts, and there is one when any artifact is ready. *)
Lemma lease_spec sid maximum (a : DaArtifacts.t) :
  NoDup (DaArtifact.id <$> DaArtifacts.artifacts a) -> 1 <= maximum ->
  DaArtifacts.lease sid maximum a = (Ok None, a) /\ DaArtifacts.has_ready a = false \/
  exists sub xs,
    DaArtifacts.lease sid maximum a =
      (Ok (Some (sub, DaArtifact.id <$> xs)),
       DaArtifacts.select_mut (DaArtifact.id <$> xs) (DaArtifact.set_state Pending) a) /\
    xs <> [] /\ Forall (fun y => y ∈ DaArtifacts.artifacts a /\ DaArtifact.state y = Ready) xs /\
    BatchSubmission.id sub = sid /\ carries_artifacts sub xs maximum.
Proof.
  intros Hnd Hm. unfold DaArtifacts.lease. rewrite bind_run. unfold gets.
  destruct (list_find _ (DaArtifacts.artifacts a)) as [[i x]|] eqn:Hfind.
  - right. apply list_find_Some in Hfind as (Hi & Hr & _). destruct (DaArtifact.payload x) as [p|f] eqn:Hp.
    + destruct (lease_blobs_spec sid i maximum a x Hnd Hi Hr ltac:(by rewrite Hp) Hm) as (sub & xs & Heq & Hrest).
      exists sub, xs. rewrite bind_run, Heq. done.
    + exists (BatchSubmission.calldata sid f), [x]. split_and!; [|done| |done|right; by exists f, x].
      * unfold DaArtifacts.lease_calldata. run_ops. rewrite Hi. cbn [or_panic]. rewrite Hp. cbn [fmap list_fmap].
        pose proof (set_states_select a [(i, x)] Pending Hnd ltac:(by repeat constructor)) as Hsel. cbn in Hsel. by rewrite Hsel.
      * constructor; [|constructor]. split; [by eapply list_elem_of_lookup_2|done].
  - left. split; [done|]. apply list_find_None in Hfind. unfold DaArtifacts.has_ready. clear Hnd.
    induction Hfind as [|x l Hx _ IH]; [done|]. cbn. rewrite bool_decide_eq_false_2 by done. exact IH.
Qed.

End Ledger.

(** ** What was put into artifacts is what the channels were cut into *)

Module Shipping.
Import DaEgress ChannelProofs EgressProofs.

Definition frames_in (a : DaArtifact.t) : list Frame.t :=
  match DaArtifact.payload a with ArtifactBlob p => BlobPayload.frames p | ArtifactCalldata f => [f] end.

(** The frames of a channel in the ledger. *)
Definition ledger_frames (e : t) (i : bytes) : list Frame.t :=
  filter (fun f => Frame.id f = i) (Ledger.arts e ≫= frames_in).

Section Ships.
Context `{TxTypes} `{!Rlp} `{SingleBatchRlp} `{BrotliEncoderLaws}.

(** A payload that can be sent: its frames are within the limits of the decoder,
    and together fit a blob. *)
Definition fits (payload : DaArtifactPayload) : Prop :=
  match payload with
  | ArtifactBlob p => BlobPayload.frames p <> [] /\ Forall Frame.sendable (BlobPayload.frames p) /\
      BlobPayload.frame_bytes p <= BLOB_CAPACITY
  | ArtifactCalldata f => Frame.sendable f
  end.

(** The channels were cut into exactly their frames in the ledger, and carry the
    batches that [Q] asks for; an artifact lists the channels its frames belong to,
    and no others. *)
Record ships (Q : EncoderChannel.t -> list SingleBatch.t -> Prop) (e : t) (channels : list EncoderChannel.t) : Prop := {
  sh_wf : Ledger.wf e;
  sh_next : 0 <= DaArtifacts.next_id (artifacts e);
  sh_ids : NoDup (EncoderChannel.id <$> channels);
  sh_live : Forall (fun ch => exists bs, Q ch bs /\ holds ch bs (ledger_frames e (EncoderChannel.id ch))) channels;
  sh_refs a ch f : a ∈ Ledger.arts e -> ch ∈ channels -> f ∈ frames_in a -> Frame.id f = EncoderChannel.id ch ->
    EncoderChannel.id ch ∈ DaArtifact.channel_ids a;
  sh_known a i : a ∈ Ledger.arts e -> i ∈ DaArtifact.channel_ids a -> i ∈ EncoderChannel.id <$> channels;
  sh_id16 i : i ∈ EncoderChannel.id <$> channels -> length i = 16%nat;
  sh_fits a : a ∈ Ledger.arts e -> fits (DaArtifact.payload a)
}.

Lemma ships_live Q e channels : ships Q e channels -> Forall live channels.
Proof. intros Hs. eapply Forall_impl; [exact (sh_live _ _ _ Hs)|]. intros ch (bs & _ & Hh). by eexists _, _. Qed.

Lemma advances_ids ch ch' new :
  live ch -> advances ch ch' new -> Forall (fun f => Frame.id f = EncoderChannel.id ch) new.
Proof.
  intros (bs & fs & Hh) [Hr Ha]. apply Forall_forall. intros f [k Hk]%list_elem_of_lookup_1.
  destruct (h_frames _ _ _ (Ha _ _ Hh) (length fs + k) f) as (Hid & _).
  - by rewrite lookup_app_r, Nat.add_sub' by lia.
  - by rewrite Hid, (reframed_id _ _ Hr).
Qed.

Lemma filter_all {A} (P : A -> Prop) `{!forall x, Decision (P x)} l : Forall P l -> filter P l = l.
Proof. induction 1; [done|]. rewrite filter_cons_True by done. by f_equal. Qed.

Lemma filter_none {A} (P : A -> Prop) `{!forall x, Decision (P x)} l : Forall (fun x => ~ P x) l -> filter P l = [].
Proof. induction 1; [done|]. by rewrite filter_cons_False. Qed.

(** The new frames of each channel among those of all channels. *)
Lemma filter_news channels channels' news :
  Forall live channels -> Forall3 advances channels channels' news -> NoDup (EncoderChannel.id <$> channels) ->
  Forall2 (fun ch new => filter (fun f => Frame.id f = EncoderChannel.id ch) (concat news) = new) channels news /\
  Forall (fun f => Frame.id f ∈ EncoderChannel.id <$> channels) (concat news).
Proof.
  intros Hl Ha. induction Ha as [|ch ch' new channels channels' news Hadv _ IH]; intros Hnd; [by split; constructor|].
  apply Forall_cons in Hl as [Hch Hl]. rewrite fmap_cons in Hnd. apply NoDup_cons in Hnd as [Hni Hnd].
  destruct (IH Hl Hnd) as [IH1 IH2]. pose proof (advances_ids _ _ _ Hch Hadv) as Hids. cbn [concat]. split.
  - constructor.
    + rewrite filter_app, filter_all, filter_none; [by rewrite app_nil_r| |done].
      eapply Forall_impl; [exact IH2|]. cbn. intros f Hf Heq. by rewrite Heq in Hf.
    + apply Forall2_same_length_lookup in IH1 as [Hlen IH1]. apply Forall2_same_length_lookup. split; [done|].
      intros i c new' Hc Hn. rewrite filter_app, filter_none; [by apply (IH1 i)|].
      eapply Forall_impl; [exact Hids|]. cbn. intros f -> Heq. apply Hni. rewrite Heq. apply list_elem_of_fmap_2.
      by eapply list_elem_of_lookup_2.
  - apply Forall_app_2.
    + eapply Forall_impl; [exact Hids|]. cbn. intros f ->. constructor.
    + eapply Forall_impl; [exact IH2|]. cbn. intros f Hf. by constructor.
Qed.

Context (Q : EncoderChannel.t -> list SingleBatch.t -> Prop)
  (HQ : forall ch ch' bs, reframed ch ch' -> Q ch bs -> Q ch' bs).

Lemma ledger_push e payload cs i :
  ledger_frames (set_artifacts (DaArtifacts.push payload cs (artifacts e)).2 e) i =
    ledger_frames e i ++ filter (fun f => Frame.id f = i) (frames_in (DaArtifact.mk (DaArtifacts.next_id (artifacts e)) payload cs Ready)).
Proof. unfold ledger_frames. cbn. rewrite bind_app, filter_app. cbn. by rewrite app_nil_r. Qed.

(** The frames cut off the channels can be sent. *)
Lemma advances_sendable e channels channels' news :
  ships Q e channels -> Forall3 advances channels channels' news ->
  Forall (fun f => len (Frame.data f) <= Frame.MAX_LEN) (concat news) -> Forall Frame.sendable (concat news).
Proof.
  intros [_ _ _ Hl _ _ H16 _] Ha Hmax. apply Forall_forall. intros f Hf.
  split; [|by eapply Forall_forall in Hmax]. apply list_elem_of_In, in_concat in Hf as (new & Hnew%list_elem_of_In & Hf%list_elem_of_In).
  apply list_elem_of_lookup_1 in Hnew as [k Hk]. destruct (Forall3_lookup_r _ _ _ _ _ _ Ha Hk) as (ch & ch' & Hc & Hc' & Hr & Hadv).
  pose proof (Forall_lookup_1 _ _ _ _ Hl Hc) as (bs & _ & Hh). specialize (Hadv _ _ Hh).
  apply list_elem_of_lookup_1 in Hf as [j Hj].
  destruct (h_frames _ _ _ Hadv (length (ledger_frames e (EncoderChannel.id ch)) + j)%nat f) as (Hid & Hnum & _).
  { by rewrite lookup_app_r, Nat.add_sub' by lia. }
  split.
  - rewrite Hid, (reframed_id _ _ Hr). apply H16. apply list_elem_of_fmap_2. by eapply list_elem_of_lookup_2.
  - rewrite Hnum. pose proof (h_number_max _ _ _ Hadv) as Hm. rewrite len_app in Hm. apply lookup_lt_Some in Hj.
    unfold EncoderChannel.MAX_FRAMES, u16_max, len in *. lia.
Qed.

(** Committing an artifact with the frames [concat news]. *)
Lemma push_ships e channels channels' news payload cs :
  ships Q e channels -> Forall3 advances channels channels' news -> DaArtifacts.next_id (artifacts e) < u64_max ->
  frames_in (DaArtifact.mk (DaArtifacts.next_id (artifacts e)) payload cs Ready) = concat news ->
  (forall i, i ∈ cs <-> i ∈ Frame.id <$> concat news) -> (Forall Frame.sendable (concat news) -> fits payload) ->
  Forall (fun f => len (Frame.data f) <= Frame.MAX_LEN) (concat news) ->
  ships Q (set_artifacts (DaArtifacts.push payload cs (artifacts e)).2 e) channels' /\ Forall2 reframed channels channels'.
Proof.
  intros Hs Ha Hn Hfr Hcs Hfit Hmax. pose proof (ships_live _ _ _ Hs) as Hlive. pose proof (advances_sendable _ _ _ _ Hs Ha Hmax) as Hsend.
  destruct Hs as [Hwf Hnext Hids Hl Hrefs Hknown H16 Hfits].
  assert (Forall2 reframed channels channels') as Hre by (clear -Ha; induction Ha as [|????? ? [? _]]; by constructor).
  assert (EncoderChannel.id <$> channels' = EncoderChannel.id <$> channels) as Hidseq.
  { clear -Hre. induction Hre as [|c c' cs cs' Hr _ IH]; [done|]. rewrite !fmap_cons, IH. by rewrite (reframed_id _ _ Hr). }
  destruct (filter_news _ _ _ Hlive Ha Hids) as [Hnews Hin]. split; [|done]. split.
  - by apply Ledger.push_wf.
  - cbn. apply wrap_range. lia.
  - by rewrite Hidseq.
  - apply Forall_lookup_2. intros k ch' Hk. destruct (Forall3_lookup_m _ _ _ _ _ _ Ha Hk) as (ch & new & Hc & Hnew & Hadv).
    pose proof (reframed_id _ _ (proj1 Hadv)) as Hid. rewrite ledger_push, Hfr, Hid.
    apply Forall2_same_length_lookup in Hnews as [_ Hnews]. rewrite (Hnews k ch new Hc Hnew).
    eapply Forall_lookup_1 in Hl as (bs & Hq & Hh); [|exact Hc]. exists bs. split; [by eapply HQ; [apply Hadv|]|by apply Hadv].
  - intros a ch' f [Hin'|Hin']%elem_of_app Hch Hf Hid.
    + apply list_elem_of_lookup_1 in Hch as [k Hk]. destruct (Forall3_lookup_m _ _ _ _ _ _ Ha Hk) as (ch & new & Hc & _ & Hadv).
      pose proof (reframed_id _ _ (proj1 Hadv)) as Heq. rewrite Heq in *. eapply Hrefs; [done| |done|done].
      by eapply list_elem_of_lookup_2.
    + apply list_elem_of_singleton in Hin' as ->. apply Hcs. rewrite <- Hid. apply list_elem_of_fmap_2. by rewrite <- Hfr.
  - intros a i [Hin'|Hin']%elem_of_app Hi; rewrite Hidseq; [by eapply Hknown|].
    apply list_elem_of_singleton in Hin' as ->. apply Hcs, list_elem_of_fmap in Hi as (f & -> & Hf).
    rewrite Forall_forall in Hin. by apply Hin.
  - intros i. rewrite Hidseq. apply H16.
  - intros a [Ha'|Ha']%elem_of_app; [by apply Hfits|]. apply list_elem_of_singleton in Ha' as ->. by apply Hfit.
Qed.

(** ** Calldata *)

Lemma plan_calldata_spec channels p :
  Forall live channels -> plan_calldata channels = Some p ->
  exists pre ch post n last, channels = pre ++ ch :: post /\ p = (EncoderChannel.id ch, n, last) /\
    channel_cuts ch [(n, last)] /\ n <= EncoderChannel.max_frame_data ch.
Proof.
  induction channels as [|ch channels IH]; intros Hl; [done|]. apply Forall_cons in Hl as [Hch Hl]. cbn [plan_calldata].
  destruct (EncoderChannel.framing_complete ch) eqn:Hfc.
  { intros Hp. destruct (IH Hl Hp) as (pre & c & post & n & last & -> & Hrest). by exists (ch :: pre), c, post, n, last. }
  pose proof (live_frame_data _ Hch). pose proof (live_available _ Hch).
  assert (EncoderChannel.is_open ch || EncoderChannel.terminal_pending ch = true) as Hlive.
  { unfold EncoderChannel.framing_complete in Hfc. by destruct (EncoderChannel.is_open ch), (EncoderChannel.terminal_pending ch). }
  assert (EncoderChannel.terminal_pending ch = true -> EncoderChannel.is_open ch = false) as Ho.
  { destruct Hch as (bs & fs & Hh). pose proof (h_terminal _ _ _ Hh). destruct (EncoderChannel.is_open ch); naive_solver. }
  case_decide as Hfull.
  - intros [= <-]. eexists [], ch, channels, _, _. split_and!; [done|done| |done].
    split_and!; [done|lia|lia| |done]. intros [Hb%bool_decide_eq_true Ht]%andb_true_iff. auto.
  - destruct (EncoderChannel.terminal_pending ch) eqn:Ht; [|done]. intros [= <-].
    eexists [], ch, channels, _, _. split_and!; [done|done| |lia].
    split_and!; [by rewrite Ht, orb_true_r|lia|lia|auto|done].
Qed.

(** A step of the egress: it fails only at a channel without frame numbers, and
    otherwise keeps what was to be shipped. *)
Definition egresses (e : t) (channels : list EncoderChannel.t) {A} (out : result Empty_set A * (t * list EncoderChannel.t)) (P : t -> Prop) : Prop :=
  match out with
  | (Ok _, (e', channels')) => ships Q e' channels' /\ Forall2 reframed channels channels' /\ pending e' = pending e /\ P e'
  | (Err _, _) => False
  | (Panic, (_, channels')) => Exists exhausted channels'
  end.

Lemma commit_calldata_ships e channels p :
  ships Q e channels -> DaArtifacts.next_id (artifacts e) < u64_max -> plan_calldata channels = Some p ->
  egresses e channels (commit_calldata p (e, channels)) (fun _ => True).
Proof.
  intros Hs Hn Hp. pose proof (ships_live _ _ _ Hs) as Hlive.
  destruct (plan_calldata_spec _ _ Hlive Hp) as (pre & ch & post & n & last & -> & -> & Hcut & Hsz).
  pose proof (proj1 (Forall_app _ _ _) Hlive) as [_ [Hch _]%Forall_cons].
  unfold commit_calldata, on_channels, take_planned. run_ops. cbn [snd]. rewrite find_middle by exact (sh_ids _ _ _ Hs).
  destruct (cut_one _ _ _ _ Hch Hcut) as [(f & ch' & Htake & Hadv & Hlen & Hid & _)|[[err Htake] Hex]]; rewrite Htake;
    rewrite insert_app_r_alt, Nat.sub_diag by done; cbn [list_insert insert];
    [|cbn; apply Exists_app; right; by constructor].
  assert (Forall3 advances (pre ++ ch :: post) (pre ++ ch' :: post)
    (replicate (length pre) [] ++ [f] :: replicate (length post) [])) as Hadvs.
  { assert (forall cs : list EncoderChannel.t, Forall3 advances cs cs (replicate (length cs) [])) as Hsame
      by (induction cs; constructor; [apply advances_nil|done]).
    apply Forall3_app; [apply Hsame|]. by constructor. }
  assert (concat (replicate (length pre) [] ++ [f] :: replicate (length post) []) = [f]) as Hcat.
  { assert (forall k, concat (replicate k (@nil Frame.t)) = []) as Hnil by (induction k; done).
    rewrite concat_app. cbn. by rewrite !Hnil. }
  destruct (push_ships e _ _ _ (ArtifactCalldata f) [EncoderChannel.id ch] Hs Hadvs Hn) as [Hs' Hre]; [by rewrite Hcat| | | |].
  { intros i. rewrite Hcat. cbn. by rewrite Hid. }
  { rewrite Hcat. intros Hf. exact (proj1 (Forall_singleton _ _) Hf). }
  { rewrite Hcat. apply Forall_singleton. rewrite Hlen. pose proof (live_max_frame_data _ Hch). lia. }
  by split_and!.
Qed.

(** ** Blobs *)

Lemma commit_blob_ships e channels l1_head plan :
  ships Q e channels -> DaArtifacts.next_id (artifacts e) < u64_max ->
  plan_blob channels l1_head = Ok (Some plan) ->
  egresses e channels (commit_blob plan (e, channels)) (fun e' =>
    DaArtifacts.next_id (artifacts e') = DaArtifacts.next_id (artifacts e) + 1 /\
    DaArtifacts.ready_blob_count (artifacts e') = DaArtifacts.ready_blob_count (artifacts e) + 1).
Proof.
  intros Hs Hn Hplan. pose proof (ships_live _ _ _ Hs) as Hlive.
  destruct (commit_blob_spec e channels l1_head plan Hlive (sh_ids _ _ _ Hs) Hplan)
    as [(channels' & news & cs & Heq & Hadv & Hcs & Hne & Hsize)|(e' & channels' & Heq & Hex)]; cbn in Heq; rewrite Heq; [|exact Hex].
  destruct (push_ships e _ _ _ (ArtifactBlob (BlobPayload.mk (concat news))) cs Hs Hadv Hn eq_refl Hcs) as [Hs' Hre]; [done| |].
  { unfold BlobPayload.frame_bytes in Hsize. cbn [BlobPayload.frames] in Hsize. change BLOB_CAPACITY with 130043 in Hsize.
    clear -Hsize. induction (concat news) as [|f l IH]; constructor; cbn [sumZ] in Hsize.
    - change (Frame.encoded_len f) with (23 + len (Frame.data f)) in Hsize. pose proof (sumZ_nonneg Frame.encoded_len l ltac:(intros g; pose proof (Frame.encoded_len_pos g); lia)). unfold Frame.MAX_LEN. lia.
    - apply IH. pose proof (Frame.encoded_len_pos f). lia. }
  split_and!; [exact Hs'|exact Hre|done| |].
  - cbn. unfold u64_add. apply wrap_small. pose proof (sh_next _ _ _ Hs). unfold u64_max in *. lia.
  - unfold DaArtifacts.ready_blob_count, DaArtifacts.ready. cbn [DaArtifacts.push DaArtifacts.artifacts set_artifacts artifacts snd].
    rewrite !filter_app, len_app. done.
Qed.

Lemma build_blobs_ships l1_head maximum fuel : forall e channels,
  ships Q e channels -> maximum - DaArtifacts.ready_blob_count (artifacts e) <= Z.of_nat fuel ->
  DaArtifacts.next_id (artifacts e) + Z.of_nat fuel <= u64_max ->
  egresses e channels (build_blobs fuel l1_head maximum (e, channels)) (fun _ => True).
Proof.
  induction fuel as [|fuel IH]; intros e channels Hs Hf Hn; cbn [build_blobs]; rewrite bind_run; unfold gets; cbn iota.
  { rewrite decide_False by lia. by split_and!. }
  case_decide as Hgo; [|by split_and!]. rewrite bind_run. unfold lift.
  destruct (plan_channels_spec channels l1_head BLOB_CAPACITY [] false (ships_live _ _ _ Hs)) as (ess & rem & due & Hplan & _); [done|].
  destruct (plan_blob channels l1_head) as [[plan|]|[]|] eqn:Hp.
  - pose proof (commit_blob_ships e channels l1_head plan Hs ltac:(lia) Hp) as Hc. rewrite bind_run.
    destruct (commit_blob plan (e, channels)) as [[id|[]|] [e1 ch1]]; [|exact Hc].
    destruct Hc as (Hs1 & Hre & Hpend & Hn1 & Hcnt). specialize (IH e1 ch1 Hs1 ltac:(lia) ltac:(lia)).
    destruct (build_blobs fuel l1_head maximum (e1, ch1)) as [[[]|[]|] [e2 ch2]]; [|exact IH].
    destruct IH as (Hs2 & Hre2 & Hpend2 & _). split_and!; [done|by etrans|congruence|done].
  - by split_and!.
  - exfalso. unfold plan_blob in Hp. rewrite Hplan in Hp. cbn [mbind result_bind] in Hp. by case_decide.
Qed.

(** The states of the artifacts do not matter. *)
Lemma ships_restate e e' channels :
  ships Q e channels -> Ledger.wf e' -> DaArtifacts.next_id (artifacts e') = DaArtifacts.next_id (artifacts e) ->
  (fun a => (DaArtifact.payload a, DaArtifact.channel_ids a)) <$> Ledger.arts e' =
  (fun a => (DaArtifact.payload a, DaArtifact.channel_ids a)) <$> Ledger.arts e ->
  ships Q e' channels.
Proof.
  intros [_ Hnext Hids Hl Hrefs Hknown H16 Hfits] Hwf Hn Heq.
  assert (forall i, ledger_frames e' i = ledger_frames e i) as Hfr.
  { intros i. unfold ledger_frames. f_equal. clear -Heq. revert Heq. generalize (Ledger.arts e').
    induction (Ledger.arts e) as [|a l IH]; intros [|a' l'] Heq; try done. rewrite !fmap_cons in Heq. injection Heq as Hp _ Hrest.
    cbn. rewrite (IH l') by done. unfold frames_in. by rewrite Hp. }
  assert (forall a, a ∈ Ledger.arts e' -> exists b, b ∈ Ledger.arts e /\ DaArtifact.payload b = DaArtifact.payload a /\
    DaArtifact.channel_ids b = DaArtifact.channel_ids a) as Hfind.
  { intros a Ha. apply (list_elem_of_fmap_2 (fun a => (DaArtifact.payload a, DaArtifact.channel_ids a))) in Ha.
    rewrite Heq in Ha. apply list_elem_of_fmap in Ha as (b & [= Hp Hc] & Hb). by exists b. }
  split; [done|by rewrite Hn|done| | | |done|].
  - eapply Forall_impl; [exact Hl|]. cbn. intros ch (bs & Hq & Hh). exists bs. by rewrite Hfr.
  - intros a ch f Ha Hch Hf Hid. destruct (Hfind a Ha) as (b & Hb & Hfb & <-). unfold frames_in in Hf. rewrite <- Hfb in Hf. by eapply Hrefs.
  - intros a i Ha Hi. destruct (Hfind a Ha) as (b & Hb & _ & Hcb). rewrite <- Hcb in Hi. by eapply Hknown.
  - intros a Ha. destruct (Hfind a Ha) as (b & Hb & <- & _). by apply Hfits.
Qed.

Lemma select_shape ids st a :
  (fun a => (DaArtifact.payload a, DaArtifact.channel_ids a)) <$>
    DaArtifacts.artifacts (DaArtifacts.select_mut ids (DaArtifact.set_state st) a) =
  (fun a => (DaArtifact.payload a, DaArtifact.channel_ids a)) <$> DaArtifacts.artifacts a.
Proof. cbn. rewrite <- list_fmap_compose. apply list_fmap_ext. intros i x _. cbn. by case_decide. Qed.

Lemma confirm_ships e channels s : ships Q e channels -> ships Q (confirm s e).2 channels.
Proof.
  intros Hs. eapply ships_restate; [exact Hs|apply Ledger.confirm_wf, Hs|..]; unfold confirm;
    destruct (pending e !! s) as [ids|]; try done; cbn [artifacts]; destruct (DaArtifacts.all_pending _ _); try done.
  apply select_shape.
Qed.

Lemma requeue_ships e channels s : ships Q e channels -> ships Q (requeue s e).2 channels.
Proof.
  intros Hs. eapply ships_restate; [exact Hs|apply Ledger.requeue_wf, Hs|..]; unfold requeue;
    destruct (pending e !! s) as [ids|]; try done; cbn [artifacts]; destruct (DaArtifacts.all_pending _ _); try done.
  apply select_shape.
Qed.

(** Identifiers for a submission of [maximum] blobs. *)
Definition can_submit (e : t) (maximum : Z) : Prop :=
  1 <= maximum /\ DaArtifacts.next_id (artifacts e) + maximum <= u64_max.

Lemma no_ready_blobs a : DaArtifacts.has_ready a = false -> DaArtifacts.ready_blob_count a = 0.
Proof.
  unfold DaArtifacts.has_ready, DaArtifacts.ready_blob_count, DaArtifacts.ready.
  induction (DaArtifacts.artifacts a) as [|x l IH]; [done|]. cbn [existsb]. intros [Hx Hl]%orb_false_iff.
  apply bool_decide_eq_false in Hx. rewrite filter_cons_False by done. by apply IH.
Qed.

Lemma build_ships da_type l1_head maximum e channels :
  ships Q e channels -> can_submit e maximum -> DaArtifacts.has_ready (artifacts e) = false ->
  egresses e channels (build_ready_artifacts da_type l1_head maximum (e, channels)) (fun _ => True).
Proof.
  intros Hs (Hm & Hn) Hready. destruct da_type; cbn [build_ready_artifacts].
  - apply build_blobs_ships; [done| |]; rewrite ?Z2Nat.id by lia; [|done]. rewrite no_ready_blobs by done. lia.
  - rewrite bind_run. unfold gets. cbn [snd]. destruct (plan_calldata channels) as [p|] eqn:Hp; [|by split_and!].
    pose proof (commit_calldata_ships e channels p Hs ltac:(lia) Hp) as Hc. rewrite bind_run.
    by destruct (commit_calldata p (e, channels)) as [[id|[]|] [e1 ch1]].
Qed.

(** [next_submission] leases ready artifacts to the new submission, and cuts new
    frames only when there are none; it panics only at a channel without frame
    numbers. *)
Lemma next_submission_ships da_type l1_head maximum sid e channels :
  ships Q e channels -> can_submit e maximum -> pending e !! sid = None ->
  match next_submission da_type l1_head maximum sid (e, channels) with
  | (Ok r, (e', channels')) => ships Q e' channels' /\ Forall2 reframed channels channels' /\
      match r with
      | None => pending e' = pending e /\ DaArtifacts.has_ready (artifacts e') = false
      | Some sub => exists xs, pending e' = <[sid := DaArtifact.id <$> xs]> (pending e) /\
          BatchSubmission.id sub = sid /\ Ledger.carries_artifacts sub xs maximum /\
          Forall (fun x => DaArtifact.set_state Pending x ∈ Ledger.arts e') xs
      end
  | (Err _, _) => False
  | (Panic, (_, channels')) => Exists exhausted channels'
  end.
Proof.
  intros Hs Hsub Hsid. unfold next_submission. rewrite bind_run. unfold gets. cbn [fst].
  assert (egresses e channels ((if DaArtifacts.has_ready (artifacts e) then mret ()
    else build_ready_artifacts da_type l1_head maximum) (e, channels)) (fun _ => True)) as Hb.
  { destruct (DaArtifacts.has_ready (artifacts e)) eqn:Hr; [by split_and!|by apply build_ships]. }
  rewrite bind_run.
  destruct ((if DaArtifacts.has_ready (artifacts e) then mret () else build_ready_artifacts da_type l1_head maximum) (e, channels))
    as [[[]|[]|] [e1 ch1]]; [|exact Hb].
  destruct Hb as (Hs1 & Hre & Hpend & _). rewrite bind_run. unfold within. cbn [fst].
  destruct (Ledger.lease_spec sid maximum (artifacts e1)) as [[Hl Hnr]|(sub & xs & Hl & Hne & Hxs & Hid & Hcar)];
    [apply (Ledger.wf_ids _ (sh_wf _ _ _ Hs1))|apply Hsub|..]; rewrite Hl.
  - cbn. split_and!; try done. by destruct e1.
  - rewrite Forall_forall in Hxs.
    assert (Ledger.wf (mk (DaArtifacts.select_mut (DaArtifact.id <$> xs) (DaArtifact.set_state Pending) (artifacts e1))
      (<[sid := DaArtifact.id <$> xs]> (pending e1)))) as Hwf.
    { apply Ledger.lease_wf; [apply Hs1|by rewrite Hpend|by intros ?%fmap_nil_inv|].
      intros i (x & -> & Hx)%list_elem_of_fmap. exists x. destruct (Hxs x Hx). done. }
    cbn. split_and!; [|done|].
    + eapply ships_restate; [exact Hs1|exact Hwf|done|apply select_shape].
    + exists xs. cbn. rewrite Hpend. split_and!; [done..|]. apply Forall_forall. intros x Hx.
      apply list_elem_of_fmap. exists x. destruct (Hxs x Hx). split; [|done]. rewrite decide_True; [done|].
      by apply list_elem_of_fmap_2.
Qed.

(** ** Channels come and go *)

(** Changing the channels without cutting frames. *)
Definition keeps_frames (Q' : EncoderChannel.t -> list SingleBatch.t -> Prop) (ch ch' : EncoderChannel.t) : Prop :=
  EncoderChannel.id ch' = EncoderChannel.id ch /\
  forall bs fs, Q ch bs -> holds ch bs fs -> exists bs', Q' ch' bs' /\ holds ch' bs' fs.

Lemma update_ships Q' e channels channels' :
  ships Q e channels -> Forall2 (keeps_frames Q') channels channels' -> ships Q' e channels'.
Proof.
  intros [Hwf Hnext Hids Hl Hrefs Hknown H16 Hfits] Hk.
  assert (EncoderChannel.id <$> channels' = EncoderChannel.id <$> channels) as Heq.
  { clear -Hk. induction Hk as [|c c' cs cs' [Hc _] _ IH]; [done|]. by rewrite !fmap_cons, IH, Hc. }
  split; [done|done|by rewrite Heq| | | |by rewrite Heq|done].
  - apply Forall_lookup_2. intros k ch' Hk'. destruct (Forall2_lookup_r _ _ _ _ _ Hk Hk') as (ch & Hc & Hid & Hh).
    rewrite Hid. eapply Forall_lookup_1 in Hl as (bs & Hq & Hb); [|exact Hc]. by eapply Hh.
  - intros a ch' f Ha Hch Hf Hid. assert (EncoderChannel.id ch' ∈ EncoderChannel.id <$> channels) as Hin.
    { rewrite <- Heq. by apply list_elem_of_fmap_2. }
    apply list_elem_of_fmap in Hin as (ch & Hc & Hin). rewrite Hc in *. by eapply Hrefs.
  - intros a i Ha Hi. rewrite Heq. by eapply Hknown.
Qed.

Lemma open_ships e channels ch :
  ships Q e channels -> holds ch [] [] -> Q ch [] -> (EncoderChannel.id ch ∉ EncoderChannel.id <$> channels) ->
  length (EncoderChannel.id ch) = 16%nat -> ledger_frames e (EncoderChannel.id ch) = [] -> ships Q e (channels ++ [ch]).
Proof.
  intros [Hwf Hnext Hids Hl Hrefs Hknown H16 Hfits] Hh Hq Hni Hlen Hfr. split; [done|done|..].
  - rewrite fmap_app. apply NoDup_app. split_and!; [done| |apply NoDup_singleton].
    intros i Hi ->%list_elem_of_singleton. done.
  - apply Forall_app_2; [done|]. constructor; [|constructor]. exists []. by rewrite Hfr.
  - intros a c f Ha [Hc|Hc]%elem_of_app Hf Hid; [by eapply Hrefs|]. apply list_elem_of_singleton in Hc as ->.
    exfalso. assert (f ∈ ledger_frames e (EncoderChannel.id ch)) as Hin; [|rewrite Hfr in Hin; by apply elem_of_nil in Hin].
    apply list_elem_of_filter. split; [done|]. apply list_elem_of_bind. by exists a.
  - intros a i Ha Hi. rewrite fmap_app, elem_of_app. left. by eapply Hknown.
  - intros i. rewrite fmap_app, elem_of_app. intros [Hi|Hi]; [by apply H16|]. by apply list_elem_of_singleton in Hi as ->.
  - done.
Qed.

(** Forgetting a prefix of the channels. *)
Lemma prune_ships e gone channels :
  ships Q e (gone ++ channels) -> ships Q (prune_channels (EncoderChannel.id <$> gone) e) channels.
Proof.
  intros [Hwf Hnext Hids Hl Hrefs Hknown H16 Hfits]. set (cs := EncoderChannel.id <$> gone).
  rewrite fmap_app in Hids. pose proof Hids as (_ & Hdisj & Hids')%NoDup_app.
  assert (forall i, i ∈ EncoderChannel.id <$> channels -> ledger_frames (prune_channels cs e) i = ledger_frames e i) as Hfr.
  { intros i Hi. apply list_elem_of_fmap in Hi as (c & -> & Hc).
    assert (forall a, a ∈ Ledger.arts e -> DaArtifact.channel_ids (Ledger.forget cs a) = [] ->
      filter (fun f => Frame.id f = EncoderChannel.id c) (frames_in a) = []) as Hdrop.
    { intros a Ha Hnil. apply filter_none, Forall_forall. intros f Hf Hid.
      pose proof (Hrefs a c f Ha ltac:(apply elem_of_app; by right) Hf Hid) as Hin.
      assert (EncoderChannel.id c ∈ DaArtifact.channel_ids (Ledger.forget cs a)) as Hin'; [|rewrite Hnil in Hin'; by apply elem_of_nil in Hin'].
      cbn. apply list_elem_of_filter. split; [|done]. intros Hg. apply (Hdisj _ Hg). by apply list_elem_of_fmap_2. }
    unfold ledger_frames. change (Ledger.arts (prune_channels cs e)) with
      (filter (fun a => DaArtifact.channel_ids a <> []) (Ledger.forget cs <$> Ledger.arts e)).
    clear -Hdrop. induction (Ledger.arts e) as [|a l IH]; [done|]. rewrite fmap_cons. cbn [mbind list_bind]. rewrite filter_app.
    destruct (decide (DaArtifact.channel_ids (Ledger.forget cs a) <> [])) as [Hk|Hk].
    - rewrite filter_cons_True by done. cbn [mbind list_bind]. rewrite filter_app, IH; [done|]. intros b Hb. apply Hdrop. by constructor.
    - rewrite filter_cons_False by done. rewrite IH by (intros b Hb; apply Hdrop; by constructor).
      by rewrite (Hdrop a) by (constructor || by apply dec_stable). }
  split; [by apply Ledger.prune_wf|done|done|..].
  - apply Forall_forall. intros c Hc. rewrite Forall_forall in Hl. destruct (Hl c ltac:(apply elem_of_app; by right)) as (bs & Hq & Hh).
    exists bs. rewrite Hfr; [done|]. by apply list_elem_of_fmap_2.
  - intros x c f (a & Ha & -> & _)%Ledger.elem_of_prune Hc Hf Hid. cbn. apply list_elem_of_filter. split.
    + intros Hg. apply (Hdisj _ Hg). by apply list_elem_of_fmap_2.
    + eapply Hrefs; [done| |done|done]. apply elem_of_app. by right.
  - intros x i (a & Ha & -> & _)%Ledger.elem_of_prune Hi. cbn in Hi. apply list_elem_of_filter in Hi as [Hni Hi].
    specialize (Hknown a i Ha Hi). rewrite fmap_app in Hknown. by apply elem_of_app in Hknown as [?|?].
  - intros i Hi. apply H16. rewrite fmap_app. apply elem_of_app. by right.
  - intros x (a & Ha & -> & _)%Ledger.elem_of_prune. exact (Hfits a Ha).
Qed.

(** Invalidating the artifacts of a suffix of the channels. *)
Lemma invalidate_ships e channels gone ids :
  ships Q e (channels ++ gone) ->
  (forall s l i, pending e !! s = Some l -> i ∈ l -> i ∈ ids -> Forall (fun j => j ∈ ids) l) ->
  (forall a i, a ∈ Ledger.arts e -> i ∈ DaArtifact.channel_ids a ->
     DaArtifact.id a ∈ ids <-> i ∈ EncoderChannel.id <$> gone) ->
  ships Q (invalidate_artifacts ids e) channels.
Proof.
  intros [Hwf Hnext Hids Hl Hrefs Hknown H16 Hfits] Hclosed Hexact.
  rewrite fmap_app in Hids. pose proof Hids as (Hids' & Hdisj & _)%NoDup_app.
  assert (forall c, c ∈ channels -> ledger_frames (invalidate_artifacts ids e) (EncoderChannel.id c) =
    ledger_frames e (EncoderChannel.id c)) as Hfr.
  { intros c Hc.
    assert (forall a, a ∈ Ledger.arts e -> DaArtifact.id a ∈ ids ->
      filter (fun f => Frame.id f = EncoderChannel.id c) (frames_in a) = []) as Hdrop.
    { intros a Ha Hi. apply filter_none, Forall_forall. intros f Hf Hid.
      pose proof (Hrefs a c f Ha ltac:(apply elem_of_app; by left) Hf Hid) as Hin.
      apply (Hdisj (EncoderChannel.id c)); [by apply list_elem_of_fmap_2|]. by apply (Hexact a). }
    unfold ledger_frames. cbn. clear -Hdrop. induction (Ledger.arts e) as [|a l IH]; [done|]. cbn [mbind list_bind]. rewrite filter_app.
    destruct (decide (DaArtifact.id a ∈ ids)) as [Hk|Hk].
    - rewrite filter_cons_False by tauto. rewrite IH by (intros b Hb; apply Hdrop; by constructor).
      by rewrite (Hdrop a) by (done || constructor).
    - rewrite filter_cons_True by done. cbn [mbind list_bind]. rewrite filter_app, IH; [done|]. intros b Hb. apply Hdrop. by constructor. }
  split; [by apply Ledger.invalidate_wf|done|done|..].
  - apply Forall_forall. intros c Hc. rewrite Forall_forall in Hl. destruct (Hl c ltac:(apply elem_of_app; by left)) as (bs & Hq & Hh).
    exists bs. by rewrite Hfr.
  - intros a c f [_ Ha]%list_elem_of_filter Hc. apply Hrefs; [done|]. apply elem_of_app. by left.
  - intros a i [Hni Ha]%list_elem_of_filter Hi. specialize (Hknown a i Ha Hi). rewrite fmap_app in Hknown.
    apply elem_of_app in Hknown as [?|Hg]; [done|]. destruct Hni. by apply (Hexact a i).
  - intros i Hi. apply H16. rewrite fmap_app. apply elem_of_app. by left.
  - intros a [_ Ha]%list_elem_of_filter. by apply Hfits.
Qed.

Lemma reset_ships e channels : ships Q e channels -> ships Q (reset e) [].
Proof.
  intros Hs. split; [apply Ledger.reset_wf|apply Hs|apply NoDup_nil_2|constructor|..].
  - by intros a ch f Ha%elem_of_nil.
  - by intros a i Ha%elem_of_nil.
  - by intros i Hi%elem_of_nil.
  - by intros a Ha%elem_of_nil.
Qed.

End Ships.

End Shipping.
