(* ===== verification/EgressRuns.v ===== *)
(** * What submissions use up

    Every frame cut by the egress of [Egress] takes something from a channel, and
    every submission takes a ready artifact; when there is nothing to submit, the
    closed channels whose deadline is due are cut completely. *)

From S2P Require Import Prelude Effects Primitives Frames Channels Blobs FastLz Upgrades SystemConfig Rollup L1Info SingleBatches SpanTxData SpanTxs CodecModels SpanChecks Brotlis BatchReaders Compressors EncoderChannels Egress.

Module Draining.
Import DaEgress ChannelProofs EgressProofs Shipping.

Section Draining.
Context `{TxTypes} `{!Rlp} `{SingleBatchRlp} `{BrotliEncoderLaws}.

(** What is left to cut off a channel: its bytes and its last frame. *)
Definition left_in (c : EncoderChannel.t) : Z :=
  EncoderChannel.available_output c + Z.b2z (EncoderChannel.terminal_pending c).

Definition left_over (cs : list EncoderChannel.t) : Z := sumZ left_in cs.

Definition sized (c : EncoderChannel.t) : Prop :=
  0 <= EncoderChannel.available_output c < 2 ^ 64 /\ 1 <= EncoderChannel.max_frame_data c.

Lemma live_sized c : live c -> sized c.
Proof.
  intros Hl. split; [|by apply live_frame_data]. split; [by apply live_available|].
  destruct Hl as (bs & fs & Hh). rewrite (h_available _ _ _ Hh). apply bound_len.
  pose proof (h_max _ _ _ Hh) as Hm. rewrite len_app in Hm. pose proof (len_nonneg (concat (Frame.data <$> fs))). lia.
Qed.

Lemma left_over_nonneg cs : Forall sized cs -> 0 <= left_over cs.
Proof.
  induction 1 as [|c cs [? _] _ IH]; [done|]. unfold left_over, left_in in *. cbn [sumZ].
  destruct (EncoderChannel.terminal_pending c); cbn; lia.
Qed.

(** What a planned frame takes. *)
Definition takes (p : planned) : Z := p.1.2 + Z.b2z p.2.

Lemma take_frame_left n last c f c' :
  sized c -> 0 <= n -> EncoderChannel.take_frame n last c = (Ok f, c') ->
  sized c' /\ left_in c' = left_in c - (n + Z.b2z last).
Proof.
  intros [Ha Hm] Hn. unfold EncoderChannel.take_frame, EncoderChannel.take_output. run_ops.
  case_decide; [done|]. case_decide; [done|]. case_match eqn:Hl; [done|].
  destruct (take_chunks _ _ _) as [[data rest]|]; cbn [or_panic]; [|done]. intros [= _ <-].
  unfold sized, left_in. cbn. unfold u64_sub. rewrite wrap_small by lia. split; [split; [lia|exact Hm]|].
  destruct last; cbn; [|lia]. cbn [andb] in Hl. apply orb_false_iff in Hl as [_ Ht%negb_false_iff]. rewrite Ht. cbn. lia.
Qed.

Lemma left_over_insert cs i c c' :
  cs !! i = Some c -> left_over (<[i := c']> cs) = left_over cs + left_in c' - left_in c.
Proof.
  unfold left_over. revert i. induction cs as [|d cs IH]; intros i Hi; [done|]. destruct i as [|i].
  - injection Hi as ->. change (<[0%nat := c']> (c :: cs)) with (c' :: cs). cbn [sumZ]. lia.
  - change (<[S i := c']> (d :: cs)) with (d :: <[i := c']> cs). cbn [sumZ]. rewrite (IH i Hi). lia.
Qed.

Lemma take_planned_left p f cs cs' :
  Forall sized cs -> 0 <= p.1.2 -> take_planned p cs = (Ok f, cs') ->
  Forall sized cs' /\ left_over cs' = left_over cs - takes p.
Proof.
  destruct p as [[i n] last]. cbn [fst snd]. intros Hs Hn. unfold take_planned.
  destruct (list_find _ cs) as [[k c]|] eqn:Hfind; [|done]. apply list_find_Some in Hfind as (Hk & _ & _).
  destruct (EncoderChannel.take_frame n last c) as [[g|e|] c'] eqn:Ht; [|done..]. intros [= _ <-].
  destruct (take_frame_left n last c g c' (Forall_lookup_1 _ _ _ _ Hs Hk) Hn Ht) as [Hc' Hl].
  split; [by apply Forall_insert|]. rewrite (left_over_insert _ _ _ _ Hk), Hl. unfold takes. cbn. lia.
Qed.

Lemma take_plan_left plan : forall ids cs frames ids' cs',
  Forall sized cs -> Forall (fun p : planned => 0 <= p.1.2) plan ->
  take_plan plan ids cs = (Ok (frames, ids'), cs') ->
  Forall sized cs' /\ left_over cs' = left_over cs - sumZ takes plan.
Proof.
  induction plan as [|p plan IH]; intros ids cs frames ids' cs' Hs Hp; cbn [take_plan].
  - intros [= _ _ <-]. split; [done|]. cbn. lia.
  - apply Forall_cons in Hp as [Hp Hps]. rewrite bind_run. destruct (take_planned p cs) as [[f|e|] cs1] eqn:Ht; [|done..].
    destruct (take_planned_left p f cs cs1 Hs Hp Ht) as [Hs1 Hl1]. rewrite bind_run.
    destruct (take_plan plan _ cs1) as [[[fs is']|[]|] cs2] eqn:Hr; [|done..]. intros [= _ _ <-].
    destruct (IH _ _ _ _ _ Hs1 Hps Hr) as [Hs2 Hl2]. split; [done|]. cbn [sumZ]. lia.
Qed.

(** Every planned frame takes something. *)
Definition useful (p : planned) : Prop := 0 <= p.1.2 /\ 1 <= takes p.

Lemma plan_data_useful c fuel : forall a rem tp frames a' rem' tp' frames',
  sized c -> Forall useful frames ->
  plan_data_frames fuel c a rem tp frames = Ok (a', rem', tp', frames') -> Forall useful frames'.
Proof.
  induction fuel as [|fuel IH]; intros a rem tp frames a' rem' tp' frames' Hs Hf; cbn [plan_data_frames];
    case_decide; try done; try (by intros [= _ _ _ <-]).
  assert (Forall useful (frames ++ [(EncoderChannel.id c, Z.min a (Z.min (rem - Frame.ENCODED_OVERHEAD)
    (EncoderChannel.max_frame_data c)), bool_decide (Z.min a (Z.min (rem - Frame.ENCODED_OVERHEAD)
    (EncoderChannel.max_frame_data c)) = a) && tp)])) as Hf'.
  { apply Forall_app_2; [done|]. constructor; [|constructor]. destruct Hs as [_ Hm]. unfold useful, takes.
    destruct (bool_decide _ && tp); cbn; lia. }
  destruct (bool_decide _ && tp); [by intros [= _ _ _ <-]|by apply IH].
Qed.

Lemma plan_channels_useful cs h : forall rem frames due rem' frames' due',
  Forall sized cs -> Forall useful frames ->
  plan_channels cs h rem frames due = Ok (rem', frames', due') -> Forall useful frames'.
Proof.
  induction cs as [|c cs IH]; intros rem frames due rem' frames' due' Hs Hf; cbn [plan_channels]; [by intros [= _ <- _]|].
  apply Forall_cons in Hs as [Hc Hs]. destruct (EncoderChannel.framing_complete c); [by apply IH|].
  unfold plan_channel_frames. destruct (plan_data_frames _ c _ _ _ frames) as [[[[a r] tp] fs]|[]|] eqn:Hd; cbn [mbind result_bind]; [|done].
  pose proof (plan_data_useful _ _ _ _ _ _ _ _ _ _ Hc Hf Hd) as Hfs.
  assert (Forall useful (fs ++ [(EncoderChannel.id c, 0, true)])) as Hfs1 by (apply Forall_app_2; [done|by repeat constructor]).
  destruct (decide (a = 0 /\ tp = true /\ Frame.ENCODED_OVERHEAD <= r)) as [_|_]; cbn [mbind result_bind];
    (match goal with |- context [if ?b then plan_channels _ _ _ _ _ else _] => destruct b end; [by apply IH|by intros [= _ <- _]]).
Qed.

Lemma plan_blob_useful cs h plan :
  Forall sized cs -> plan_blob cs h = Ok (Some plan) -> Forall useful plan /\ plan <> [].
Proof.
  intros Hs. unfold plan_blob. destruct (plan_channels cs h _ [] false) as [[[rem frames] due]|[]|] eqn:Hp; cbn [mbind result_bind]; [|done].
  pose proof (plan_channels_useful _ _ _ _ _ _ _ _ Hs ltac:(constructor) Hp) as Hu. case_decide as Hne; [done|].
  destruct (bool_decide _ || due); [|done]. intros [= <-]. done.
Qed.

Lemma useful_takes plan : Forall useful plan -> plan <> [] -> 1 <= sumZ takes plan.
Proof.
  destruct 1 as [|p plan [_ Hp] Hps]; [done|]. intros _. cbn [sumZ].
  assert (0 <= sumZ takes plan); [|lia]. induction Hps as [|q l [_ Hq] _ IH]; cbn [sumZ]; [done|lia].
Qed.

(** A commit adds one ready artifact. *)
Lemma commit_blob_left plan e cs id e' cs' :
  Forall sized cs -> Forall useful plan -> plan <> [] -> commit_blob plan (e, cs) = (Ok id, (e', cs')) ->
  Forall sized cs' /\ left_over cs' < left_over cs /\
  exists a, Ledger.arts e' = Ledger.arts e ++ [a] /\ DaArtifact.state a = Ready.
Proof.
  intros Hs Hu Hne. unfold commit_blob, on_channels. run_ops. cbn [snd].
  destruct (take_plan plan [] cs) as [[[fs ids]|[]|] cs1] eqn:Ht; [|done..]. intros [= _ <- <-].
  destruct (take_plan_left plan [] cs fs ids cs1 Hs) as [Hs1 Hl1]; [|done|].
  { eapply Forall_impl; [exact Hu|]. by intros p [? _]. }
  pose proof (useful_takes plan Hu Hne). split_and!; [done|lia|]. by eexists.
Qed.

Definition ready_count (e : t) : Z := len (DaArtifacts.ready (artifacts e)).

(** Building artifacts: what is added is ready and was taken from the channels. *)
Record builds (e : t) (cs : list EncoderChannel.t) (e' : t) (cs' : list EncoderChannel.t) (new : list DaArtifact.t) : Prop := {
  b_arts : Ledger.arts e' = Ledger.arts e ++ new;
  b_ready : Forall (fun a => DaArtifact.state a = Ready) new;
  b_sized : Forall sized cs';
  b_left : left_over cs' + len new <= left_over cs
}.

Lemma builds_none e cs : Forall sized cs -> builds e cs e cs [].
Proof. intros Hs. split; [by rewrite app_nil_r|constructor|done|]. rewrite len_nil. lia. Qed.

Lemma build_blobs_run h maximum fuel : forall e cs e' cs',
  Forall sized cs -> build_blobs fuel h maximum (e, cs) = (Ok (), (e', cs')) ->
  exists new, builds e cs e' cs' new /\
    (new = [] -> cs' = cs /\ (maximum <= DaArtifacts.ready_blob_count (artifacts e) \/ plan_blob cs h = Ok None)).
Proof.
  induction fuel as [|fuel IH]; intros e cs e' cs' Hs; cbn [build_blobs]; rewrite bind_run; unfold gets; cbn iota;
    (case_decide as Hgo; [|intros [= <- <-]; exists []; split; [by apply builds_none|intros _; split; [done|left; lia]]]); [done|].
  rewrite bind_run. unfold lift. destruct (plan_blob cs h) as [[plan|]|[]|] eqn:Hp; [|by intros [= <- <-]; exists []; split; [apply builds_none|tauto]|done].
  destruct (plan_blob_useful cs h plan Hs Hp) as [Hu Hne]. rewrite bind_run.
  destruct (commit_blob plan (e, cs)) as [[id|[]|] [e1 cs1]] eqn:Hc; [|done].
  destruct (commit_blob_left _ _ _ _ _ _ Hs Hu Hne Hc) as (Hs1 & Hl1 & a & Ha & Hr).
  intros Hrun. destruct (IH e1 cs1 e' cs' Hs1 Hrun) as (new & [Hn1 Hn2 Hn3 Hn4] & _). exists (a :: new). split; [|done]. split.
  - by rewrite Hn1, Ha, <- app_assoc.
  - by constructor.
  - done.
  - rewrite len_cons. lia.
Qed.

Lemma plan_calldata_useful cs p : Forall sized cs -> plan_calldata cs = Some p -> useful p.
Proof.
  induction 1 as [|c cs [Ha Hm] _ IH]; [done|]. cbn [plan_calldata]. destruct (EncoderChannel.framing_complete c); [done|].
  unfold useful, takes. case_decide.
  - intros [= <-]. cbn. destruct (bool_decide _ && _); cbn; lia.
  - destruct (EncoderChannel.terminal_pending c); [|done]. intros [= <-]. cbn. lia.
Qed.

Lemma build_run da_type h maximum e cs e' cs' :
  Forall sized cs -> 1 <= maximum -> DaArtifacts.has_ready (artifacts e) = false ->
  build_ready_artifacts da_type h maximum (e, cs) = (Ok (), (e', cs')) ->
  exists new, builds e cs e' cs' new /\
    (new = [] -> cs' = cs /\ match da_type with DaBlob => plan_blob cs h = Ok None | DaCalldata => plan_calldata cs = None end).
Proof.
  intros Hs Hm Hr. destruct da_type; cbn [build_ready_artifacts].
  - intros Hb. destruct (build_blobs_run _ _ _ _ _ _ _ Hs Hb) as (new & Hbu & Hnone). exists new. split; [done|].
    intros Hn. destruct (Hnone Hn) as [? [Hmax|?]]; [|done]. rewrite no_ready_blobs in Hmax by done. lia.
  - rewrite bind_run. unfold gets. cbn [snd]. destruct (plan_calldata cs) as [p|] eqn:Hp.
    2:{ intros [= <- <-]. exists []. split; [by apply builds_none|done]. }
    pose proof (plan_calldata_useful cs p Hs Hp) as [Hn Ht]. rewrite bind_run. unfold commit_calldata, on_channels. run_ops. cbn [snd].
    destruct (take_planned p cs) as [[f|[]|] cs1] eqn:Htake; [|done]. intros [= <- <-].
    destruct (take_planned_left p f cs cs1 Hs Hn Htake) as [Hs1 Hl1].
    eexists [_]. split; [|done]. split; [done|by constructor|done|]. rewrite len_cons, len_nil. lia.
Qed.

(** ** Nothing left *)

Lemma plan_channels_due cs h : forall rem frames rem' frames' due',
  plan_channels cs h rem frames true = Ok (rem', frames', due') -> due' = true.
Proof.
  induction cs as [|c cs IH]; intros rem frames rem' frames' due'; cbn [plan_channels]; [by intros [= _ _ <-]|].
  destruct (EncoderChannel.framing_complete c); [by apply IH|].
  destruct (plan_channel_frames c rem frames) as [[[complete r] fs]|[]|]; cbn [mbind result_bind]; [|done].
  assert ((if decide (len frames < len fs /\ EncoderChannel.is_open c = false) then true || EncoderChannel.deadline_due c h else true) = true)
    as -> by by case_decide.
  destruct complete; [by apply IH|by intros [= _ _ <-]].
Qed.

(** A closed channel that is due. *)
Definition released (h : Z) (c : EncoderChannel.t) : Prop :=
  EncoderChannel.is_open c = false /\ EncoderChannel.deadline_due c h = true.

Lemma first_frames c rem frames complete rem' fs :
  live c -> EncoderChannel.framing_complete c = false -> EncoderChannel.is_open c = false -> Frame.ENCODED_OVERHEAD < rem ->
  plan_channel_frames c rem frames = Ok (complete, rem', fs) -> len frames < len fs.
Proof.
  intros Hl Hfc Hop Hrem Hp. destruct (plan_channel_frames_spec c rem frames Hl Hfc) as (co & es & a' & r & tp & Heq & (_ & Haft & Hr & _) & Hend);
    [unfold Frame.ENCODED_OVERHEAD in *; lia|]. rewrite Heq in Hp. injection Hp as -> -> <-. rewrite len_app.
  destruct es as [|[n last] es]; [|unfold len, tag; rewrite length_fmap; cbn [length]; lia]. exfalso.
  cbn in Haft. injection Haft as <- <-. change (plan_size (tag c [])) with 0 in Hr.
  assert (EncoderChannel.terminal_pending c = true) as Ht.
  { unfold EncoderChannel.framing_complete in Hfc. rewrite Hop in Hfc. by apply negb_false_iff in Hfc. }
  destruct complete; [by destruct Hend as (_ & ? & _); congruence|]. destruct Hend as [[_ ?]|?]; [congruence|lia].
Qed.

Lemma plan_rem c rem frames complete rem' fs :
  live c -> EncoderChannel.framing_complete c = false -> 0 <= rem ->
  plan_channel_frames c rem frames = Ok (complete, rem', fs) -> 0 <= rem'.
Proof.
  intros Hl Hfc Hrem Hp. destruct (plan_channel_frames_spec c rem frames Hl Hfc Hrem) as (co & es & a' & r & tp & Heq & (_ & _ & _ & H0r & _) & _).
  rewrite Heq in Hp. by injection Hp as -> -> <-.
Qed.

Lemma plan_released cs h rem frames due :
  Forall live cs -> Forall (released h) cs -> plan_channels cs h BLOB_CAPACITY [] false = Ok (rem, frames, due) ->
  Forall (fun c => EncoderChannel.framing_complete c = true) cs \/ frames <> [] /\ due = true.
Proof.
  induction cs as [|c cs IH]; intros Hl Hr; [left; constructor|]. apply Forall_cons in Hl as [Hc Hl]. apply Forall_cons in Hr as [[Hop Hdue] Hr].
  cbn [plan_channels]. destruct (EncoderChannel.framing_complete c) eqn:Hfc.
  { intros Hp. destruct (IH Hl Hr Hp) as [?|?]; [left; by constructor|by right]. }
  destruct (plan_channel_frames c BLOB_CAPACITY []) as [[[complete r] fs]|[]|] eqn:Hpc; cbn [mbind result_bind]; [|done].
  pose proof (first_frames c BLOB_CAPACITY [] _ _ _ Hc Hfc Hop eq_refl Hpc) as Hlt.
  rewrite decide_True by done. rewrite Hdue, orb_true_r, len_nil in *. intros Hp. right. destruct complete.
  - pose proof (plan_channels_due _ _ _ _ _ _ _ Hp) as ->. split; [|done].
    destruct (plan_channels_spec cs h r fs true Hl) as (ess & rem' & due' & Heq & _).
    { eapply (plan_rem c); [exact Hc|exact Hfc| |exact Hpc]. done. }
    rewrite Heq in Hp. injection Hp as _ <- _. intros [-> _]%app_nil. done.
  - injection Hp as _ <- <-. split; [|done]. by intros ->.
Qed.

Lemma blobs_done cs h :
  Forall live cs -> Forall (released h) cs -> plan_blob cs h = Ok None ->
  Forall (fun c => EncoderChannel.framing_complete c = true) cs.
Proof.
  intros Hl Hr. unfold plan_blob. destruct (plan_channels cs h BLOB_CAPACITY [] false) as [[[rem frames] due]|[]|] eqn:Hp; cbn [mbind result_bind]; [|done].
  destruct (plan_released cs h rem frames due Hl Hr Hp) as [?|[Hne ->]]; [done|]. rewrite decide_False by done. by rewrite orb_true_r.
Qed.

Lemma calldata_done cs h :
  Forall (released h) cs -> plan_calldata cs = None -> Forall (fun c => EncoderChannel.framing_complete c = true) cs.
Proof.
  induction 1 as [|c cs [Hop _] _ IH]; [constructor|]. cbn [plan_calldata]. destruct (EncoderChannel.framing_complete c) eqn:Hfc; [by constructor; auto|].
  case_decide; [done|]. unfold EncoderChannel.framing_complete in Hfc. rewrite Hop in Hfc. apply negb_false_iff in Hfc. by rewrite Hfc.
Qed.

(** ** A submission *)

Lemma ready_app a new :
  Forall (fun x => DaArtifact.state x = Ready) new ->
  len (filter (fun x => DaArtifact.state x = Ready) (a ++ new)) = len (filter (fun x => DaArtifact.state x = Ready) a) + len new.
Proof. intros Hn. by rewrite filter_app, len_app, (filter_all _ new). Qed.

Lemma select_ready (ids : list ArtifactId) (l : list DaArtifact.t) x :
  x ∈ l -> DaArtifact.state x = Ready -> DaArtifact.id x ∈ ids ->
  len (filter (fun a => DaArtifact.state a = Ready)
    ((fun a => if decide (DaArtifact.id a ∈ ids) then DaArtifact.set_state Pending a else a) <$> l)) <
  len (filter (fun a => DaArtifact.state a = Ready) l).
Proof.
  assert (forall l, len (filter (fun a => DaArtifact.state a = Ready)
    ((fun a => if decide (DaArtifact.id a ∈ ids) then DaArtifact.set_state Pending a else a) <$> l)) <=
    len (filter (fun a => DaArtifact.state a = Ready) l)) as Hle.
  { induction l0 as [|a l0 IH]; [done|]. rewrite fmap_cons, !filter_cons. destruct (decide (DaArtifact.id a ∈ ids)); cbn [DaArtifact.state DaArtifact.set_state].
    - rewrite decide_False by done. case_decide; rewrite ?len_cons; lia.
    - case_decide; rewrite ?len_cons; lia. }
  induction l as [|a l IH]; intros Hx Hr Hi; [by apply elem_of_nil in Hx|]. rewrite fmap_cons, !filter_cons.
  apply elem_of_cons in Hx as [<-|Hx].
  - rewrite (decide_True (P := DaArtifact.id x ∈ ids)) by done. cbn [DaArtifact.state DaArtifact.set_state]. rewrite decide_False by done.
    rewrite decide_True by done. rewrite len_cons. specialize (Hle l). lia.
  - specialize (IH Hx Hr Hi). destruct (decide (DaArtifact.id a ∈ ids)); cbn [DaArtifact.state DaArtifact.set_state].
    + rewrite decide_False by done. case_decide; rewrite ?len_cons; lia.
    + case_decide; rewrite ?len_cons; lia.
Qed.

Lemma no_ready a : DaArtifacts.has_ready a = false -> len (DaArtifacts.ready a) = 0.
Proof.
  unfold DaArtifacts.has_ready, DaArtifacts.ready. induction (DaArtifacts.artifacts a) as [|x l IH]; [done|]. cbn [existsb].
  intros [Hx Hl]%orb_false_iff. apply bool_decide_eq_false in Hx. rewrite filter_cons_False by done. by apply IH.
Qed.

(** What a submission leaves: with one, less; without one, nothing that the closed
    channels whose deadline is due could give. *)
Lemma next_submission_run da_type h maximum sid e cs r e' cs' :
  Ledger.wf e -> (DaArtifacts.has_ready (artifacts e) = false -> forall e1 cs1, build_ready_artifacts da_type h maximum (e, cs) = (Ok (), (e1, cs1)) -> Ledger.wf e1) ->
  Forall live cs -> 1 <= maximum ->
  next_submission da_type h maximum sid (e, cs) = (Ok r, (e', cs')) ->
  Forall sized cs' /\
  match r with
  | Some _ => ready_count e' + left_over cs' < ready_count e + left_over cs
  | None => cs' = cs /\ DaArtifacts.has_ready (artifacts e') = false /\
      (Forall (released h) cs -> Forall (fun c => EncoderChannel.framing_complete c = true) cs)
  end.
Proof.
  intros Hwf Hwf1 Hl Hm. assert (Forall sized cs) as Hs by (eapply Forall_impl; [exact Hl|apply live_sized]).
  unfold next_submission. rewrite bind_run. unfold gets. cbn [fst]. rewrite bind_run.
  destruct ((if DaArtifacts.has_ready (artifacts e) then mret () else build_ready_artifacts da_type h maximum) (e, cs))
    as [[[]|[]|] [e1 cs1]] eqn:Hb; [|done].
  assert (exists more, Ledger.wf e1 /\ builds e cs e1 cs1 more /\ (more = [] -> DaArtifacts.has_ready (artifacts e1) = false -> cs1 = cs /\
    (Forall (released h) cs -> Forall (fun c => EncoderChannel.framing_complete c = true) cs))) as (more & Hw1 & Hbu & Hnone).
  { destruct (DaArtifacts.has_ready (artifacts e)) eqn:Hr.
    - injection Hb as <- <-. exists []. split_and!; [done|by apply builds_none|]. intros _. congruence.
    - destruct (build_run _ _ _ _ _ _ _ Hs Hm Hr Hb) as (more & Hbu & Hnone). exists more. split_and!; [by apply (Hwf1 eq_refl e1 cs1)|done|].
      intros Hn _. destruct (Hnone Hn) as [-> Hp]. split; [done|]. intros Hrel. destruct da_type; [by eapply blobs_done|by eapply calldata_done]. }
  rewrite bind_run. unfold within. cbn [fst]. destruct Hbu as [Harts Hready Hs1 Hleft].
  destruct (Ledger.lease_spec sid maximum (artifacts e1)) as [[Hle Hnr]|(sub & xs & Hle & Hne & Hxs & _ & _)];
    [apply Hw1|done|..]; rewrite Hle; intros [= <- <- <-]; (split; [done|]).
  - assert (more = []) as ->.
    { pose proof (no_ready _ Hnr) as Hz. unfold DaArtifacts.ready in Hz. fold (Ledger.arts e1) in Hz. rewrite Harts, ready_app in Hz by done.
      destruct more as [|a more]; [done|]. rewrite len_cons in Hz.
      pose proof (len_nonneg more). pose proof (len_nonneg (filter (fun x => DaArtifact.state x = Ready) (Ledger.arts e))). lia. }
    destruct (Hnone eq_refl Hnr) as [-> ?]. done.
  - destruct xs as [|x xs]; [done|]. apply Forall_cons in Hxs as [[Hx Hrx] _].
    assert (ready_count (mk (DaArtifacts.select_mut (DaArtifact.id <$> x :: xs) (DaArtifact.set_state Pending) (artifacts e1))
      (<[sid := DaArtifact.id <$> x :: xs]> (pending e1))) < ready_count e1) as Hlt.
    { unfold ready_count, DaArtifacts.ready. cbn [artifacts DaArtifacts.select_mut DaArtifacts.artifacts].
      eapply select_ready; [exact Hx|done|]. rewrite fmap_cons. constructor. }
    assert (ready_count e1 = ready_count e + len more) as Hc.
    { unfold ready_count, DaArtifacts.ready. fold (Ledger.arts e1). rewrite Harts. by apply ready_app. }
    cbn [set_artifacts artifacts pending fst snd] in *. lia.
Qed.

End Draining.

End Draining.
