(* ===== verification/BatchEncoders.v ===== *)
(** * The batch encoder

    Models [src/crates/batcher/encoder/src/composer.rs] (from a block to a
    batch), [.../buffered_block.rs] (the estimated size of a block),
    [.../pipeline.rs] (the types of the interface) and [.../encoder.rs]: the state
    machine that turns L2 blocks into submissions and tracks them until their
    blocks are safe. *)

From S2P Require Import Prelude Effects Primitives Frames Channels Blobs FastLz Upgrades SystemConfig Rollup L1Info SingleBatches SpanTxData SpanTxs CodecModels SpanChecks Brotlis BatchReaders Compressors EncoderChannels Egress.

(** ** From blocks to batches *)

Inductive BatchComposeError : Set := EmptyBlock | NotDepositTx | L1InfoDecode.

(** [BatchComposer::block_to_single_batch]. *)
Definition block_to_single_batch (block : L2Block.t) : result BatchComposeError SingleBatch.t :=
  match L2Block.transactions block with
  | [] => Err EmptyBlock
  | tx :: _ =>
      input ← ok_or NotDepositTx (BlockTx.deposit_input tx);
      l1_info ← map_err (fun _ => L1InfoDecode) (decode_calldata input);
      let epoch := info_id l1_info in
      let transactions :=
        BlockTx.encoded <$> filter (fun tx => BlockTx.is_deposit tx = false) (L2Block.transactions block) in
      Ok (SingleBatch.mk (BlockInfo.parent_hash (L2Block.block_info block)) (BlockNumHash.number epoch)
            (BlockNumHash.hash epoch) (BlockInfo.timestamp (L2Block.block_info block)) transactions)
  end.

Module BufferedBlock.

Record t : Type := mk { block : L2Block.t; estimated_da_bytes : Z }.

Definition BATCH_OVERHEAD_BYTES : Z := 70.

(** The sum of the estimates of the transactions. *)
Fixpoint estimate (txs : list BlockTx.t) (acc : Z) : result Empty_set Z :=
  match txs with
  | [] => Ok acc
  | tx :: txs =>
      if BlockTx.is_deposit tx then estimate txs acc
      else n ← tx_estimated_size_fjord_bytes (BlockTx.encoded tx); estimate txs (u64_add acc n)
  end.

(** [BufferedBlock::new]. *)
Definition new (block : L2Block.t) : result Empty_set t :=
  transactions ← estimate (L2Block.transactions block) 0;
  Ok (mk block (u64_add BATCH_OVERHEAD_BYTES transactions)).

End BufferedBlock.

(** ** The interface *)

Inductive StepResult : Set := StepBlockEncoded | StepChannelClosed | StepIdle.

Inductive StepError : Type :=
| CompositionFailed (cursor : Z) (source : BatchComposeError)
| BlockExceedsChannelLimit (cursor : Z) (limit : ChannelLimit)
| StepChannel (e : ChannelError).

Inductive ReorgError : Type :=
| ParentMismatch (expected got : B256).

Inductive DerivationReconciliation : Set := Consistent | SafeHeadMismatch | StalledChannel.

(** The random number generator of the channel ids: [fill_bytes] on 16 bytes. *)
Class ChannelRng (R : Type) : Type := fill_bytes : R -> bytes * R.

(** ** The encoder *)

Module BatchEncoder.

Section Encoder.
Context `{TxTypes} `{!Rlp} `{SingleBatchRlp} `{BrotliEncoder} `{RuntimeUpgradeRegistry} {R : Type} `{ChannelRng R}.

Record t : Type := mk {
  rollup_config : RollupConfig.t;
  config : EncoderConfig.t;
  l1_head : Z;
  blocks : list BufferedBlock.t;
  block_cursor : Z;
  tip : option B256;
  channels : list EncoderChannel.t;
  egress : DaEgress.t;
  next_id : Z;
  rng : R;
  blob_override : bool;
  deferred_step_error : option StepError
}.

Definition set_l1_head (h : Z) (s : t) : t :=
  mk (rollup_config s) (config s) h (blocks s) (block_cursor s) (tip s) (channels s) (egress s) (next_id s) (rng s)
    (blob_override s) (deferred_step_error s).
Definition set_blocks (b : list BufferedBlock.t) (s : t) : t :=
  mk (rollup_config s) (config s) (l1_head s) b (block_cursor s) (tip s) (channels s) (egress s) (next_id s) (rng s)
    (blob_override s) (deferred_step_error s).
Definition set_block_cursor (c : Z) (s : t) : t :=
  mk (rollup_config s) (config s) (l1_head s) (blocks s) c (tip s) (channels s) (egress s) (next_id s) (rng s)
    (blob_override s) (deferred_step_error s).
Definition set_tip (h : option B256) (s : t) : t :=
  mk (rollup_config s) (config s) (l1_head s) (blocks s) (block_cursor s) h (channels s) (egress s) (next_id s) (rng s)
    (blob_override s) (deferred_step_error s).
Definition set_channels (c : list EncoderChannel.t) (s : t) : t :=
  mk (rollup_config s) (config s) (l1_head s) (blocks s) (block_cursor s) (tip s) c (egress s) (next_id s) (rng s)
    (blob_override s) (deferred_step_error s).
Definition set_egress (e : DaEgress.t) (s : t) : t :=
  mk (rollup_config s) (config s) (l1_head s) (blocks s) (block_cursor s) (tip s) (channels s) e (next_id s) (rng s)
    (blob_override s) (deferred_step_error s).
Definition set_next_id (i : Z) (s : t) : t :=
  mk (rollup_config s) (config s) (l1_head s) (blocks s) (block_cursor s) (tip s) (channels s) (egress s) i (rng s)
    (blob_override s) (deferred_step_error s).
Definition set_rng (r : R) (s : t) : t :=
  mk (rollup_config s) (config s) (l1_head s) (blocks s) (block_cursor s) (tip s) (channels s) (egress s) (next_id s) r
    (blob_override s) (deferred_step_error s).
Definition set_blob_override_field (b : bool) (s : t) : t :=
  mk (rollup_config s) (config s) (l1_head s) (blocks s) (block_cursor s) (tip s) (channels s) (egress s) (next_id s)
    (rng s) b (deferred_step_error s).
Definition set_deferred (e : option StepError) (s : t) : t :=
  mk (rollup_config s) (config s) (l1_head s) (blocks s) (block_cursor s) (tip s) (channels s) (egress s) (next_id s)
    (rng s) (blob_override s) e.

(** [BatchEncoder::new]; [rng] is seeded by the operating system. *)
Definition new (rollup_config : RollupConfig.t) (config : EncoderConfig.t) (rng : R) : result EncoderConfigError t :=
  _ ← EncoderConfig.validate config;
  Ok (mk rollup_config config 0 [] 0 None [] DaEgress.new 0 rng false None).

(** ** Opening and closing channels *)

(** Changing the last channel. *)
Definition set_last (f : EncoderChannel.t -> EncoderChannel.t) (s : t) : t :=
  match last (channels s) with
  | None => s
  | Some c => set_channels (removelast (channels s) ++ [f c]) s
  end.

(** [BatchEncoder::close_current_channel]; closing a channel cannot fail. *)
Definition close_current_channel (s : t) : t :=
  match last (channels s) with
  | None => s
  | Some c =>
      if negb (EncoderChannel.is_open c) then s
      else if EncoderChannel.is_empty c then s
      else set_last EncoderChannel.close s
  end.

(** [BatchEncoder::defer_step_error]. *)
Definition defer_step_error (e : StepError) (s : t) : t :=
  match deferred_step_error s with None => set_deferred (Some e) s | Some _ => s end.

(** [BatchEncoder::open_new_channel]. *)
Definition open_new_channel (block_start : Z) : eff StepError t () := fun s =>
  let '(id, rng) := fill_bytes (rng s) in
  let s := set_rng rng s in
  match EncoderChannel.new id (rollup_config s) (config s) block_start (l1_head s) with
  | Ok c => (Ok (), set_channels (channels s ++ [c]) s)
  | _ => (Panic, s)
  end.

(** [BatchEncoder::check_channel_timeout]. *)
Definition check_channel_timeout (s : t) : bool * t :=
  let should_close :=
    match last (channels s) with
    | None => false
    | Some c => EncoderChannel.is_open c && EncoderChannel.deadline_due c (l1_head s)
    end in
  (should_close, if should_close then close_current_channel s else s).

(** ** [BatchPipeline::add_block], [step] *)

Definition add_block (block : L2Block.t) : eff (ReorgError * L2Block.t) t () :=
  expected ← gets tip;
  let parent := BlockInfo.parent_hash (L2Block.block_info block) in
  match expected with
  | Some expected =>
      if decide (parent <> expected) then fail (ParentMismatch expected parent, block) else mret ()
  | None => mret ()
  end ;;
  _ ← modify (set_tip (Some (BlockInfo.hash (L2Block.block_info block))));
  buffered ← lift (match BufferedBlock.new block with Ok b => Ok b | _ => Panic end);
  modify (fun s => set_blocks (blocks s ++ [buffered]) s).

(** Adding a batch to the last channel, which is there. *)
Definition add_to_last (batch : SingleBatch.t) (da_bytes : Z) : eff StepError t ChannelAddOutcome := fun s =>
  match last (channels s) with
  | None => (Panic, s)
  | Some c =>
      let '(r, c) := EncoderChannel.add_batch batch da_bytes c in
      (map_err StepChannel r, set_channels (removelast (channels s) ++ [c]) s)
  end.

Definition step : eff StepError t StepResult :=
  error ← gets deferred_step_error;
  match error with
  | Some error => _ ← modify (set_deferred None); fail error
  | None =>
      closed ← gets (fun s => (check_channel_timeout s).1);
      _ ← modify (fun s => (check_channel_timeout s).2);
      if closed : bool then mret StepChannelClosed else
      s ← gets (fun s => s);
      if decide (len (blocks s) <= block_cursor s) then mret StepIdle else
      buffered ← lift (or_panic (index (blocks s) (block_cursor s)));
      single_batch ← lift (map_err (CompositionFailed (block_cursor s))
        (block_to_single_batch (BufferedBlock.block buffered)));
      _ ← (if match last (channels s) with None => false | Some c => EncoderChannel.is_open c end
           then mret () else open_new_channel (block_cursor s));
      outcome ← add_to_last single_batch (BufferedBlock.estimated_da_bytes buffered);
      match outcome with
      | Accepted | TargetReached =>
          _ ← modify (fun s => set_block_cursor (u64_add (block_cursor s) 1) s);
          match outcome with
          | TargetReached => _ ← modify close_current_channel; mret StepChannelClosed
          | _ => mret StepBlockEncoded
          end
      | Rejected limit =>
          c ← gets (fun s => last (channels s));
          c ← lift (or_panic c);
          if EncoderChannel.is_empty c then
            _ ← modify (fun s => set_channels (removelast (channels s)) s);
            fail (BlockExceedsChannelLimit (block_cursor s) limit)
          else _ ← modify close_current_channel; mret StepChannelClosed
      end
  end.

(** ** Replay of expired channels *)

(** The pass over the artifacts: the channels and artifacts affected. *)
Definition affect_artifact (acc : list bytes * list ArtifactId) (a : DaArtifact.t) : list bytes * list ArtifactId :=
  let '(chs, arts) := acc in
  if decide (Exists (fun id => id ∈ chs) (DaArtifact.channel_ids a) \/ DaArtifact.id a ∈ arts)
  then (extend_new chs (DaArtifact.channel_ids a), push_new arts (DaArtifact.id a))
  else acc.

(** The first affected channel. *)
Definition replay_index (s : t) (chs : list bytes) : option nat :=
  fst <$> list_find (fun c => EncoderChannel.id c ∈ chs) (channels s).

(** One turn of the loop of [invalidate_channel]. *)
Definition affect (s : t) (acc : list bytes * list ArtifactId) : list bytes * list ArtifactId :=
  let '(chs, arts) := foldl affect_artifact acc (DaArtifacts.artifacts (DaEgress.artifacts (egress s))) in
  let arts := DaEgress.extend_with_submission_artifacts (egress s) arts in
  let chs :=
    match replay_index s chs with
    | Some replay_idx => extend_new chs (EncoderChannel.id <$> drop replay_idx (channels s))
    | None => chs
    end in
  (chs, arts).

Fixpoint affect_all (fuel : nat) (s : t) (acc : list bytes * list ArtifactId) : option (list bytes * list ArtifactId) :=
  match fuel with
  | O => None
  | S fuel =>
      let next := affect s acc in
      if decide (length next.1 = length acc.1 /\ length next.2 = length acc.2) then Some next
      else affect_all fuel s next
  end.

(** Every turn but the last adds a channel id or an artifact id, and there are
    no others than these. *)
Definition affect_fuel (s : t) : nat :=
  let arts := DaArtifacts.artifacts (DaEgress.artifacts (egress s)) in
  2 + length (channels s) + length arts + sum_list_with (fun a => length (DaArtifact.channel_ids a)) arts
    + sum_list_with (fun kv => length kv.2) (map_to_list (DaEgress.pending (egress s))).

(** [BatchEncoder::invalidate_channel]. *)
Definition invalidate_channel (channel_idx : nat) : eff Empty_set t () :=
  s ← gets (fun s => s);
  match channels s !! channel_idx with
  | None => mret ()
  | Some channel =>
      '(affected_channels, affected_artifacts) ←
        lift (or_panic (affect_all (affect_fuel s) s ([EncoderChannel.id channel], [])));
      let replay_idx := default channel_idx (replay_index s affected_channels) in
      replay ← lift (or_panic (channels s !! replay_idx));
      let replay_from := (EncoderChannel.block_range replay).1 in
      _ ← modify (fun s => set_egress (DaEgress.invalidate_artifacts affected_artifacts (egress s)) s);
      _ ← modify (fun s => set_channels (take replay_idx (channels s)) s);
      modify (fun s => set_block_cursor (Z.min (block_cursor s) replay_from) s)
  end.

(** Whether the confirmation window of a channel has expired. *)
Definition expired (s : t) (channel_timeout : Z) (c : EncoderChannel.t) : bool :=
  match EncoderChannel.first_confirmed_l1_block c with
  | None => false
  | Some first =>
      let inclusion_span := u64_saturating_sub (default first (EncoderChannel.last_confirmed_l1_block c)) first in
      bool_decide (channel_timeout < inclusion_span) ||
      (negb (DaEgress.channel_fully_confirmed (egress s) c) &&
       bool_decide (u64_saturating_add first channel_timeout < l1_head s))
  end.

(** [BatchEncoder::invalidate_expired_channels]. *)
Definition invalidate_expired_channels : eff Empty_set t () :=
  s ← gets (fun s => s);
  let channel_timeout := EncoderConfig.confirmation_channel_timeout (rollup_config s) in
  match list_find (fun c => expired s channel_timeout c = true) (channels s) with
  | None => mret ()
  | Some (channel_idx, _) => invalidate_channel channel_idx
  end.

(** ** Following the safe head *)

(** [BatchEncoder::rebase_after_block_prune]. *)
Definition rebase_after_block_prune (prune_count : Z) (s : t) : t :=
  set_channels (EncoderChannel.rebase_after_prune prune_count <$> channels s)
    (set_block_cursor (u64_saturating_sub (block_cursor s) prune_count) s).

(** The part of [prune_safe] after the checks. *)
Definition prune_blocks (prune_count : Z) (safe_l2 : BlockInfo.t) (s : t) : t :=
  let pruned := take_while (fun c => bool_decide ((EncoderChannel.block_range c).2 <= prune_count)) (channels s) in
  let s :=
    if decide (pruned = []) then s
    else set_egress (DaEgress.prune_channels (EncoderChannel.id <$> pruned) (egress s))
           (set_channels (drop (length pruned) (channels s)) s) in
  let s := rebase_after_block_prune prune_count (set_blocks (drop (Z.to_nat prune_count) (blocks s)) s) in
  if decide (blocks s = []) then set_tip (Some (BlockInfo.hash safe_l2)) s else s.

(** [BatchEncoder::prune_safe]. *)
Definition prune_safe (safe_l2 : BlockInfo.t) : eff Empty_set t bool :=
  s ← gets (fun s => s);
  match blocks s with
  | [] => _ ← modify (set_tip (Some (BlockInfo.hash safe_l2))); mret true
  | oldest :: _ =>
      let oldest_info := L2Block.block_info (BufferedBlock.block oldest) in
      let oldest_number := BlockInfo.number oldest_info in
      let next_safe := u64_add (BlockInfo.number safe_l2) 1 in
      if decide (next_safe < oldest_number) then mret false else
      let prune_count := next_safe - oldest_number in
      if decide (len (blocks s) < prune_count) then mret false else
      if decide (prune_count = 0)
      then mret (bool_decide (BlockInfo.parent_hash oldest_info = BlockInfo.hash safe_l2)) else
      last ← lift (or_panic (index (blocks s) (prune_count - 1)));
      if decide (BlockInfo.hash (L2Block.block_info (BufferedBlock.block last)) <> BlockInfo.hash safe_l2)
      then mret false else
      _ ← modify (prune_blocks prune_count safe_l2);
      mret true
  end.

(** [BatchEncoder::is_derivation_stalled]. *)
Definition stalled (s : t) (current_l1 : Z) (safe_l2 : BlockInfo.t) (c : EncoderChannel.t) : bool :=
  if negb (DaEgress.channel_fully_confirmed (egress s) c) then false else
  match EncoderChannel.last_confirmed_l1_block c with
  | None => false
  | Some last_inclusion =>
      if decide (current_l1 <= last_inclusion) then false else
      let range_end := (EncoderChannel.block_range c).2 in
      if decide (range_end < 1) then false else
      match index (blocks s) (range_end - 1) with
      | None => false
      | Some last_block =>
          bool_decide (BlockInfo.number safe_l2 < BlockInfo.number (L2Block.block_info (BufferedBlock.block last_block)))
      end
  end.

Definition is_derivation_stalled (s : t) (current_l1 : Z) (safe_l2 : BlockInfo.t) : bool :=
  existsb (stalled s current_l1 safe_l2) (channels s).

(** [BatchPipeline::reconcile_derivation]. *)
Definition reconcile_derivation (safe_l2 : BlockInfo.t) (current_l1 : Z) : eff Empty_set t DerivationReconciliation :=
  pruned ← prune_safe safe_l2;
  if negb pruned then mret SafeHeadMismatch else
  s ← gets (fun s => s);
  mret (if is_derivation_stalled s current_l1 safe_l2 then StalledChannel else Consistent).

(** ** The other methods of [BatchPipeline] *)

(** [BatchEncoder::flush_channels], [BatchPipeline::flush]. *)
Definition flush_channels (s : t) : t :=
  let s := close_current_channel s in
  set_channels (EncoderChannel.release_at (l1_head s) <$> channels s) s.

Definition flush (s : t) : t := flush_channels s.

(** [BatchPipeline::next_submission]. *)
Definition next_submission : eff Empty_set t (option BatchSubmission.t) :=
  s ← gets (fun s => s);
  let effective_da_type :=
    if blob_override s && bool_decide (EncoderConfig.da_type (config s) = DaCalldata) then DaBlob
    else EncoderConfig.da_type (config s) in
  submission ← within (fun s => (egress s, channels s)) (fun ec s => set_egress ec.1 (set_channels ec.2 s))
    (DaEgress.next_submission effective_da_type (l1_head s) (EncoderConfig.max_blobs_per_tx (config s)) (next_id s));
  match submission with
  | None => mret None
  | Some submission => _ ← modify (fun s => set_next_id (u64_add (next_id s) 1) s); mret (Some submission)
  end.

(** Recording a confirmation in the first channel with the id. *)
Definition confirm_channel (l1_block : Z) (channels : list EncoderChannel.t) (channel_id : bytes) : list EncoderChannel.t :=
  match list_find (fun c => EncoderChannel.id c = channel_id) channels with
  | None => channels
  | Some (i, c) => <[i := EncoderChannel.record_confirmation l1_block c]> channels
  end.

(** [BatchPipeline::confirm], [requeue]. *)
Definition confirm (id : SubmissionId) (l1_block : Z) (s : t) : t :=
  match DaEgress.confirm id (egress s) with
  | (None, e) => set_egress e s
  | (Some channel_ids, e) => set_channels (foldl (confirm_channel l1_block) (channels s) channel_ids) (set_egress e s)
  end.

Definition requeue (id : SubmissionId) (s : t) : t := set_egress (DaEgress.requeue id (egress s)).2 s.

(** [BatchPipeline::advance_l1_head]; the timeout check cannot fail, so that no
    error is ever deferred here. *)
Definition advance_l1_head (l1_block : Z) : eff Empty_set t () :=
  s ← gets (fun s => s);
  let advanced := bool_decide (l1_head s < l1_block) in
  _ ← (if advanced then modify (set_l1_head l1_block) else mret ());
  match deferred_step_error s with
  | Some _ => mret ()
  | None =>
      _ ← (if advanced then modify (fun s => (check_channel_timeout s).2) else mret ());
      invalidate_expired_channels
  end.

(** [BatchPipeline::reset]; [fresh] is seeded by the operating system. *)
Definition reset (fresh : R) (s : t) : t :=
  mk (rollup_config s) (config s) (l1_head s) [] 0 None [] (DaEgress.reset (egress s)) (next_id s) fresh
    (blob_override s) None.

(** [BatchPipeline::da_backlog_bytes], [set_blob_override]. *)
Definition da_backlog_bytes (s : t) : Z :=
  let pending_blocks := wrap 64 (sumZ BufferedBlock.estimated_da_bytes (drop (Z.to_nat (block_cursor s)) (blocks s))) in
  let open_channels :=
    wrap 64 (sumZ EncoderChannel.da_backlog_bytes
      (filter (fun c => DaEgress.channel_fully_confirmed (egress s) c = false) (channels s))) in
  u64_add pending_blocks open_channels.

Definition set_blob_override (active : bool) (s : t) : t := set_blob_override_field active s.

(** ** [BatchEncoder::encode_and_drain] *)

(** Steps until the encoder is idle; [fuel] bounds their number. *)
Fixpoint step_until_idle (fuel : nat) : eff StepError t () :=
  match fuel with
  | O => lift Panic
  | S fuel =>
      r ← step;
      match r with StepIdle => mret () | _ => step_until_idle fuel end
  end.

Fixpoint drain (fuel : nat) (submissions : list BatchSubmission.t) : eff Empty_set t (list BatchSubmission.t) :=
  match fuel with
  | O => lift Panic
  | S fuel =>
      sub ← next_submission;
      match sub with
      | None => mret submissions
      | Some sub => drain fuel (submissions ++ [sub])
      end
  end.

(** A method without errors within one that has them. *)
Definition infallible {A} (m : eff Empty_set t A) : eff StepError t A := fun s =>
  match m s with
  | (Ok a, s) => (Ok a, s)
  | (_, s) => (Panic, s)
  end.

(** Between two blocks at most two channels are closed; a submission takes a ready
    artifact or cuts a frame from a channel. *)
Definition encode_and_drain : eff StepError t (list BatchSubmission.t) :=
  steps ← gets (fun s => 3 * length (drop (Z.to_nat (block_cursor s)) (blocks s)) + 3)%nat;
  _ ← step_until_idle steps;
  _ ← modify flush_channels;
  submissions ← gets (fun s =>
    1 + length (DaArtifacts.ready (DaEgress.artifacts (egress s)))
      + sum_list_with (fun c => Z.to_nat (EncoderChannel.available_output c + 1)) (channels s))%nat;
  infallible (drain submissions []).

End Encoder.

Arguments t {_ R}.

End BatchEncoder.
