(* ===== verification/EncoderProofs.v ===== *)
(** * The batch encoder loses nothing

    The invariant of the state machine of [BatchEncoders]: the channels cover
    the blocks from the first buffered one up to the cursor without gaps or
    overlaps, each channel carries the batches of its blocks, the ledger holds
    exactly the frames its channels were cut into, and the submissions in flight
    hold exactly the leased artifacts. *)

From S2P Require Import Prelude Effects Primitives Frames Channels Blobs FastLz Upgrades SystemConfig Rollup L1Info SingleBatches SpanTxData SpanTxs CodecModels SpanChecks Brotlis BatchReaders Compressors EncoderChannels Egress BatchEncoders.

Module EncoderInvariant.
Import BatchEncoder ChannelProofs EgressProofs Shipping.

Section Invariant.
Context `{TxTypes} `{!Rlp} `{SingleBatchRlp} `{BrotliEncoderLaws} `{RuntimeUpgradeRegistry} {R : Type} `{ChannelRng R}.

(** ** What the channels cover *)

Definition composes (b : BufferedBlock.t) (sb : SingleBatch.t) : Prop :=
  block_to_single_batch (BufferedBlock.block b) = Ok sb.

(** The buffered blocks of a channel. *)
Definition channel_blocks (blocks : list BufferedBlock.t) (c : EncoderChannel.t) : list BufferedBlock.t :=
  take (Z.to_nat (EncoderChannel.blocks_added c)) (drop (Z.to_nat (EncoderChannel.block_start c)) blocks).

(** What the encoder has done with blocks that are no longer buffered: the blocks
    it has dropped as safe since the last reset, in order, and for every channel id
    the position, counted from the first of these, of the block that was next when
    the channel with the id was opened. *)
Record past : Type := mk_past { gone : list BufferedBlock.t; origin : bytes -> Z }.

(** The batches of a channel are those of all blocks from the one that was next
    when it was opened up to the last of its buffered blocks. *)
Definition covers (g : past) (blocks : list BufferedBlock.t) (c : EncoderChannel.t) (bs : list SingleBatch.t) : Prop :=
  let a := origin g (EncoderChannel.id c) in
  0 <= a <= len (gone g) + EncoderChannel.block_start c /\
  (EncoderChannel.block_start c = 0 \/ a = len (gone g) + EncoderChannel.block_start c) /\
  Forall2 composes (drop (Z.to_nat a) (gone g) ++ channel_blocks blocks c) bs.

(** The ranges of the channels follow each other from [start] to [stop]. *)
Fixpoint tiles (start : Z) (cs : list EncoderChannel.t) (stop : Z) : Prop :=
  match cs with
  | [] => start = stop
  | c :: cs => EncoderChannel.block_start c = start /\ 0 < EncoderChannel.blocks_added c /\
      tiles (start + EncoderChannel.blocks_added c) cs stop
  end.

(** At most the last channel is open. *)
Definition closed_but_last (cs : list EncoderChannel.t) : Prop :=
  forall i c, cs !! i = Some c -> (S i < length cs)%nat -> EncoderChannel.is_open c = false.

Record inv (g : past) (s : t (R := R)) : Prop := {
  i_config : EncoderConfig.validate (config s) = Ok ();
  i_target n : EncoderConfig.compressed_size_target (config s) = Some n -> 0 <= n;
  i_blobs : 1 <= EncoderConfig.max_blobs_per_tx (config s);
  i_ships : ships (covers g (blocks s)) (egress s) (channels s);
  i_closed : closed_but_last (channels s);
  i_tiles : tiles 0 (channels s) (block_cursor s);
  i_cursor : block_cursor s <= len (blocks s) <= u64_max;
  i_next : 0 <= next_id s;
  i_deferred : deferred_step_error s = None;
  i_subs sid ids : DaEgress.pending (egress s) !! sid = Some ids -> sid < next_id s
}.

Arguments i_config {g} s _.
Arguments i_target {g} s _ n _.
Arguments i_blobs {g} s _.
Arguments i_ships {g} s _.
Arguments i_closed {g} s _.
Arguments i_tiles {g} s _.
Arguments i_cursor {g} s _.
Arguments i_next {g} s _.
Arguments i_deferred {g} s _.
Arguments i_subs {g} s _ sid ids _.

Section Past.
Context {g : past}.

Lemma covers_reframed blocks c c' bs : reframed c c' -> covers g blocks c bs -> covers g blocks c' bs.
Proof. by intros (? & ? & ? & ? & ? & ->). Qed.

Lemma tiles_bounds cs : forall a b, tiles a cs b -> a <= b /\
  Forall (fun c => a <= EncoderChannel.block_start c /\ 0 < EncoderChannel.blocks_added c /\
    EncoderChannel.block_start c + EncoderChannel.blocks_added c <= b) cs.
Proof.
  induction cs as [|c cs IH]; intros a b Ht; [cbn in Ht; split; [lia|constructor]|].
  destruct Ht as (Hs & Hpos & Ht). destruct (IH _ _ Ht) as [Hle Hf]. split; [lia|]. constructor; [lia|].
  eapply Forall_impl; [exact Hf|]. cbn. lia.
Qed.

Lemma tiles_app cs ds : forall a b, tiles a (cs ++ ds) b <-> exists m, tiles a cs m /\ tiles m ds b.
Proof.
  induction cs as [|c cs IH]; intros a b; cbn.
  - split; [by exists a|by intros (m & -> & ?)].
  - rewrite IH. naive_solver.
Qed.

(** ** Changes that leave what a channel carries *)

Definition calm (c c' : EncoderChannel.t) : Prop :=
  EncoderChannel.id c' = EncoderChannel.id c /\
  EncoderChannel.block_start c' = EncoderChannel.block_start c /\
  EncoderChannel.blocks_added c' = EncoderChannel.blocks_added c /\
  (EncoderChannel.is_open c = false -> EncoderChannel.is_open c' = false) /\
  forall bs fs, holds c bs fs -> holds c' bs fs.

Lemma calm_tiles cs cs' : Forall2 (fun c c' => EncoderChannel.block_start c' = EncoderChannel.block_start c /\
  EncoderChannel.blocks_added c' = EncoderChannel.blocks_added c) cs cs' -> forall a b, tiles a cs b -> tiles a cs' b.
Proof.
  induction 1 as [|c c' cs cs' [Hs Ha] _ IH]; intros a b Ht; [done|]. destruct Ht as (? & ? & Ht). cbn. rewrite Hs, Ha.
  split_and!; [done|done|by apply IH].
Qed.

Lemma calm_closed cs cs' : Forall2 (fun c c' => EncoderChannel.is_open c = false -> EncoderChannel.is_open c' = false) cs cs' ->
  closed_but_last cs -> closed_but_last cs'.
Proof.
  intros Hf Hc i c' Hi Hlt. destruct (Forall2_lookup_r _ _ _ _ _ Hf Hi) as (c & Hci & Hop). apply Hop, (Hc i); [done|].
  by rewrite (Forall2_length _ _ _ Hf).
Qed.

Lemma covers_same blocks c c' bs :
  EncoderChannel.id c' = EncoderChannel.id c ->
  EncoderChannel.block_start c' = EncoderChannel.block_start c ->
  EncoderChannel.blocks_added c' = EncoderChannel.blocks_added c -> covers g blocks c bs -> covers g blocks c' bs.
Proof. intros Hi Hs Ha. unfold covers, channel_blocks. by rewrite Hi, Hs, Ha. Qed.

Lemma calm_inv s cs : inv g s -> Forall2 calm (channels s) cs -> inv g (set_channels cs s).
Proof.
  intros [Hcfg Htg Hmb Hsh Hcl Ht Hcur Hn Hdef Hsub] Hf. split; cbn [set_channels config egress channels blocks block_cursor next_id]; try done.
  - eapply update_ships; [exact Hsh|]. eapply Forall2_impl; [exact Hf|]. intros c c' (Hid & Hs & Ha & _ & Hh).
    split; [done|]. intros bs fs Hq Hb. exists bs. split; [by eapply covers_same|by apply Hh].
  - eapply calm_closed; [|exact Hcl]. eapply Forall2_impl; [exact Hf|]. by intros c c' (_ & _ & _ & ? & _).
  - eapply calm_tiles; [|exact Ht]. eapply Forall2_impl; [exact Hf|]. by intros c c' (_ & ? & ? & _).
Qed.

#[global] Instance calm_preorder : PreOrder calm.
Proof.
  split; [by intros c|]. intros c d f (? & ? & ? & ? & ?) (? & ? & ? & ? & ?). split_and!; [congruence..|auto|auto].
Qed.

Lemma push_output_static o c :
  EncoderChannel.id (EncoderChannel.push_output o c) = EncoderChannel.id c /\
  EncoderChannel.block_start (EncoderChannel.push_output o c) = EncoderChannel.block_start c /\
  EncoderChannel.blocks_added (EncoderChannel.push_output o c) = EncoderChannel.blocks_added c /\
  EncoderChannel.is_open (EncoderChannel.push_output o c) = EncoderChannel.is_open c.
Proof. unfold EncoderChannel.push_output. by case_decide. Qed.

Lemma calm_close c : calm c (EncoderChannel.close c).
Proof.
  split_and!; [| | | |intros bs fs Hh; by apply close_holds].
  all: unfold EncoderChannel.close; destruct (EncoderChannel.compressor c) eqn:Hc; try done.
  all: match goal with |- context [EncoderChannel.push_output ?o ?d] => destruct (push_output_static o d) as (Hp1 & Hp2 & Hp3 & Hp4) end.
  all: rewrite ?Hp1, ?Hp2, ?Hp3, ?Hp4; try done.
Qed.

Lemma calm_release h c : calm c (EncoderChannel.release_at h c).
Proof. split_and!; try done. intros bs fs. by apply same_stream_holds. Qed.

Lemma calm_confirmed h c : calm c (EncoderChannel.record_confirmation h c).
Proof. split_and!; try done. intros bs fs. by apply same_stream_holds. Qed.

(** ** Closing, flushing, confirming *)

Lemma last_split {A} (l : list A) a : last l = Some a -> l = removelast l ++ [a].
Proof. intros (k & ->)%last_Some. by rewrite removelast_last. Qed.

Lemma close_current_inv s : inv g s -> inv g (close_current_channel s).
Proof.
  intros Hi. unfold close_current_channel. destruct (last (channels s)) as [c|] eqn:Hl; [|done].
  destruct (negb (EncoderChannel.is_open c)); [done|]. destruct (EncoderChannel.is_empty c); [done|].
  unfold set_last. rewrite Hl. apply calm_inv; [done|]. rewrite (last_split _ _ Hl) at 1.
  apply Forall2_app; [done|]. constructor; [apply calm_close|constructor].
Qed.

Lemma timeout_inv s : inv g s -> inv g (check_channel_timeout s).2.
Proof.
  intros Hi. unfold check_channel_timeout. cbn [snd].
  match goal with |- inv g (if ?b then _ else _) => destruct b end; [by apply close_current_inv|done].
Qed.

Lemma flush_inv s : inv g s -> inv g (flush s).
Proof.
  intros Hi. unfold flush, flush_channels. apply calm_inv; [by apply close_current_inv|].
  apply Forall2_fmap_r, Forall_Forall2_diag, Forall_true. intros c. apply calm_release.
Qed.

Lemma calm_insert cs i c c' : cs !! i = Some c -> calm c c' -> Forall2 calm cs (<[i := c']> cs).
Proof.
  intros Hi Hc. apply Forall2_same_length_lookup. split; [by rewrite length_insert|]. intros j d d' Hd Hd'.
  destruct (decide (i = j)) as [<-|Hne].
  - rewrite list_lookup_insert_eq in Hd' by (by eapply lookup_lt_Some). congruence.
  - rewrite list_lookup_insert_ne in Hd' by done. assert (d = d') as -> by congruence. done.
Qed.

Lemma confirm_channels_calm h ids : forall cs, Forall2 calm cs (foldl (confirm_channel h) cs ids).
Proof.
  induction ids as [|i ids IH]; intros cs; cbn [foldl]; [done|]. etrans; [|apply IH]. unfold confirm_channel.
  destruct (list_find _ cs) as [[k c]|] eqn:Hf; [|done]. apply list_find_Some in Hf as (Hk & _ & _).
  eapply calm_insert; [exact Hk|]. apply calm_confirmed.
Qed.

(** A change of the ledger alone. *)
Lemma egress_inv s e :
  inv g s -> ships (covers g (blocks s)) e (channels s) -> (forall sid ids, DaEgress.pending e !! sid = Some ids -> sid < next_id s) ->
  inv g (set_egress e s).
Proof. intros [] ? ?. by split. Qed.

Lemma confirm_pending e sid sid' ids :
  DaEgress.pending (DaEgress.confirm sid e).2 !! sid' = Some ids -> DaEgress.pending e !! sid' = Some ids.
Proof.
  unfold DaEgress.confirm. destruct (DaEgress.pending e !! sid) eqn:Hs; [|done].
  match goal with |- context [negb ?b] => destruct b end; cbn; by intros [_ ?]%lookup_delete_Some.
Qed.

Lemma requeue_pending e sid sid' ids :
  DaEgress.pending (DaEgress.requeue sid e).2 !! sid' = Some ids -> DaEgress.pending e !! sid' = Some ids.
Proof.
  unfold DaEgress.requeue. destruct (DaEgress.pending e !! sid) eqn:Hs; [|done].
  match goal with |- context [negb ?b] => destruct b end; cbn; by intros [_ ?]%lookup_delete_Some.
Qed.

Lemma confirm_inv s sid h : inv g s -> inv g (confirm sid h s).
Proof.
  intros Hi. unfold confirm. destruct (DaEgress.confirm sid (egress s)) as [r e] eqn:Hc.
  assert (inv g (set_egress e s)) as Hi'.
  { change e with (r, e).2. rewrite <- Hc. apply egress_inv; [done|by apply confirm_ships, i_ships|].
    intros sid' ids Hp%confirm_pending. by eapply i_subs. }
  destruct r as [ids|]; [|done]. apply (calm_inv (set_egress e s)); [done|]. apply confirm_channels_calm.
Qed.

Lemma requeue_inv s sid : inv g s -> inv g (requeue sid s).
Proof.
  intros Hi. unfold requeue. apply egress_inv; [done|by apply requeue_ships, i_ships|].
  intros sid' ids Hp%requeue_pending. by eapply i_subs.
Qed.

(** ** Adding a block *)

Lemma channel_blocks_app blocks more c :
  0 <= EncoderChannel.block_start c -> 0 <= EncoderChannel.blocks_added c ->
  EncoderChannel.block_start c + EncoderChannel.blocks_added c <= len blocks ->
  channel_blocks (blocks ++ more) c = channel_blocks blocks c.
Proof.
  intros Hs Ha Hb. unfold channel_blocks, len in *. rewrite drop_app_le by lia. apply take_app_le. rewrite length_drop. lia.
Qed.

Lemma inv_ranges s : inv g s -> Forall (fun c => 0 <= EncoderChannel.block_start c /\ 0 < EncoderChannel.blocks_added c /\
  EncoderChannel.block_start c + EncoderChannel.blocks_added c <= len (blocks s)) (channels s).
Proof.
  intros Hi. destruct (tiles_bounds _ _ _ (i_tiles s Hi)) as [_ Hf]. pose proof (i_cursor s Hi).
  eapply Forall_impl; [exact Hf|]. cbn. lia.
Qed.

Lemma ships_blocks s more :
  inv g s -> ships (covers g (blocks s ++ more)) (egress s) (channels s).
Proof.
  intros Hi. eapply update_ships; [exact (i_ships s Hi)|]. apply Forall_Forall2_diag.
  eapply Forall_impl; [exact (inv_ranges s Hi)|]. intros c (Hs & Ha & Hb). split; [done|]. intros bs fs Hcov Hh.
  exists bs. split; [|done]. unfold covers in *. by rewrite channel_blocks_app by lia.
Qed.

Lemma add_block_inv s block r s' :
  inv g s -> len (blocks s) < u64_max -> add_block block s = (r, s') -> inv g s'.
Proof.
  intros Hi Hlen. unfold add_block. run_ops.
  match goal with |- context [match tip s with _ => _ end] => destruct (tip s) as [expected|] end.
  - case_decide; [intros [= _ <-]; done|]. destruct (BufferedBlock.new block) as [b|[]|]; intros [= _ <-];
      [|destruct Hi; by split].
    pose proof (ships_blocks s [b] Hi). pose proof (i_cursor s Hi). destruct Hi. split; try done.
    cbn. rewrite len_app, len_cons, len_nil. lia.
  - destruct (BufferedBlock.new block) as [b|[]|]; intros [= _ <-]; [|destruct Hi; by split].
    pose proof (ships_blocks s [b] Hi). pose proof (i_cursor s Hi). destruct Hi. split; try done.
    cbn. rewrite len_app, len_cons, len_nil. lia.
Qed.

(** ** Submissions *)

Lemma reframed_static c c' : reframed c c' ->
  EncoderChannel.block_start c' = EncoderChannel.block_start c /\
  EncoderChannel.blocks_added c' = EncoderChannel.blocks_added c /\
  EncoderChannel.is_open c' = EncoderChannel.is_open c.
Proof. by intros (? & ? & ? & ? & ? & ->). Qed.

Definition effective_da_type (s : t (R := R)) : DaType :=
  if blob_override s && bool_decide (EncoderConfig.da_type (config s) = DaCalldata) then DaBlob
  else EncoderConfig.da_type (config s).

(** The 64-bit identifiers last for one more submission. *)
Definition ids_left (s : t (R := R)) : Prop :=
  DaArtifacts.next_id (DaEgress.artifacts (egress s)) + EncoderConfig.max_blobs_per_tx (config s) <= u64_max /\
  next_id s < u64_max.

(** Asking for a submission fails only at a channel without frame numbers. *)
Definition asks (s : t (R := R)) (r : result Empty_set (option BatchSubmission.t)) (s' : t (R := R)) : Prop :=
  match r with
  | Ok r => inv g s' /\
      blocks s' = blocks s /\ block_cursor s' = block_cursor s /\ Forall2 reframed (channels s) (channels s') /\
      match r with
      | None => DaEgress.pending (egress s') = DaEgress.pending (egress s) /\
          DaArtifacts.has_ready (DaEgress.artifacts (egress s')) = false
      | Some sub => exists xs,
          DaEgress.pending (egress s') = <[next_id s := DaArtifact.id <$> xs]> (DaEgress.pending (egress s)) /\
          BatchSubmission.id sub = next_id s /\ next_id s' = next_id s + 1 /\
          Ledger.carries_artifacts sub xs (EncoderConfig.max_blobs_per_tx (config s)) /\
          Forall (fun x => DaArtifact.set_state Pending x ∈ Ledger.arts (egress s')) xs
      end
  | Err _ => False
  | Panic => Exists exhausted (channels s')
  end.

Lemma next_submission_inv s r s' :
  inv g s -> ids_left s -> next_submission s = (r, s') -> asks s r s'.
Proof.
  intros Hi [Hart Hid]. pose proof Hi as [Hcfg Htg Hmb Hsh Hcl Ht Hcur Hn Hdef Hsub].
  assert (DaEgress.pending (egress s) !! next_id s = None) as Hfresh.
  { destruct (DaEgress.pending (egress s) !! next_id s) eqn:Hp; [|done]. specialize (Hsub _ _ Hp). lia. }
  pose proof (next_submission_ships _ (covers_reframed (blocks s)) (effective_da_type s) (l1_head s)
    (EncoderConfig.max_blobs_per_tx (config s)) (next_id s) (egress s) (channels s) Hsh (conj Hmb Hart) Hfresh) as Hnext.
  unfold next_submission. run_ops. fold (effective_da_type s).
  destruct (DaEgress.next_submission _ _ _ _ _) as [[sub|[]|] [e cs]]; [|intros [= <- <-]; exact Hnext].
  destruct Hnext as (Hsh' & Hre & Hr). cbn [fst snd].
  assert (forall i, next_id s <= i -> (forall sid ids, DaEgress.pending e !! sid = Some ids -> sid < i) ->
    inv g (set_next_id i (set_egress e (set_channels cs s)))) as Hinv.
  { intros i Hle Hp. split; cbn [set_next_id set_egress set_channels config egress channels blocks block_cursor next_id]; try done; [| |lia].
    - eapply calm_closed; [|exact Hcl]. eapply Forall2_impl; [exact Hre|]. intros c c' (_ & _ & Ho)%reframed_static. by rewrite Ho.
    - eapply calm_tiles; [|exact Ht]. eapply Forall2_impl; [exact Hre|]. by intros c c' (? & ? & _)%reframed_static. }
  destruct sub as [sub|].
  - destruct Hr as (xs & Hp & Hsid & Hcar & Hxs). intros [= <- <-]. unfold u64_add. cbn [set_egress set_channels next_id].
    rewrite wrap_small by (unfold u64_max in *; lia). split; [|split_and!; try done; by exists xs].
    apply Hinv; [lia|]. intros sid ids. rewrite Hp. intros [[<- _]|[_ Hold]]%lookup_insert_Some; [lia|]. specialize (Hsub _ _ Hold). lia.
  - destruct Hr as [Hp Hready]. intros [= <- <-]. split; [|by split_and!].
    assert (set_egress e (set_channels cs s) = set_next_id (next_id s) (set_egress e (set_channels cs s))) as -> by by destruct s.
    apply Hinv; [lia|]. intros sid ids. rewrite Hp. apply Hsub.
Qed.

Lemma reset_inv g' s rng : inv g s -> inv g' (reset rng s).
Proof.
  intros [Hcfg Htg Hmb Hsh Hcl Ht Hcur Hn Hdef Hsub]. split; cbn; try done.
  eapply update_ships; [by eapply reset_ships|constructor].
Qed.

Lemma encoder_new_inv cfg conf rng s :
  (forall n, EncoderConfig.compressed_size_target conf = Some n -> 0 <= n) -> 0 <= EncoderConfig.max_blobs_per_tx conf -> new cfg conf rng = Ok s -> inv g s.
Proof.
  intros Ht Hmb. unfold new. destruct (EncoderConfig.validate conf) as [[]| |] eqn:Hv; cbn [mbind result_bind]; [|done..].
  intros [= <-]. split; cbn; try done.
  { unfold EncoderConfig.validate in Hv. repeat case_decide; done || lia. }
  split; [apply (Ledger.reset_wf DaEgress.new)|done|apply NoDup_nil_2|constructor|..].
  - by intros a ch f Ha%elem_of_nil.
  - by intros a i Ha%elem_of_nil.
  - by intros i Hi%elem_of_nil.
  - by intros a Ha%elem_of_nil.
Qed.

(** ** Pruning *)

Lemma take_while_split {A} (p : A -> bool) l :
  exists rest, l = take_while p l ++ rest /\ drop (length (take_while p l)) l = rest /\
    match rest with [] => True | a :: _ => p a = false end.
Proof.
  induction l as [|a l (rest & Hl & Hd & Hr)]; [by exists []|]. cbn. destruct (p a) eqn:Hp.
  - exists rest. cbn. rewrite <- Hl. done.
  - exists (a :: l). done.
Qed.

Lemma closed_app cs ds : closed_but_last (cs ++ ds) -> closed_but_last ds.
Proof.
  intros Hc i c Hi Hlt. apply (Hc (length cs + i)%nat).
  - rewrite lookup_app_r by lia. by rewrite Nat.add_sub'.
  - rewrite length_app. lia.
Qed.

(** A channel whose range ends after the pruned blocks. *)
Lemma rebase_range n c :
  0 <= EncoderChannel.block_start c -> 0 < EncoderChannel.blocks_added c -> 0 <= n ->
  n < EncoderChannel.block_start c + EncoderChannel.blocks_added c <= u64_max ->
  EncoderChannel.block_start (EncoderChannel.rebase_after_prune n c) = Z.max (EncoderChannel.block_start c - n) 0 /\
  EncoderChannel.blocks_added (EncoderChannel.rebase_after_prune n c) =
    EncoderChannel.blocks_added c - Z.max (n - EncoderChannel.block_start c) 0.
Proof.
  intros Hs Ha Hn He. cbn. unfold u64_saturating_sub, u64_add. rewrite wrap_small by (unfold u64_max in *; lia). lia.
Qed.

Lemma tiles_rebase n cs : forall m stop,
  0 <= n <= m -> stop <= u64_max -> tiles m cs stop ->
  tiles (m - n) (EncoderChannel.rebase_after_prune n <$> cs) (stop - n).
Proof.
  induction cs as [|c cs IH]; intros m stop Hm Hstop Ht; [cbn in *; lia|]. destruct Ht as (Hs & Ha & Ht).
  pose proof (proj1 (tiles_bounds _ _ _ Ht)). destruct (rebase_range n c) as [Hs' Ha']; [lia..|]. rewrite fmap_cons. cbn [tiles].
  rewrite Hs', Ha'. split_and!; [lia|lia|].
  replace (m - n + (EncoderChannel.blocks_added c - Z.max (n - EncoderChannel.block_start c) 0))
    with (m + EncoderChannel.blocks_added c - n) by lia. by apply IH; [lia|lia|].
Qed.

Lemma channel_blocks_rebase blocks n c :
  0 <= EncoderChannel.block_start c -> 0 < EncoderChannel.blocks_added c -> 0 <= n ->
  n < EncoderChannel.block_start c + EncoderChannel.blocks_added c <= u64_max ->
  channel_blocks blocks c = take (Z.to_nat (n - EncoderChannel.block_start c)) (channel_blocks blocks c) ++
    channel_blocks (drop (Z.to_nat n) blocks) (EncoderChannel.rebase_after_prune n c).
Proof.
  intros Hs Ha Hn He. destruct (rebase_range n c Hs Ha Hn He) as [Hs' Ha'].
  set (k := Z.max (n - EncoderChannel.block_start c) 0) in *. replace (Z.to_nat (n - EncoderChannel.block_start c)) with (Z.to_nat k) by lia.
  unfold channel_blocks at 3. rewrite Hs', Ha', drop_drop.
  rewrite <- (take_drop (Z.to_nat k) (channel_blocks blocks c)) at 1. f_equal. unfold channel_blocks.
  rewrite skipn_firstn_comm, drop_drop. f_equal; [lia|]. f_equal. lia.
Qed.

(** The safe blocks join the past, in which the channel keeps its first block. *)
Definition pruned (n : Z) (s : t (R := R)) : past := mk_past (gone g ++ take (Z.to_nat n) (blocks s)) (origin g).

Lemma covers_pruned (s : t (R := R)) n c bs :
  0 <= EncoderChannel.block_start c -> 0 < EncoderChannel.blocks_added c -> 0 <= n <= len (blocks s) ->
  n < EncoderChannel.block_start c + EncoderChannel.blocks_added c <= u64_max ->
  covers g (blocks s) c bs ->
  covers (pruned n s) (drop (Z.to_nat n) (blocks s)) (EncoderChannel.rebase_after_prune n c) bs.
Proof.
  intros Hs Ha Hn He. unfold covers. rewrite (channel_blocks_rebase (blocks s) n c Hs Ha ltac:(lia) He).
  destruct (rebase_range n c Hs Ha ltac:(lia) He) as [Hs' Ha']. rewrite Hs'.
  set (a := origin g (EncoderChannel.id c)). change (origin (pruned n s) (EncoderChannel.id (EncoderChannel.rebase_after_prune n c))) with a.
  cbn [gone pruned]. intros (Hrange & Hor & Hf).
  assert (len (take (Z.to_nat n) (blocks s)) = n) as Hlen by (unfold len in *; rewrite length_take; lia).
  rewrite len_app, Hlen. split_and!; [lia|lia|lia|].
  assert (drop (Z.to_nat a) (gone g ++ take (Z.to_nat n) (blocks s)) =
    drop (Z.to_nat a) (gone g) ++ take (Z.to_nat (n - EncoderChannel.block_start c)) (channel_blocks (blocks s) c)) as ->; [|by rewrite <- app_assoc].
  unfold channel_blocks. rewrite take_take, Nat.min_l by lia. unfold len in *. destruct Hor as [H0s|Hsame].
  - rewrite H0s in *. rewrite drop_app_le by lia. by rewrite Z.sub_0_r, drop_0.
  - rewrite (drop_ge (gone g)) by lia. rewrite drop_app_ge by lia. cbn [app].
    replace (Z.to_nat a - length (gone g))%nat with (Z.to_nat (EncoderChannel.block_start c)) by lia.
    rewrite skipn_firstn_comm. f_equal. lia.
Qed.

Lemma tiles_end n cs : forall a m,
  tiles a cs m -> a <= n -> Forall (fun c => EncoderChannel.block_start c + EncoderChannel.blocks_added c <= n) cs -> m <= n.
Proof.
  induction cs as [|c cs IH]; intros a m Ht Ha Hf; [cbn in Ht; lia|]. destruct Ht as (Hs & _ & Ht).
  apply Forall_cons in Hf as [Hc Hf]. eapply IH; [exact Ht|lia|done].
Qed.

Lemma tiles_after n cs m stop :
  tiles m cs stop ->
  match cs with [] => True | c :: _ => n < EncoderChannel.block_start c + EncoderChannel.blocks_added c end ->
  Forall (fun c => n < EncoderChannel.block_start c + EncoderChannel.blocks_added c) cs.
Proof.
  destruct cs as [|c cs]; intros Ht Hc; [constructor|]. constructor; [done|]. destruct Ht as (Hs & _ & Ht).
  eapply Forall_impl; [apply (proj2 (tiles_bounds _ _ _ Ht))|]. cbn. lia.
Qed.

Lemma tiles_pruned n cs m stop :
  0 <= m <= n -> stop <= u64_max -> tiles m cs stop ->
  Forall (fun c => n < EncoderChannel.block_start c + EncoderChannel.blocks_added c) cs ->
  tiles 0 (EncoderChannel.rebase_after_prune n <$> cs) (u64_saturating_sub stop n).
Proof.
  intros Hm Hstop Ht Hf. unfold u64_saturating_sub. destruct cs as [|c cs]; [cbn in *; lia|]. destruct Ht as (Hs & Ha & Ht).
  apply Forall_cons in Hf as [Hc Hf]. pose proof (proj1 (tiles_bounds _ _ _ Ht)). rewrite fmap_cons. cbn [tiles].
  destruct (rebase_range n c) as [-> ->]; [lia..|]. split_and!; [lia|lia|].
  replace (0 + (EncoderChannel.blocks_added c - Z.max (n - EncoderChannel.block_start c) 0))
    with (m + EncoderChannel.blocks_added c - n) by lia. rewrite Z.max_l by lia. by apply tiles_rebase; [lia|lia|].
Qed.

(** The channels whose blocks are all pruned and the others. *)
Lemma prune_split s n :
  inv g s -> 0 < n ->
  let gone := take_while (fun c => bool_decide ((EncoderChannel.block_range c).2 <= n)) (channels s) in
  exists rest m, channels s = gone ++ rest /\ drop (length gone) (channels s) = rest /\ 0 <= m <= n /\
    tiles m rest (block_cursor s) /\
    Forall (fun c => n < EncoderChannel.block_start c + EncoderChannel.blocks_added c) rest.
Proof.
  intros Hi Hn gone. pose proof (inv_ranges s Hi) as Hranges. rewrite Forall_forall in Hranges. pose proof (i_cursor s Hi).
  assert (forall c, c ∈ channels s -> (EncoderChannel.block_range c).2 = EncoderChannel.block_start c + EncoderChannel.blocks_added c) as Hend.
  { intros c Hc. pose proof (Hranges c Hc). cbn. unfold u64_add. apply wrap_small. unfold u64_max in *. lia. }
  destruct (take_while_split (fun c => bool_decide ((EncoderChannel.block_range c).2 <= n)) (channels s)) as (rest & Hsplit & Hdrop & Hhead).
  fold gone in Hsplit, Hdrop. pose proof (i_tiles s Hi) as Ht. rewrite Hsplit in Ht. apply tiles_app in Ht as (m & Htg & Htr).
  exists rest, m. split_and!; [done|done|apply (tiles_bounds _ _ _ Htg)| |done|].
  - eapply tiles_end; [exact Htg|lia|]. apply Forall_forall. intros c Hc. rewrite <- Hend by (by eapply Ledger.take_while_sub).
    eapply bool_decide_eq_true. by eapply (proj1 (Forall_forall _ _) (Ledger.take_while_Forall _ _)) in Hc.
  - eapply tiles_after; [exact Htr|]. destruct rest as [|c rest]; [done|]. apply bool_decide_eq_false in Hhead.
    rewrite Hend in Hhead; [lia|]. rewrite Hsplit. apply elem_of_app. right. constructor.
Qed.

Lemma prune_blocks_inv s n safe : inv g s -> 0 < n <= len (blocks s) -> inv (pruned n s) (prune_blocks n safe s).
Proof.
  intros Hi Hn. destruct (prune_split s n Hi ltac:(lia)) as (rest & m & Hsplit & Hdrop & Hm & Htr & Hafter).
  pose proof Hi as [Hcfg Htg Hmb Hsh Hcl Ht Hcur Hid Hdef Hsub]. pose proof (inv_ranges s Hi) as Hranges.
  unfold prune_blocks. set (gone := take_while _ _) in *. set (s1 := if decide (gone = []) then s else _).
  assert (channels s1 = rest /\ blocks s1 = blocks s /\ block_cursor s1 = block_cursor s /\ config s1 = config s /\
    next_id s1 = next_id s /\ deferred_step_error s1 = deferred_step_error s /\ ships (covers g (blocks s)) (egress s1) rest /\
    (forall sid ids, DaEgress.pending (egress s1) !! sid = Some ids -> sid < next_id s)) as (Hc1 & Hb1 & Hcur1 & Hcfg1 & Hid1 & Hdf1 & Hsh1 & Hsub1).
  { unfold s1. case_decide as Hg.
    - rewrite Hg in Hsplit. cbn in Hsplit. rewrite <- Hsplit. by split_and!.
    - split_and!; try done.
      + apply prune_ships. by rewrite <- Hsplit.
      + intros sid ids (l0 & Hp & _)%Ledger.pending_prune. by eapply Hsub. }
  clearbody s1. rewrite Hsplit in Hranges. apply Forall_app in Hranges as [_ Hranges].
  assert (inv (pruned n s) (rebase_after_block_prune n (set_blocks (drop (Z.to_nat n) (blocks s1)) s1))) as Hinv.
  { split; cbn; rewrite ?Hc1, ?Hb1, ?Hcur1, ?Hcfg1, ?Hid1, ?Hdf1; try done.
    - eapply update_ships; [exact Hsh1|]. apply Forall2_fmap_r, Forall_Forall2_diag. rewrite Forall_forall in *. intros c Hc.
      destruct (Hranges c Hc) as (Hs & Ha & He). specialize (Hafter c Hc).
      split; [done|]. intros bs fs Hcov Hh. exists bs. split; [|by eapply same_stream_holds; [|exact Hh]]. apply covers_pruned; done || lia.
    - apply (calm_closed rest); [apply Forall2_fmap_r, Forall_Forall2_diag, Forall_true; intros c; exact id|]. eapply closed_app. by rewrite <- Hsplit.
    - eapply tiles_pruned; [exact Hm|lia|done|done].
    - unfold u64_saturating_sub, len in *. rewrite length_drop. lia. }
  match goal with |- context [decide (blocks ?x = [])] => change x with (rebase_after_block_prune n (set_blocks (drop (Z.to_nat n) (blocks s1)) s1)) end.
  case_decide; [|done]. destruct Hinv. by split.
Qed.

(** The past after a call that may drop blocks from the front. *)
Definition dropped (s s' : t (R := R)) : past := pruned (len (blocks s) - len (blocks s')) s.

Lemma dropped_none s : dropped s s = g.
Proof. unfold dropped, pruned. rewrite Z.sub_diag, app_nil_r. by destruct g. Qed.

Lemma prune_safe_inv s safe : inv g s -> exists r s', prune_safe safe s = (Ok r, s') /\ inv (dropped s s') s'.
Proof.
  intros Hi. unfold prune_safe. run_ops. destruct (blocks s) as [|oldest bl] eqn:Hb.
  { eexists _, _. split; [done|]. unfold dropped. cbn. rewrite Hb. change (len [] - len []) with 0.
    assert (pruned 0 s = g) as -> by (unfold pruned; rewrite app_nil_r; by destruct g). destruct Hi. by split. }
  rewrite <- Hb in *.
  assert (forall r : bool, exists r' s', ((Ok r : result Empty_set bool), s) = (Ok r', s') /\ inv (dropped s s') s') as Hsame.
  { intros r. exists r, s. by rewrite dropped_none. }
  case_decide; [apply Hsame|]. case_decide; [apply Hsame|]. case_decide; [apply Hsame|].
  set (n := u64_add (BlockInfo.number safe) 1 - _) in *.
  destruct (index_in_range (blocks s) (n - 1)) as [last_ ->]; [unfold n in *; lia|]. cbn [or_panic].
  case_decide; [apply Hsame|]. eexists _, _. split; [done|].
  assert (0 < n <= len (blocks s)) as Hn by (unfold n in *; lia).
  assert (dropped s (prune_blocks n safe s) = pruned n s) as ->; [|by apply prune_blocks_inv].
  unfold dropped. f_equal.
  assert (blocks (prune_blocks n safe s) = drop (Z.to_nat n) (blocks s)) as ->; [unfold prune_blocks; by repeat case_decide|].
  unfold len in *. rewrite length_drop. lia.
Qed.

Lemma reconcile_inv s safe l1 : inv g s -> exists r s', reconcile_derivation safe l1 s = (Ok r, s') /\ inv (dropped s s') s'.
Proof.
  intros Hi. unfold reconcile_derivation. rewrite bind_run. destruct (prune_safe_inv s safe Hi) as (r & s' & -> & Hi').
  destruct r; cbn [negb]; eexists _, s'; done.
Qed.

(** ** Replaying an expired channel *)

Lemma prefix_extend_new {A} `{EqDecision A} (xs ys : list A) : xs `prefix_of` extend_new xs ys /\ (NoDup xs -> NoDup (extend_new xs ys)).
Proof.
  unfold extend_new. revert xs. induction ys as [|y ys IH]; intros xs; cbn [foldl]; [done|].
  destruct (IH (push_new xs y)) as [Hp Hn]. split.
  - etrans; [|exact Hp]. unfold push_new. case_decide; [done|by apply prefix_app_r].
  - intros Hx. apply Hn. unfold push_new. case_decide; [done|]. apply NoDup_app. split_and!; [done| |apply NoDup_singleton].
    by intros x Hxs ->%list_elem_of_singleton.
Qed.

(** The affected sets grow, without duplicates and within the known ids. *)
Definition bounded_by (chs : list bytes) (ids : list ArtifactId) (acc : list bytes * list ArtifactId) : Prop :=
  NoDup acc.1 /\ NoDup acc.2 /\ acc.1 ⊆ chs /\ acc.2 ⊆ ids.

Definition grown (chs : list bytes) (ids : list ArtifactId) (acc acc' : list bytes * list ArtifactId) : Prop :=
  acc.1 `prefix_of` acc'.1 /\ acc.2 `prefix_of` acc'.2 /\ (bounded_by chs ids acc -> bounded_by chs ids acc').

#[local] Instance grown_preorder chs ids : PreOrder (grown chs ids).
Proof. split; [by intros x|]. intros x y z (? & ? & ?) (? & ? & ?). split_and!; [by etrans|by etrans|auto]. Qed.

#[local] Instance grown_antisymm chs ids : AntiSymm (=) (grown chs ids).
Proof. intros [a b] [c d] (? & ? & _) (? & ? & _). cbn in *. f_equal; by apply (anti_symm prefix). Qed.

Lemma foldl_grows {A B} (r : relation A) `{!PreOrder r} (f : A -> B -> A) l :
  (forall a x, x ∈ l -> r a (f a x)) -> forall a, r a (foldl f a l).
Proof.
  induction l as [|x l IH]; intros Hf a; cbn; [done|]. etrans; [apply Hf; constructor|]. apply IH. intros b y Hy. apply Hf. by constructor.
Qed.

Lemma foldl_stable {A B} (r : relation A) `{!PreOrder r, !AntiSymm (=) r} (f : A -> B -> A) l :
  (forall a x, x ∈ l -> r a (f a x)) -> forall a, foldl f a l = a -> forall x, x ∈ l -> f a x = a.
Proof.
  induction l as [|y l IH]; intros Hf a Ha x Hx; [by apply elem_of_nil in Hx|]. cbn in Ha.
  assert (forall b z, z ∈ l -> r b (f b z)) as Hl by (intros b z Hz; apply Hf; by constructor).
  assert (f a y = a) as Hy. { apply (anti_symm r); [|apply Hf; constructor]. rewrite <- Ha at 2. by apply foldl_grows. }
  apply elem_of_cons in Hx as [->|Hx]; [done|]. apply IH; [done| |done]. by rewrite Hy in Ha.
Qed.

Lemma grown_chs chs ids acc more : more ⊆ chs -> grown chs ids acc (extend_new acc.1 more, acc.2).
Proof.
  intros Hm. destruct (prefix_extend_new acc.1 more) as [Hp Hn]. split_and!; [done|done|]. intros (Hd1 & Hd2 & Hs1 & Hs2).
  split_and!; [by apply Hn|done| |done]. intros x [?|?]%elem_of_extend_new; auto.
Qed.

Lemma grown_ids chs ids acc more : more ⊆ ids -> grown chs ids acc (acc.1, extend_new acc.2 more).
Proof.
  intros Hm. destruct (prefix_extend_new acc.2 more) as [Hp Hn]. split_and!; [done|done|]. intros (Hd1 & Hd2 & Hs1 & Hs2).
  split_and!; [done|by apply Hn|done|]. intros x [?|?]%elem_of_extend_new; auto.
Qed.

(** The ids the pass can meet. *)
Definition all_channel_ids (s : t (R := R)) : list bytes :=
  (EncoderChannel.id <$> channels s) ++ (Ledger.arts (egress s) ≫= DaArtifact.channel_ids).
Definition all_artifact_ids (s : t (R := R)) : list ArtifactId :=
  (DaArtifact.id <$> Ledger.arts (egress s)) ++ (map_to_list (DaEgress.pending (egress s)) ≫= snd).

Abbreviation ext s := (grown (all_channel_ids s) (all_artifact_ids s)).

Lemma affect_artifact_grows s acc a : a ∈ Ledger.arts (egress s) -> ext s acc (affect_artifact acc a).
Proof.
  intros Ha. destruct acc as [chs ids]. unfold affect_artifact. case_decide; [|done].
  etrans; [apply grown_chs|apply (grown_ids _ _ (_, _) [DaArtifact.id a])]; cbn [fst snd].
  - intros i Hi. apply elem_of_app. right. apply list_elem_of_bind. by exists a.
  - intros i ->%list_elem_of_singleton. apply elem_of_app. left. by apply list_elem_of_fmap_2.
Qed.

(** The visit of one submission, on the pair of sets. *)
Definition affect_submission (acc : list bytes * list ArtifactId) (kv : SubmissionId * list ArtifactId) : list bytes * list ArtifactId :=
  (acc.1, if decide (Exists (fun id => id ∈ acc.2) kv.2) then extend_new acc.2 kv.2 else acc.2).

Lemma affect_submission_grows s acc kv :
  kv ∈ map_to_list (DaEgress.pending (egress s)) -> ext s acc (affect_submission acc kv).
Proof.
  intros Hk. unfold affect_submission. case_decide; [|by destruct acc]. apply grown_ids. intros i Hi. apply elem_of_app. right.
  apply list_elem_of_bind. by exists kv.
Qed.

Lemma affect_submissions e chs ids :
  foldl affect_submission (chs, ids) (map_to_list (DaEgress.pending e)) = (chs, DaEgress.extend_with_submission_artifacts e ids).
Proof.
  unfold DaEgress.extend_with_submission_artifacts. generalize (map_to_list (DaEgress.pending e)). intros l. revert ids.
  induction l as [|[k v] l IH]; intros ids; cbn [foldl]; [done|]. apply IH.
Qed.

(** The channels after the first affected one. *)
Definition affect_channels (s : t (R := R)) (acc : list bytes * list ArtifactId) : list bytes * list ArtifactId :=
  (match replay_index s acc.1 with
   | Some replay_idx => extend_new acc.1 (EncoderChannel.id <$> drop replay_idx (channels s))
   | None => acc.1
   end, acc.2).

Lemma affect_channels_grows s acc : ext s acc (affect_channels s acc).
Proof.
  unfold affect_channels. destruct (replay_index s acc.1) as [k|]; [|by destruct acc]. apply grown_chs. intros i Hi.
  apply elem_of_app. left. rewrite fmap_drop in Hi. by eapply subseteq_drop in Hi.
Qed.

Lemma affect_passes s acc :
  affect s acc = affect_channels s (foldl affect_submission
    (foldl affect_artifact acc (Ledger.arts (egress s))) (map_to_list (DaEgress.pending (egress s)))).
Proof. unfold affect. destruct (foldl affect_artifact _ _) as [chs ids]. by rewrite affect_submissions. Qed.

Lemma affect_grows (s : t (R := R)) acc : ext s acc (affect s acc).
Proof.
  rewrite affect_passes. etrans; [|apply affect_channels_grows]. set (x1 := foldl affect_artifact acc _).
  assert (ext s acc x1) as H01 by (apply (foldl_grows (ext s)); intros; by apply affect_artifact_grows).
  etrans; [exact H01|]. apply (foldl_grows (ext s)). intros. by apply affect_submission_grows.
Qed.

(** The loop ends, with sets that the pass leaves as they are. *)
Lemma affect_all_ends (s : t (R := R)) : forall fuel acc,
  bounded_by (all_channel_ids s) (all_artifact_ids s) acc ->
  (length (all_channel_ids s) + length (all_artifact_ids s) < fuel + length acc.1 + length acc.2)%nat ->
  exists out, affect_all fuel s acc = Some out /\ affect s out = out /\ acc.1 ⊆ out.1.
Proof.
  assert (forall acc, bounded_by (all_channel_ids s) (all_artifact_ids s) acc ->
    (length acc.1 <= length (all_channel_ids s) /\ length acc.2 <= length (all_artifact_ids s))%nat) as Hlen.
  { intros acc (Hd1 & Hd2 & Hs1 & Hs2). split; apply submseteq_length, NoDup_submseteq; auto. }
  induction fuel as [|fuel IH]; intros acc Hb Hf; [specialize (Hlen acc Hb); lia|]. cbn [affect_all].
  destruct (affect_grows s acc) as (Hp1 & Hp2 & Hb'). specialize (Hb' Hb).
  pose proof (prefix_length _ _ Hp1). pose proof (prefix_length _ _ Hp2). case_decide as Heq.
  - destruct Heq as [He1 He2]. assert (affect s acc = acc) as Hfix.
    { destruct acc as [chs ids], (affect s (chs, ids)) as [chs' ids']. cbn in *. f_equal; symmetry; apply prefix_length_eq; (done || lia). }
    exists acc. by rewrite !Hfix.
  - destruct (IH (affect s acc) Hb') as (out & Ho & Hst & Hsub); [lia|]. exists out. split_and!; [done|done|].
    etrans; [|exact Hsub]. intros x Hx. destruct Hp1 as [k ->]. apply elem_of_app. by left.
Qed.

Lemma extend_new_same `{EqDecision A} (xs ys : list A) x : extend_new xs ys = xs -> x ∈ ys -> x ∈ xs.
Proof. intros He Hx. rewrite <- He. apply elem_of_extend_new. by right. Qed.

Lemma affect_stable (s : t (R := R)) chs ids :
  affect s (chs, ids) = (chs, ids) ->
  (forall a, a ∈ Ledger.arts (egress s) -> Exists (fun i => i ∈ chs) (DaArtifact.channel_ids a) \/ DaArtifact.id a ∈ ids ->
     DaArtifact.channel_ids a ⊆ chs /\ DaArtifact.id a ∈ ids) /\
  (forall sid l i, DaEgress.pending (egress s) !! sid = Some l -> i ∈ l -> i ∈ ids -> Forall (fun j => j ∈ ids) l) /\
  (forall k, replay_index s chs = Some k -> (EncoderChannel.id <$> drop k (channels s)) ⊆ chs).
Proof.
  rewrite affect_passes. set (acc := (chs, ids)). set (x1 := foldl affect_artifact acc _). set (x2 := foldl _ x1 _). intros He.
  assert (ext s acc x1) as H01 by (apply (foldl_grows (ext s)); intros; by apply affect_artifact_grows).
  assert (ext s x1 x2) as H12 by (apply (foldl_grows (ext s)); intros; by apply affect_submission_grows).
  assert (ext s x2 acc) as H20 by (rewrite <- He; apply affect_channels_grows).
  assert (x1 = acc) as E1 by (apply (anti_symm (ext s)); [by etrans|done]).
  assert (x2 = acc) as E2 by (apply (anti_symm (ext s)); [done|by etrans]).
  pose proof (foldl_stable (ext s) affect_artifact _ (affect_artifact_grows s) acc E1) as Harts.
  unfold x2 in E2. rewrite E1 in E2. pose proof (foldl_stable (ext s) affect_submission _ (affect_submission_grows s) acc E2) as Hsubs.
  fold x2 in He. assert (x2 = acc) as E3 by (unfold x2; by rewrite E1). rewrite E3 in He. clear -Harts Hsubs He. split_and!.
  - intros a Ha Hor. specialize (Harts a Ha). unfold acc, affect_artifact in Harts. rewrite decide_True in Harts by done.
    injection Harts as Hc Hi. split; [intros i; by apply extend_new_same|].
    apply (extend_new_same ids [DaArtifact.id a]); [done|constructor].
  - intros sid l i Hp Hil Hi. specialize (Hsubs (sid, l) ltac:(by apply elem_of_map_to_list)). unfold acc, affect_submission in Hsubs.
    cbn in Hsubs. rewrite decide_True in Hsubs by (apply Exists_exists; by exists i). injection Hsubs as Hs.
    apply Forall_forall. intros j. by apply extend_new_same.
  - intros k Hk. unfold acc, affect_channels in He. cbn in He. rewrite Hk in He. injection He as He. intros i. by apply extend_new_same.
Qed.

Lemma replay_index_first (s : t (R := R)) chs j d :
  channels s !! j = Some d -> EncoderChannel.id d ∈ chs ->
  exists k c, replay_index s chs = Some k /\ channels s !! k = Some c /\
    forall i, i ∈ EncoderChannel.id <$> take k (channels s) -> i ∉ chs.
Proof.
  intros Hj Hd. unfold replay_index.
  destruct (list_find _ (channels s)) as [[k c]|] eqn:Hf.
  - apply list_find_Some in Hf as (Hk & _ & Hfirst). exists k, c. split_and!; [done|done|].
    intros i (e & -> & (n & Hn)%list_elem_of_lookup_1)%list_elem_of_fmap. apply lookup_take_Some in Hn as [Hn Hlt]. by eapply Hfirst.
  - eapply list_find_None, Forall_lookup_1 in Hf; [|exact Hj]. done.
Qed.

Lemma affect_fuel_enough (s : t (R := R)) :
  (length (all_channel_ids s) + length (all_artifact_ids s) < affect_fuel s)%nat.
Proof.
  assert (forall {A B} (f : A -> list B) l, length (l ≫= f) = sum_list_with (fun a => length (f a)) l) as Hb.
  { intros A B f l. induction l as [|a l IH]; [done|]. cbn [mbind list_bind]. rewrite length_app, IH. done. }
  unfold affect_fuel, all_channel_ids, all_artifact_ids. rewrite !length_app, !length_fmap, !Hb. fold (Ledger.arts (egress s)). lia.
Qed.

Lemma invalidate_pending ids e sid l :
  DaEgress.pending (DaEgress.invalidate_artifacts ids e) !! sid = Some l -> DaEgress.pending e !! sid = Some l.
Proof. cbn. by intros [? _]%map_lookup_filter_Some. Qed.

(** Replay drops the artifacts of exactly the channels from some position on,
    and goes back to the first block of these. *)
Lemma invalidate_channel_inv s j :
  inv g s -> exists s', invalidate_channel j s = (Ok (), s') /\ inv g s' /\ blocks s' = blocks s /\ l1_head s' = l1_head s.
Proof.
  intros Hi. unfold invalidate_channel. run_ops. destruct (channels s !! j) as [d|] eqn:Hj; [|by eexists].
  destruct (affect_all_ends s (affect_fuel s) ([EncoderChannel.id d], [])) as ([chs ids] & Hall & Hst & Hsub).
  { split_and!; cbn; [apply NoDup_singleton|constructor| |by intros i Hn%elem_of_nil].
    intros i ->%list_elem_of_singleton. apply elem_of_app. left. apply list_elem_of_fmap_2. by eapply list_elem_of_lookup_2. }
  { pose proof (affect_fuel_enough s). lia. }
  destruct (affect_stable s chs ids Hst) as (Harts & Hsubs & Hchs).
  destruct (replay_index_first s chs j d Hj) as (k & c & Hk & Hc & Hfirst); [apply Hsub; constructor|]. specialize (Hchs k Hk).
  rewrite Hall. cbn [or_panic]. rewrite Hk. cbn [from_option id]. rewrite Hc. cbn [or_panic].
  eexists. split; [done|]. split; [|done]. pose proof Hi as [Hcfg Htg Hmb Hsh Hcl Ht Hcur Hn Hdef Hsubid].
  rewrite <- (take_drop k (channels s)) in Ht, Hsh, Hcl. apply tiles_app in Ht as (m & Htk & Htd). pose proof (proj1 (tiles_bounds _ _ _ Htd)).
  assert (EncoderChannel.block_start c = m) as Hm.
  { rewrite (drop_S (channels s) c k Hc) in Htd. by destruct Htd as [? _]. }
  split; cbn; rewrite ?Hm; try done.
  - eapply invalidate_ships; [exact Hsh|done|]. intros a i Ha Hai.
    pose proof (sh_known _ _ _ Hsh a i Ha Hai) as Hknown. rewrite fmap_app in Hknown. apply elem_of_app in Hknown. split.
    + intros Hin. destruct Hknown as [Ht'|?]; [|done]. destruct (Harts a Ha (or_intror Hin)) as [Hci _].
      destruct (Hfirst i Ht'). by apply Hci.
    + intros Hin. apply (Harts a Ha). left. apply Exists_exists. exists i. split; [done|]. by apply Hchs.
  - intros n e He Hlt. apply (Hcl n e); [by apply lookup_app_l_Some|]. rewrite length_app. lia.
  - by rewrite Z.min_r by lia.
  - lia.
  - intros sid l Hp%invalidate_pending. by eapply Hsubid.
Qed.

Lemma advance_inv s h : inv g s -> exists s', advance_l1_head h s = (Ok (), s') /\ inv g s'.
Proof.
  intros Hi. assert (forall s, inv g s -> inv g (set_l1_head h s)) as Hset by (intros s1 []; by split).
  assert (forall s, inv g s -> exists s', invalidate_expired_channels s = (Ok (), s') /\ inv g s') as Hexp.
  { intros s1 H1i. unfold invalidate_expired_channels. run_ops. destruct (list_find _ _) as [[j c]|]; [|by eexists].
    destruct (invalidate_channel_inv s1 j H1i) as (s' & -> & ? & _). by eexists. }
  unfold advance_l1_head. run_ops. destruct (bool_decide (l1_head s < h)); destruct (deferred_step_error s); run_ops.
  - eexists. split; [done|]. by apply Hset.
  - apply Hexp, timeout_inv, Hset, Hi.
  - by eexists.
  - apply Hexp, Hi.
Qed.

End Past.

(** ** Encoding a block *)

Section Encoding.
Context {g : past}.


(** Writing to memory does not panic. *)
Definition writer_total : Prop :=
  forall w, (writer_flush w).1 <> Panic /\ forall data, (write_all data w).1 <> Panic.

(** The results of [add_batch] on an open channel. *)
Lemma add_batch_results b da c bs fs r c' :
  holds c bs fs -> EncoderChannel.is_open c = true -> EncoderChannel.add_batch b da c = (r, c') ->
  match r with
  | Ok (Rejected _) => True
  | Ok _ => EncoderChannel.block_start c' = EncoderChannel.block_start c /\
      EncoderChannel.blocks_added c' = u64_add (EncoderChannel.blocks_added c) 1 /\ EncoderChannel.is_open c' = true
  | Err e => exists e', e = Compression e'
  | Panic => ~ writer_total
  end.
Proof.
  intros Hh Hop. unfold EncoderChannel.add_batch. run_ops. unfold EncoderChannel.is_open in Hop.
  destruct (EncoderChannel.compressor c) as [w|] eqn:Hc; [|done]. case_decide; [by intros [= <- <-]|].
  pose proof (h_frame_size _ _ _ Hh) as Hsize. unfold EncoderChannel.max_total_frames, checked_div_ceil, EncoderChannel.max_frame_data, u64_sub.
  rewrite wrap_small by (unfold Frame.ENCODED_OVERHEAD, MAX_BLOB_FRAME_SIZE, BLOB_MAX_DATA_SIZE, BLOB_DERIVATION_PREFIX_SIZE in *; lia).
  rewrite decide_False by lia. cbn [mbind option_bind or_panic].
  case_decide; [by intros [= <- <-]|]. case_decide; [by intros [= <- <-]|].
  unfold EncoderChannel.on_compressor. cbn [EncoderChannel.set_candidate_scratch EncoderChannel.compressor]. rewrite Hc.
  destruct (CompressionStream.append (EncoderChannel.wire b) w) as [[o|e|] w'] eqn:Happ; cbn [map_err].
  - cbn [EncoderChannel.set_compressor EncoderChannel.compressor map_err].
    match goal with |- context [EncoderChannel.push_output o ?d] => destruct (push_output_static o d) as (Hp1 & Hp2 & Hp3 & Hp4) end.
    cbn [EncoderChannel.compressed_size_target]. destruct (EncoderChannel.compressed_size_target c); [case_decide|];
      intros [= <- <-]; cbn [EncoderChannel.set_accepted EncoderChannel.block_start EncoderChannel.blocks_added];
      rewrite ?Hp2, ?Hp3; (split_and!; [done|done|]); exact Hp4.
  - intros [= <- <-]. by eexists.
  - intros [= <- <-] Htot. unfold CompressionStream.append, CompressionStream.on_writer in Happ. run_ops.
    destruct (Htot (CompressionStream.compressor w)) as [_ Hw]. specialize (Hw (EncoderChannel.wire b)).
    destruct (write_all (EncoderChannel.wire b) _) as [[[]|e|] w1]; cbn [map_err] in Happ; [|done|by apply Hw].
    match goal with H : context [if ?b then _ else _] |- _ => destruct b end; [|done].
    cbn [CompressionStream.set_compressor CompressionStream.set_unflushed_input CompressionStream.compressor] in Happ.
    destruct (Htot w1) as [Hf _]. destruct (writer_flush w1) as [[[]|e|] w2]; cbn [map_err] in Happ; [done|done|by apply Hf].
Qed.

Lemma channel_blocks_snoc blocks c c' b :
  0 <= EncoderChannel.block_start c -> 0 <= EncoderChannel.blocks_added c ->
  EncoderChannel.block_start c' = EncoderChannel.block_start c ->
  EncoderChannel.blocks_added c' = EncoderChannel.blocks_added c + 1 ->
  index blocks (EncoderChannel.block_start c + EncoderChannel.blocks_added c) = Some b ->
  channel_blocks blocks c' = channel_blocks blocks c ++ [b].
Proof.
  intros Hs Ha Hs' Ha' Hb. unfold channel_blocks. rewrite Hs', Ha'. rewrite Z2Nat.inj_add by lia.
  change (Z.to_nat 1) with 1%nat. rewrite Nat.add_1_r. apply take_S_r. rewrite lookup_drop, <- Z2Nat.inj_add by lia.
  unfold index in Hb. by rewrite decide_True in Hb by lia.
Qed.

(** The state with a channel ready to take the next block. *)
Record ready_for (s : t (R := R)) (pre : list EncoderChannel.t) (c : EncoderChannel.t) : Prop := {
  rf_channels : channels s = pre ++ [c];
  rf_ships : ships (covers g (blocks s)) (egress s) (pre ++ [c]);
  rf_closed : Forall (fun c => EncoderChannel.is_open c = false) pre;
  rf_open : EncoderChannel.is_open c = true;
  rf_tiles : tiles 0 pre (EncoderChannel.block_start c);
  rf_added : 0 <= EncoderChannel.blocks_added c;
  rf_cursor : EncoderChannel.block_start c + EncoderChannel.blocks_added c = block_cursor s
}.

(** What the invariant says besides the channels and the cursor. *)
Lemma inv_restate s0 s :
  inv g s0 -> config s = config s0 -> blocks s = blocks s0 -> next_id s = next_id s0 ->
  deferred_step_error s = deferred_step_error s0 -> egress s = egress s0 ->
  ships (covers g (blocks s)) (egress s) (channels s) -> closed_but_last (channels s) -> tiles 0 (channels s) (block_cursor s) ->
  block_cursor s <= len (blocks s) -> inv g s.
Proof.
  intros [Hcfg Htg Hmb _ _ _ Hcur Hn Hdef Hsub] Ec Eb En Ed Ee Hsh Hcl Ht Hle.
  split; rewrite ?Ec, ?En, ?Ed; try done; [|by rewrite Ee].
  split; [done|]. rewrite Eb. lia.
Qed.

Lemma ready_inv s0 s pre c :
  inv g s0 -> ready_for s pre c -> config s = config s0 -> blocks s = blocks s0 -> next_id s = next_id s0 ->
  deferred_step_error s = deferred_step_error s0 -> egress s = egress s0 ->
  0 < EncoderChannel.blocks_added c -> block_cursor s <= len (blocks s) -> inv g s.
Proof.
  intros Hi [Hch Hsh Hcl Hop Ht Ha Hc] ? ? ? ? ? Hpos Hle. eapply inv_restate; try done; rewrite Hch; [done| |].
  - intros i d Hd Hlt. rewrite length_app in Hlt. cbn in Hlt. rewrite lookup_app_l in Hd by lia. by eapply Forall_lookup_1 in Hcl.
  - apply tiles_app. exists (EncoderChannel.block_start c). by split_and!.
Qed.

(** The last channel is ready when it is open. *)
Lemma last_ready s c :
  inv g s -> last (channels s) = Some c -> EncoderChannel.is_open c = true ->
  ready_for s (removelast (channels s)) c /\ 0 < EncoderChannel.blocks_added c.
Proof.
  intros [Hcfg Htg Hmb Hsh Hcl Ht Hcur Hn Hdef Hsub] Hl Hop. pose proof (last_split _ _ Hl) as Heq.
  set (pre := removelast (channels s)) in *. rewrite Heq in Hsh, Hcl, Ht.
  apply tiles_app in Ht as (m & Ht & Hs & Hpos & He). cbn in He. split; [|done]. split; try done; [|by rewrite Hs|lia|lia].
  apply Forall_lookup. intros i d Hd. apply (Hcl i); [by apply lookup_app_l_Some|]. apply lookup_lt_Some in Hd. rewrite length_app. cbn. lia.
Qed.

(** A new channel id, unlike those of the channels and of the frames in the ledger. *)
Definition fresh (s : t (R := R)) : Prop :=
  let id := (fill_bytes (rng s)).1 in
  (id ∉ EncoderChannel.id <$> channels s) /\ length id = 16%nat /\ ledger_frames (egress s) id = [].

Lemma closed_all s :
  inv g s -> match last (channels s) with None => false | Some c => EncoderChannel.is_open c end = false ->
  Forall (fun c => EncoderChannel.is_open c = false) (channels s).
Proof.
  intros Hi Hl. apply Forall_lookup. intros i c Hc. destruct (decide (S i < length (channels s))%nat) as [Hlt|Hge].
  - by eapply (i_closed s Hi).
  - pose proof (lookup_lt_Some _ _ _ Hc). rewrite last_lookup in Hl. replace (pred (length (channels s))) with i in Hl by lia. by rewrite Hc in Hl.
Qed.

Lemma open_ready s :
  inv g s -> fresh s -> origin g (fill_bytes (rng s)).1 = len (gone g) + block_cursor s -> match last (channels s) with None => false | Some c => EncoderChannel.is_open c end = false ->
  exists c, open_new_channel (block_cursor s) s =
      (Ok (), set_channels (channels s ++ [c]) (set_rng (fill_bytes (rng s)).2 s)) /\
    ready_for (set_channels (channels s ++ [c]) (set_rng (fill_bytes (rng s)).2 s)) (channels s) c /\
    EncoderChannel.blocks_added c = 0.
Proof.
  intros Hi Hf Hor Hcl%closed_all; [|done]. unfold fresh in Hf. unfold open_new_channel. destruct (fill_bytes (rng s)) as [id rng'].
  cbn [fst snd] in *. destruct Hf as (Hni & H16 & Hfr). cbn [rollup_config config l1_head set_rng].
  destruct (EncoderChannel.new id (rollup_config s) (config s) (block_cursor s) (l1_head s)) as [c|e|] eqn:Hnew.
  2,3: exfalso; unfold EncoderChannel.new in Hnew; by rewrite (i_config s Hi) in Hnew.
  pose proof (channel_new_holds _ _ _ _ _ _ (i_target s Hi) Hnew) as Hh. unfold EncoderChannel.new in Hnew.
  rewrite (i_config s Hi) in Hnew. cbn [mbind result_bind] in Hnew. injection Hnew as Hnew.
  exists c. split; [done|]. split; [|by rewrite <- Hnew]. pose proof (i_tiles s Hi) as Ht.
  split; try done; [|by rewrite <- Hnew|by rewrite <- Hnew|by rewrite <- Hnew|by rewrite <- Hnew; cbn; lia].
  apply open_ships; [apply Hi|done| |by rewrite <- Hnew|by rewrite <- Hnew|by rewrite <- Hnew].
  pose proof (proj1 (tiles_bounds _ _ _ Ht)). pose proof (len_nonneg (gone g)).
  rewrite <- Hnew. unfold covers. cbn. rewrite Hor. split_and!; [lia|lia|by right|].
  rewrite drop_ge by (unfold len in *; lia). constructor.
Qed.

Lemma set_last_ships (s : t (R := R)) pre c c' Q :
  ships (covers g (blocks s)) (egress s) (pre ++ [c]) -> keeps_frames (covers g (blocks s)) Q c c' ->
  (forall d bs, covers g (blocks s) d bs -> Q d bs) -> ships Q (egress s) (pre ++ [c']).
Proof.
  intros Hsh Hk HQ. eapply update_ships; [exact Hsh|]. apply Forall2_app; [|by constructor].
  apply Forall_Forall2_diag, Forall_true. intros d. split; [done|]. intros bs fs Hb Hh. exists bs. split; [by apply HQ|done].
Qed.

(** Adding the batch of the next block to a ready channel. *)
Lemma accept_inv s0 s pre c c' b sb :
  inv g s0 -> ready_for s pre c -> config s = config s0 -> blocks s = blocks s0 -> next_id s = next_id s0 ->
  deferred_step_error s = deferred_step_error s0 -> egress s = egress s0 ->
  index (blocks s) (block_cursor s) = Some b -> composes b sb ->
  EncoderChannel.id c' = EncoderChannel.id c -> EncoderChannel.block_start c' = EncoderChannel.block_start c ->
  EncoderChannel.blocks_added c' = u64_add (EncoderChannel.blocks_added c) 1 -> EncoderChannel.is_open c' = true ->
  (forall bs fs, holds c bs fs -> holds c' (bs ++ [sb]) fs) ->
  inv g (set_block_cursor (u64_add (block_cursor s) 1) (set_channels (pre ++ [c']) s)) /\
  u64_add (block_cursor s) 1 = block_cursor s + 1 /\ EncoderChannel.is_empty c' = false.
Proof.
  intros Hi [Hch Hsh Hcl Hop Ht Ha Hc] E1 E2 E3 E4 E5 Hb Hsb Hid Hs Hadd Hop' Hh.
  pose proof (index_Some _ _ _ Hb) as Hrange. pose proof (i_cursor s0 Hi) as Hcur. rewrite <- E2 in Hcur.
  pose proof (proj1 (tiles_bounds _ _ _ Ht)) as Hstart.
  assert (forall a, 0 <= a <= block_cursor s -> u64_add a 1 = a + 1) as Hnext.
  { intros a Hle. unfold u64_add. apply wrap_small. unfold u64_max in *. lia. }
  rewrite Hnext in * by lia. split_and!; [|done|unfold EncoderChannel.is_empty; apply bool_decide_eq_false_2; lia].
  pose proof (channel_blocks_snoc (blocks s) c c' b ltac:(lia) Ha Hs Hadd) as Hsnoc. rewrite Hc in Hsnoc.
  apply (ready_inv s0 _ pre c'); try done; [|lia|cbn; lia].
  split; try done; [|by rewrite Hs|lia|cbn; lia].
  cbn [set_block_cursor set_channels blocks egress]. eapply set_last_ships; [exact Hsh| |done]. split; [done|].
  intros bs fs (Hra & Hor & Hf) Hhold. exists (bs ++ [sb]). split; [|by apply Hh].
  unfold covers. rewrite Hid, Hs. split_and!; [lia|lia|done|]. rewrite Hsnoc, app_assoc by done. apply Forall2_app; [done|by constructor].
Qed.

Lemma add_ready s0 s pre c b sb da r c' :
  inv g s0 -> ready_for s pre c -> config s = config s0 -> blocks s = blocks s0 -> next_id s = next_id s0 ->
  deferred_step_error s = deferred_step_error s0 -> egress s = egress s0 ->
  index (blocks s) (block_cursor s) = Some b -> composes b sb -> EncoderChannel.add_batch sb da c = (r, c') ->
  match r with
  | Ok (Rejected _) => EncoderChannel.blocks_added c' = EncoderChannel.blocks_added c /\
      ready_for (set_channels (pre ++ [c']) s) pre c'
  | Ok _ => inv g (set_block_cursor (u64_add (block_cursor s) 1) (set_channels (pre ++ [c']) s)) /\
      u64_add (block_cursor s) 1 = block_cursor s + 1 /\ EncoderChannel.is_open c' = true /\ EncoderChannel.is_empty c' = false
  | Err e => exists e', e = Compression e'
  | Panic => ~ writer_total
  end.
Proof.
  intros Hi Hr E1 E2 E3 E4 E5 Hb Hsb Hadd. pose proof Hr as [Hch Hsh Hcl Hop Ht Ha Hc].
  pose proof (sh_live _ _ _ Hsh) as Hlive. apply Forall_app in Hlive as [_ (bs & _ & Hh)%Forall_singleton].
  pose proof (add_batch_results _ _ _ _ _ _ _ Hh Hop Hadd) as Hres. destruct r as [out|e|]; [|done|done].
  pose proof (add_batch_holds _ _ _ _ _ _ _ Hadd Hh) as Hx. destruct out as [| |limit].
  3:{ rewrite Hx. split; [done|]. split; try done. eapply set_last_ships; [exact Hsh| |done]. split; [done|].
    intros bs' fs' Hcov Hh'. exists bs'. split; [done|]. by eapply same_stream_holds; [|exact Hh']. }
  all: destruct Hx as (_ & _ & Hid), Hres as (Hs & Hn & Hop').
  all: destruct (accept_inv s0 s pre c c' b sb) as (? & ? & ?); try done; intros bs' fs' Hh'.
  all: by pose proof (add_batch_holds _ _ _ _ _ _ _ Hadd Hh') as [? _].
Qed.

(** ** One step *)

Lemma block_to_single_batch_total block : block_to_single_batch block <> Panic.
Proof.
  unfold block_to_single_batch. destruct (L2Block.transactions block) as [|tx txs]; [done|].
  destruct (BlockTx.deposit_input tx) as [input|]; [|done]. cbn [ok_or mbind result_bind].
  pose proof (decode_calldata_total input). by destruct (decode_calldata input).
Qed.

Definition has_open (s : t (R := R)) : bool :=
  match last (channels s) with None => false | Some c => EncoderChannel.is_open c end.

(** What a step that does not leave the encoder idle uses up. *)
Definition work (s : t (R := R)) : Z := 2 * (len (blocks s) - block_cursor s) + Z.b2z (has_open s).

Lemma close_closed c : EncoderChannel.is_open (EncoderChannel.close c) = false.
Proof.
  unfold EncoderChannel.close. destruct (EncoderChannel.compressor c) eqn:Hc; [|unfold EncoderChannel.is_open; by rewrite Hc].
  by rewrite (proj2 (proj2 (proj2 (push_output_static _ _)))).
Qed.

(** Closing the current channel leaves no channel open. *)
Lemma close_current_open s pre c :
  channels s = pre ++ [c] -> EncoderChannel.is_empty c = false ->
  has_open (close_current_channel s) = false /\ blocks (close_current_channel s) = blocks s /\
  block_cursor (close_current_channel s) = block_cursor s.
Proof.
  intros Hch He. assert (last (channels s) = Some c) as Hl by by rewrite Hch, last_snoc.
  unfold close_current_channel, set_last. rewrite Hl. destruct (EncoderChannel.is_open c) eqn:Hop; cbn [negb].
  - rewrite He. split; [|done]. unfold has_open. cbn. rewrite last_snoc. apply close_closed.
  - split; [|done]. unfold has_open. by rewrite Hl.
Qed.

Definition stepped (s : t (R := R)) (r : result StepError StepResult) (s' : t (R := R)) : Prop :=
  match r with
  | Ok StepIdle => inv g s' /\ block_cursor s' = len (blocks s') /\ blocks s' = blocks s
  | Ok _ => inv g s' /\ work s' < work s /\ blocks s' = blocks s
  | Err (StepChannel e) => exists e', e = Compression e'
  | Err _ => inv g s'
  | Panic => ~ writer_total
  end.

(** Offering the next block to a channel that is ready for it. *)
Lemma offer_inv s0 s pre c b sb :
  inv g s0 -> ready_for s pre c -> config s = config s0 -> blocks s = blocks s0 -> next_id s = next_id s0 ->
  deferred_step_error s = deferred_step_error s0 -> egress s = egress s0 -> block_cursor s = block_cursor s0 ->
  index (blocks s) (block_cursor s) = Some b -> composes b sb ->
  (EncoderChannel.is_empty c = true -> inv g (set_channels pre s)) ->
  (EncoderChannel.is_empty c = false -> has_open s0 = true) ->
  forall r s', (outcome ← add_to_last sb (BufferedBlock.estimated_da_bytes b);
    match outcome with
    | Accepted | TargetReached =>
        _ ← modify (fun s => set_block_cursor (u64_add (block_cursor s) 1) s);
        match outcome with
        | TargetReached => _ ← modify close_current_channel; mret StepChannelClosed
        | _ => mret StepBlockEncoded
        end
    | Rejected limit =>
        c ← gets (fun s => last (channels s));
        c ← lift (or_panic c);
        if EncoderChannel.is_empty c then
          _ ← modify (fun s => set_channels (removelast (channels s)) s);
          fail (BlockExceedsChannelLimit (block_cursor s) limit)
        else _ ← modify close_current_channel; mret StepChannelClosed
    end) s = (r, s') -> stepped s0 r s'.
Proof.
  intros Hi Hr E1 E2 E3 E4 E5 E6 Hb Hsb Hempty Hfull r s'. rewrite bind_run. unfold add_to_last. rewrite (rf_channels _ _ _ Hr), last_snoc.
  destruct (EncoderChannel.add_batch sb _ c) as [out c'] eqn:Hadd.
  pose proof (add_ready s0 s pre c b sb _ _ _ Hi Hr E1 E2 E3 E4 E5 Hb Hsb Hadd) as Hres. pose proof (index_Some _ _ _ Hb) as Hrange.
  rewrite removelast_last. destruct out as [out|e|]; cbn [map_err].
  2:{ intros [= <- <-]. exact Hres. }
  2:{ intros [= <- <-]. exact Hres. }
  destruct out as [| |limit].
  - destruct Hres as (Hinv & Hn & Hop & He). run_ops. intros [= <- <-]. split; [done|]. split; [|done].
    unfold work at 1, has_open at 1. cbn. rewrite last_snoc, Hop, E2, Hn, E6. unfold work. destruct (has_open s0); cbn; lia.
  - destruct Hres as (Hinv & Hn & Hop & He). run_ops. intros [= <- <-]. split; [by apply close_current_inv|].
    destruct (close_current_open (set_block_cursor (u64_add (block_cursor s) 1) (set_channels (pre ++ [c']) s)) pre c' eq_refl He)
      as (Ho & Hbl & Hcu). split; [|by rewrite Hbl].
    unfold work. rewrite Ho, Hbl, Hcu. cbn. rewrite E2, Hn, E6. destruct (has_open s0); cbn; lia.
  - destruct Hres as [Hn Hr']. run_ops. cbn [channels set_channels]. rewrite last_snoc. cbn [or_panic].
    assert (EncoderChannel.is_empty c' = EncoderChannel.is_empty c) as -> by (unfold EncoderChannel.is_empty; by rewrite Hn).
    destruct (EncoderChannel.is_empty c) eqn:He.
    + intros [= <- <-]. cbn [stepped]. rewrite removelast_last. by apply Hempty.
    + intros [= <- <-].
      assert (inv g (set_channels (pre ++ [c']) s)) as Hinv.
      { eapply (ready_inv s0 _ pre c'); try done.
        - rewrite Hn. unfold EncoderChannel.is_empty in He. apply bool_decide_eq_false in He. pose proof (rf_added _ _ _ Hr). lia.
        - cbn. lia. }
      split; [by apply close_current_inv|].
      destruct (close_current_open (set_channels (pre ++ [c']) s) pre c' eq_refl) as (Ho & Hbl & Hcu);
        [unfold EncoderChannel.is_empty in *; by rewrite Hn|]. split; [|by rewrite Hbl].
      unfold work. rewrite Ho, Hbl, Hcu. cbn. rewrite E2, E6, Hfull by done. cbn. lia.
Qed.

Lemma step_here_inv s r s' :
  inv g s -> fresh s -> origin g (fill_bytes (rng s)).1 = len (gone g) + block_cursor s ->
  step s = (r, s') -> stepped s r s'.
Proof.
  intros Hi Hf Hor. unfold step. run_ops. rewrite (i_deferred s Hi). run_ops.
  destruct (check_channel_timeout s) as [closed s1] eqn:Hto. cbn [fst snd].
  unfold check_channel_timeout in Hto. apply pair_equal_spec in Hto as [Hcl Hs1]. destruct closed.
  - (* the channel timed out *)
    rewrite Hcl in Hs1. subst s1. intros [= <- <-]. split; [by apply close_current_inv|].
    destruct (last (channels s)) as [c|] eqn:Hl; [|done]. apply andb_true_iff in Hcl as [Hop _].
    destruct (last_ready s c Hi Hl Hop) as [Hr Hpos].
    destruct (close_current_open s _ c (rf_channels _ _ _ Hr)) as (Ho & Hbl & Hcu).
    { unfold EncoderChannel.is_empty. apply bool_decide_eq_false_2. lia. }
    split; [|done]. unfold work. rewrite Ho, Hbl, Hcu. unfold has_open. rewrite Hl, Hop. cbn. lia.
  - rewrite Hcl in Hs1. subst s1. clear Hcl. run_ops. pose proof (i_cursor s Hi) as Hcur. pose proof (proj1 (tiles_bounds _ _ _ (i_tiles s Hi))).
    case_decide as Hidle; [intros [= <- <-]; split_and!; [done|lia|done]|].
    destruct (index_in_range (blocks s) (block_cursor s)) as [b Hb]; [lia|]. rewrite Hb. cbn [or_panic].
    destruct (block_to_single_batch (BufferedBlock.block b)) as [sb|e|] eqn:Hsb; cbn [map_err].
    2:{ intros [= <- <-]. exact Hi. }
    2:{ exfalso. by eapply block_to_single_batch_total. }
    fold (has_open s). destruct (has_open s) eqn:Hop.
    + unfold has_open in Hop. destruct (last (channels s)) as [c|] eqn:Hl; [|done]. destruct (last_ready s c Hi Hl Hop) as [Hr Hpos].
      assert (EncoderChannel.is_empty c = false) as He by (unfold EncoderChannel.is_empty; apply bool_decide_eq_false_2; lia).
      apply (offer_inv s s (removelast (channels s)) c b sb); try done; [by rewrite He|]. intros _. unfold has_open. by rewrite Hl.
    + destruct (open_ready s Hi Hf Hor Hop) as (c & Hopen & Hr & Hz). rewrite Hopen.
      apply (offer_inv s (set_channels (channels s ++ [c]) (set_rng (fill_bytes (rng s)).2 s)) (channels s) c b sb); try done.
      * intros _. destruct Hi. by split.
      * unfold EncoderChannel.is_empty. rewrite Hz. done.
Qed.

End Encoding.

(** The past once the cursor is where it is: the next channel starts there. *)
Definition renewed (g : past) (s : t (R := R)) : past :=
  mk_past (gone g) (fun i => if decide (i ∈ EncoderChannel.id <$> channels s) then origin g i
                             else len (gone g) + block_cursor s).

Lemma renewed_inv g s : inv g s -> inv (renewed g s) s.
Proof.
  intros [Hcfg Htg Hmb Hsh Hcl Ht Hcur Hn Hdef Hsub]. split; try done. eapply update_ships; [exact Hsh|].
  apply Forall_Forall2_diag, Forall_forall. intros c Hc. split; [done|]. intros bs fs Hcov Hh. exists bs. split; [|done].
  unfold covers, renewed in *. cbn. by rewrite decide_True by (by apply list_elem_of_fmap_2).
Qed.

Lemma step_inv g s r s' : inv g s -> fresh s -> step s = (r, s') -> stepped (g := renewed g s) s r s'.
Proof.
  intros Hi Hf. apply step_here_inv; [by apply renewed_inv|done|]. cbn. rewrite decide_False; [done|apply Hf].
Qed.

End Invariant.

End EncoderInvariant.
