(* ===== verification/EncoderRuns.v ===== *)
(** * Runs of the batch encoder

    The states the batcher can bring the encoder of [BatchEncoders] into, and
    what the invariant of [EncoderProofs] says of them: no block is lost or
    encoded twice, every submission can be decoded by derivation, and the
    encoder reaches the end of its input. *)

From S2P Require Import Prelude Effects Primitives Frames Channels Blobs FastLz Upgrades SystemConfig Rollup L1Info SingleBatches SpanTxData SpanTxs CodecModels SpanChecks Brotlis BatchReaders Compressors EncoderChannels Egress EgressRuns BatchEncoders EncoderProofs.

Module EncoderRuns.
Import BatchEncoder ChannelProofs EgressProofs Shipping Draining EncoderInvariant.

Section Runs.
Context `{TxTypes} `{!Rlp} `{SingleBatchRlp} `{BrotliEncoderLaws} `{RuntimeUpgradeRegistry} {R : Type} `{ChannelRng R}.

(** A failed compression is fatal for the batcher. *)
Definition recoverable (r : result StepError StepResult) : Prop :=
  match r with Ok _ => True | Err (StepChannel _) => False | Err _ => True | Panic => False end.

(** The past of an encoder that has dropped nothing. *)
Definition nothing_past : past := mk_past [] (fun _ => 0).

(** The states of the encoder with their pasts, in any order of the calls of its
    interface.  The random channel ids do not repeat, the 64-bit identifiers do not
    run out, and the batcher ends with a panic or a failed compression. *)
Inductive reaches : past -> t (R := R) -> Prop :=
| reach_new cfg conf rng s :
    (forall n, EncoderConfig.compressed_size_target conf = Some n -> 0 <= n) -> 0 <= EncoderConfig.max_blobs_per_tx conf ->
    new cfg conf rng = Ok s -> reaches nothing_past s
| reach_add_block g s block r s' :
    reaches g s -> len (blocks s) < u64_max -> add_block block s = (r, s') -> reaches g s'
| reach_step g s r s' : reaches g s -> fresh s -> step s = (r, s') -> recoverable r -> reaches (renewed g s) s'
| reach_next_submission g s r s' : reaches g s -> ids_left s -> next_submission s = (Ok r, s') -> reaches g s'
| reach_confirm g s sid l1_block : reaches g s -> reaches g (confirm sid l1_block s)
| reach_requeue g s sid : reaches g s -> reaches g (requeue sid s)
| reach_advance g s l1_block r s' : reaches g s -> advance_l1_head l1_block s = (r, s') -> reaches g s'
| reach_reconcile g s safe_l2 current_l1 r s' :
    reaches g s -> reconcile_derivation safe_l2 current_l1 s = (r, s') -> reaches (dropped (g := g) s s') s'
| reach_flush g s : reaches g s -> reaches g (flush s)
| reach_reset g s rng : reaches g s -> reaches nothing_past (reset rng s)
| reach_blob_override g s active : reaches g s -> reaches g (set_blob_override active s).

Lemma reaches_inv g s : reaches g s -> inv g s.
Proof.
  induction 1 as [cfg conf rng s Ht Hmb Hnew|g s block r s' _ IH Hlen Hadd|g s r s' _ IH Hf Hstep Hrec|g s r s' _ IH Hsub Hnext
    |g s sid h _ IH|g s sid _ IH|g s h r s' _ IH Hadv|g s safe h r s' _ IH Hrec|g s _ IH|g s rng _ IH|g s active _ IH].
  - by eapply encoder_new_inv.
  - by eapply add_block_inv.
  - pose proof (step_inv g s r s' IH Hf Hstep) as Hs. unfold stepped in Hs. destruct r as [[]|[]|]; by destruct Hs.
  - by destruct (next_submission_inv s _ s' IH Hsub Hnext).
  - by apply confirm_inv.
  - by apply requeue_inv.
  - destruct (advance_inv s h IH) as (s1 & Heq & Hi). rewrite Heq in Hadv. by injection Hadv as _ <-.
  - destruct (reconcile_inv s safe h IH) as (r' & s1 & Heq & Hi). rewrite Heq in Hrec. by injection Hrec as _ <-.
  - by apply flush_inv.
  - by eapply reset_inv.
  - destruct IH. by split.
Qed.

(** The batches of a complete channel, from its frames in the ledger. *)
Definition channel_decodes (e : DaEgress.t) (c : EncoderChannel.t) (bs : list SingleBatch.t) : Prop :=
  let fs := ledger_frames e (EncoderChannel.id c) in
  Channel.numbered (EncoderChannel.id c) fs /\ fs <> [] /\
  exists z, concat (Frame.data <$> fs) = Level.CHANNEL_VERSION :: z /\ decodes z brotli_state_new (content bs).

Lemma complete_decodes c bs fs :
  holds c bs fs -> EncoderChannel.framing_complete c = true ->
  Channel.numbered (EncoderChannel.id c) fs /\ fs <> [] /\
  exists z, concat (Frame.data <$> fs) = Level.CHANNEL_VERSION :: z /\ decodes z brotli_state_new (content bs).
Proof.
  intros [Hsize Hin Hmax Hem Hm Hav Hnum Hnmax Hterm Hcomp Hfs] Hc. destruct (Hcomp Hc) as [Hne Hout].
  assert (EncoderChannel.compressor c = None) as Hnone.
  { unfold EncoderChannel.framing_complete, EncoderChannel.is_open in Hc. destruct (EncoderChannel.compressor c); [|done].
    by rewrite bool_decide_eq_true_2 in Hc. }
  rewrite Hnone, Hout, app_nil_r in Hem. destruct Hem as (z & Hz & Hd). split_and!; [|done|by exists z].
  intros k f Hf. destruct (Hfs k f Hf) as (-> & -> & ->). split_and!; [done..|]. apply bool_decide_ext. rewrite Hc. naive_solver.
Qed.

(** What is sent to L1 for a submission, and that derivation gets its frames back. *)
Definition payload_decodes (p : SubmissionPayload) : Prop :=
  match p with
  | PayloadBlobs ps => Forall (fun p => exists blob data, BlobEncoder.encode_packed (BlobPayload.frames p) = Ok blob /\
      len blob = BYTES_PER_BLOB /\ (forall c, BlobData.decode (BlobData.mk (Some blob) c) = Ok data) /\
      Frame.parse_frames data = Ok (BlobPayload.frames p)) ps
  | PayloadCalldata f => Frame.parse_frames (to_calldata f) = Ok [f]
  end.

Lemma fits_decodes p : fits p -> match p with
  | ArtifactBlob p => payload_decodes (PayloadBlobs [p])
  | ArtifactCalldata f => payload_decodes (PayloadCalldata f)
  end.
Proof.
  destruct p as [p|f]; cbn [fits payload_decodes].
  - intros (Hne & Hs & Hcap). constructor; [|constructor].
    set (data := DERIVATION_VERSION_0 :: concat (map Frame.encode (BlobPayload.frames p))).
    destruct (encoded_decodes data) as (blob & He & Hl & Hd).
    { unfold data. rewrite len_cons.
      assert (len (concat (map Frame.encode (BlobPayload.frames p))) = BlobPayload.frame_bytes p) as ->.
      { unfold BlobPayload.frame_bytes. clear -Hs. induction Hs as [|f fs [Hf _] _ IH]; [done|]. cbn [map concat sumZ].
        by rewrite len_app, IH, Frame.encode_len. }
      unfold DaEgress.BLOB_CAPACITY, BLOB_DERIVATION_PREFIX_SIZE in Hcap. lia. }
    exists blob, data. split_and!; [done|done|done|]. by apply Frame.parse_encoded.
  - intros Hf. pose proof (Frame.parse_encoded [f] ltac:(done) ltac:(by constructor)) as Hp. unfold to_calldata. cbn in Hp. by rewrite app_nil_r in Hp.
Qed.

Lemma artifacts_decode sub xs n :
  Ledger.carries_artifacts sub xs n -> Forall (fun x => fits (DaArtifact.payload x)) xs -> payload_decodes (BatchSubmission.payload sub).
Proof.
  intros [(ps & -> & Hps & _)|(f & x & -> & -> & Hx)] Hf.
  - cbn [payload_decodes]. apply Forall_forall. intros p Hp. assert (ArtifactBlob p ∈ DaArtifact.payload <$> xs) as Hin.
    { rewrite <- Hps. by apply list_elem_of_fmap_2. }
    apply list_elem_of_fmap in Hin as (x & Hx & Hin). rewrite Forall_forall in Hf. specialize (Hf x Hin). rewrite <- Hx in Hf.
    exact (proj1 (Forall_singleton _ _) (fits_decodes (ArtifactBlob p) Hf)).
  - pose proof (proj1 (Forall_singleton _ _) Hf) as Hfx. cbn beta in Hfx. rewrite Hx in Hfx. exact (fits_decodes (ArtifactCalldata f) Hfx).
Qed.

(** C3: whatever the calls up to a panic or a failed compression, as long as the
    random channel ids do not repeat and the 64-bit identifiers do not run out, the
    channels of the encoder cover its blocks from the first one to the cursor, each block in exactly one channel; and
    once a channel is cut completely, its frames in the ledger decode to exactly
    the batches of the blocks from the one at the cursor when the channel was
    opened up to its last one, dropped blocks included: only the first channel can
    reach back to blocks that have been dropped as safe, and no block is in it that
    was before the cursor when it was opened. *)
Theorem encoder_keeps_blocks g s :
  reaches g s ->
  tiles 0 (channels s) (block_cursor s) /\ block_cursor s <= len (blocks s) /\
  Forall (fun c => EncoderChannel.framing_complete c = true ->
    exists bs, covers g (blocks s) c bs /\ channel_decodes (egress s) c bs) (channels s).
Proof.
  intros Hi%reaches_inv. split_and!; [apply Hi|apply Hi|]. eapply Forall_impl; [exact (sh_live _ _ _ (i_ships _ s Hi))|].
  intros c (bs & Hcov & Hh) Hc. exists bs. split; [done|]. by apply complete_decodes.
Qed.

(** C9: asking for a submission fails only with a panic, at a channel that is not
    cut completely and has used up its 65535 frame numbers, as long as the 64-bit
    identifiers do not run out; a submission has a new identifier and leases its
    artifacts, and derivation decodes every blob and calldata of it to the frames
    it was built from. *)
Theorem submissions_decode g s r s' :
  reaches g s -> ids_left s -> next_submission s = (r, s') ->
  match r with
  | Ok None => DaArtifacts.has_ready (DaEgress.artifacts (egress s')) = false
  | Ok (Some sub) => BatchSubmission.id sub = next_id s /\ DaEgress.pending (egress s) !! next_id s = None /\
      is_Some (DaEgress.pending (egress s') !! next_id s) /\ payload_decodes (BatchSubmission.payload sub)
  | Err _ => False
  | Panic => Exists exhausted (channels s')
  end.
Proof.
  intros Hi%reaches_inv Hsub Hnext. pose proof (next_submission_inv s r s' Hi Hsub Hnext) as Hn. destruct r as [r| |]; [|done|done].
  destruct Hn as (Hi' & _ & _ & _ & Hr). destruct r as [sub|]; [|by destruct Hr].
  destruct Hr as (xs & Hp & Hid & _ & Hcar & Hxs). split_and!; [done| |by rewrite Hp, lookup_insert_eq|].
  - destruct (DaEgress.pending (egress s) !! next_id s) eqn:Hn; [|done]. apply (i_subs _ s Hi) in Hn. lia.
  - eapply artifacts_decode; [exact Hcar|]. eapply Forall_impl; [exact Hxs|]. intros x Hx.
    exact (sh_fits _ _ _ (i_ships _ s' Hi') _ Hx).
Qed.






(** ** Draining *)










End Runs.

(** ** Calls that change nothing *)

Section Still.
Context `{TxTypes} `{!Rlp} `{SingleBatchRlp} `{BrotliEncoder} `{RuntimeUpgradeRegistry} {R : Type} `{ChannelRng R}.



End Still.

End EncoderRuns.

(** ** One block, from the encoder to a blob *)

Module SampleEncoder.
Import BatchEncoder ChannelProofs EgressProofs Shipping EncoderInvariant EncoderRuns.

#[local] Existing Instance StoredEncoder.encoder.
#[local] Existing Instance plain_types.
#[local] Existing Instance model_rlp.
#[local] Existing Instance ChannelReader.model_single.
#[local] Instance no_overrides : RuntimeUpgradeRegistry := ∅ : Registry.t.
#[local] Instance counter : ChannelRng Z := fun n => (to_be_bytes 16 n, n + 1).

Definition l1_info : L1BlockInfoTx :=
  InfoIsthmus (Isthmus.mk (EcotoneBase.mk (BedrockBase.mk 17 1000 7 (zeros 32) 3 (zeros 20)) 9 810949 1368) 5 6).

Definition block : L2Block.t :=
  L2Block.mk (BlockInfo.mk (zeros 32) 1 (zeros 32) 1002)
    [BlockTx.mk (Some (encode_calldata l1_info)) 126 []; BlockTx.mk None 2 [Byte.x02; Byte.xaa]].

Definition opened : t (R := Z) := mk RollupConfig.default EncoderConfig.default 0 [] 0 None [] DaEgress.new 0 1 false None.
Definition buffered : t (R := Z) := (add_block block opened).2.
Definition encoded : t (R := Z) := (step buffered).2.
Definition flushed : t (R := Z) := flush encoded.
Definition submitted : t (R := Z) := (next_submission flushed).2.

Lemma run_is {A B} (p : A * B) a b : p.1 = a -> p.2 = b -> p = (a, b).
Proof. destruct p. by intros <- <-. Qed.


Lemma reaches_buffered : reaches nothing_past buffered.
Proof.
  apply (reach_add_block nothing_past opened block (Ok ())).
  - by apply (reach_new RollupConfig.default EncoderConfig.default 1).
  - done.
  - apply run_is; [by vm_compute|exact eq_refl].
Qed.

Lemma fresh_from (s : t (R := Z)) n ids :
  rng s = n -> EncoderChannel.id <$> channels s = ids -> (to_be_bytes 16 n ∉ ids) ->
  ledger_frames (egress s) (to_be_bytes 16 n) = [] -> fresh s.
Proof.
  intros Hn Hids Hni Hl. unfold fresh, fill_bytes, counter. rewrite Hn. cbn [fst]. rewrite Hids.
  split_and!; [done|apply length_to_be_bytes|done].
Qed.

Lemma fresh_buffered : fresh buffered.
Proof. apply (fresh_from _ 1 []); [by vm_compute|by vm_compute|apply not_elem_of_nil|by vm_compute]. Qed.

Lemma step_buffered : step buffered = (Ok StepBlockEncoded, encoded).
Proof. apply run_is; [by vm_compute|exact eq_refl]. Qed.




Definition ids_left_b (s : t (R := Z)) : bool :=
  bool_decide (EncoderConfig.max_blobs_per_tx (config s) = 6) && bool_decide (next_id s < 1000) &&
  bool_decide (DaArtifacts.next_id (DaEgress.artifacts (egress s)) < 1000).

Lemma ids_left_from s : ids_left_b s = true -> ids_left s.
Proof.
  unfold ids_left_b, ids_left, u64_max.
  intros [[Hm%bool_decide_eq_true Hn%bool_decide_eq_true]%andb_true_iff Ha%bool_decide_eq_true]%andb_true_iff. lia.
Qed.






Lemma reaches_flushed : reaches (renewed nothing_past buffered) flushed.
Proof.
  apply reach_flush. apply (reach_step nothing_past buffered (Ok StepBlockEncoded)); [exact reaches_buffered|exact fresh_buffered|exact step_buffered|done].
Qed.


Lemma reaches_submitted : reaches (renewed nothing_past buffered) submitted.
Proof.
  assert (exists r, (next_submission flushed).1 = Ok r) as [r Hr] by (eexists; vm_compute; reflexivity).
  apply (reach_next_submission _ flushed r); [exact reaches_flushed|apply ids_left_from; by vm_compute|exact (run_is _ _ _ Hr eq_refl)].
Qed.

Lemma encoder_keeps_blocks_witness :
  length (channels submitted) = 1%nat /\ tiles 0 (channels submitted) 1 /\
  Forall (fun c => exists bs, Forall2 composes (channel_blocks (blocks submitted) c) bs /\
    channel_decodes (egress submitted) c bs) (channels submitted).
Proof.
  destruct (encoder_keeps_blocks _ submitted reaches_submitted) as (Ht & _ & Hc). split; [by vm_compute|].
  assert (block_cursor submitted = 1) as Hcur by by vm_compute. split; [by rewrite Hcur in Ht|].
  assert (forallb EncoderChannel.framing_complete (channels submitted) = true) as Hall by by vm_compute.
  rewrite Forall_forall in *. intros c Hin. rewrite forallb_forall in Hall.
  destruct (Hc c Hin (Hall c (proj1 (list_elem_of_In _ _) Hin))) as (bs & (_ & _ & Hbs) & Hd). exists bs. split; [|exact Hd].
  change (gone (renewed nothing_past buffered)) with (@nil BufferedBlock.t) in Hbs. by rewrite drop_nil in Hbs.
Defined.

Lemma submissions_decode_witness :
  exists sub s', next_submission flushed = (Ok (Some sub), s') /\ payload_decodes (BatchSubmission.payload sub).
Proof.
  assert (exists sub, (next_submission flushed).1 = Ok (Some sub)) as [sub Hsub] by (eexists; vm_compute; reflexivity).
  pose proof (run_is _ _ _ Hsub eq_refl) as Heq.
  assert (ids_left flushed) as Hids by (apply ids_left_from; by vm_compute).
  destruct (submissions_decode _ flushed _ _ reaches_flushed Hids Heq) as (_ & _ & _ & Hdec).
  exists sub, (next_submission flushed).2. split; [exact Heq|exact Hdec].
Defined.

End SampleEncoder.
