(* ===== verification/BatchStreams.v ===== *)
(** * The batch stream

    Models [src/crates/consensus/derive/src/stages/batch/batch_stream.rs]: once
    Holocene is active the stage checks a span batch as it comes out of the
    channel and hands out its blocks one by one as single batches. *)

From S2P Require Import Prelude Effects Primitives Upgrades SystemConfig Rollup SingleBatches SpanBits SpanCodec SpanChecks Pipeline StageModels.

Module BatchStream.

Record t (P F : Type) : Type := mk {
  prev : P;
  span : option SpanBatch.t;
  buffer : list SingleBatch.t;
  config : RollupConfig.t;
  fetcher : F
}.
Arguments mk {P F}.
Arguments prev {P F}.
Arguments span {P F}.
Arguments buffer {P F}.
Arguments config {P F}.
Arguments fetcher {P F}.

(** The batch with its parent hash assigned. *)
Definition with_parent (hash : B256) (b : SingleBatch.t) : SingleBatch.t :=
  SingleBatch.mk hash (SingleBatch.epoch_num b) (SingleBatch.epoch_hash b) (SingleBatch.timestamp b)
    (SingleBatch.transactions b).

Section Stream.
Context {P F : Type} `{Stage P} `{BatchStreamProvider P} `{L2ChainProvider F} `{RuntimeUpgradeRegistry}.

Definition set_prev (p : P) (self : t P F) : t P F :=
  mk p (span self) (buffer self) (config self) (fetcher self).
Definition set_span (s : option SpanBatch.t) (self : t P F) : t P F :=
  mk (prev self) s (buffer self) (config self) (fetcher self).
Definition set_buffer (b : list SingleBatch.t) (self : t P F) : t P F :=
  mk (prev self) (span self) b (config self) (fetcher self).

(** [BatchStream::new]. *)
Definition new (p : P) (c : RollupConfig.t) (f : F) : t P F := mk p None [] c f.

(** [BatchStream::is_active]. *)
Definition is_active : op (t P F) bool :=
  o ← gets (fun self => origin (prev self));
  o ← lift (ok_or (crit PipelineError.MissingOrigin) o);
  gets (fun self => RollupConfig.is_holocene_active (config self) (BlockInfo.timestamp o)).

(** [BatchStream::try_hydrate_buffer]: the span is taken before it is split, so
    it is gone also when that fails. *)
Definition try_hydrate_buffer (parent : L2BlockInfo.t) (l1_origins : list BlockInfo.t) (self : t P F)
    : result SpanBatchError () * t P F :=
  match span self with
  | None => (Ok (), self)
  | Some s =>
      let self := set_span None self in
      match SpanBatchChecks.get_singular_batches s l1_origins parent with
      | Ok batches => (Ok (), set_buffer (buffer self ++ batches) self)
      | Err e => (Err e, self)
      | Panic => (Panic, self)
      end
  end.

(** [BatchStream::get_single_batch]. *)
Definition get_single_batch (parent : L2BlockInfo.t) (l1_origins : list BlockInfo.t) (self : t P F)
    : result SpanBatchError (option SingleBatch.t) * t P F :=
  match try_hydrate_buffer parent l1_origins self with
  | (Ok _, self) =>
      match buffer self with
      | [] => (Ok None, self)
      | batch :: batches =>
          (Ok (Some (with_parent (BlockInfo.hash (L2BlockInfo.block_info parent)) batch)),
           set_buffer batches self)
      end
  | (Err e, self) => (Err e, self)
  | (Panic, self) => (Panic, self)
  end.

(** [NextBatchProvider::flush]. *)
Definition flush_stage (self : t P F) : t P F :=
  match is_active self with
  | (Ok true, _) => set_buffer [] (set_span None (set_prev (stream_flush (prev self)) self))
  | _ => self
  end.

(** The part of [next_batch] that takes a batch out of the span or the buffer. *)
Definition next_single (parent : L2BlockInfo.t) (l1_origins : list BlockInfo.t) : op (t P F) Batch :=
  fun self =>
  match get_single_batch parent l1_origins self with
  | (Ok (Some single_batch), self) => (Ok (BatchSingle single_batch), self)
  | (Ok None, self) => (Err (temp PipelineError.NotEnoughData), self)
  | (Err _, self) => (Err (temp PipelineError.NotEnoughData), flush_stage self)
  | (Panic, self) => (Panic, self)
  end.

(** The part of [next_batch] that pulls a batch; a single batch is returned as it
    is, and a span batch is staged when it passes the prefix checks. *)
Definition pull_batch (parent : L2BlockInfo.t) (l1_origins : list BlockInfo.t)
    : op (t P F) (option Batch) :=
  o ← gets (fun self => origin (prev self));
  inclusion_block ← lift (ok_or (crit PipelineError.MissingOrigin) o);
  batch ← within prev set_prev stream_next_batch;
  match batch with
  | BatchSingle b => mret (Some (BatchSingle b))
  | BatchSpan b =>
      c ← gets config;
      f ← gets fetcher;
      match @SpanBatchChecks.check_batch_prefix _ (validation_view f) b c l1_origins parent inclusion_block with
      | Panic => lift Panic
      | Err e => match e with end
      | Ok (Accept, _) => _ ← modify (set_span (Some b)); mret None
      | Ok (Drop _, _) => _ ← modify flush_stage; fail (temp PipelineError.NotEnoughData)
      | Ok (Past, _) =>
          active ← is_active;
          if negb active then fail (crit PipelineError.InvalidBatchValidity)
          else fail (temp PipelineError.NotEnoughData)
      | Ok (Undecided, _) | Ok (Future, _) => fail (temp PipelineError.NotEnoughData)
      end
  end.

(** [NextBatchProvider::next_batch]. *)
Definition stream_batch (parent : L2BlockInfo.t) (l1_origins : list BlockInfo.t) : op (t P F) Batch :=
  active ← is_active;
  if negb active then within prev set_prev stream_next_batch else
  c ← gets config;
  s ← gets span;
  b ← gets buffer;
  let next := u64_add (BlockInfo.number (L2BlockInfo.block_info parent)) 1 in
  if RollupConfig.is_denim_active c (RollupConfig.l2_block_timestamp c next)
     && (bool_decide (is_Some s) || negb (bool_decide (b = [])))
  then _ ← modify flush_stage; fail (temp PipelineError.NotEnoughData)
  else if bool_decide (b = []) then
    pulled ← pull_batch parent l1_origins;
    match pulled with
    | Some batch => mret batch
    | None => next_single parent l1_origins
    end
  else next_single parent l1_origins.

#[global] Instance next_batch_provider : NextBatchProvider (t P F) := {
  next_batch := stream_batch;
  span_buffer_size self := len (buffer self);
  flush := flush_stage
}.

Definition forget (self : t P F) : t P F := set_span None (set_buffer [] self).

#[global] Instance stage : Stage (t P F) := {
  stage_origin self := origin (prev self);
  stage_advancer := within prev set_prev advance_origin;
  stage_reset := {|
    reset l1_origin c := _ ← within prev set_prev (reset l1_origin c); modify forget;
    activate := _ ← within prev set_prev activate; modify forget;
    flush_channel := _ ← within prev set_prev flush_channel; modify forget
  |}
}.

(** ** Streaming a span *)

(** The stage is past Holocene at the origin of its previous stage. *)
Definition active_at (self : t P F) (o : BlockInfo.t) : Prop :=
  origin (prev self) = Some o /\ RollupConfig.is_holocene_active (config self) (BlockInfo.timestamp o) = true.

(** The block after [parent] is before Denim. *)
Definition before_denim (c : RollupConfig.t) (parent : L2BlockInfo.t) : Prop :=
  RollupConfig.is_denim_active c
    (RollupConfig.l2_block_timestamp c (u64_add (BlockInfo.number (L2BlockInfo.block_info parent)) 1)) = false.

Definition streamed (call : L2BlockInfo.t * list BlockInfo.t) (b : SingleBatch.t)
    : result PipelineErrorKind Batch :=
  Ok (BatchSingle (with_parent (BlockInfo.hash (L2BlockInfo.block_info call.1)) b)).

Lemma is_active_run (self : t P F) o : active_at self o -> is_active self = (Ok true, self).
Proof. intros [Ho Ha]. unfold is_active. run_ops. rewrite Ho. cbn [ok_or]. by rewrite Ha. Qed.

(** With batches in the buffer the next one is handed out. *)
Lemma stream_buffered (self : t P F) o parent l1_origins b bs :
  active_at self o -> before_denim (config self) parent -> span self = None -> buffer self = b :: bs ->
  stream_batch parent l1_origins self = (streamed (parent, l1_origins) b, set_buffer bs self).
Proof.
  intros Ha Hd Hs Hb. unfold stream_batch. rewrite bind_run, (is_active_run self o Ha). cbn [negb].
  run_ops. rewrite Hd, Hb. cbn [andb]. rewrite bool_decide_eq_false_2 by done.
  unfold next_single, get_single_batch, try_hydrate_buffer. rewrite Hs, Hb. done.
Qed.

Lemma stream_buffer parents bs (self : t P F) o :
  active_at self o -> Forall (fun call => before_denim (config self) call.1) parents ->
  span self = None -> buffer self = bs -> (length parents <= length bs)%nat ->
  run_all ((fun call => stream_batch call.1 call.2) <$> parents) self =
    (zip_with streamed parents bs, set_buffer (drop (length parents) bs) self).
Proof.
  intros Ha Hd Hs. revert self Ha Hd Hs bs. induction parents as [|[parent l1] parents IH]; intros self Ha Hd Hs bs Hb Hl.
  - destruct self. cbn in *. by subst.
  - destruct bs as [|b bs]; [cbn in Hl; lia|]. inversion Hd; subst. rewrite fmap_cons. cbn [run_all zip_with fst snd].
    rewrite (stream_buffered self o parent l1 b bs) by done.
    rewrite (IH (set_buffer bs self)) with (bs := bs); [done|done..|cbn in Hl; lia].
Qed.

(** Once the next block is at Denim the buffer is dropped. *)
Lemma stream_at_denim (self : t P F) o parent l1_origins :
  active_at self o -> ~ before_denim (config self) parent -> buffer self <> [] ->
  stream_batch parent l1_origins self =
    (Err (temp PipelineError.NotEnoughData), set_buffer [] (set_span None (set_prev (stream_flush (prev self)) self))).
Proof.
  intros Ha Hd Hb. unfold stream_batch. rewrite bind_run, (is_active_run self o Ha). cbn [negb]. run_ops.
  unfold before_denim in Hd. apply not_false_iff_true in Hd. rewrite Hd, (bool_decide_eq_false_2 (buffer self = [])), orb_true_r by done.
  cbn [andb]. unfold flush_stage. by rewrite (is_active_run self o Ha).
Qed.

(** C17: the batch stream unrolls a span batch.  When the next batch of the
    channel is a span batch that passes the prefix checks on the first parent
    and splits into single batches, consecutive calls return these in order, as
    long as the block after the parent of every further call is before Denim: each
    is linked to the parent of its own call, the channel is not read again, and the
    stage keeps the batches that are left.  The first call whose next block is at
    Denim asks for more data and drops what is left, with the channel it came from. *)
Theorem span_streams (self : t P F) o s p bs parent l1_origins calls v :
  active_at self o -> span self = None -> buffer self = [] ->
  stream_next_batch (prev self) = (Ok (BatchSpan s), p) -> origin p = Some o ->
  @SpanBatchChecks.check_batch_prefix _ (validation_view (fetcher self)) s (config self) l1_origins parent o
    = Ok (Accept, v) ->
  SpanBatchChecks.get_singular_batches s l1_origins parent = Ok bs ->
  Forall (fun call => before_denim (config self) call.1) calls -> (length calls < length bs)%nat ->
  let left := drop (S (length calls)) bs in
  run_all ((fun call => next_batch call.1 call.2) <$> ((parent, l1_origins) :: calls)) self =
    (zip_with streamed ((parent, l1_origins) :: calls) bs, set_buffer left (set_prev p self)) /\
  forall parent' l1_origins', ~ before_denim (config self) parent' -> left <> [] ->
    next_batch parent' l1_origins' (set_buffer left (set_prev p self)) =
      (Err (temp PipelineError.NotEnoughData), set_prev (stream_flush p) self).
Proof.
  intros Ha Hs Hb Hn Ho Hv Hg Hd Hl left. destruct bs as [|b bs]; [cbn in Hl; lia|].
  assert (forall l, active_at (set_buffer l (set_prev p self)) o) as Ha' by (split; [done|apply Ha]). split.
  - rewrite fmap_cons. cbn [run_all zip_with fst snd next_batch next_batch_provider].
    assert (stream_batch parent l1_origins self =
              (streamed (parent, l1_origins) b, set_buffer bs (set_prev p self))) as ->.
    { unfold stream_batch. rewrite bind_run, (is_active_run self o Ha). cbn [negb].
      run_ops. rewrite Hs, Hb. rewrite (bool_decide_eq_false_2 (is_Some None)) by apply is_Some_None.
      rewrite !bool_decide_eq_true_2 by done. cbn [orb negb]. rewrite andb_false_r. unfold pull_batch. run_ops.
      rewrite (proj1 Ha). cbn [ok_or]. rewrite Hn. cbn [config fetcher set_prev]. rewrite Hv.
      unfold next_single, get_single_batch, try_hydrate_buffer. cbn [span set_span buffer set_prev].
      rewrite Hg, Hb. cbn [app buffer set_buffer]. f_equal. unfold set_buffer, set_span, set_prev.
      cbn [prev span buffer config fetcher]. by rewrite Hs. }
    by rewrite (stream_buffer calls bs (set_buffer bs (set_prev p self)) o) by (done || cbn in Hl; lia).
  - intros parent' l1_origins' Hden Hne. cbn [next_batch next_batch_provider].
    rewrite (stream_at_denim _ o) by done. destruct self. cbn in *. by subst.
Qed.

End Stream.

(** Two blocks on top of the safe head at block 100, past Holocene. *)
Definition sample_holocene_config : RollupConfig.t :=
  RollupConfig.set_upgrade_activation_timestamp SpanBatchChecks.sample_delta_config Holocene 0.

Definition sample_new_span : SpanBatch.t :=
  SpanBatch.mk (zeros 20) (zeros 20) 1000 8453
    [SpanBatchElement.mk 7 1002 [[Byte.x02]]; SpanBatchElement.mk 7 1004 []] [] []
    SpanTxs.SpanBatchTransactions.default.

(** The same chain with Denim from the second 1004 on. *)
Definition sample_denim_switch : RollupConfig.t :=
  RollupConfig.set_upgrade_activation_timestamp sample_holocene_config Denim 1004.

Lemma span_streams_witness :
  let next := @next_batch _ (@next_batch_provider _ _ Script.stage Script.stream
      StaticChain.provider (∅ : Registry.t)) in
  let stream c := new (Script.mk (Some SingleBatch.sample_origin) [Ok (BatchSpan sample_new_span)]) c (StaticChain.mk []) in
  let calls := [(SingleBatch.sample_head, [SingleBatch.sample_origin]);
                (SpanBatchChecks.sample_span_head, [SingleBatch.sample_origin])] in
  let bs := [SingleBatch.mk B256_ZERO 7 (zeros 32) 1002 [[Byte.x02]]; SingleBatch.mk B256_ZERO 7 (zeros 32) 1004 []] in
  (run_all ((fun call => next call.1 call.2) <$> calls) (stream sample_holocene_config)).1 = zip_with streamed calls bs /\
  (next SpanBatchChecks.sample_span_head [SingleBatch.sample_origin]
     (next SingleBatch.sample_head [SingleBatch.sample_origin] (stream sample_denim_switch)).2).1 =
    Err (temp PipelineError.NotEnoughData).
Proof.
  intros next stream calls bs.
  pose proof (fun c => @span_streams _ _ Script.stage Script.stream StaticChain.provider (∅ : Registry.t) (stream c)
    SingleBatch.sample_origin sample_new_span (Script.mk (Some SingleBatch.sample_origin) []) bs
    SingleBatch.sample_head [SingleBatch.sample_origin]) as Hspec.
  split.
  - destruct (Hspec sample_holocene_config [(SpanBatchChecks.sample_span_head, [SingleBatch.sample_origin])]
      (Some SingleBatch.sample_head)) as [Hrun _]; [split; by vm_compute|reflexivity|reflexivity|reflexivity|reflexivity
      |vm_compute; reflexivity|vm_compute; reflexivity|repeat constructor; by vm_compute|cbn; lia|].
    exact (f_equal fst Hrun).
  - destruct (Hspec sample_denim_switch [] (Some SingleBatch.sample_head)) as [Hrun Hden];
      [split; by vm_compute|reflexivity|reflexivity|reflexivity|reflexivity
      |vm_compute; reflexivity|vm_compute; reflexivity|constructor|cbn; lia|].
    assert ((next SingleBatch.sample_head [SingleBatch.sample_origin] (stream sample_denim_switch)).2 =
      set_buffer (drop 1 bs) (set_prev (Script.mk (Some SingleBatch.sample_origin) []) (stream sample_denim_switch))) as ->.
    { rewrite fmap_cons in Hrun. cbn [run_all fst snd fmap list_fmap] in Hrun. fold next in Hrun.
      destruct (next SingleBatch.sample_head _ _) as [r q]. cbn in Hrun |- *. by injection Hrun as _ <-. }
    exact (f_equal fst (Hden SpanBatchChecks.sample_span_head [SingleBatch.sample_origin] ltac:(vm_compute; discriminate) ltac:(discriminate))).
Defined.

End BatchStream.
