(* ===== verification/BatchValidators.v ===== *)
(** * The batch validator

    Models [src/crates/consensus/derive/src/stages/batch/batch_validator.rs]: the
    stage that, once Holocene is active, checks the single batches of the batch
    stream against the safe head, and fills epochs with empty batches when the
    sequencing window has passed. *)

From S2P Require Import Prelude Effects Primitives Upgrades SystemConfig Rollup SingleBatches SpanBits SpanCodec SpanChecks Pipeline StageModels.

(** ** The window of L1 blocks

    What the validator and the batch queue share: both keep the L1 blocks from
    the epoch of the safe head on. *)
Module Window.

(** The blocks from the parent's L1 origin on, when that origin is in the window
    and not already its first block. *)
Fixpoint drain_to (number : Z) (l1_blocks : list BlockInfo.t) : option (list BlockInfo.t) :=
  match l1_blocks with
  | [] => None
  | block :: rest =>
      if decide (number = BlockInfo.number block) then Some l1_blocks else drain_to number rest
  end.

Definition advance_epoch (parent : L2BlockInfo.t) (l1_blocks : list BlockInfo.t) : list BlockInfo.t :=
  let number := BlockNumHash.number (L2BlockInfo.l1_origin parent) in
  match l1_blocks with
  | [] => []
  | first :: _ =>
      if decide (BlockInfo.number first < number) then default l1_blocks (drain_to number l1_blocks)
      else l1_blocks
  end.

(** The stage before is behind the L1 origin of the parent. *)
Definition behind (parent : L2BlockInfo.t) (o : option BlockInfo.t) : bool :=
  match o with
  | None => true
  | Some o => bool_decide (BlockInfo.number o < BlockNumHash.number (L2BlockInfo.l1_origin parent))
  end.

(** The window after the origin of the stage before changed to [o]. *)
Definition push_origin (parent : L2BlockInfo.t) (o : option BlockInfo.t) (l1_blocks : list BlockInfo.t)
    : result PipelineErrorKind (list BlockInfo.t) :=
  if behind parent o then Ok [] else
  o ← ok_or (crit PipelineError.MissingOrigin) o;
  Ok (l1_blocks ++ [o]).

Section Fill.
Context `{RuntimeUpgradeRegistry}.

(** The empty batch of an epoch. *)
Definition empty_batch (cfg : RollupConfig.t) (parent : L2BlockInfo.t) (epoch : BlockInfo.t) : SingleBatch.t :=
  SingleBatch.mk (BlockInfo.hash (L2BlockInfo.block_info parent)) (BlockInfo.number epoch)
    (BlockInfo.hash epoch)
    (RollupConfig.l2_block_timestamp cfg (u64_add (BlockInfo.number (L2BlockInfo.block_info parent)) 1)) [].

(** An empty batch is due on the epoch: before the time of the next L1 block, as
    the first block of the epoch, or to finish a second after Denim. *)
Definition empty_due (cfg : RollupConfig.t) (parent : L2BlockInfo.t) (epoch next_epoch : BlockInfo.t) : bool :=
  let next_timestamp :=
    RollupConfig.l2_block_timestamp cfg (u64_add (BlockInfo.number (L2BlockInfo.block_info parent)) 1) in
  let first_of_epoch := bool_decide (BlockInfo.number epoch
    = u64_add (BlockNumHash.number (L2BlockInfo.l1_origin parent)) 1) in
  let same_second := RollupConfig.is_denim_active cfg next_timestamp
    && bool_decide (next_timestamp = BlockInfo.timestamp (L2BlockInfo.block_info parent)) in
  bool_decide (next_timestamp < BlockInfo.timestamp next_epoch) || first_of_epoch || same_second.

(** The end of [try_derive_empty_batch] and of [derive_next_batch]: the empty
    batch of the epoch if one is due, else the window moves to the next epoch. *)
Definition fill_epoch (cfg : RollupConfig.t) (parent : L2BlockInfo.t) (force_empty_batches : bool)
    (l1_blocks : list BlockInfo.t) : result PipelineErrorKind SingleBatch.t * list BlockInfo.t :=
  match l1_blocks with
  | epoch :: ((next_epoch :: _) as rest) =>
      if negb force_empty_batches then (Err (temp PipelineError.Eof), l1_blocks)
      else if empty_due cfg parent epoch next_epoch
      then (Ok (empty_batch cfg parent epoch), l1_blocks)
      else (Err (temp PipelineError.Eof), rest)
  | _ => (Err (temp PipelineError.Eof), l1_blocks)
  end.

(** When an empty batch is due. *)
Definition due (cfg : RollupConfig.t) (parent : L2BlockInfo.t) (epoch next_epoch : BlockInfo.t) : Prop :=
  let ts := RollupConfig.l2_block_timestamp cfg (u64_add (BlockInfo.number (L2BlockInfo.block_info parent)) 1) in
  ts < BlockInfo.timestamp next_epoch \/
  BlockInfo.number epoch = u64_add (BlockNumHash.number (L2BlockInfo.l1_origin parent)) 1 \/
  RollupConfig.is_denim_active cfg ts = true /\ ts = BlockInfo.timestamp (L2BlockInfo.block_info parent).

Lemma empty_due_spec cfg parent epoch next_epoch :
  empty_due cfg parent epoch next_epoch = true <-> due cfg parent epoch next_epoch.
Proof. unfold empty_due, due. rewrite !orb_true_iff, andb_true_iff, !bool_decide_eq_true. tauto. Qed.

Lemma fill_epoch_Ok cfg parent force l1_blocks b l1_blocks' :
  fill_epoch cfg parent force l1_blocks = (Ok b, l1_blocks') ->
  exists epoch next rest, l1_blocks = epoch :: next :: rest /\ l1_blocks' = l1_blocks /\ force = true /\
    b = empty_batch cfg parent epoch /\ due cfg parent epoch next.
Proof.
  unfold fill_epoch. destruct l1_blocks as [|epoch [|next rest]]; [done..|].
  destruct force; [|done]. cbn [negb]. destruct (empty_due _ _ _ _) eqn:Hd; [|done].
  intros [= <- <-]. apply empty_due_spec in Hd. by exists epoch, next, rest.
Qed.

End Fill.

(** ** Lemmas *)

Lemma drain_to_first number l1_blocks l :
  drain_to number l1_blocks = Some l -> exists block rest, l = block :: rest /\ number = BlockInfo.number block.
Proof.
  induction l1_blocks as [|block rest IH]; cbn [drain_to]; [done|]. case_decide; [|done].
  intros [= <-]. by exists block, rest.
Qed.

Lemma advance_epoch_idempotent parent l1_blocks :
  advance_epoch parent (advance_epoch parent l1_blocks) = advance_epoch parent l1_blocks.
Proof.
  destruct l1_blocks as [|first rest]; [done|]. unfold advance_epoch at 2 3.
  destruct (decide (BlockInfo.number first < _)) as [Hlt|Hlt]; [|unfold advance_epoch; by rewrite decide_False].
  destruct (drain_to _ _) as [l|] eqn:Hd; simpl (default _ _).
  - apply drain_to_first in Hd as (b & r & -> & Hn). unfold advance_epoch. by rewrite decide_False by lia.
  - unfold advance_epoch. rewrite decide_True by done. by rewrite Hd.
Qed.

End Window.

Module BatchValidator.

Record t (P F : Type) : Type := mk {
  cfg : RollupConfig.t;
  prev : P;
  provider : F;
  pending_batch : option (SingleBatch.t * BlockInfo.t);
  stage_l1_origin : option BlockInfo.t;
  l1_blocks : list BlockInfo.t
}.
Arguments mk {P F}.
Arguments cfg {P F}.
Arguments prev {P F}.
Arguments provider {P F}.
Arguments pending_batch {P F}.
Arguments stage_l1_origin {P F}.
Arguments l1_blocks {P F}.

Section Validator.
Context {P F : Type} `{Stage P} `{NextBatchProvider P} `{L2ChainProvider F} `{RuntimeUpgradeRegistry}.

Definition set_prev (p : P) (self : t P F) : t P F :=
  mk (cfg self) p (provider self) (pending_batch self) (stage_l1_origin self) (l1_blocks self).
Definition set_provider (f : F) (self : t P F) : t P F :=
  mk (cfg self) (prev self) f (pending_batch self) (stage_l1_origin self) (l1_blocks self).
Definition set_pending (b : option (SingleBatch.t * BlockInfo.t)) (self : t P F) : t P F :=
  mk (cfg self) (prev self) (provider self) b (stage_l1_origin self) (l1_blocks self).
Definition set_stage_origin (o : option BlockInfo.t) (self : t P F) : t P F :=
  mk (cfg self) (prev self) (provider self) (pending_batch self) o (l1_blocks self).
Definition set_l1_blocks (l : list BlockInfo.t) (self : t P F) : t P F :=
  mk (cfg self) (prev self) (provider self) (pending_batch self) (stage_l1_origin self) l.

(** [BatchValidator::new]. *)
Definition new (c : RollupConfig.t) (p : P) (f : F) : t P F := mk c p f None None [].

(** [BatchValidator::origin_behind]. *)
Definition origin_behind (parent : L2BlockInfo.t) (self : t P F) : bool :=
  Window.behind parent (origin (prev self)).

(** [BatchValidator::update_origins]. *)
Definition update_origins (parent : L2BlockInfo.t) : op (t P F) () :=
  o ← gets (fun self => origin (prev self));
  current ← gets stage_l1_origin;
  _ ← (if decide (current <> o) then
         _ ← modify (set_stage_origin o);
         blocks ← gets l1_blocks;
         blocks ← lift (Window.push_origin parent o blocks);
         modify (set_l1_blocks blocks)
       else mret ());
  modify (fun self => set_l1_blocks (Window.advance_epoch parent (l1_blocks self)) self).

(** [BatchValidator::try_derive_empty_batch]. *)
Definition try_derive_empty_batch (parent : L2BlockInfo.t) : op (t P F) SingleBatch.t :=
  blocks ← gets l1_blocks;
  match blocks with
  | [] => lift Panic
  | epoch :: _ =>
      o ← gets stage_l1_origin;
      stage_origin ← lift (ok_or (crit PipelineError.MissingOrigin) o);
      c ← gets cfg;
      let expiry_epoch := u64_add (BlockInfo.number epoch) (RollupConfig.seq_window_size c) in
      let '(r, blocks) := Window.fill_epoch c parent
        (bool_decide (expiry_epoch <= BlockInfo.number stage_origin)) blocks in
      _ ← modify (set_l1_blocks blocks);
      lift r
  end.

(** The walk over the ancestors of the safe head in the same second: whether the
    batch was built on one of them.  [n] heights are left, the next is
    [number]. *)
Fixpoint built_on_ancestor (c : RollupConfig.t) (f : F) (batch : SingleBatch.t) (first : Z) (n : nat)
    (number : Z) (ancestor_hash : B256) : result PipelineErrorKind bool :=
  match n with
  | O => Ok false
  | S n =>
      if decide (RollupConfig.l2_block_timestamp c (u64_saturating_add number 1)
                 <> SingleBatch.timestamp batch) then Ok false
      else if decide (ancestor_hash = SingleBatch.parent_hash batch) then Ok true
      else if decide (number = first \/ RollupConfig.l2_block_timestamp c number
                 <> SingleBatch.timestamp batch) then Ok false
      else
        ancestor ← l2_block_info_by_hash f ancestor_hash;
        built_on_ancestor c f batch first n (number - 1)
          (BlockInfo.parent_hash (L2BlockInfo.block_info ancestor))
  end.

(** The ancestry check of [next_batch]. *)
Definition check_ancestry (c : RollupConfig.t) (f : F) (parent : L2BlockInfo.t) (batch : SingleBatch.t)
    : result PipelineErrorKind bool :=
  let head := L2BlockInfo.block_info parent in
  let next_timestamp := RollupConfig.l2_block_timestamp c (u64_saturating_add (BlockInfo.number head) 1) in
  if RollupConfig.is_denim_active c next_timestamp
     && bool_decide (SingleBatch.timestamp batch = next_timestamp)
     && negb (bool_decide (SingleBatch.parent_hash batch = BlockInfo.hash head))
  then
    let same_second_blocks := 1000 / DenimTimestampSchedule.DENIM_BLOCK_INTERVAL_MILLIS in
    let first := Z.max (u64_saturating_sub (BlockInfo.number head) same_second_blocks)
                   (BlockNumHash.number (ChainGenesis.l2 (RollupConfig.genesis c))) in
    built_on_ancestor c f batch first (Z.to_nat (BlockInfo.number head - first))
      (BlockInfo.number head - 1) (BlockInfo.parent_hash head)
  else Ok false.

(** What [next_batch] does with a candidate: the ancestry check, which keeps the
    candidate when the provider fails for the moment, and the validity check. *)
Definition judge (parent : L2BlockInfo.t) (next_batch : SingleBatch.t) (inclusion_block : BlockInfo.t)
    : op (t P F) SingleBatch.t :=
  c ← gets cfg;
  f ← gets provider;
  blocks ← gets l1_blocks;
  match check_ancestry c f parent next_batch with
  | Panic => lift Panic
  | Err (Temporary e) =>
      _ ← modify (set_pending (Some (next_batch, inclusion_block)));
      fail (Temporary e)
  | Err e => fail e
  | Ok true => fail (temp PipelineError.NotEnoughData)
  | Ok false =>
      match SingleBatch.check_batch next_batch c blocks parent inclusion_block with
      | Accept => mret next_batch
      | Drop _ =>
          _ ← modify (fun self => set_prev (flush (prev self)) self);
          fail (temp PipelineError.NotEnoughData)
      | Past | Undecided => fail (temp PipelineError.NotEnoughData)
      | Future => fail (crit PipelineError.InvalidBatchValidity)
      end
  end.

(** The candidate of [next_batch]: the retained one, or the next of the stage
    before. *)
Definition pull_candidate (parent : L2BlockInfo.t) (stage_origin : BlockInfo.t) : op (t P F) SingleBatch.t :=
  pending ← gets pending_batch;
  match pending with
  | Some (b, inclusion_block) => _ ← modify (set_pending None); judge parent b inclusion_block
  | None =>
      blocks ← gets l1_blocks;
      pulled ← attempt (within prev set_prev (next_batch parent blocks));
      match pulled with
      | inl e => if is_eof e then try_derive_empty_batch parent else fail e
      | inr (BatchSpan _) => fail (crit PipelineError.InvalidBatchType)
      | inr (BatchSingle b) => judge parent b stage_origin
      end
  end.

(** [next_batch] from where the L1 blocks are up to date. *)
Definition next_on_origins (parent : L2BlockInfo.t) : op (t P F) SingleBatch.t :=
  o ← gets stage_l1_origin;
  stage_origin ← lift (ok_or (crit PipelineError.MissingOrigin) o);
  is_behind ← gets (origin_behind parent);
  blocks ← gets l1_blocks;
  let parent_origin := L2BlockInfo.l1_origin parent in
  if is_behind || bool_decide (BlockNumHash.number parent_origin = BlockInfo.number stage_origin) then
    _ ← within prev set_prev (next_batch parent blocks);
    fail (temp PipelineError.NotEnoughData)
  else
    match blocks with
    | epoch :: _ :: _ =>
        if negb (bool_decide (parent_origin = BlockInfo.id epoch))
           && negb (bool_decide (u64_add (BlockNumHash.number parent_origin) 1 = BlockInfo.number epoch))
        then fail (Reset (ResetError.L1OriginMismatch (BlockNumHash.number parent_origin)
                            (u64_saturating_sub (BlockInfo.number epoch) 1)))
        else pull_candidate parent stage_origin
    | _ => fail (crit PipelineError.MissingOrigin)
    end.

(** [AttributesProvider::next_batch]. *)
Definition validator_next_batch (parent : L2BlockInfo.t) : op (t P F) SingleBatch.t :=
  _ ← update_origins parent; next_on_origins parent.

#[global] Instance attributes_provider : AttributesProvider (t P F) := {
  next_single_batch := validator_next_batch;
  is_last_in_span self := bool_decide (span_buffer_size (prev self) = 0)
}.

#[global] Instance stage : Stage (t P F) := {
  stage_origin self := origin (prev self);
  stage_advancer := within prev set_prev advance_origin;
  stage_reset := {|
    reset l1_origin c :=
      _ ← within prev set_prev (reset l1_origin c);
      modify (fun self =>
        let o := origin (prev self) in
        set_l1_blocks (option_list o) (set_stage_origin o (set_pending None self)));
    activate := within prev set_prev activate;
    flush_channel := _ ← modify (set_pending None); within prev set_prev flush_channel
  |}
}.

(** ** Updating the origins *)

(** The state [update_origins] leaves. *)
Definition updated (parent : L2BlockInfo.t) (self : t P F) : t P F :=
  let o := origin (prev self) in
  let blocks :=
    if decide (stage_l1_origin self = o) then l1_blocks self
    else if Window.behind parent o then [] else l1_blocks self ++ option_list o in
  set_l1_blocks (Window.advance_epoch parent blocks) (set_stage_origin o self).

Lemma update_origins_run parent (self : t P F) :
  update_origins parent self = (Ok (), updated parent self).
Proof.
  unfold update_origins, updated. run_ops. case_decide as Hd.
  - rewrite decide_False by done. unfold Window.push_origin.
    destruct (Window.behind parent (origin (prev self))) eqn:Hb; [done|].
    by destruct (origin (prev self)).
  - rewrite decide_True by done. rewrite <- Hd. by destruct self.
Qed.

Lemma validator_run parent (self : t P F) :
  validator_next_batch parent self = next_on_origins parent (updated parent self).
Proof. unfold validator_next_batch. by rewrite bind_run, update_origins_run. Qed.

(** With the same origin before it the stage is up to date. *)
Lemma updated_again parent (self : t P F) p f b :
  origin p = origin (prev self) ->
  let self' := set_provider f (set_pending b (set_prev p (updated parent self))) in
  updated parent self' = self'.
Proof.
  intros Hp. cbn zeta. unfold updated at 1. cbn [prev set_provider set_pending set_prev stage_l1_origin].
  cbn [updated set_l1_blocks set_stage_origin stage_l1_origin]. rewrite Hp, decide_True by done.
  unfold updated, set_provider, set_pending, set_prev, set_l1_blocks, set_stage_origin.
  cbn [l1_blocks cfg prev provider pending_batch stage_l1_origin].
  by rewrite Window.advance_epoch_idempotent, <- Hp.
Qed.

(** ** The branches of [next_batch] *)

(** The L1 origin is ahead of the parent's, and the window starts at the epoch of
    the parent or at the one after it. *)
Record ready (parent : L2BlockInfo.t) (self : t P F) (o epoch next : BlockInfo.t) (rest : list BlockInfo.t)
    : Prop := {
  rd_origin : stage_l1_origin self = Some o;
  rd_ahead : origin_behind parent self = false /\
    BlockNumHash.number (L2BlockInfo.l1_origin parent) <> BlockInfo.number o;
  rd_blocks : l1_blocks self = epoch :: next :: rest;
  rd_epoch : L2BlockInfo.l1_origin parent = BlockInfo.id epoch \/
    u64_add (BlockNumHash.number (L2BlockInfo.l1_origin parent)) 1 = BlockInfo.number epoch
}.

Lemma next_on_origins_ready parent (self : t P F) o epoch next rest :
  ready parent self o epoch next rest ->
  next_on_origins parent self = pull_candidate parent o self.
Proof.
  intros [Ho [Hb Hn] Hl He]. unfold next_on_origins. run_ops. rewrite Ho. cbn [ok_or].
  rewrite Hb, Hl, bool_decide_eq_false_2 by done. cbn [orb].
  destruct He as [He|He]; rewrite (bool_decide_eq_true_2 _ He); [done|]. by rewrite andb_false_r.
Qed.

Definition not_ok {A} (r : result PipelineErrorKind A) : Prop := forall a, r <> Ok a.

Lemma next_on_origins_cases parent (self : t P F) :
  (exists o epoch next rest, ready parent self o epoch next rest) \/
  not_ok (next_on_origins parent self).1 /\
    pending_batch (next_on_origins parent self).2 = pending_batch self.
Proof.
  destruct (stage_l1_origin self) as [o|] eqn:Ho;
    [|right; unfold next_on_origins; run_ops; rewrite Ho; by split].
  destruct (origin_behind parent self || bool_decide
    (BlockNumHash.number (L2BlockInfo.l1_origin parent) = BlockInfo.number o)) eqn:Hb.
  { right. unfold next_on_origins. run_ops. rewrite Ho. cbn [ok_or]. rewrite Hb.
    destruct (next_batch _ _ _) as [[] p]; by split. }
  destruct (l1_blocks self) as [|epoch [|next rest]] eqn:Hl;
    [right; unfold next_on_origins; run_ops; rewrite Ho; cbn [ok_or]; rewrite Hb, Hl; by split..|].
  destruct (decide (L2BlockInfo.l1_origin parent = BlockInfo.id epoch \/
    u64_add (BlockNumHash.number (L2BlockInfo.l1_origin parent)) 1 = BlockInfo.number epoch)) as [He|He].
  - left. exists o, epoch, next, rest. apply orb_false_iff in Hb as [Hb Hn].
    apply bool_decide_eq_false in Hn. by split.
  - right. unfold next_on_origins. run_ops. rewrite Ho. cbn [ok_or]. rewrite Hb, Hl.
    rewrite !bool_decide_eq_false_2 by tauto. by split.
Qed.

(** The three ways to judge a candidate: it is accepted, it is kept because the
    provider failed for the moment, or it is gone. *)
Lemma judge_cases parent b inclusion_block (self : t P F) :
  judge parent b inclusion_block self = (Ok b, self) /\
    SingleBatch.check_batch b (cfg self) (l1_blocks self) parent inclusion_block = Accept \/
  (exists e, judge parent b inclusion_block self =
     (Err (Temporary e), set_pending (Some (b, inclusion_block)) self)) \/
  not_ok (judge parent b inclusion_block self).1 /\
    pending_batch (judge parent b inclusion_block self).2 = pending_batch self.
Proof.
  unfold judge. run_ops. destruct (check_ancestry _ _ _ _) as [[]|[e|e|e]|]; try (right; right; by split).
  - destruct (SingleBatch.check_batch _ _ _ _ _); first [by left | right; right; by split].
  - right; left. by exists e.
Qed.

(** The candidate a call judges with an inclusion block, and the stage before after
    it: the batch that was retained, or the next one of the stage before. *)
Definition candidate (parent : L2BlockInfo.t) (self : t P F) (o : BlockInfo.t) (b : SingleBatch.t)
    (inclusion_block : BlockInfo.t) (p : P) : Prop :=
  match pending_batch self with
  | Some pending => pending = (b, inclusion_block) /\ p = prev self
  | None => inclusion_block = o /\ next_batch parent (l1_blocks self) (prev self) = (Ok (BatchSingle b), p)
  end.

Lemma pull_candidate_run parent (self : t P F) o b inclusion_block p :
  candidate parent self o b inclusion_block p ->
  pull_candidate parent o self = judge parent b inclusion_block (set_pending None (set_prev p self)).
Proof.
  unfold candidate, pull_candidate. run_ops. destruct (pending_batch self) as [[b' i']|] eqn:Hp.
  - intros [[= -> ->] ->]. by destruct self.
  - intros [-> ->]. destruct self. cbn in Hp |- *. by rewrite Hp.
Qed.

(** C4: a temporary failure of the L2 provider is invisible to derivation.  When
    the ancestry lookup of the candidate of a call fails for the moment, the call
    returns that failure, and repeating it with a provider that answers differently
    gives the result and the state that the first call would have had with that
    provider: the batch is not lost, not pulled twice, and judged with its original
    inclusion block, however often the lookup has failed before. *)
Theorem retry_is_invisible parent (self : t P F) o epoch next rest b inclusion_block p e :
  ready parent (updated parent self) o epoch next rest ->
  candidate parent (updated parent self) o b inclusion_block p -> origin p = origin (prev self) ->
  check_ancestry (cfg self) (provider self) parent b = Err (Temporary e) ->
  exists self', validator_next_batch parent self = (Err (Temporary e), self') /\
    forall f, validator_next_batch parent (set_provider f self') = validator_next_batch parent (set_provider f self).
Proof.
  intros Hr Hc Hop Ha. set (u := updated parent self) in *.
  exists (set_pending (Some (b, inclusion_block)) (set_prev p u)). split.
  - rewrite validator_run. fold u. rewrite (next_on_origins_ready _ _ _ _ _ _ Hr), (pull_candidate_run _ _ _ _ _ _ Hc).
    unfold judge. run_ops. change (cfg (set_pending None (set_prev p u))) with (cfg self).
    change (provider (set_pending None (set_prev p u))) with (provider self). by rewrite Ha.
  - intros f. pose proof (updated_again parent self p f (Some (b, inclusion_block)) Hop) as Hu. cbn zeta in Hu. fold u in Hu.
    rewrite !validator_run, Hu. change (updated parent (set_provider f self)) with (set_provider f u).
    rewrite !(next_on_origins_ready parent _ o epoch next rest).
    + rewrite (pull_candidate_run parent (set_provider f u) o b inclusion_block p) by exact Hc.
      by rewrite (pull_candidate_run parent _ o b inclusion_block p).
    + destruct Hr; by split.
    + destruct Hr as [? [Hb ?] ? ?]. split; try done. split; [|done]. unfold origin_behind in *. cbn. by rewrite Hop.
Qed.

(** ** Soundness *)

(** What a batch returned on the window [epoch :: next :: rest] at the L1 origin
    [o] is: valid with its inclusion block, or the empty batch of an epoch whose
    sequencing window has passed. *)
Definition justified (c : RollupConfig.t) (parent : L2BlockInfo.t)
    (pending : option (SingleBatch.t * BlockInfo.t)) (o epoch next : BlockInfo.t) (rest : list BlockInfo.t)
    (b : SingleBatch.t) : Prop :=
  (exists inclusion_block, (inclusion_block = o \/ pending = Some (b, inclusion_block)) /\
     SingleBatch.valid b c epoch (next :: rest) parent inclusion_block) \/
  b = Window.empty_batch c parent epoch /\ Window.due c parent epoch next /\
    u64_add (BlockInfo.number epoch) (RollupConfig.seq_window_size c) <= BlockInfo.number o.

Lemma judge_Ok parent b inclusion_block (self self' : t P F) epoch rest b' :
  l1_blocks self = epoch :: rest -> judge parent b inclusion_block self = (Ok b', self') ->
  b' = b /\ self' = self /\ SingleBatch.valid b (cfg self) epoch rest parent inclusion_block.
Proof.
  intros Hl Hj. destruct (judge_cases parent b inclusion_block self) as [[Hj' Ha]|[[e Hj']|[Hno _]]].
  - rewrite Hj' in Hj. injection Hj as <- <-. split_and!; [done..|].
    rewrite Hl in Ha. apply SingleBatch.accept_valid in Ha as (e & r & [= <- <-] & Hv). done.
  - by rewrite Hj' in Hj.
  - rewrite Hj in Hno. by destruct (Hno b').
Qed.

Lemma pull_candidate_Ok parent (self self' : t P F) o epoch next rest b :
  stage_l1_origin self = Some o -> l1_blocks self = epoch :: next :: rest ->
  pull_candidate parent o self = (Ok b, self') ->
  stage_l1_origin self' = Some o /\ l1_blocks self' = epoch :: next :: rest /\
  justified (cfg self) parent (pending_batch self) o epoch next rest b.
Proof.
  intros Ho Hl Hc. unfold pull_candidate in Hc. run_ops.
  destruct (pending_batch self) as [[b0 i]|] eqn:Hp.
  { destruct (judge_Ok parent b0 i (set_pending None self) self' epoch (next :: rest) b Hl Hc) as (-> & -> & Hv).
    split_and!; [done..|]. left. exists i. split; [by right|done]. }
  destruct (next_batch _ _ _) as [[[b0|]|err|] p]; cbn beta iota in Hc; try done.
  { destruct (judge_Ok parent b0 o (set_prev p self) self' epoch (next :: rest) b Hl Hc) as (-> & -> & Hv).
    split_and!; [done..|]. left. exists o. split; [by left|done]. }
  destruct (is_eof err); [|done]. unfold try_derive_empty_batch in Hc. run_ops.
  cbn [l1_blocks set_prev] in Hc. rewrite Hl in Hc. cbn [stage_l1_origin set_prev] in Hc.
  rewrite Ho in Hc. cbn [ok_or cfg set_prev l1_blocks] in Hc.
  destruct (Window.fill_epoch _ _ _ _) as [r l'] eqn:Hf. injection Hc as -> <-.
  apply Window.fill_epoch_Ok in Hf as (e & n & r & [= <- <- <-] & -> & Hforce & -> & Hdue).
  apply bool_decide_eq_true in Hforce. split_and!; [done..|]. by right.
Qed.

(** C2: the batch validator returns only batches that belong on top of the safe
    head.  The L1 origin has moved past the parent's, the window starts at the
    parent's epoch or the next and has a block after that, and the batch is
    valid at its inclusion block (the current L1 origin, or the one it was
    retained with) or is the empty batch that is due because the sequencing
    window of the epoch has passed. *)
Theorem validator_sound parent (self self' : t P F) b :
  validator_next_batch parent self = (Ok b, self') ->
  exists o epoch next rest,
    origin (prev self) = Some o /\ stage_l1_origin self' = Some o /\ l1_blocks self' = epoch :: next :: rest /\
    BlockNumHash.number (L2BlockInfo.l1_origin parent) < BlockInfo.number o /\
    (L2BlockInfo.l1_origin parent = BlockInfo.id epoch \/
     u64_add (BlockNumHash.number (L2BlockInfo.l1_origin parent)) 1 = BlockInfo.number epoch) /\
    justified (cfg self) parent (pending_batch self) o epoch next rest b.
Proof.
  rewrite validator_run. set (u := updated parent self). intros Hrun.
  destruct (next_on_origins_cases parent u) as [(o & epoch & next & rest & Hr)|[Hbad _]];
    [|rewrite Hrun in Hbad; by destruct (Hbad b)].
  rewrite (next_on_origins_ready _ _ _ _ _ _ Hr) in Hrun. destruct Hr as [Ho [Hb Hne] Hl He].
  destruct (pull_candidate_Ok parent u self' o epoch next rest b Ho Hl Hrun) as (Ho' & Hl' & Hj).
  change (stage_l1_origin u) with (origin (prev self)) in Ho. unfold origin_behind in Hb.
  change (prev u) with (prev self) in Hb. rewrite Ho in Hb. apply bool_decide_eq_false in Hb.
  exists o, epoch, next, rest. split_and!; try done. lia.
Qed.

#[global] Instance linked : LinkedBatches (t P F).
Proof.
  intros parent self b self' Hrun. cbn [next_single_batch attributes_provider] in Hrun.
  rewrite validator_run in Hrun.
  destruct (next_on_origins_cases parent (updated parent self)) as [(o & epoch & next & rest & Hr)|[Hbad _]];
    [|rewrite Hrun in Hbad; by destruct (Hbad b)].
  rewrite (next_on_origins_ready _ _ _ _ _ _ Hr) in Hrun. destruct Hr as [Ho _ Hl _].
  by destruct (pull_candidate_Ok _ _ _ _ _ _ _ _ Ho Hl Hrun) as (_ & _ & [(i & _ & [])|[-> _]]).
Qed.

End Validator.

(** An L1 chain of two blocks; the L2 chain of [sample_config] is on the first. *)
Definition sample_next_origin : BlockInfo.t := BlockInfo.mk (zeros 32) 8 (zeros 32) 1010.

Definition sample_stage (c : RollupConfig.t) (b : SingleBatch.t)
    : t (Script.t Batch) StaticChain.t :=
  mk c (Script.mk (Some sample_next_origin) [Ok (BatchSingle b)]) (StaticChain.mk []) None
    (Some sample_next_origin) [SingleBatch.sample_origin; sample_next_origin].

Abbreviation run_sample := (@validator_next_batch _ _ Script.stage Script.batches StaticChain.provider
  (∅ : Registry.t)) (only parsing).

Lemma validator_sound_witness :
  exists o epoch next rest,
    @justified (∅ : Registry.t) sample_config SingleBatch.sample_head None o epoch next rest
      SingleBatch.sample_batch.
Proof.
  destruct (@validator_sound _ _ Script.stage Script.batches StaticChain.provider (∅ : Registry.t)
    SingleBatch.sample_head (sample_stage sample_config SingleBatch.sample_batch)
    (run_sample SingleBatch.sample_head (sample_stage sample_config SingleBatch.sample_batch)).2
    SingleBatch.sample_batch) as (o & epoch & next & rest & _ & _ & _ & _ & _ & Hj).
  - vm_compute. reflexivity.
  - exists o, epoch, next, rest. exact Hj.
Defined.

(** A second with several blocks, and a batch built on the grandparent of the
    safe head: the provider first has no blocks, then the parent. *)
Definition sample_denim_config : RollupConfig.t :=
  RollupConfig.set_upgrade_activation_timestamp sample_config Denim 1000.

Definition sample_hash (x : byte) : B256 := replicate 32 x.

Definition sample_denim_head : L2BlockInfo.t :=
  L2BlockInfo.mk (BlockInfo.mk (sample_hash Byte.x00) 103 (sample_hash Byte.x01) 1000)
    (BlockNumHash.mk 7 (zeros 32)) 3.

Definition sample_denim_parent : L2BlockInfo.t :=
  L2BlockInfo.mk (BlockInfo.mk (sample_hash Byte.x01) 102 (sample_hash Byte.x02) 1000)
    (BlockNumHash.mk 7 (zeros 32)) 2.

Lemma retry_is_invisible_witness :
  let self := sample_stage sample_denim_config (SingleBatch.mk (sample_hash Byte.x02) 7 (zeros 32) 1000 []) in
  let f := StaticChain.mk [(sample_denim_parent, SystemConfig.default)] in
  exists e self', run_sample sample_denim_head self = (Err (Temporary e), self') /\
    run_sample sample_denim_head (set_provider f self') = run_sample sample_denim_head (set_provider f self).
Proof.
  intros self f.
  destruct (@retry_is_invisible _ _ Script.stage Script.batches StaticChain.provider (∅ : Registry.t)
    sample_denim_head self sample_next_origin SingleBatch.sample_origin sample_next_origin []
    (SingleBatch.mk (sample_hash Byte.x02) 7 (zeros 32) 1000 []) sample_next_origin
    (Script.mk (Some sample_next_origin) []) (PipelineError.Provider "Block not found")) as (self' & Hrun & Hsame).
  - split; [reflexivity|split; [reflexivity|discriminate]|reflexivity|left; reflexivity].
  - split; reflexivity.
  - reflexivity.
  - vm_compute. reflexivity.
  - exists (PipelineError.Provider "Block not found"), self'. split; [exact Hrun|apply Hsame].
Defined.

End BatchValidator.
