(* ===== verification/BatchQueues.v ===== *)
(** * The batch queue

    Models [src/crates/consensus/derive/src/stages/batch/batch_queue.rs] and
    [BatchWithInclusionBlock] of
    [src/crates/consensus/protocol/src/batch/inclusion.rs]: before Holocene the
    stage orders the batches it has seen, splits span batches, and creates empty
    batches when the sequencing window has passed. *)

From S2P Require Import Prelude Effects Primitives Upgrades SystemConfig Rollup SingleBatches SpanBits SpanCodec SpanChecks Pipeline StageModels BatchStreams BatchValidators.

Module BatchWithInclusionBlock.

Record t : Type := mk { inclusion_block : BlockInfo.t; batch : Batch }.

(** [BatchWithInclusionBlock::check_batch]. *)
Definition check_batch `{RuntimeUpgradeRegistry} `{BatchValidationProvider} (self : t) (cfg : RollupConfig.t)
    (l1_blocks : list BlockInfo.t) (l2_safe_head : L2BlockInfo.t) : result Empty_set BatchValidity :=
  match batch self with
  | BatchSingle b => Ok (SingleBatch.check_batch b cfg l1_blocks l2_safe_head (inclusion_block self))
  | BatchSpan b => SpanBatchChecks.check_batch b cfg l1_blocks l2_safe_head (inclusion_block self)
  end.

End BatchWithInclusionBlock.

Module BatchQueue.

Abbreviation queued := BatchWithInclusionBlock.t.

Record t (P F : Type) : Type := mk {
  cfg : RollupConfig.t;
  prev : P;
  stage_l1_origin : option BlockInfo.t;
  l1_blocks : list BlockInfo.t;
  batches : list queued;
  next_spans : list SingleBatch.t;
  fetcher : F
}.
Arguments mk {P F}.
Arguments cfg {P F}.
Arguments prev {P F}.
Arguments stage_l1_origin {P F}.
Arguments l1_blocks {P F}.
Arguments batches {P F}.
Arguments next_spans {P F}.
Arguments fetcher {P F}.

(** How the search through the queued batches ends, with the batches that stay
    queued: a batch is accepted, one is undecided, one is outdated before
    Holocene, the check panics, or none is left. *)
Inductive outcome : Type :=
| Found (b : Batch) (kept : list queued)
| Stuck (kept : list queued)
| Outdated
| Crashed
| Exhausted (kept : list queued).

Definition keep (b : queued) (out : outcome) : outcome :=
  match out with
  | Found x kept => Found x (b :: kept)
  | Stuck kept => Stuck (b :: kept)
  | Exhausted kept => Exhausted (b :: kept)
  | Outdated => Outdated
  | Crashed => Crashed
  end.

Section Queue.
Context {P F : Type} `{Stage P} `{NextBatchProvider P} `{L2ChainProvider F} `{RuntimeUpgradeRegistry}.

Definition set_prev (p : P) (self : t P F) : t P F :=
  mk (cfg self) p (stage_l1_origin self) (l1_blocks self) (batches self) (next_spans self) (fetcher self).
Definition set_stage_origin (o : option BlockInfo.t) (self : t P F) : t P F :=
  mk (cfg self) (prev self) o (l1_blocks self) (batches self) (next_spans self) (fetcher self).
Definition set_l1_blocks (l : list BlockInfo.t) (self : t P F) : t P F :=
  mk (cfg self) (prev self) (stage_l1_origin self) l (batches self) (next_spans self) (fetcher self).
Definition set_batches (l : list queued) (self : t P F) : t P F :=
  mk (cfg self) (prev self) (stage_l1_origin self) (l1_blocks self) l (next_spans self) (fetcher self).
Definition set_next_spans (l : list SingleBatch.t) (self : t P F) : t P F :=
  mk (cfg self) (prev self) (stage_l1_origin self) (l1_blocks self) (batches self) l (fetcher self).

(** [BatchQueue::new]. *)
Definition new (c : RollupConfig.t) (p : P) (f : F) : t P F := mk c p None [] [] [] f.

(** [BatchQueue::pop_next_batch]. *)
Definition pop_next_batch (parent : L2BlockInfo.t) : op (t P F) SingleBatch.t :=
  spans ← gets next_spans;
  match spans with
  | [] => lift Panic
  | next :: spans =>
      _ ← modify (set_next_spans spans);
      mret (BatchStream.with_parent (BlockInfo.hash (L2BlockInfo.block_info parent)) next)
  end.

(** The loop of [derive_next_batch] over the queued batches; a dropped batch
    flushes the stage before. *)
Fixpoint search (c : RollupConfig.t) (f : F) (blocks : list BlockInfo.t) (parent : L2BlockInfo.t)
    (is_holocene_active : bool) (queue : list queued) (p : P) : outcome * P :=
  match queue with
  | [] => (Exhausted [], p)
  | b :: queue =>
      let search := search c f blocks parent is_holocene_active queue in
      match @BatchWithInclusionBlock.check_batch _ (validation_view f) b c blocks parent with
      | Panic => (Crashed, p)
      | Err e => match e with end
      | Ok Future =>
          if is_holocene_active then search (flush p)
          else let '(out, p) := search p in (keep b out, p)
      | Ok (Drop _) => search (flush p)
      | Ok Accept => (Found (BatchWithInclusionBlock.batch b) queue, p)
      | Ok Undecided => (Stuck (b :: queue), p)
      | Ok Past => if is_holocene_active then search p else (Outdated, p)
      end
  end.

(** [BatchQueue::derive_next_batch] from where an epoch and an origin are known. *)
Definition derive_on (empty : bool) (parent : L2BlockInfo.t) (epoch o : BlockInfo.t) : op (t P F) Batch :=
  fun self =>
  let c := cfg self in
  let holocene := RollupConfig.is_holocene_active c (BlockInfo.timestamp o) in
  let '(out, p) := search c (fetcher self) (l1_blocks self) parent holocene (batches self) (prev self) in
  let self := set_prev p self in
  match out with
  | Found b kept => (Ok b, set_batches kept self)
  | Stuck kept => (Err (temp PipelineError.Eof), set_batches kept self)
  | Outdated => (Err (crit PipelineError.InvalidBatchValidity), self)
  | Crashed => (Panic, self)
  | Exhausted kept =>
      let expiry_epoch := u64_add (BlockInfo.number epoch) (RollupConfig.seq_window_size c) in
      let force_empty_batches :=
        bool_decide (expiry_epoch = BlockInfo.number o) && empty
        || bool_decide (expiry_epoch < BlockInfo.number o) in
      let '(r, blocks) := Window.fill_epoch c parent force_empty_batches (l1_blocks self) in
      (BatchSingle <$> r, set_l1_blocks blocks (set_batches kept self))
  end.

(** [BatchQueue::derive_next_batch]. *)
Definition derive_next_batch (empty : bool) (parent : L2BlockInfo.t) : op (t P F) Batch :=
  blocks ← gets l1_blocks;
  match blocks with
  | [] => fail (crit PipelineError.MissingOrigin)
  | epoch :: _ =>
      let number := BlockNumHash.number (L2BlockInfo.l1_origin parent) in
      let previous_epoch :=
        if decide (BlockInfo.number epoch = 0) then None else Some (BlockInfo.number epoch - 1) in
      if negb (bool_decide (L2BlockInfo.l1_origin parent = BlockInfo.id epoch))
         && negb (bool_decide (previous_epoch = Some number))
      then fail (Reset (ResetError.L1OriginMismatch number (default (BlockInfo.number epoch) previous_epoch)))
      else
        o ← gets stage_l1_origin;
        o ← lift (ok_or (crit PipelineError.MissingOrigin) o);
        derive_on empty parent epoch o
  end.

(** [BatchQueue::add_batch]. *)
Definition add_batch (b : Batch) (parent : L2BlockInfo.t) : op (t P F) () :=
  blocks ← gets l1_blocks;
  match blocks with
  | [] => lift Panic
  | _ =>
      o ← gets stage_l1_origin;
      o ← lift (ok_or (crit PipelineError.MissingOrigin) o);
      c ← gets cfg;
      f ← gets fetcher;
      let data := BatchWithInclusionBlock.mk o b in
      match @BatchWithInclusionBlock.check_batch _ (validation_view f) data c blocks parent with
      | Panic => lift Panic
      | Err e => match e with end
      | Ok validity =>
          if is_drop validity
             || RollupConfig.is_holocene_active c (BlockInfo.timestamp o) && is_future validity
          then modify (fun self => set_prev (flush (prev self)) self)
          else if is_outdated validity then mret ()
          else modify (fun self => set_batches (batches self ++ [data]) self)
      end
  end.

Definition next_timestamp (c : RollupConfig.t) (parent : L2BlockInfo.t) : Z :=
  RollupConfig.l2_block_timestamp c (u64_add (BlockInfo.number (L2BlockInfo.block_info parent)) 1).

(** The L1 blocks of [next_batch]: the window moves to the epoch of the parent,
    and follows the origin of the stage before. *)
Definition refresh_origins (parent : L2BlockInfo.t) : op (t P F) () :=
  _ ← modify (fun self => set_l1_blocks (Window.advance_epoch parent (l1_blocks self)) self);
  o ← gets (fun self => origin (prev self));
  current ← gets stage_l1_origin;
  if decide (current <> o) then
    _ ← modify (set_stage_origin o);
    blocks ← gets l1_blocks;
    blocks ← lift (Window.push_origin parent o blocks);
    modify (set_l1_blocks blocks)
  else mret ().

(** Loads one more batch into the queue; the result says whether the stage before
    was out of data.  An error of [add_batch] is ignored. *)
Definition load_batch (parent : L2BlockInfo.t) (origin_behind : bool) : op (t P F) bool :=
  blocks ← gets l1_blocks;
  r ← attempt (within prev set_prev (next_batch parent blocks));
  match r with
  | inr b =>
      if origin_behind then mret false
      else _ ← attempt (add_batch b parent); mret false
  | inl e => if is_eof e then mret true else fail e
  end.

(** The single batch a derived batch gives: itself, or the first of its span; the
    rest of the span is cached. *)
Definition split_batch (parent : L2BlockInfo.t) (b : Batch) : op (t P F) SingleBatch.t :=
  match b with
  | BatchSingle sb => mret sb
  | BatchSpan sb =>
      blocks ← gets l1_blocks;
      spans ← lift (map_err (fun e => crit (PipelineError.BadEncoding (PipelineEncodingError.SpanBatchError e)))
                      (SpanBatchChecks.get_singular_batches sb blocks parent));
      _ ← modify (set_next_spans spans);
      pop_next_batch parent
  end.

(** [next_batch] without cached batches. *)
Definition next_uncached (parent : L2BlockInfo.t) : op (t P F) SingleBatch.t :=
  o ← gets (fun self => origin (prev self));
  let origin_behind := Window.behind parent o in
  _ ← refresh_origins parent;
  out_of_data ← load_batch parent origin_behind;
  let no_data := if out_of_data : bool then PipelineError.Eof else PipelineError.NotEnoughData in
  if origin_behind then fail (temp no_data)
  else
    r ← attempt (derive_next_batch out_of_data parent);
    match r with
    | inr b => split_batch parent b
    | inl e => if is_eof e then fail (temp no_data) else fail e
    end.

(** [AttributesProvider::next_batch]: cached batches of a span are dropped after
    Denim, and when the next of them does not follow the parent. *)
Definition queue_next_batch (parent : L2BlockInfo.t) : op (t P F) SingleBatch.t :=
  c ← gets cfg;
  let ts := next_timestamp c parent in
  _ ← (if RollupConfig.is_denim_active c ts then modify (set_next_spans []) else mret ());
  spans ← gets next_spans;
  match spans with
  | next :: _ =>
      if decide (SingleBatch.timestamp next = ts) then pop_next_batch parent
      else _ ← modify (set_next_spans []); next_uncached parent
  | [] => next_uncached parent
  end.

#[global] Instance attributes_provider : AttributesProvider (t P F) := {
  next_single_batch := queue_next_batch;
  is_last_in_span self := bool_decide (next_spans self = [])
}.

Definition forget (self : t P F) : t P F := set_next_spans [] (set_batches [] self).

#[global] Instance stage : Stage (t P F) := {
  stage_origin self := origin (prev self);
  stage_advancer := within prev set_prev advance_origin;
  stage_reset := {|
    reset l1_origin c :=
      _ ← within prev set_prev (reset l1_origin c);
      modify (fun self =>
        let o := origin (prev self) in
        set_l1_blocks (option_list o) (set_stage_origin o (forget self)));
    activate := _ ← within prev set_prev activate; modify forget;
    flush_channel := _ ← within prev set_prev flush_channel; modify forget
  |}
}.

(** ** The search *)

Section Search.
Context (c : RollupConfig.t) (f : F) (blocks : list BlockInfo.t) (parent : L2BlockInfo.t) (holocene : bool).

Definition verdict (b : queued) : result Empty_set BatchValidity :=
  @BatchWithInclusionBlock.check_batch _ (validation_view f) b c blocks parent.

(** Batches the search passes over: those it keeps queued, those it drops, and
    those whose drop flushes the stage before. *)
Definition retained (b : queued) : bool :=
  match verdict b with Ok Future => negb holocene | _ => false end.

Definition flushing (b : queued) : bool :=
  match verdict b with Ok Future => holocene | Ok (Drop _) => true | _ => false end.

Definition passed (b : queued) : bool :=
  retained b || flushing b || match verdict b with Ok Past => holocene | _ => false end.

Definition kept_of (pre : list queued) : list queued := List.filter retained pre.
Definition flushes (pre : list queued) (p : P) : P := Nat.iter (length (List.filter flushing pre)) flush p.

Lemma iter_comm (n : nat) (p : P) : Nat.iter n flush (flush p) = flush (Nat.iter n flush p).
Proof. induction n as [|n IH]; [done|]. simpl. by f_equal. Qed.

(** Passing over the first batch. *)
Lemma search_cons b queue p : passed b = true ->
  search c f blocks parent holocene (b :: queue) p =
  let '(out, p') := search c f blocks parent holocene queue (if flushing b then flush p else p) in
  ((if retained b then keep b out else out), p').
Proof.
  unfold passed, retained, flushing. fold (verdict b). cbn [search]. fold (verdict b).
  destruct (verdict b) as [[]| |]; intros Hp; try done.
  - by destruct (search _ _ _ _ _ _ _).
  - destruct holocene; [by destruct (search _ _ _ _ _ _ _)|done].
  - destruct holocene; [by destruct (search _ _ _ _ _ _ _)|]. by destruct (search _ _ _ _ _ _ _).
Qed.

Lemma search_Found queue p b kept p' :
  search c f blocks parent holocene queue p = (Found b kept, p') ->
  exists pre x post, queue = pre ++ x :: post /\ forallb passed pre = true /\
    verdict x = Ok Accept /\ BatchWithInclusionBlock.batch x = b /\
    kept = kept_of pre ++ post /\ p' = flushes pre p.
Proof.
  revert p kept. induction queue as [|x queue IH]; intros p kept Hs; [done|].
  destruct (passed x) eqn:Hx.
  - rewrite search_cons in Hs by done.
    destruct (search _ _ _ _ _ queue _) as [out q] eqn:Hq.
    assert (exists kept', out = Found b kept' /\ kept = if retained x then x :: kept' else kept') as (kept' & -> & ->).
    { destruct (retained x); [|injection Hs as -> ->; by exists kept].
      destruct out; try done. injection Hs as -> <- ->. by eexists. }
    injection Hs as _ <-.
    destruct (IH _ _ Hq) as (pre & y & post & -> & Hpre & Hy & Hb & -> & ->).
    exists (x :: pre), y, post. cbn [forallb]. rewrite Hx. split_and!; try done.
    + unfold kept_of. cbn [List.filter]. by destruct (retained x).
    + unfold flushes. cbn [List.filter]. destruct (flushing x); [|done]. cbn [length]. apply iter_comm.
  - unfold passed, retained, flushing in Hx. cbn [search] in Hs. fold (verdict x) in Hs.
    destruct (verdict x) as [[]|[]|] eqn:Hv; try done; try (by destruct holocene).
    injection Hs as <- <- <-. by exists [], x, queue.
Qed.

Lemma search_Exhausted queue p kept p' :
  search c f blocks parent holocene queue p = (Exhausted kept, p') ->
  forallb passed queue = true /\ kept = kept_of queue /\ p' = flushes queue p.
Proof.
  revert p kept. induction queue as [|x queue IH]; intros p kept Hs; [by injection Hs as <- <-|].
  destruct (passed x) eqn:Hx.
  - rewrite search_cons in Hs by done.
    destruct (search _ _ _ _ _ queue _) as [out q] eqn:Hq.
    assert (exists kept', out = Exhausted kept' /\ kept = if retained x then x :: kept' else kept') as (kept' & -> & ->).
    { destruct (retained x); [|injection Hs as -> ->; by exists kept].
      destruct out; try done. injection Hs as <- ->. by eexists. }
    injection Hs as _ <-. destruct (IH _ _ Hq) as (Hpre & -> & ->).
    cbn [forallb]. rewrite Hx. split_and!; try done.
    unfold flushes. cbn [List.filter]. destruct (flushing x); [|done]. cbn [length]. apply iter_comm.
  - unfold passed, retained, flushing in Hx. cbn [search] in Hs. fold (verdict x) in Hs.
    destruct (verdict x) as [[]|[]|] eqn:Hv; try done; by destruct holocene.
Qed.

End Search.

(** ** Deriving the next batch *)

Abbreviation holocene_at self o := (RollupConfig.is_holocene_active (cfg self) (BlockInfo.timestamp o)) (only parsing).

Lemma derive_on_Ok empty parent epoch o (self self' : t P F) b :
  derive_on empty parent epoch o self = (Ok b, self') ->
  let passed := passed (cfg self) (fetcher self) (l1_blocks self) parent (holocene_at self o) in
  let kept_of := kept_of (cfg self) (fetcher self) (l1_blocks self) parent (holocene_at self o) in
  let flushes := flushes (cfg self) (fetcher self) (l1_blocks self) parent (holocene_at self o) in
  l1_blocks self' = l1_blocks self /\ next_spans self' = next_spans self /\
  ((exists pre x post, batches self = pre ++ x :: post /\ forallb passed pre = true /\
      verdict (cfg self) (fetcher self) (l1_blocks self) parent x = Ok Accept /\
      BatchWithInclusionBlock.batch x = b /\
      batches self' = kept_of pre ++ post /\ prev self' = flushes pre (prev self)) \/
   (exists epoch' next rest, l1_blocks self = epoch' :: next :: rest /\
      b = BatchSingle (Window.empty_batch (cfg self) parent epoch') /\
      Window.due (cfg self) parent epoch' next /\
      let expiry := u64_add (BlockInfo.number epoch) (RollupConfig.seq_window_size (cfg self)) in
      (expiry < BlockInfo.number o \/ expiry = BlockInfo.number o /\ empty = true) /\
      forallb passed (batches self) = true /\
      batches self' = kept_of (batches self) /\ prev self' = flushes (batches self) (prev self))).
Proof.
  unfold derive_on. destruct (search _ _ _ _ _ _ _) as [out p] eqn:Hs. intros Hd. cbn zeta.
  destruct out as [x kept|kept| | |kept]; try done.
  - injection Hd as -> <-. split_and!; try done. left. cbn [batches prev set_batches set_prev].
    by apply search_Found in Hs.
  - destruct (Window.fill_epoch _ _ _ _) as [r l] eqn:Hf.
    destruct r as [sb|e|]; [|done|done]. injection Hd as <- <-.
    apply Window.fill_epoch_Ok in Hf as (e & n & rest & Hl & -> & Hforce & -> & Hdue).
    apply search_Exhausted in Hs as (Hpass & -> & ->). cbn [l1_blocks set_prev set_batches] in Hl |- *.
    split_and!; [done..|]. right. exists e, n, rest. split_and!; try done.
    apply orb_true_iff in Hforce as [[Hx Hy]%andb_true_iff|Hx]; apply bool_decide_eq_true in Hx; auto.
Qed.

(** C11: the batch queue derives the first acceptable batch in the order of
    inclusion.  A derived batch is either the first queued batch that is
    accepted, after batches that were each passed over by a final verdict, or
    the empty batch of the epoch, when no queued batch is acceptable, the
    sequencing window has passed and the batch is due.  The batches passed over
    stay queued exactly when they are future batches before Holocene, the later
    ones all stay, and the stage before is flushed once for every batch that was
    dropped. *)
Theorem derives_first_accepted empty parent (self self' : t P F) b :
  derive_next_batch empty parent self = (Ok b, self') ->
  exists epoch o rest, l1_blocks self = epoch :: rest /\ stage_l1_origin self = Some o /\
  let passed := passed (cfg self) (fetcher self) (l1_blocks self) parent (holocene_at self o) in
  let kept_of := kept_of (cfg self) (fetcher self) (l1_blocks self) parent (holocene_at self o) in
  let flushes := flushes (cfg self) (fetcher self) (l1_blocks self) parent (holocene_at self o) in
  (exists pre x post, batches self = pre ++ x :: post /\ forallb passed pre = true /\
     verdict (cfg self) (fetcher self) (l1_blocks self) parent x = Ok Accept /\
     BatchWithInclusionBlock.batch x = b /\
     batches self' = kept_of pre ++ post /\ prev self' = flushes pre (prev self)) \/
  (exists next rest', rest = next :: rest' /\
     b = BatchSingle (Window.empty_batch (cfg self) parent epoch) /\
     Window.due (cfg self) parent epoch next /\
     let expiry := u64_add (BlockInfo.number epoch) (RollupConfig.seq_window_size (cfg self)) in
     (expiry < BlockInfo.number o \/ expiry = BlockInfo.number o /\ empty = true) /\
     forallb passed (batches self) = true /\
     batches self' = kept_of (batches self) /\ prev self' = flushes (batches self) (prev self)).
Proof.
  unfold derive_next_batch. run_ops. destruct (l1_blocks self) as [|epoch rest] eqn:Hl; [done|].
  destruct (negb _ && negb _); [done|].
  destruct (stage_l1_origin self) as [o|] eqn:Ho; cbn [ok_or]; [|done].
  intros Hd. exists epoch, o, rest. split_and!; [done..|].
  apply derive_on_Ok in Hd as (_ & _ & [Hd|(e & n & r & Hl' & Hb & Hd)]); rewrite Hl in *; cbn zeta in *.
  - by left.
  - right. injection Hl' as <- ->. by exists n, r.
Qed.

(** ** Splitting a derived span *)

(** What [derive_next_batch] says of a derived batch and the state. *)
Lemma derive_next_batch_Ok empty parent (self self' : t P F) b :
  derive_next_batch empty parent self = (Ok b, self') ->
  l1_blocks self' = l1_blocks self /\
  ((exists x, verdict (cfg self) (fetcher self) (l1_blocks self) parent x = Ok Accept /\
      BatchWithInclusionBlock.batch x = b) \/
   exists epoch, b = BatchSingle (Window.empty_batch (cfg self) parent epoch)).
Proof.
  unfold derive_next_batch. run_ops. destruct (l1_blocks self) as [|epoch rest] eqn:Hl; [done|].
  destruct (negb _ && negb _); [done|].
  destruct (stage_l1_origin self) as [o|]; cbn [ok_or]; [|done].
  intros Hd. apply derive_on_Ok in Hd as (Hl' & _ & [(pre & x & post & _ & _ & Hv & Hb & _)|(e & n & r & _ & Hb & _)]);
    rewrite Hl in *; split; eauto.
Qed.

(** An accepted span has a block after the safe head. *)
Lemma accepted_has_new s c blocks parent inclusion_block view :
  @SpanBatchChecks.check_batch _ view s c blocks parent inclusion_block = Ok Accept ->
  BlockInfo.timestamp (L2BlockInfo.block_info parent) < next_timestamp c parent ->
  exists b rest, SpanBatchChecks.get_singular_batches s blocks parent = Ok (b :: rest).
Proof.
  intros Hc Hts.
  destruct (SpanBatchChecks.span_check_batch_Accept _ _ _ _ _ Hc) as (first & final & p & adv & Hv & He & _).
  apply SpanBatchChecks.check_elements_Accept in He as (origins & Hf & Hs).
  destruct (SpanBatchChecks.vp_next _ _ _ _ _ _ _ _ Hv) as (_ & Hrange & _). cbv zeta in Hrange.
  pose proof (SpanBatchChecks.vp_final _ _ _ _ _ _ _ _ Hv) as Hl. unfold SpanBatch.last in Hl.
  assert (final ∈ filter (SpanBatchChecks.is_new parent) (SpanBatch.batches s)) as Hin.
  { apply list_elem_of_filter. unfold SpanBatchChecks.is_new, next_timestamp in *. split; [lia|].
    unfold index in Hl. case_decide; [|done]. by eapply list_elem_of_lookup_2. }
  unfold SpanBatchChecks.get_singular_batches. rewrite Hs.
  destruct (filter _ _); [by apply not_elem_of_nil in Hin|]. destruct origins; [by inversion Hf|].
  cbn [zip_with]. eauto.
Qed.

(** C32: a derived span always yields a batch.  When the next block is later than
    the parent, splitting the span batch that [derive_next_batch] returned
    neither fails nor panics: the first of its new blocks is returned on top of
    the parent and the others are cached in order. *)
Theorem derived_span_splits empty parent (self self' : t P F) s :
  derive_next_batch empty parent self = (Ok (BatchSpan s), self') ->
  BlockInfo.timestamp (L2BlockInfo.block_info parent) < next_timestamp (cfg self) parent ->
  exists b rest,
    SpanBatchChecks.get_singular_batches s (l1_blocks self) parent = Ok (b :: rest) /\
    split_batch parent (BatchSpan s) self' =
      (Ok (BatchStream.with_parent (BlockInfo.hash (L2BlockInfo.block_info parent)) b),
       set_next_spans rest self').
Proof.
  intros Hd Hts. apply derive_next_batch_Ok in Hd as (Hl & [([i x] & Hv & Hb)|[e [=]]]). cbn in Hb. subst x.
  destruct (accepted_has_new _ _ _ _ _ _ Hv Hts) as (b & rest & Hs). exists b, rest. split; [done|].
  unfold split_batch, pop_next_batch. run_ops. rewrite Hl, Hs. cbn. by destruct self'.
Qed.

(** ** Linking *)

Lemma pop_next_batch_linked parent (self self' : t P F) b :
  pop_next_batch parent self = (Ok b, self') ->
  SingleBatch.parent_hash b = BlockInfo.hash (L2BlockInfo.block_info parent).
Proof. unfold pop_next_batch. run_ops. destruct (next_spans self); [done|]. by intros [= <- _]. Qed.

Lemma split_batch_linked parent x (self self' : t P F) b :
  (forall sb, x = BatchSingle sb -> SingleBatch.parent_hash sb = BlockInfo.hash (L2BlockInfo.block_info parent)) ->
  split_batch parent x self = (Ok b, self') ->
  SingleBatch.parent_hash b = BlockInfo.hash (L2BlockInfo.block_info parent).
Proof.
  intros Hx. destruct x as [sb|s]; cbn [split_batch]; run_ops; [intros [= <- _]; by apply Hx|].
  destruct (SpanBatchChecks.get_singular_batches _ _ _); cbn [map_err]; [|done|done].
  apply pop_next_batch_linked.
Qed.

Lemma next_uncached_linked parent (self self' : t P F) b :
  next_uncached parent self = (Ok b, self') ->
  SingleBatch.parent_hash b = BlockInfo.hash (L2BlockInfo.block_info parent).
Proof.
  unfold next_uncached. run_ops. destruct (refresh_origins parent self) as [[] s1]; [|done|done].
  destruct (load_batch _ _ s1) as [[out|e|] s2]; [|done|done]. destruct (Window.behind _ _); [done|].
  destruct (derive_next_batch out parent s2) as [[x|e|] s3] eqn:Hd; [|by destruct (is_eof e)|done].
  apply split_batch_linked. intros sb ->.
  apply derive_next_batch_Ok in Hd as (_ & [([i y] & Hv & Hb)|[e [= ->]]]); [|done]. cbn in Hb. subst y.
  unfold verdict in Hv. cbn in Hv. injection Hv as Hv.
  apply SingleBatch.accept_valid in Hv as (epoch & rest & _ & Hv). apply Hv.
Qed.

#[global] Instance linked : LinkedBatches (t P F).
Proof.
  intros parent self b self'. cbn [next_single_batch attributes_provider]. unfold queue_next_batch. run_ops.
  destruct (RollupConfig.is_denim_active _ _); [apply next_uncached_linked|].
  destruct (next_spans self) as [|x l]; [apply next_uncached_linked|].
  case_decide; [apply pop_next_batch_linked|apply next_uncached_linked].
Qed.

End Queue.

(** A queue before Holocene with a future batch before an acceptable one, and one
    with a span batch. *)
Definition sample_queue (c : RollupConfig.t) (bs : list Batch) : t (Script.t Batch) StaticChain.t :=
  mk c (Script.mk (Some SingleBatch.sample_origin) []) (Some SingleBatch.sample_origin)
    [SingleBatch.sample_origin] (BatchWithInclusionBlock.mk SingleBatch.sample_origin <$> bs) []
    (StaticChain.mk []).

Definition sample_future : SingleBatch.t := SingleBatch.mk (zeros 32) 7 (zeros 32) 2000 [].

Abbreviation derive_sample := (@derive_next_batch _ _ Script.batches StaticChain.provider
  (∅ : Registry.t) false SingleBatch.sample_head) (only parsing).

Lemma derives_first_accepted_witness :
  let self := sample_queue sample_config [BatchSingle sample_future; BatchSingle SingleBatch.sample_batch] in
  exists pre x post, batches self = pre ++ x :: post /\
    BatchWithInclusionBlock.batch x = BatchSingle SingleBatch.sample_batch.
Proof.
  intros self.
  destruct (@derives_first_accepted _ _ Script.batches StaticChain.provider (∅ : Registry.t)
    false SingleBatch.sample_head self (derive_sample self).2 (BatchSingle SingleBatch.sample_batch))
    as (epoch & o & rest & _ & _ & [(pre & x & post & Hb & _ & _ & Hx & _)|(n & r & _ & Hb & _)]).
  - vm_compute. reflexivity.
  - exists pre, x, post. split; [exact Hb|exact Hx].
  - discriminate Hb.
Defined.

Lemma derived_span_splits_witness :
  let self := sample_queue SpanBatchChecks.sample_delta_config [BatchSpan BatchStream.sample_new_span] in
  exists b rest, SpanBatchChecks.get_singular_batches BatchStream.sample_new_span (l1_blocks self)
      SingleBatch.sample_head = Ok (b :: rest) /\
    split_batch SingleBatch.sample_head (BatchSpan BatchStream.sample_new_span) (derive_sample self).2 =
      (Ok (BatchStream.with_parent (zeros 32) b), set_next_spans rest (derive_sample self).2).
Proof.
  intros self.
  apply (@derived_span_splits _ _ Script.batches StaticChain.provider (∅ : Registry.t)
    false SingleBatch.sample_head self (derive_sample self).2 BatchStream.sample_new_span).
  - vm_compute. reflexivity.
  - vm_compute. reflexivity.
Defined.

End BatchQueue.
