(* ===== verification/BatchProviders.v ===== *)
(** * The batch provider

    Models [src/crates/consensus/derive/src/stages/batch/batch_provider.rs], the
    multiplexer that puts the batch queue or the batch validator between the
    batch stream and the attributes queue. *)

From S2P Require Import Prelude Effects Primitives Upgrades SystemConfig Rollup SingleBatches Pipeline StageModels BatchValidators BatchQueues.

Module BatchProvider.

Record t (P F : Type) : Type := mk {
  cfg : RollupConfig.t;
  provider : F;
  prev : option P;
  batch_queue : option (BatchQueue.t P F);
  batch_validator : option (BatchValidator.t P F)
}.
Arguments mk {P F}.
Arguments cfg {P F}.
Arguments provider {P F}.
Arguments prev {P F}.
Arguments batch_queue {P F}.
Arguments batch_validator {P F}.

Section Provider.
Context {P F : Type} `{Stage P} `{NextBatchProvider P} `{L2ChainProvider F} `{RuntimeUpgradeRegistry}.

(** [BatchProvider::new]. *)
Definition new (c : RollupConfig.t) (p : P) (f : F) : t P F := mk c f (Some p) None None.

Definition set_queue (q : BatchQueue.t P F) (self : t P F) : t P F :=
  mk (cfg self) (provider self) (prev self) (Some q) (batch_validator self).
Definition set_validator (v : BatchValidator.t P F) (self : t P F) : t P F :=
  mk (cfg self) (provider self) (prev self) (batch_queue self) (Some v).

(** [OriginProvider::origin]. *)
Definition provider_origin (self : t P F) : option BlockInfo.t :=
  match batch_validator self with
  | Some v => origin v
  | None =>
      match batch_queue self with
      | Some q => origin q
      | None => p ← prev self; origin p
      end
  end.

(** The stages made in a transition: the validator takes over the L1 blocks and
    the origin of the queue, the queue only the L1 blocks of the validator. *)
Definition validator_from (self : t P F) (q : BatchQueue.t P F) : BatchValidator.t P F :=
  BatchValidator.set_stage_origin (BatchQueue.stage_l1_origin q)
    (BatchValidator.set_l1_blocks (BatchQueue.l1_blocks q)
       (BatchValidator.new (cfg self) (BatchQueue.prev q) (provider self))).

Definition queue_from (self : t P F) (v : BatchValidator.t P F) : BatchQueue.t P F :=
  BatchQueue.set_l1_blocks (BatchValidator.l1_blocks v)
    (BatchQueue.new (cfg self) (BatchValidator.prev v) (provider self)).

(** [BatchProvider::attempt_update], at the L1 origin [o]. *)
Definition update_at (o : BlockInfo.t) (self : t P F) : t P F :=
  let holocene := RollupConfig.is_holocene_active (cfg self) (BlockInfo.timestamp o) in
  match prev self with
  | Some p =>
      if holocene
      then mk (cfg self) (provider self) None (batch_queue self)
             (Some (BatchValidator.new (cfg self) p (provider self)))
      else mk (cfg self) (provider self) None (Some (BatchQueue.new (cfg self) p (provider self)))
             (batch_validator self)
  | None =>
      match batch_queue self, batch_validator self with
      | Some q, v =>
          if holocene then mk (cfg self) (provider self) None None (Some (validator_from self q))
          else
            match v with
            | Some v => mk (cfg self) (provider self) None (Some (queue_from self v)) None
            | None => self
            end
      | None, Some v =>
          if negb holocene then mk (cfg self) (provider self) None (Some (queue_from self v)) None
          else self
      | None, None => self
      end
  end.

Definition attempt_update : op (t P F) () :=
  o ← gets provider_origin;
  o ← lift (ok_or (crit PipelineError.MissingOrigin) o);
  modify (update_at o).

(** The dispatch that ends every method: the validator when there is one, else
    the queue. *)
Definition dispatch {A} (on_validator : op (BatchValidator.t P F) A)
    (on_queue : op (BatchQueue.t P F) A) : op (t P F) A := fun self =>
  match batch_validator self, batch_queue self with
  | Some v, _ => let '(r, v) := on_validator v in (r, set_validator v self)
  | None, Some q => let '(r, q) := on_queue q in (r, set_queue q self)
  | None, None => (Err (temp PipelineError.NotEnoughData), self)
  end.

Definition mux {A} (on_validator : op (BatchValidator.t P F) A)
    (on_queue : op (BatchQueue.t P F) A) : op (t P F) A :=
  _ ← attempt_update; dispatch on_validator on_queue.

#[global] Instance attributes_provider : AttributesProvider (t P F) := {
  next_single_batch parent := mux (next_single_batch parent) (next_single_batch parent);
  is_last_in_span self :=
    match batch_validator self with
    | Some v => is_last_in_span v
    | None => match batch_queue self with Some q => is_last_in_span q | None => false end
    end
}.

#[global] Instance stage : Stage (t P F) := {
  stage_origin := provider_origin;
  stage_advancer := mux advance_origin advance_origin;
  stage_reset := {|
    reset l1_origin c := mux (reset l1_origin c) (reset l1_origin c);
    activate := mux activate activate;
    flush_channel := mux flush_channel flush_channel
  |}
}.

(** ** The active stage *)

(** The copies of the previous stage the provider holds. *)
Definition owners (self : t P F) : list P :=
  option_list (prev self) ++ option_list (BatchQueue.prev <$> batch_queue self) ++
  option_list (BatchValidator.prev <$> batch_validator self).

(** The stage that runs when the previous stage is [p]: the one that is already
    there, one that takes over from the other, or a new one. *)
Definition active_validator (self : t P F) (p : P) : BatchValidator.t P F :=
  match batch_validator self, batch_queue self with
  | Some v, _ => v
  | None, Some q => validator_from self q
  | None, None => BatchValidator.new (cfg self) p (provider self)
  end.

Definition active_queue (self : t P F) (p : P) : BatchQueue.t P F :=
  match batch_queue self, batch_validator self with
  | Some q, _ => q
  | None, Some v => queue_from self v
  | None, None => BatchQueue.new (cfg self) p (provider self)
  end.

(** The batch provider is the stage that the upgrade schedule calls for.  As
    long as exactly one stage owns the stage before, every method runs on the
    batch validator when Holocene is active at the L1 origin and on the batch
    queue otherwise; a stage that takes over keeps the window of L1 blocks of the
    other one and the stage before; afterwards it is the only one. *)
Theorem batch_provider_runs_active {A} (f : op (BatchValidator.t P F) A) (g : op (BatchQueue.t P F) A)
    (self : t P F) p o :
  owners self = [p] -> origin p = Some o ->
  mux f g self =
  if RollupConfig.is_holocene_active (cfg self) (BlockInfo.timestamp o) then
    let '(r, v) := f (active_validator self p) in (r, mk (cfg self) (provider self) None None (Some v))
  else
    let '(r, q) := g (active_queue self p) in (r, mk (cfg self) (provider self) None (Some q) None).
Proof.
  unfold owners, mux, attempt_update, provider_origin, update_at, dispatch, active_validator, active_queue.
  destruct self as [c pr [q|] [b|] [a|]]; cbn [prev batch_queue batch_validator cfg provider]; try done;
    cbn; intros [= <-] Ho; run_ops; cbn [prev batch_queue batch_validator cfg provider];
    unfold origin in *; cbn [stage_origin BatchQueue.stage BatchValidator.stage] in *;
    unfold mbind, option_bind; unfold origin; rewrite Ho; cbn [ok_or cfg batch_queue batch_validator prev provider];
    by destruct (RollupConfig.is_holocene_active c (BlockInfo.timestamp o)).
Qed.

#[global] Instance linked : LinkedBatches (t P F).
Proof.
  intros parent self b self'. cbn [next_single_batch attributes_provider]. unfold mux. rewrite bind_run.
  destruct (attempt_update self) as [[] s]; [|done|done]. unfold dispatch.
  destruct (batch_validator s) as [v|]; [|destruct (batch_queue s) as [q|]; [|done]].
  - destruct (next_single_batch parent v) as [r v'] eqn:Hx. intros [= -> _]. by apply (next_single_batch_linked _ _ _ _ Hx).
  - destruct (next_single_batch parent q) as [r q'] eqn:Hx. intros [= -> _]. by apply (next_single_batch_linked _ _ _ _ Hx).
Qed.

End Provider.

(** Without Holocene a new provider runs a fresh queue. *)
Lemma batch_provider_runs_active_witness :
  let p := Script.mk (Some SingleBatch.sample_origin) [Ok (BatchSingle SingleBatch.sample_batch)] in
  let queue_next := @BatchQueue.queue_next_batch _ _ Script.stage Script.batches StaticChain.provider
    (∅ : Registry.t) SingleBatch.sample_head in
  let '(r, q) := queue_next (BatchQueue.new sample_config p (StaticChain.mk [])) in
  @mux _ _ Script.stage (∅ : Registry.t) _
    (@BatchValidator.validator_next_batch _ _ Script.stage Script.batches StaticChain.provider
       (∅ : Registry.t) SingleBatch.sample_head)
    queue_next (new sample_config p (StaticChain.mk [])) =
  (r, mk sample_config (StaticChain.mk []) None (Some q) None).
Proof.
  intros p queue_next.
  pose proof (@batch_provider_runs_active _ _ Script.stage (∅ : Registry.t) _
    (@BatchValidator.validator_next_batch _ _ Script.stage Script.batches StaticChain.provider
       (∅ : Registry.t) SingleBatch.sample_head)
    queue_next (new sample_config p (StaticChain.mk [])) p SingleBatch.sample_origin eq_refl eq_refl) as Hmux.
  destruct (queue_next (BatchQueue.new sample_config p (StaticChain.mk []))) as [r q] eqn:Hq.
  rewrite Hmux. clear Hmux.
  change (active_queue (new sample_config p (StaticChain.mk [])) p)
    with (BatchQueue.new sample_config p (StaticChain.mk [])).
  rewrite Hq. reflexivity.
Defined.

End BatchProvider.
