(* ===== verification/Attributes.v ===== *)
(** * Payload attributes

    Models [BasePayloadAttributes] of
    [src/crates/common/rpc-types-engine/src/attributes.rs],
    [AttributesWithParent] of [src/crates/consensus/protocol/src/attributes.rs],
    the traits of [src/crates/consensus/derive/src/traits/attributes.rs] and the
    stage of [src/crates/consensus/derive/src/stages/attributes_queue.rs], which
    turns a single batch into the attributes of the next L2 block. *)

From S2P Require Import Prelude Effects Primitives Upgrades SystemConfig Rollup SingleBatches Pipeline StageModels BatchQueues.

(** The Ethereum payload attributes inside are those of another crate; the
    pipeline passes them on. *)
Module BasePayloadAttributes.

Record t (A : Type) : Type := mk {
  payload_attributes : A;
  transactions : option (list bytes);
  no_tx_pool : option bool;
  gas_limit : option Z;
  eip_1559_params : option bytes;
  min_base_fee : option Z
}.
Arguments mk {A}.
Arguments payload_attributes {A}.
Arguments transactions {A}.
Arguments no_tx_pool {A}.
Arguments gas_limit {A}.
Arguments eip_1559_params {A}.
Arguments min_base_fee {A}.

End BasePayloadAttributes.

Module AttributesWithParent.

Record t (A : Type) : Type := mk {
  attributes : BasePayloadAttributes.t A;
  parent : L2BlockInfo.t;
  derived_from : option BlockInfo.t;
  is_last_in_span : bool
}.
Arguments mk {A}.
Arguments attributes {A}.
Arguments parent {A}.
Arguments derived_from {A}.
Arguments is_last_in_span {A}.

Section Ops.
Context {A : Type}.

(** [AttributesWithParent::block_number]. *)
Definition block_number (self : t A) : Z :=
  u64_saturating_add (BlockInfo.number (L2BlockInfo.block_info (parent self))) 1.

Definition is_deposit (tx : bytes) : bool := bool_decide (head tx = Some DEPOSIT_TX_TYPE).

(** [AttributesWithParent::is_deposits_only]. *)
Definition is_deposits_only (self : t A) : bool :=
  forallb is_deposit (default [] (BasePayloadAttributes.transactions (attributes self))).

(** [AttributesWithParent::as_deposits_only]. *)
Definition as_deposits_only (self : t A) : t A :=
  let a := attributes self in
  mk (BasePayloadAttributes.mk (BasePayloadAttributes.payload_attributes a)
        (List.filter is_deposit <$> BasePayloadAttributes.transactions a)
        (BasePayloadAttributes.no_tx_pool a) (BasePayloadAttributes.gas_limit a)
        (BasePayloadAttributes.eip_1559_params a) (BasePayloadAttributes.min_base_fee a))
    (parent self) (derived_from self) (is_last_in_span self).

(** [AttributesWithParent::count_transactions]. *)
Definition count_transactions (self : t A) : Z :=
  match BasePayloadAttributes.transactions (attributes self) with Some txs => len txs | None => 0 end.

End Ops.

End AttributesWithParent.

(** [NextAttributes], [AttributesBuilder]. *)
Class NextAttributes (A S : Type) : Type :=
  next_attributes : L2BlockInfo.t -> op S (AttributesWithParent.t A).

Class AttributesBuilder (A B : Type) : Type := {
  seed_parent_system_config : L2BlockInfo.t -> SystemConfig.t -> B -> B;
  prepare_payload_attributes : L2BlockInfo.t -> BlockNumHash.t -> op B (BasePayloadAttributes.t A)
}.

Module AttributesQueue.

Record t (P B : Type) : Type := mk {
  cfg : RollupConfig.t;
  prev : P;
  last_in_span : bool;
  batch : option SingleBatch.t;
  builder : B
}.
Arguments mk {P B}.
Arguments cfg {P B}.
Arguments prev {P B}.
Arguments last_in_span {P B}.
Arguments batch {P B}.
Arguments builder {P B}.

(** The batch's transactions after the ones of the template, without the pool. *)
Definition append_batch {A} (b : SingleBatch.t) (a : BasePayloadAttributes.t A) : BasePayloadAttributes.t A :=
  BasePayloadAttributes.mk (BasePayloadAttributes.payload_attributes a)
    (match BasePayloadAttributes.transactions a with
     | Some txs => Some (txs ++ SingleBatch.transactions b)
     | None => if bool_decide (SingleBatch.transactions b = []) then None else Some (SingleBatch.transactions b)
     end)
    (Some true) (BasePayloadAttributes.gas_limit a) (BasePayloadAttributes.eip_1559_params a)
    (BasePayloadAttributes.min_base_fee a).

Section Queue.
Context {A P B : Type} `{Stage P} `{AttributesProvider P} `{AttributesBuilder A B}.

Definition set_prev (p : P) (self : t P B) : t P B :=
  mk (cfg self) p (last_in_span self) (batch self) (builder self).
Definition set_builder (b : B) (self : t P B) : t P B :=
  mk (cfg self) (prev self) (last_in_span self) (batch self) b.
Definition set_batch (b : option SingleBatch.t) (last : bool) (self : t P B) : t P B :=
  mk (cfg self) (prev self) last b (builder self).

(** [AttributesQueue::new]. *)
Definition new (c : RollupConfig.t) (p : P) (b : B) : t P B := mk c p false None b.

(** [AttributesQueue::load_batch]. *)
Definition load_batch (parent : L2BlockInfo.t) : op (t P B) SingleBatch.t :=
  loaded ← gets batch;
  _ ← (match loaded with
       | Some _ => mret ()
       | None =>
           b ← within prev set_prev (next_single_batch parent);
           modify (fun self => set_batch (Some b) (is_last_in_span (prev self)) self)
       end : op (t P B) ());
  b ← gets batch;
  lift (ok_or (temp PipelineError.Eof) b).

(** [AttributesQueue::create_next_attributes]. *)
Definition create_next_attributes (b : SingleBatch.t) (parent : L2BlockInfo.t)
    : op (t P B) (BasePayloadAttributes.t A) :=
  let hash := BlockInfo.hash (L2BlockInfo.block_info parent) in
  if decide (SingleBatch.parent_hash b <> hash)
  then fail (Reset (ResetError.BadParentHash (SingleBatch.parent_hash b) hash))
  else
    a ← within builder set_builder (prepare_payload_attributes parent (SingleBatch.epoch b));
    mret (append_batch b a).

(** [AttributesQueue::next_attributes]. *)
Definition queue_next_attributes (parent : L2BlockInfo.t) : op (t P B) (AttributesWithParent.t A) :=
  b ← load_batch parent;
  a ← create_next_attributes b parent;
  o ← gets (fun self => origin (prev self));
  o ← lift (ok_or (crit PipelineError.MissingOrigin) o);
  last ← gets last_in_span;
  _ ← modify (set_batch None false);
  mret (AttributesWithParent.mk a parent (Some o) last).

#[global] Instance next_attributes_instance : NextAttributes A (t P B) := queue_next_attributes.

(** [flush_channel] leaves [is_last_in_span]. *)
#[global] Instance stage : Stage (t P B) := {
  stage_origin self := origin (prev self);
  stage_advancer := within prev set_prev advance_origin;
  stage_reset := {|
    reset l1_origin c := _ ← within prev set_prev (reset l1_origin c); modify (set_batch None false);
    activate := _ ← within prev set_prev activate; modify (set_batch None false);
    flush_channel :=
      _ ← modify (fun self => set_batch None (last_in_span self) self);
      within prev set_prev flush_channel
  |}
}.

(** ** From a batch to its attributes *)

(** The attributes of a batch made from a template: the transactions of the template
    come first and those of the batch after them, the list is absent only when there
    are none of either, the transaction pool is disabled, and the rest is that of the
    template. *)
Record attributes_of (b : SingleBatch.t) (template a : BasePayloadAttributes.t A) : Prop := {
  at_transactions : default [] (BasePayloadAttributes.transactions a) =
    default [] (BasePayloadAttributes.transactions template) ++ SingleBatch.transactions b;
  at_absent : BasePayloadAttributes.transactions a = None <->
    BasePayloadAttributes.transactions template = None /\ SingleBatch.transactions b = [];
  at_pool : BasePayloadAttributes.no_tx_pool a = Some true;
  at_payload : BasePayloadAttributes.payload_attributes a = BasePayloadAttributes.payload_attributes template;
  at_gas_limit : BasePayloadAttributes.gas_limit a = BasePayloadAttributes.gas_limit template;
  at_eip_1559 : BasePayloadAttributes.eip_1559_params a = BasePayloadAttributes.eip_1559_params template;
  at_min_base_fee : BasePayloadAttributes.min_base_fee a = BasePayloadAttributes.min_base_fee template
}.

Lemma append_batch_attributes b template : attributes_of b template (append_batch b template).
Proof.
  split; try done; cbn; destruct (BasePayloadAttributes.transactions template) as [txs|]; cbn; try done.
  - by case_bool_decide as E; [rewrite E|].
  - by split; [|intros []].
  - case_bool_decide as E; [by rewrite E|]. split; [done|by intros []].
Qed.

Context `{!LinkedBatches P}.

(** With a batch loaded every call goes straight to the builder. *)
Lemma next_loaded parent (self : t P B) b o r bl :
  batch self = Some b -> SingleBatch.parent_hash b = BlockInfo.hash (L2BlockInfo.block_info parent) ->
  origin (prev self) = Some o ->
  prepare_payload_attributes parent (SingleBatch.epoch b) (builder self) = (r, bl) ->
  queue_next_attributes parent self =
    match r with
    | Ok a => (Ok (AttributesWithParent.mk (append_batch b a) parent (Some o) (last_in_span self)),
               set_batch None false (set_builder bl self))
    | Err e => (Err e, set_builder bl self)
    | Panic => (Panic, set_builder bl self)
    end.
Proof.
  intros Hb Hh Ho Hr. unfold queue_next_attributes, load_batch, create_next_attributes. run_ops.
  rewrite Hb. cbn beta iota. rewrite Hb. cbn [ok_or]. rewrite decide_False by auto. rewrite Hr.
  destruct r; [|done|done]. cbn [prev set_builder]. by rewrite Ho.
Qed.

Lemma calls_loaded parent es (self : t P B) b o a bl :
  batch self = Some b -> SingleBatch.parent_hash b = BlockInfo.hash (L2BlockInfo.block_info parent) ->
  origin (prev self) = Some o ->
  calls (S (length es)) (prepare_payload_attributes parent (SingleBatch.epoch b)) (builder self) =
    ((Err <$> es) ++ [Ok a], bl) ->
  calls (S (length es)) (queue_next_attributes parent) self =
    ((Err <$> es) ++ [Ok (AttributesWithParent.mk (append_batch b a) parent (Some o) (last_in_span self))],
     set_batch None false (set_builder bl self)).
Proof.
  intros Hb Hh Ho. revert self Hb Ho. induction es as [|e es IH]; intros self Hb Ho;
    rewrite !calls_S; destruct (prepare_payload_attributes parent _ (builder self)) as [r bl1] eqn:Hp;
    rewrite (next_loaded parent self b o r bl1) by done.
  - cbn. intros [= -> ->]. done.
  - cbn [length]. rewrite !fmap_cons.
    destruct (calls (S (length es)) (prepare_payload_attributes _ _) bl1) as [rs bl2] eqn:Hrest.
    intros [= -> -> ->]. rewrite (IH (set_builder bl1 self)) by done. done.
Qed.

(** C13: a batch becomes attributes exactly once, however often the builder fails.
    When the stage before hands out a batch for the parent and the builder fails
    any number of times before it prepares a template, the calls report these
    failures and then return attributes whose transactions are those of the template
    followed by those of the batch, with the transaction pool disabled and the other
    fields those of the template.  The batch is pulled once, no call is refused for a
    wrong parent hash, and afterwards none is held. *)
Theorem batch_becomes_attributes parent (self : t P B) b p o es template bl :
  batch self = None -> next_single_batch parent (prev self) = (Ok b, p) -> origin p = Some o ->
  calls (S (length es)) (prepare_payload_attributes parent (SingleBatch.epoch b)) (builder self) =
    ((Err <$> es) ++ [Ok template], bl) ->
  exists a, attributes_of b template a /\
    calls (S (length es)) (next_attributes parent) self =
      ((Err <$> es) ++ [Ok (AttributesWithParent.mk a parent (Some o) (is_last_in_span p))],
       mk (cfg self) p false None bl).
Proof.
  intros Hb Hn Ho Hc. exists (append_batch b template). split; [apply append_batch_attributes|].
  pose proof (next_single_batch_linked _ _ _ _ Hn) as Hh.
  set (loaded := set_batch (Some b) (is_last_in_span p) (set_prev p self)).
  rewrite (calls_S (length es)).
  assert (next_attributes parent self = next_attributes parent loaded) as ->.
  { unfold next_attributes, next_attributes_instance, queue_next_attributes, load_batch. run_ops.
    rewrite Hb, Hn. done. }
  rewrite <- calls_S. exact (calls_loaded parent es loaded b o template bl eq_refl Hh Ho Hc).
Qed.

End Queue.

(** A builder that answers from a list. *)
#[global] Instance script_builder {A} : AttributesBuilder A (Script.t (BasePayloadAttributes.t A)) := {
  seed_parent_system_config _ _ self := self;
  prepare_payload_attributes _ _ := Script.pop
}.

Definition sample_template : BasePayloadAttributes.t () :=
  BasePayloadAttributes.mk () (Some [[Byte.x7e]]) None None None None.

(** The builder fails once on a batch of the batch queue. *)
Lemma batch_becomes_attributes_witness :
  let queue := BatchQueue.sample_queue sample_config [BatchSingle SingleBatch.sample_batch] in
  let provider := @BatchQueue.attributes_provider _ _ Script.stage Script.batches StaticChain.provider
    (∅ : Registry.t) in
  let stage := @BatchQueue.stage _ StaticChain.t Script.stage in
  let self := new sample_config queue
    (Script.mk None [Err (temp PipelineError.NotEnoughData); Ok sample_template]) in
  exists a, BasePayloadAttributes.transactions a = Some ([Byte.x7e] :: SingleBatch.transactions SingleBatch.sample_batch) /\
    BasePayloadAttributes.no_tx_pool a = Some true /\
    (calls 2 (@next_attributes _ _ (@next_attributes_instance () _ _ stage provider script_builder)
       SingleBatch.sample_head) self).1 =
    [Err (temp PipelineError.NotEnoughData);
     Ok (AttributesWithParent.mk a SingleBatch.sample_head (Some SingleBatch.sample_origin) true)].
Proof.
  intros queue provider stage self.
  pose (p := (@next_single_batch _ provider SingleBatch.sample_head queue).2).
  destruct (@batch_becomes_attributes () _ _ stage provider script_builder
    (@BatchQueue.linked _ _ Script.stage Script.batches StaticChain.provider (∅ : Registry.t))
    SingleBatch.sample_head self SingleBatch.sample_batch p SingleBatch.sample_origin
    [temp PipelineError.NotEnoughData] sample_template (Script.mk None [])
    eq_refl ltac:(vm_compute; reflexivity) ltac:(vm_compute; reflexivity) eq_refl) as (a & Ha & Hc).
  exists a. split; [|split; [exact (at_pool _ _ _ Ha)|exact (f_equal fst Hc)]].
  pose proof (at_transactions _ _ _ Ha) as Ht. destruct (BasePayloadAttributes.transactions a); [|discriminate Ht].
  cbn in Ht. by rewrite Ht.
Defined.

End AttributesQueue.
