(* ===== verification/Derivation.v ===== *)
(** * The derivation pipeline

    Models [src/crates/consensus/derive/src/pipeline/core.rs] with the signals and
    step results of [.../types]: the reset that walks the L2 chain back by one
    channel timeout, the signals, and the step that prepares attributes or
    advances the L1 origin. *)

From S2P Require Import Prelude Effects Primitives Upgrades SystemConfig Rollup SingleBatches Pipeline StageModels BatchValidators Attributes.

(** [Signal]; the reset and activation signals carry the L2 safe head. *)
Inductive Signal : Type :=
| SignalReset (l2_safe_head : L2BlockInfo.t)
| SignalActivation (l2_safe_head : L2BlockInfo.t)
| SignalFlushChannel.

(** [StepResult]. *)
Inductive StepResult : Type :=
| PreparedAttributes
| AdvancedOrigin
| OriginAdvanceErr (e : PipelineErrorKind)
| StepFailed (e : PipelineErrorKind).

Module DerivationPipeline.

Record t (A S F : Type) : Type := mk {
  attributes : S;
  prepared : list (AttributesWithParent.t A);
  rollup_config : RollupConfig.t;
  l2_chain_provider : F
}.
Arguments mk {A S F}.
Arguments attributes {A S F}.
Arguments prepared {A S F}.
Arguments rollup_config {A S F}.
Arguments l2_chain_provider {A S F}.

Section Pipeline.
Context {A P F : Type} `{Stage P} `{NextAttributes A P} `{L2ChainProvider F} `{RuntimeUpgradeRegistry}.

Definition set_attributes (s : P) (self : t A P F) : t A P F :=
  mk s (prepared self) (rollup_config self) (l2_chain_provider self).
Definition set_prepared (l : list (AttributesWithParent.t A)) (self : t A P F) : t A P F :=
  mk (attributes self) l (rollup_config self) (l2_chain_provider self).

(** [DerivationPipeline::new]. *)
Definition new (s : P) (c : RollupConfig.t) (f : F) : t A P F := mk s [] c f.

(** The channel timeout [initial_reset] walks back by: the one at the lower bound
    of the L1 origin's time. *)
Definition reset_timeout (c : RollupConfig.t) (l2_safe_head : L2BlockInfo.t) : Z :=
  let ts := BlockInfo.timestamp (L2BlockInfo.block_info l2_safe_head) in
  RollupConfig.channel_timeout c (u64_saturating_sub ts (RollupConfig.max_sequencer_drift c ts)).

(** The walk back ends at genesis, or at a block whose L1 origin is a channel
    timeout behind. *)
Definition far_enough (c : RollupConfig.t) (timeout l1_origin_number : Z) (b : L2BlockInfo.t) : bool :=
  bool_decide (BlockInfo.number (L2BlockInfo.block_info b)
               = BlockNumHash.number (ChainGenesis.l2 (RollupConfig.genesis c)))
  || bool_decide (u64_add (BlockNumHash.number (L2BlockInfo.l1_origin b)) timeout <= l1_origin_number).

(** The loop of [initial_reset].  A chain of parents from block [n] is at most
    [n + 1] blocks long. *)
Fixpoint walk_back (fuel : nat) (f : F) (stop : L2BlockInfo.t -> bool) (current : L2BlockInfo.t)
    : result PipelineErrorKind L2BlockInfo.t :=
  match fuel with
  | O => Panic
  | S fuel =>
      if stop current then Ok current
      else
        parent ← l2_block_info_by_hash f (BlockInfo.parent_hash (L2BlockInfo.block_info current));
        walk_back fuel f stop parent
  end.

(** [DerivationPipeline::initial_reset]. *)
Definition initial_reset (self : t A P F) (l2_safe_head : L2BlockInfo.t)
    : result PipelineErrorKind (BlockNumHash.t * SystemConfig.t) :=
  let c := rollup_config self in
  let f := l2_chain_provider self in
  current ← walk_back (S (Z.to_nat (BlockInfo.number (L2BlockInfo.block_info l2_safe_head)))) f
    (far_enough c (reset_timeout c l2_safe_head) (BlockNumHash.number (L2BlockInfo.l1_origin l2_safe_head)))
    l2_safe_head;
  system_config ← system_config_by_l2_hash f (BlockInfo.hash (L2BlockInfo.block_info current)) c;
  Ok (L2BlockInfo.l1_origin current, system_config).

(** A stage call whose [Eof] counts as success. *)
Definition tolerate_eof (m : op P ()) : op (t A P F) () :=
  r ← attempt (within attributes set_attributes m);
  match r with
  | inr _ => mret ()
  | inl e => if is_eof e then mret () else fail e
  end.

(** [SignalReceiver::signal]. *)
Definition signal (s : Signal) : op (t A P F) () :=
  match s with
  | SignalReset l2_safe_head => fun self =>
      match initial_reset self l2_safe_head with
      | Ok (l1_origin, system_config) => tolerate_eof (reset l1_origin system_config) self
      | Err e => (Err e, self)
      | Panic => (Panic, self)
      end
  | SignalActivation _ => tolerate_eof activate
  | SignalFlushChannel => within attributes set_attributes flush_channel
  end.

(** [Iterator::next], [Pipeline::peek]. *)
Definition next (self : t A P F) : option (AttributesWithParent.t A) * t A P F :=
  match prepared self with
  | [] => (None, self)
  | a :: l => (Some a, set_prepared l self)
  end.

Definition peek (self : t A P F) : option (AttributesWithParent.t A) := head (prepared self).

(** [Pipeline::system_config_by_l2_hash]. *)
Definition config_by_l2_hash (self : t A P F) (hash : B256) : result PipelineErrorKind SystemConfig.t :=
  system_config_by_l2_hash (l2_chain_provider self) hash (rollup_config self).

(** [Pipeline::step]; [Panic] is a panic of a stage. *)
Definition step (cursor : L2BlockInfo.t) (self : t A P F) : result Empty_set StepResult * t A P F :=
  match within attributes set_attributes (next_attributes cursor) self with
  | (Ok a, self) => (Ok PreparedAttributes, set_prepared (prepared self ++ [a]) self)
  | (Panic, self) => (Panic, self)
  | (Err e, self) =>
      if is_eof e then
        match within attributes set_attributes advance_origin self with
        | (Ok _, self) => (Ok AdvancedOrigin, self)
        | (Err e, self) => (Ok (OriginAdvanceErr e), self)
        | (Panic, self) => (Panic, self)
        end
      else (Ok (StepFailed e), self)
  end.

End Pipeline.

(** ** The walk back *)

(** What the provider [f] promises: a lookup by hash returns a block it has, the
    number of such a block is one more than its parent's, and lookups fail
    without a panic. *)
Class L2ChainLaws {F : Type} `{L2ChainProvider F} (f : F) : Type := {
  has_block : L2BlockInfo.t -> Prop;
  lookup_has_block h b : l2_block_info_by_hash f h = Ok b -> has_block b;
  parent_number b p :
    has_block b ->
    l2_block_info_by_hash f (BlockInfo.parent_hash (L2BlockInfo.block_info b)) = Ok p ->
    0 <= BlockInfo.number (L2BlockInfo.block_info p) /\
    BlockInfo.number (L2BlockInfo.block_info p) + 1 = BlockInfo.number (L2BlockInfo.block_info b);
  lookup_no_panic h : l2_block_info_by_hash f h <> Panic;
  config_no_panic h c : system_config_by_l2_hash f h c <> Panic
}.

(** [reaches f stop b b']: from [b] back along the parents, [b'] is the first
    block where the walk may stop. *)
Inductive reaches {F} `{L2ChainProvider F} (f : F) (stop : L2BlockInfo.t -> Prop)
    : L2BlockInfo.t -> L2BlockInfo.t -> Prop :=
| reaches_here b : stop b -> reaches f stop b b
| reaches_back b p b' :
    ~ stop b ->
    l2_block_info_by_hash f (BlockInfo.parent_hash (L2BlockInfo.block_info b)) = Ok p ->
    reaches f stop p b' -> reaches f stop b b'.

(** A block to restart from: the genesis block, or one whose L1 origin lies a
    channel timeout before the safe head's. *)
Definition restarts `{RuntimeUpgradeRegistry} (c : RollupConfig.t) (head b : L2BlockInfo.t) : Prop :=
  let ts := BlockInfo.timestamp (L2BlockInfo.block_info head) in
  let timeout := RollupConfig.channel_timeout c (Z.max (ts - RollupConfig.max_sequencer_drift c ts) 0) in
  BlockInfo.number (L2BlockInfo.block_info b) = BlockNumHash.number (ChainGenesis.l2 (RollupConfig.genesis c)) \/
  u64_add (BlockNumHash.number (L2BlockInfo.l1_origin b)) timeout
    <= BlockNumHash.number (L2BlockInfo.l1_origin head).

Section Walk.
Context {A P F : Type} `{L2ChainProvider F} `{RuntimeUpgradeRegistry}.

Lemma walk_back_total `{!L2ChainLaws f} fuel stop b :
  has_block b -> 0 <= BlockInfo.number (L2BlockInfo.block_info b) < Z.of_nat fuel ->
  walk_back fuel f stop b <> Panic.
Proof.
  revert b. induction fuel as [|fuel IH]; intros b Hb Hn; [lia|]. cbn [walk_back].
  destruct (stop b); [done|]. apply bind_no_panic; [apply lookup_no_panic|]. intros p Hp.
  destruct (parent_number b p Hb Hp). apply IH; [by eapply lookup_has_block|lia].
Qed.

Context (f : F) (stop : L2BlockInfo.t -> bool) (stop_spec : L2BlockInfo.t -> Prop).
Hypothesis Hstop : forall b, stop b = true <-> stop_spec b.

Lemma walk_back_Ok fuel b b' : walk_back fuel f stop b = Ok b' -> reaches f stop_spec b b'.
Proof.
  revert b. induction fuel as [|fuel IH]; intros b; [done|]. cbn [walk_back].
  destruct (stop b) eqn:Hs; [intros [= <-]; constructor; by apply Hstop|].
  intros (p & Hp & Hw)%bind_Ok. econstructor; [by rewrite <- Hstop, Hs|by eauto..].
Qed.

Lemma reaches_walk_back `{!L2ChainLaws f} fuel b b' :
  has_block b -> 0 <= BlockInfo.number (L2BlockInfo.block_info b) < Z.of_nat fuel ->
  reaches f stop_spec b b' -> walk_back fuel f stop b = Ok b'.
Proof.
  intros Hb Hn Hr. revert fuel Hb Hn.
  induction Hr as [b Hs|b p b' Hs Hp _ IH]; intros [|fuel] Hb Hn; try lia; cbn [walk_back].
  { apply Hstop in Hs. by rewrite Hs. }
  rewrite <- Hstop, not_true_iff_false in Hs. rewrite Hs, Hp. destruct (parent_number b p Hb Hp). apply IH; [by eapply lookup_has_block|lia].
Qed.

End Walk.

Section Restart.
Context {A P F : Type} `{L2ChainProvider F} `{RuntimeUpgradeRegistry}.

Lemma far_enough_restarts c head b :
  far_enough c (reset_timeout c head) (BlockNumHash.number (L2BlockInfo.l1_origin head)) b = true <->
  restarts c head b.
Proof. unfold far_enough, restarts. by rewrite orb_true_iff, !bool_decide_eq_true. Qed.

(** C16: resetting the pipeline finds the right place to restart.  From a safe
    head the provider has, the walk back ends within its fuel.  It returns the
    L1 origin and the system config of a block exactly when that block is the
    first one, going back from the safe head, that is the genesis block or has
    an L1 origin at least a channel timeout before the safe head's, and any
    failure is one of the provider.  (The comment on [initial_reset] says "at
    most" a channel timeout behind, which the safe head itself satisfies.) *)
Theorem initial_reset_restarts (self : t A P F) (head : L2BlockInfo.t)
    `{!L2ChainLaws (l2_chain_provider self)} :
  let f := l2_chain_provider self in let c := rollup_config self in
  has_block head -> 0 <= BlockInfo.number (L2BlockInfo.block_info head) ->
  initial_reset self head <> Panic /\
  forall l1_origin system_config,
    initial_reset self head = Ok (l1_origin, system_config) <->
    exists b, reaches f (restarts c head) head b /\ l1_origin = L2BlockInfo.l1_origin b /\
      system_config_by_l2_hash f (BlockInfo.hash (L2BlockInfo.block_info b)) c = Ok system_config.
Proof.
  intros f c Hb Hn. unfold initial_reset. fold f c. pose proof (far_enough_restarts c head) as Hstop. split.
  - apply bind_no_panic; [apply walk_back_total; [done|lia]|]. intros b _.
    apply bind_no_panic; [apply config_no_panic|]. done.
  - intros l1_origin system_config. split.
    + intros (b & Hw & Hc)%bind_Ok. apply bind_Ok in Hc as (sc & Hsc & [= <- <-]).
      exists b. split_and!; [by eapply walk_back_Ok|done..].
    + intros (b & Hr & -> & Hsc). rewrite (reaches_walk_back f _ _ Hstop _ head b) by (done || lia).
      cbn [mbind result_bind]. by rewrite Hsc.
Qed.

End Restart.

(** Three blocks, of which the last has an L1 origin far from the others. *)
Definition sample_block (x : byte) (number : Z) (parent : byte) (l1_origin : Z) : L2BlockInfo.t :=
  L2BlockInfo.mk (BlockInfo.mk (BatchValidator.sample_hash x) number (BatchValidator.sample_hash parent)
                    (1000 + 2 * (number - 100)))
    (BlockNumHash.mk l1_origin (zeros 32)) 0.

Definition sample_chain : StaticChain.t := StaticChain.mk
  [(sample_block Byte.x00 100 Byte.xff 7, SystemConfig.default);
   (sample_block Byte.x01 101 Byte.x00 7, SystemConfig.default);
   (sample_block Byte.x02 102 Byte.x01 400, SystemConfig.default)].

#[global] Instance sample_chain_laws : L2ChainLaws sample_chain.
Proof.
  refine {| has_block b := b ∈ (StaticChain.blocks sample_chain).*1 |}.
  - intros h b Hb. cbn in Hb. cbn. rewrite !elem_of_cons.
    repeat (case_match; [injection Hb as <-; tauto|]). done.
  - intros b p Hb. cbn in Hb. rewrite !elem_of_cons, elem_of_nil in Hb.
    destruct Hb as [->|[->|[->|[]]]]; intros Hp; vm_compute in Hp; [done|injection Hp as <-; by vm_compute..].
  - intros h. cbn. by repeat case_match.
  - intros h c. cbn. by repeat case_match.
Defined.

Lemma initial_reset_restarts_witness :
  let self := @new () () StaticChain.t () sample_config sample_chain in
  @initial_reset _ _ _ StaticChain.provider (∅ : Registry.t) self (sample_block Byte.x02 102 Byte.x01 400) =
  Ok (BlockNumHash.mk 7 (zeros 32), SystemConfig.default).
Proof.
  intros self.
  apply (@initial_reset_restarts () () StaticChain.t StaticChain.provider (∅ : Registry.t) self
    (sample_block Byte.x02 102 Byte.x01 400) sample_chain_laws).
  - do 2 right. left.
  - by vm_compute.
  - exists (sample_block Byte.x01 101 Byte.x00 7). split; [|split; [reflexivity|vm_compute; reflexivity]].
    eapply reaches_back; [intros [Hg|Ht]; vm_compute in *; congruence|vm_compute; reflexivity|].
    apply reaches_here. right. by vm_compute.
Defined.

End DerivationPipeline.
