(* ===== verification/Composition.v ===== *)
(** * The stages together

    Composes the stages of the pipeline as
    [src/crates/consensus/derive/src/pipeline/types.rs] stacks them: the data of a
    batcher transaction comes out of the frame queue, the channel assembler and
    the channel reader as the batches that were put into the channel. *)

From S2P Require Import Prelude Effects Primitives Frames Channels Upgrades SystemConfig Rollup SingleBatches SpanBits SpanTxData SpanTxs CodecModels SpanCodec Pipeline StageModels Traversal FrameQueues ChannelBanks ChannelAssemblers ChannelStages Brotlis BatchReaders BatchStreams BatchProviders Attributes.

(** ** The stack *)

Definition L1RetrievalStage (D T : Type) : Type := L1Retrieval.t D T.
Definition FrameQueueStage (D T : Type) : Type := FrameQueue.t (L1RetrievalStage D T).
Definition ChannelProviderStage (D T : Type) : Type := ChannelProvider.t (FrameQueueStage D T).
Definition ChannelReaderStage (D T : Type) : Type := ChannelReader.t (ChannelProviderStage D T).
Definition BatchStreamStage (D T F : Type) : Type := BatchStream.t (ChannelReaderStage D T) F.
Definition BatchProviderStage (D T F : Type) : Type := BatchProvider.t (BatchStreamStage D T F) F.
Definition AttributesQueueStage (D T F B : Type) : Type := AttributesQueue.t (BatchProviderStage D T F) B.
Definition PolledAttributesQueueStage (D L F B : Type) : Type :=
  AttributesQueueStage D (PollingTraversal.t L) F B.

(** ** From a batcher transaction to its batches *)

Section Reading.
Context {P : Type} `{Stage P} `{ChannelReaderProvider P} `{RuntimeUpgradeRegistry}.
Context `{TxTypes} `{!Rlp} `{!Varint} `{!Envelope} `{SingleBatchRlp} `{Zlib} `{BrotliDecoder}.

(** While there is no channel the reader passes the error on. *)
Lemma reader_waits k e (self : ChannelReader.t P) p :
  ChannelReader.next_batch self = None ->
  calls k next_channel_data (ChannelReader.prev self) = (replicate k (Err e), p) ->
  calls k stream_next_batch self = (replicate k (Err e), ChannelReader.set_prev p self).
Proof.
  revert self. induction k as [|k IH]; intros self Hn; cbn [replicate].
  - cbn. intros [= <-]. by destruct self.
  - rewrite !calls_S. destruct (next_channel_data (ChannelReader.prev self)) as [r p1] eqn:Hp.
    destruct (calls k next_channel_data p1) as [rs p2] eqn:Hk. intros [= -> -> ->].
    assert (stream_next_batch self = (Err e, ChannelReader.set_prev p1 self)) as ->.
    { cbn [stream_next_batch ChannelReader.batch_stream_provider].
      unfold ChannelReader.reader_next_batch, ChannelReader.set_batch_reader, ChannelReader.next_channel.
      run_ops. rewrite Hn, Hp. destruct self. cbn in *. by subst. }
    by rewrite (IH (ChannelReader.set_prev p1 self)).
Qed.

End Reading.

Section Transaction.
Context {P : Type} `{Stage P} `{FrameQueueProvider P} `{RuntimeUpgradeRegistry}.
Context `{TxTypes} `{!Rlp} `{!RlpLaws} `{!Varint} `{!Envelope} `{SingleBatchRlp} `{Zlib} `{BrotliDecoder}.

(** C1: what the batcher puts into a transaction is what derivation takes out.
    When the next transaction is the encoding of the frames of a channel in
    order, within the limits of size and time, and the concatenated payloads
    decompress to the encodings of some batches (possibly cut off or corrupt
    after them), then the channel reader on top of the channel assembler and the
    frame queue asks for more data for every frame but the last, then delivers
    exactly these batches in order, and then asks for more data again; whatever
    was being assembled before, all three stages end up empty. *)
Theorem transaction_to_batches
    (self : ChannelReader.t (ChannelAssembler.t (FrameQueue.t P))) st o i fs p payloads bs rest r :
  let assembler := ChannelReader.prev self in let q := ChannelAssembler.prev assembler in
  let fjord := RollupConfig.is_fjord_active (ChannelReader.cfg self) (BlockInfo.timestamp o) in
  ChannelReader.next_batch self = None ->
  ChannelAssembler.represents st (ChannelAssembler.channel assembler) -> FrameQueue.queue q = [] ->
  origin (FrameQueue.prev q) = Some o -> origin p = Some o ->
  Pipeline.next_data (FrameQueue.prev q) =
    (Ok (DERIVATION_VERSION_0 :: concat (map Frame.encode fs)), p) ->
  Channel.numbered i fs -> fs <> [] -> Forall Frame.sendable fs -> len fs <= u16_max ->
  sumZ Frame.size fs <= ChannelAssembler.max_rlp_bytes_per_channel (ChannelAssembler.cfg assembler) o ->
  0 <= BlockInfo.number o ->
  0 <= RollupConfig.channel_timeout (ChannelAssembler.cfg assembler) (BlockInfo.timestamp o) ->
  BlockInfo.number o + RollupConfig.channel_timeout (ChannelAssembler.cfg assembler) (BlockInfo.timestamp o)
    <= u64_max ->
  BatchReader.decompress (BatchReader.new (concat (Frame.data <$> fs))
    (ChannelReader.max_rlp_bytes_per_channel fjord) fjord) = (Ok (), r) ->
  BatchReader.decompressed r = ChannelReader.entries payloads ++ rest ->
  len (BatchReader.decompressed r) < 2 ^ 64 ->
  Forall2 (ChannelReader.carries (ChannelReader.cfg self)) payloads bs ->
  ChannelReader.unreadable (ChannelReader.cfg self) rest ->
  exists assembler',
    calls (length fs + length bs) stream_next_batch self =
      (replicate (pred (length fs)) (Err (temp PipelineError.NotEnoughData)) ++ (Ok <$> bs) ++
         [Err (temp PipelineError.NotEnoughData)],
       ChannelReader.new assembler' (ChannelReader.cfg self)) /\
    ChannelAssembler.channel assembler' = None /\
    ChannelAssembler.prev assembler' = FrameQueue.mk p [] (FrameQueue.rollup_config q).
Proof.
  intros assembler q fjord Hnone Hst Hq Ho Hop Hdata Hfs Hne Hsend Hl Hsize Hn Ht Hm Hdec Hout Hfits Hbs Hrest.
  destruct (transaction_to_channel assembler st o i fs p) as (assembler' & Hcalls & Hch & Hp); [done..|].
  exists assembler'. split; [|done].
  assert (length fs = pred (length fs) + 1)%nat as Hlen by (destruct fs; [done|cbn; lia]).
  rewrite Hlen in Hcalls at 1. rewrite calls_app in Hcalls.
  destruct (calls (pred (length fs)) next_channel_data assembler) as [rs a1] eqn:Hwait. cbn in Hcalls.
  destruct (next_channel_data a1) as [last a2] eqn:Hlast. injection Hcalls as Hrs ->.
  apply app_inj_tail in Hrs as [-> ->].
  replace (length fs + length bs)%nat with (pred (length fs) + S (length bs))%nat by lia.
  rewrite calls_app, (reader_waits _ _ self a1 Hnone Hwait).
  rewrite (ChannelReader.read_channel (ChannelReader.set_prev a1 self) o (concat (Frame.data <$> fs)) assembler'
    payloads bs rest r); [done|done|done| |done..].
  change (origin assembler') with (origin (FrameQueue.prev (ChannelAssembler.prev assembler'))).
  by rewrite Hp.
Qed.

End Transaction.

(** The sample channel in two frames: two batches and a cut off third. *)
Definition sample_split : list Frame.t :=
  [Frame.mk (zeros 16) 0 (take 100 ChannelReader.sample_channel) false;
   Frame.mk (zeros 16) 1 (drop 100 ChannelReader.sample_channel) true].

Definition sample_transaction : bytes := DERIVATION_VERSION_0 :: concat (map Frame.encode sample_split).

Lemma transaction_to_batches_witness :
  let queue := FrameQueue.mk (Script.mk (Some BlockInfo.default) [Ok sample_transaction]) []
    RollupConfig.default in
  let stage := @FrameQueue.stage _ Script.stage in
  let frames := @FrameQueue.next_frame_provider _ Script.stage Script.data (∅ : Registry.t) in
  let channels := @ChannelAssembler.channel_reader_provider _ stage frames (∅ : Registry.t) in
  let batches := @ChannelReader.batch_stream_provider _ (@ChannelAssembler.stage _ stage) channels
    (∅ : Registry.t) plain_types model_rlp leb128 model_envelope ChannelReader.model_single
    ChannelReader.stored_zlib Stored.decoder in
  let self := ChannelReader.new (ChannelAssembler.new RollupConfig.default queue) RollupConfig.default in
  let bs := [BatchSingle SingleBatch.sample_batch; BatchSingle SingleBatch.sample_batch] in
  (calls (length sample_split + length bs) (@stream_next_batch _ batches) self).1 =
    [Err (temp PipelineError.NotEnoughData); Ok (BatchSingle SingleBatch.sample_batch);
     Ok (BatchSingle SingleBatch.sample_batch); Err (temp PipelineError.NotEnoughData)].
Proof.
  intros queue stage frames channels batches self bs.
  destruct (@transaction_to_batches _ Script.stage Script.data (∅ : Registry.t) plain_types model_rlp
    model_rlp_laws leb128 model_envelope ChannelReader.model_single ChannelReader.stored_zlib Stored.decoder
    self None BlockInfo.default (zeros 16) sample_split (Script.mk (Some BlockInfo.default) [])
    [ChannelReader.sample_payload; ChannelReader.sample_payload] bs [Byte.x80]
    (BatchReader.mk None (tail ChannelReader.sample_channel) 0
       RollupConfig.MAX_RLP_BYTES_PER_CHANNEL_BEDROCK false false)) as (assembler' & Hcalls & _).
  - reflexivity.
  - exact I.
  - reflexivity.
  - reflexivity.
  - reflexivity.
  - reflexivity.
  - intros [|[|k]] f [= <-]; repeat split.
  - discriminate.
  - repeat constructor; by vm_compute.
  - by vm_compute.
  - by vm_compute.
  - by vm_compute.
  - by vm_compute.
  - by vm_compute.
  - vm_compute. reflexivity.
  - vm_compute. reflexivity.
  - vm_compute. reflexivity.
  - constructor; [exact ChannelReader.sample_carried|].
    constructor; [exact ChannelReader.sample_carried|constructor].
  - exact ChannelReader.sample_unreadable.
  - exact (f_equal fst Hcalls).
Defined.
