(* ===== verification/Tries.v ===== *)
(** * The Merkle Patricia trie

    [proof/mpt/src/node.rs], [errors.rs] and the path helper of [util.rs]: the
    nodes of a partially revealed trie, their RLP encoding and commitment, and
    the operations [open], [insert] and [delete], which fetch the blinded nodes
    they meet.  The semantics of a fully revealed trie is [get]. *)

From S2P Require Import Prelude Effects Primitives SpanTxData.

(** [Nibbles] of [alloy_trie]: a sequence of bytes below 16. *)
Abbreviation Nibbles := bytes (only parsing).

(** A nibble [as usize], and an index [as u8]. *)
Definition nibble_index (b : byte) : nat := Z.to_nat (byte.unsigned b).
Definition index_nibble (i : nat) : byte := byte.of_Z (Z.of_nat i).

Definition is_nibble (b : byte) : bool := bool_decide (nibble_index b < 16)%nat.
Definition nibbles_ok (p : Nibbles) : bool := forallb is_nibble p.

(** [Nibbles::common_prefix_length]. *)
Fixpoint common_prefix_length (p q : Nibbles) : nat :=
  match p, q with
  | a :: p, b :: q => if decide (a = b) then S (common_prefix_length p q) else 0
  | _, _ => 0
  end.

(** [keccak256] of [alloy_primitives]. *)
Class Keccak : Type := keccak256 : bytes -> B256.

(** The errors of [alloy_rlp] that the node decoder raises itself; [Malformed]
    stands for one that comes from the library's own decoders. *)
Inductive RlpError : Type := UnexpectedString | UnexpectedLength | UnexpectedList | Malformed.

(** What the trie uses of [alloy_rlp] and [alloy_trie]: RLP headers, byte
    strings and lists, and the compact encoding of a path. *)
Class TrieRlp : Type := {
  encode_header : RlpHeader.t -> bytes;
  length_of_header : RlpHeader.t -> Z;
  decode_header : bytes -> option (RlpHeader.t * bytes);
  length_of_length : Z -> Z;
  encode_string : bytes -> bytes;
  string_length : bytes -> Z;
  decode_string : bytes -> option (bytes * bytes);
  decode_b256 : bytes -> option (B256 * bytes);
  decode_vec {A} : (bytes -> result RlpError (A * bytes)) -> bytes -> result RlpError (list A * bytes);
  encode_path_leaf : Nibbles -> bool -> bytes
}.

Inductive TrieNodeError : Type :=
| InvalidNodeType
| PathTooShort
| RLPError (e : RlpError)
| KeyNotFound
| Provider (e : string).

Module TrieNode.

#[warnings="-register-all"]
Inductive t : Type :=
| Empty
| Blinded (commitment : B256)
| Leaf (prefix : Nibbles) (value : bytes)
| Extension (prefix : Nibbles) (node : t)
| Branch (stack : list t).

Definition BRANCH_LIST_LENGTH : nat := 17.
Definition LEAF_OR_EXTENSION_LIST_LENGTH : Z := 2.

Definition new_blinded (commitment : B256) : t := Blinded commitment.

(** *** Encoding *)

Section Encoding.
Context `{Keccak} `{TrieRlp}.

(** [alloy_trie::EMPTY_ROOT_HASH]: the hash of the empty string code. *)
Definition EMPTY_ROOT_HASH : B256 := keccak256 [Byte.x80].

Definition encoded_key_length (prefix : Nibbles) : Z :=
  let encoded_key_len := len prefix / 2 + 1 in
  if decide (encoded_key_len <> 1)
  then encoded_key_len + length_of_length encoded_key_len
  else encoded_key_len.

(** [length] and [blinded_length] of a node from its payload length. *)
Definition length_of (payload_length : Z) (self : t) : Z :=
  match self with
  | Empty => 1
  | Blinded commitment => string_length commitment
  | _ => length_of_header (RlpHeader.mk true payload_length) + payload_length
  end.

Definition blinded_of (encoded_len : Z) : Z :=
  if decide (len B256_ZERO <= encoded_len) then string_length B256_ZERO else encoded_len.

Fixpoint payload_length (self : t) : Z :=
  match self with
  | Empty => 0
  | Blinded commitment => len commitment
  | Leaf prefix value => encoded_key_length prefix + string_length value
  | Extension prefix node =>
      encoded_key_length prefix + blinded_of (length_of (payload_length node) node)
  | Branch stack =>
      fold_left (fun acc node => acc + blinded_of (length_of (payload_length node) node)) stack 0
  end.

Definition node_length (self : t) : Z := length_of (payload_length self) self.
Definition blinded_length (self : t) : Z := blinded_of (node_length self).

(** [blind] of a node whose encoding is [rlp_buf]. *)
Definition blind_of (rlp_buf : bytes) (self : t) : B256 :=
  match self with
  | Blinded commitment => commitment
  | Empty => EMPTY_ROOT_HASH
  | _ => keccak256 rlp_buf
  end.

(** An element of a branch, or the pointer of an extension. *)
Definition encode_pointer (rlp_buf : bytes) (node : t) : bytes :=
  if decide (len B256_ZERO <= node_length node)
  then encode_string (blind_of rlp_buf node)
  else rlp_buf.

Fixpoint encode (self : t) : bytes :=
  match self with
  | Empty => [Byte.x80]
  | Blinded commitment => encode_string commitment
  | Leaf prefix value =>
      encode_header (RlpHeader.mk true (payload_length self)) ++ encode_string (encode_path_leaf prefix true) ++
      encode_string value
  | Extension prefix node =>
      encode_header (RlpHeader.mk true (payload_length self)) ++ encode_string (encode_path_leaf prefix false) ++
      encode_pointer (encode node) node
  | Branch stack =>
      encode_header (RlpHeader.mk true (payload_length self)) ++
      concat (map (fun node => encode_pointer (encode node) node) stack)
  end.

Definition blind (self : t) : B256 := blind_of (encode self) self.

End Encoding.

(** *** Decoding *)

Section Decoding.
Context `{TrieRlp}.

(** The loop of [rlp_list_element_length]: [while buf.len() > len_after_consume]. *)
Fixpoint count_elements (fuel : nat) (len_after_consume n : Z) (buf : bytes)
    : result RlpError Z :=
  if decide (len_after_consume < len buf) then
    match fuel with
    | O => Panic
    | S fuel =>
        '(header, buf) ← ok_or Malformed (decode_header buf);
        buf ← or_panic (slice buf (RlpHeader.payload_length header) (len buf));
        count_elements fuel len_after_consume (n + 1) buf
    end
  else Ok n.

Definition rlp_list_element_length (buf : bytes) : result RlpError Z :=
  '(header, buf) ← ok_or Malformed (decode_header buf);
  if RlpHeader.list header
  then count_elements (length buf) (u64_sub (len buf) (RlpHeader.payload_length header)) 0 buf
  else Err UnexpectedString.

(** [unpack_path_to_nibbles]: an optional first nibble, then two per byte. *)
Definition unpack_byte (b : byte) : Nibbles :=
  [byte.of_Z (Z.shiftr (byte.unsigned b) 4); byte.of_Z (Z.land (byte.unsigned b) 15)].

Definition unpack_path_to_nibbles (first : option byte) (rest : bytes) : Nibbles :=
  match first with
  | Some b => b :: flat_map unpack_byte rest
  | None => flat_map unpack_byte rest
  end.

Section Recursive.
(** [Self::decode], for the pointer of an extension. *)
Variable decode : bytes -> result RlpError (t * bytes).

Definition try_decode_leaf_or_extension_payload (buf : bytes) : result TrieNodeError (t * bytes) :=
  '(path, buf) ← map_err RLPError (ok_or Malformed (decode_string buf));
  match path with
  | [] => Err InvalidNodeType
  | first_byte :: path =>
      let first_nibble := Z.shiftr (byte.unsigned first_byte) 4 in
      if decide (first_nibble <= 3) then
        let first :=
          if decide (first_nibble = 1 \/ first_nibble = 3)
          then Some (byte.of_Z (Z.land (byte.unsigned first_byte) 15)) else None in
        if decide (first_nibble <= 1) then
          '(extension_node_value, buf) ← map_err RLPError (decode buf);
          Ok (Extension (unpack_path_to_nibbles first path) extension_node_value, buf)
        else
          '(value, buf) ← map_err RLPError (ok_or Malformed (decode_string buf));
          Ok (Leaf (unpack_path_to_nibbles first path) value, buf)
      else Err InvalidNodeType
  end.

End Recursive.

Fixpoint decode_fuel (fuel : nat) (buf : bytes) : result RlpError (t * bytes) :=
  match fuel with
  | O => Panic
  | S fuel =>
      '(header, after) ← ok_or Malformed (decode_header buf);
      if RlpHeader.list header then
        list_length ← rlp_list_element_length buf;
        if decide (list_length = Z.of_nat BRANCH_LIST_LENGTH) then
          '(stack, buf) ← decode_vec (decode_fuel fuel) buf;
          Ok (Branch stack, buf)
        else if decide (list_length = LEAF_OR_EXTENSION_LIST_LENGTH) then
          buf ← or_panic (slice buf (length_of_header header) (len buf));
          map_err (fun _ => UnexpectedList)
            (try_decode_leaf_or_extension_payload (decode_fuel fuel) buf)
        else Err UnexpectedLength
      else if decide (RlpHeader.payload_length header = 0) then
        buf ← or_panic (slice buf (length_of_header header) (len buf));
        Ok (Empty, buf)
      else if decide (RlpHeader.payload_length header = 32) then
        '(commitment, buf) ← ok_or Malformed (decode_b256 buf);
        Ok (new_blinded commitment, buf)
      else Err UnexpectedLength
  end.

(** A node is longer than the nodes it contains. *)
Definition decode (buf : bytes) : result RlpError (t * bytes) := decode_fuel (S (length buf)) buf.

End Decoding.

(** *** Operations *)

(** [TrieProvider]: preimages by commitment, with the error as a string. *)
Class TrieProvider : Type := trie_node_by_hash : B256 -> result string t.

Section Operations.
Context `{Keccak} `{TrieProvider}.

Abbreviation eff := (eff TrieNodeError t).

Definition unblind : eff () := fun self =>
  match self with
  | Blinded commitment =>
      if decide (commitment = EMPTY_ROOT_HASH) then (Ok (), Empty)
      else
        match trie_node_by_hash commitment with
        | Ok node => (Ok (), node)
        | Err e => (Err (Provider e), self)
        | Panic => (Panic, self)
        end
  | _ => (Ok (), self)
  end.

(** A method of the child [node] of an extension, and of [stack[i]] of a
    branch. *)
Definition on_node {A} (prefix : Nibbles) (node : t) (m : eff A) : result TrieNodeError A * t :=
  let '(r, node) := m node in (r, Extension prefix node).

Definition on_child {A} (stack : list t) (i : nat) (node : t) (m : eff A)
    : result TrieNodeError A * t :=
  let '(r, node) := m node in (r, Branch (<[i := node]> stack)).

Fixpoint open (fuel : nat) (path : Nibbles) : eff (option bytes) := fun self =>
  match fuel with
  | O => (Panic, self)
  | S fuel =>
      match self with
      | Branch stack =>
          match path with
          | [] => (Err PathTooShort, self)
          | nibble :: rest =>
              match stack !! nibble_index nibble with
              | Some node => on_child stack (nibble_index nibble) node (open fuel rest)
              | None => (Ok None, self)
              end
          end
      | Leaf prefix value => (Ok (if decide (path = prefix) then Some value else None), self)
      | Extension prefix node =>
          match slice path 0 (len prefix) with
          | None => (Panic, self)
          | Some start =>
              if decide (start = prefix)
              then on_node prefix node (unblind ≫= fun _ => open fuel (drop (length prefix) path))
              else (Ok None, self)
          end
      | Blinded _ => (unblind ≫= fun _ => open fuel path) self
      | Empty => (Ok None, self)
      end
  end.

(** The branch that replaces a leaf or an extension whose [prefix] leaves
    [path] at [shared]: it holds the rest of the old node and the new leaf, and
    is put below an extension when [shared] is not zero. *)
Definition split (path prefix : Nibbles) (old : Nibbles -> t) (value : bytes) (self : t)
    : result TrieNodeError () * t :=
  let shared := common_prefix_length path prefix in
  let stack := replicate BRANCH_LIST_LENGTH Empty in
  match prefix !! shared with
  | None => (Err PathTooShort, self)
  | Some extension_nibble =>
      if decide (nibble_index extension_nibble < length stack)%nat then
        let stack := <[nibble_index extension_nibble := old (drop (shared + 1) prefix)]> stack in
        match path !! shared with
        | None => (Err PathTooShort, self)
        | Some branch_nibble_new =>
            if decide (nibble_index branch_nibble_new < length stack)%nat then
              let stack :=
                <[nibble_index branch_nibble_new := Leaf (drop (shared + 1) path) value]> stack in
              (Ok (), if decide (shared = 0%nat) then Branch stack
                      else Extension (take shared path) (Branch stack))
            else (Panic, self)
        end
      else (Panic, self)
  end.

Fixpoint insert (fuel : nat) (path : Nibbles) (value : bytes) : eff () := fun self =>
  match fuel with
  | O => (Panic, self)
  | S fuel =>
      match self with
      | Empty => (Ok (), Leaf path value)
      | Leaf prefix leaf_value =>
          if decide (path = prefix) then (Ok (), Leaf prefix value)
          else split path prefix (fun rest => Leaf rest leaf_value) value self
      | Extension prefix node =>
          if decide (common_prefix_length path prefix = length prefix)
          then on_node prefix node (insert fuel (drop (length prefix) path) value)
          else split path prefix
                 (fun rest => match rest with [] => node | _ => Extension rest node end) value self
      | Branch stack =>
          match path with
          | [] => (Err PathTooShort, self)
          | nibble :: rest =>
              match stack !! nibble_index nibble with
              | Some node => on_child stack (nibble_index nibble) node (insert fuel rest value)
              | None => (Panic, self)
              end
          end
      | Blinded _ => (unblind ≫= fun _ => insert fuel path value) self
      end
  end.

Definition is_empty (node : t) : bool := match node with Empty => true | _ => false end.

(** The children that are not empty, with their indices. *)
Definition non_empty_children (stack : list t) : list (nat * t) :=
  filter (fun child => is_empty child.2 = false) (imap pair stack).

Fixpoint collapse_if_possible (fuel : nat) : eff () := fun self =>
  match self with
  | Extension prefix node =>
      match node with
      | Extension child_prefix child_node =>
          (Ok (), Extension (prefix ++ child_prefix) child_node)
      | Leaf child_prefix child_value => (Ok (), Leaf (prefix ++ child_prefix) child_value)
      | Empty => (Ok (), Empty)
      | _ => (Ok (), self)
      end
  | Branch stack =>
      match non_empty_children stack with
      | [(index, non_empty_node)] =>
          match non_empty_node with
          | Leaf prefix value => (Ok (), Leaf (index_nibble index :: prefix) value)
          | Extension prefix node => (Ok (), Extension (index_nibble index :: prefix) node)
          | Branch _ => (Ok (), Extension [index_nibble index] non_empty_node)
          | Blinded _ =>
              match fuel with
              | O => (Panic, self)
              | S fuel =>
                  match on_child stack index non_empty_node unblind with
                  | (Ok _, self) => collapse_if_possible fuel self
                  | out => out
                  end
              end
          | Empty => (Ok (), self)
          end
      | _ => (Ok (), self)
      end
  | _ => (Ok (), self)
  end.

Fixpoint delete (fuel : nat) (path : Nibbles) : eff () := fun self =>
  match fuel with
  | O => (Panic, self)
  | S fuel =>
      match self with
      | Empty => (Err KeyNotFound, self)
      | Leaf prefix _ =>
          if decide (path = prefix) then (Ok (), Empty) else (Err KeyNotFound, self)
      | Extension prefix node =>
          let shared_nibbles := common_prefix_length path prefix in
          if decide (shared_nibbles < length prefix)%nat then (Err KeyNotFound, self)
          else if decide (shared_nibbles = length path) then (Ok (), Empty)
          else
            match on_node prefix node (delete fuel (drop (length prefix) path)) with
            | (Ok _, self) => collapse_if_possible fuel self
            | out => out
            end
      | Branch stack =>
          match path with
          | [] => (Err PathTooShort, self)
          | nibble :: rest =>
              match stack !! nibble_index nibble with
              | Some node =>
                  match on_child stack (nibble_index nibble) node (delete fuel rest) with
                  | (Ok _, self) => collapse_if_possible fuel self
                  | out => out
                  end
              | None => (Panic, self)
              end
          end
      | Blinded _ => (unblind ≫= fun _ => delete fuel path) self
      end
  end.

End Operations.

(** *** The map that a revealed trie holds *)

Fixpoint get (self : t) (path : Nibbles) : option bytes :=
  match self with
  | Empty | Blinded _ => None
  | Leaf prefix value => if decide (path = prefix) then Some value else None
  | Extension prefix node =>
      if decide (take (length prefix) path = prefix) then get node (drop (length prefix) path) else None
  | Branch stack =>
      match path with
      | [] => None
      | nibble :: rest =>
          (fix child st i :=
             match st, i with
             | node :: _, O => get node rest
             | _ :: st, S i => child st i
             | [], _ => None
             end) stack (nibble_index nibble)
      end
  end.

(** The form in which a trie is built: no blinded node, an extension has a
    prefix and leads to a branch, a branch has 16 slots and no value, and at
    least two of its slots are used. *)
Definition is_branch (node : t) : bool := match node with Branch _ => true | _ => false end.

Fixpoint canonical (self : t) : bool :=
  match self with
  | Empty => true
  | Blinded _ => false
  | Leaf prefix _ => nibbles_ok prefix
  | Extension prefix node =>
      nibbles_ok prefix && negb (bool_decide (prefix = [])) && is_branch node && canonical node
  | Branch stack =>
      bool_decide (length stack = BRANCH_LIST_LENGTH) && match stack !! 16%nat with Some Empty => true | _ => false end &&
      bool_decide (2 <= length (non_empty_children stack))%nat && forallb canonical stack
  end.

(** Every key has [k] nibbles. *)
Fixpoint uniform (k : nat) (self : t) : bool :=
  match self with
  | Empty | Blinded _ => true
  | Leaf prefix _ => bool_decide (length prefix = k)
  | Extension prefix node => bool_decide (length prefix < k)%nat && uniform (k - length prefix) node
  | Branch stack => bool_decide (0 < k)%nat && forallb (uniform (k - 1)) stack
  end.

Fixpoint height (self : t) : nat :=
  match self with
  | Empty | Blinded _ | Leaf _ _ => 0
  | Extension _ node => S (height node)
  | Branch stack => S (fold_right (fun node h => height node `max` h)%nat 0%nat stack)
  end.

End TrieNode.
