(* ===== verification/TrieProofs.v ===== *)
(** * Revealed tries

    What [insert] and [delete] do to the map held by a fully revealed trie, that
    they keep its canonical form, and that this form is determined by the map. *)

From S2P Require Import Prelude Effects Primitives SpanTxData Tries.

Import TrieNode.

(** ** Nibbles *)

Lemma index_nibble_index b : index_nibble (nibble_index b) = b.
Proof.
  unfold index_nibble, nibble_index. pose proof (byte.unsigned_range b).
  rewrite Z2Nat.id by lia. apply byte.of_Z_unsigned.
Qed.

Lemma nibble_index_nibble i : (i < 256)%nat -> nibble_index (index_nibble i) = i.
Proof.
  intros Hi. unfold index_nibble, nibble_index.
  rewrite byte.unsigned_of_Z. unfold byte.wrap. rewrite Z.mod_small by lia. lia.
Qed.

#[global] Instance nibble_index_inj : Inj (=) (=) nibble_index.
Proof. intros a b E. by rewrite <- (index_nibble_index a), E, index_nibble_index. Qed.

Lemma nibbles_ok_app p q : nibbles_ok (p ++ q) = nibbles_ok p && nibbles_ok q.
Proof. apply forallb_app. Qed.

Lemma nibbles_ok_cons a p : nibbles_ok (a :: p) = true <-> (nibble_index a < 16)%nat /\ nibbles_ok p = true.
Proof. cbn. unfold is_nibble. rewrite andb_true_iff, bool_decide_eq_true. done. Qed.

Lemma nibbles_ok_drop n p : nibbles_ok p = true -> nibbles_ok (drop n p) = true.
Proof. rewrite <- (take_drop n p) at 1. rewrite nibbles_ok_app, andb_true_iff. tauto. Qed.

Lemma nibbles_ok_take n p : nibbles_ok p = true -> nibbles_ok (take n p) = true.
Proof. rewrite <- (take_drop n p) at 1. rewrite nibbles_ok_app, andb_true_iff. tauto. Qed.

Lemma nibbles_ok_lookup p i a : nibbles_ok p = true -> p !! i = Some a -> (nibble_index a < 16)%nat.
Proof.
  intros Hp Ha. rewrite <- (take_drop_middle p i a Ha) in Hp.
  rewrite nibbles_ok_app, andb_true_iff in Hp. destruct Hp as [_ Hp].
  by apply nibbles_ok_cons in Hp as [Hp _].
Qed.

(** Two paths share a prefix and then differ. *)
Lemma common_prefix_split p q :
  let n := common_prefix_length p q in
  exists r s, p = take n p ++ r /\ q = take n p ++ s /\ length (take n p) = n /\
    match r, s with a :: _, b :: _ => a <> b | _, _ => True end.
Proof.
  cbn zeta. revert q. induction p as [|a p IH]; intros q; [by exists [], q|].
  destruct q as [|b q]; [by exists (a :: p), []|]. cbn [common_prefix_length].
  case_decide as E; [subst b|by exists (a :: p), (b :: q)].
  destruct (IH q) as (r & s & Hp & Hq & Hn & Hd). exists r, s. cbn.
  repeat split; [by f_equal|by f_equal|by f_equal|done].
Qed.

Lemma common_prefix_app p r s :
  match r, s with a :: _, b :: _ => a <> b | _, _ => True end ->
  common_prefix_length (p ++ r) (p ++ s) = length p.
Proof.
  intros Hd. induction p as [|a p IH]; cbn; [|by rewrite decide_True, IH by done].
  destruct r, s; cbn; [done..|]. by rewrite decide_False.
Qed.

(** ** Nodes *)

(** Induction with the hypothesis for every child of a branch. *)
Lemma node_ind (P : t -> Prop) :
  P Empty -> (forall c, P (Blinded c)) -> (forall p v, P (Leaf p v)) ->
  (forall p n, P n -> P (Extension p n)) -> (forall st, Forall P st -> P (Branch st)) ->
  forall n, P n.
Proof.
  intros HE HB HL HX HS. fix IH 1. intros [|c|p v|p n|st]; [exact HE|apply HB|apply HL| |].
  - apply HX, IH.
  - apply HS. induction st as [|n st IHst]; constructor; [apply IH|exact IHst].
Qed.

Lemma get_branch st a rest :
  get (Branch st) (a :: rest) = st !! nibble_index a ≫= fun n => get n rest.
Proof.
  cbn. generalize (nibble_index a). induction st as [|n st IH]; intros i; [by destruct i|].
  destruct i; [done|]. apply IH.
Qed.

Lemma get_extension p n q : get (Extension p n) (p ++ q) = get n q.
Proof. cbn. by rewrite take_app_length, decide_True, drop_app_length by done. Qed.

Lemma get_extension_inv p n q v :
  get (Extension p n) q = Some v -> exists r, q = p ++ r /\ get n r = Some v.
Proof.
  cbn. case_decide as E; [|done]. intros G. exists (drop (length p) q). split; [|done].
  rewrite <- E at 1. by rewrite take_drop.
Qed.

Lemma height_child st i n : st !! i = Some n -> (height n < height (Branch st))%nat.
Proof.
  intros Hi. cbn. revert i Hi. induction st as [|m st IH]; intros i Hi; [done|].
  destruct i; cbn in *; [injection Hi as ->; lia|]. specialize (IH _ Hi). lia.
Qed.

(** The children of a branch that are not empty. *)
Lemma elem_of_non_empty st i n :
  (i, n) ∈ non_empty_children st <-> st !! i = Some n /\ is_empty n = false.
Proof.
  unfold non_empty_children. rewrite list_elem_of_filter. cbn. split.
  - intros [Hn Hi]. apply elem_of_lookup_imap in Hi as (j & m & [= -> ->] & Hj). done.
  - intros [Hi Hn]. split; [done|]. by apply elem_of_lookup_imap_2.
Qed.

Lemma non_empty_nil st i n : non_empty_children st = [] -> st !! i = Some n -> n = Empty.
Proof.
  intros E Hi. destruct (is_empty n) eqn:Hn; [by destruct n|].
  assert (Hin : (i, n) ∈ non_empty_children st) by by apply elem_of_non_empty.
  rewrite E in Hin. by apply not_elem_of_nil in Hin.
Qed.

Lemma non_empty_one st i n j m :
  non_empty_children st = [(i, n)] -> st !! j = Some m -> i = j \/ m = Empty.
Proof.
  intros E Hj. destruct (is_empty m) eqn:Hm; [right; by destruct m|left].
  assert (Hin : (j, m) ∈ non_empty_children st) by by apply elem_of_non_empty.
  rewrite E in Hin. apply list_elem_of_singleton in Hin. congruence.
Qed.

Lemma non_empty_nodup st : NoDup (non_empty_children st).
Proof.
  apply NoDup_filter, (NoDup_fmap_1 fst). rewrite fmap_imap.
  rewrite (imap_ext _ (fun i _ => id i)) by done. rewrite (imap_seq_0 st id), list_fmap_id.
  apply NoDup_seq.
Qed.

(** At least two slots are used when two different ones are, and then only. *)
Lemma non_empty_two st :
  (2 <= length (non_empty_children st))%nat <->
  exists i n j m, i <> j /\ st !! i = Some n /\ st !! j = Some m /\
    is_empty n = false /\ is_empty m = false.
Proof.
  split.
  - pose proof (non_empty_nodup st) as Hd. intros Hl.
    assert (HE : forall x, x ∈ non_empty_children st -> st !! x.1 = Some x.2 /\ is_empty x.2 = false).
    { intros [i n]. apply elem_of_non_empty. }
    destruct (non_empty_children st) as [|[i n] [|[j m] l]]; cbn in Hl; [lia..|].
    destruct (HE (i, n)) as [Hi Hn]; [set_solver|]. destruct (HE (j, m)) as [Hj Hm]; [set_solver|].
    cbn in *. exists i, n, j, m. repeat split; [|done..]. intros ->.
    apply NoDup_cons_1_1 in Hd. apply Hd. assert (n = m) as -> by congruence. set_solver.
  - intros (i & n & j & m & Hij & Hi & Hj & Hn & Hm).
    assert (Hi' : (i, n) ∈ non_empty_children st) by by apply elem_of_non_empty.
    assert (Hj' : (j, m) ∈ non_empty_children st) by by apply elem_of_non_empty.
    destruct (non_empty_children st) as [|[i' n'] [|[j' m'] l]]; cbn; [set_solver| |lia].
    apply list_elem_of_singleton in Hi', Hj'. congruence.
Qed.

(** ** Canonical tries *)

Record branch_ok (st : list t) : Prop := {
  bo_length : length st = 17%nat;
  bo_value : st !! 16%nat = Some Empty;
  bo_children : forall i n, st !! i = Some n -> canonical n = true
}.

Lemma canonical_branch st :
  canonical (Branch st) = true <-> branch_ok st /\ (2 <= length (non_empty_children st))%nat.
Proof.
  cbn. rewrite !andb_true_iff, !bool_decide_eq_true, forallb_forall. split.
  - intros [[[Hl Hv] H2] Hc]. split; [|done]. split; [done| |].
    + destruct (st !! 16%nat) as [[]|]; done.
    + intros i n Hi. apply Hc, list_elem_of_In, (list_elem_of_lookup_2 _ _ _ Hi).
  - intros [[Hl Hv Hc] H2]. rewrite Hv. repeat split; [done..|].
    intros n Hn. apply list_elem_of_In, list_elem_of_lookup_1 in Hn as [i Hi]. by apply (Hc i).
Qed.

Lemma canonical_extension p n :
  canonical (Extension p n) = true <->
  nibbles_ok p = true /\ p <> [] /\ is_branch n = true /\ canonical n = true.
Proof. cbn. rewrite !andb_true_iff, negb_true_iff, bool_decide_eq_false. tauto. Qed.

Lemma uniform_branch k st :
  uniform k (Branch st) = true <->
  (0 < k)%nat /\ forall i n, st !! i = Some n -> uniform (k - 1) n = true.
Proof.
  cbn. rewrite andb_true_iff, bool_decide_eq_true, forallb_forall. split; intros [Hk Hu]; split.
  - done.
  - intros i n Hi. apply Hu, list_elem_of_In, (list_elem_of_lookup_2 _ _ _ Hi).
  - done.
  - intros n Hn. apply list_elem_of_In, list_elem_of_lookup_1 in Hn as [i Hi]. by apply (Hu i).
Qed.

Lemma uniform_extension k p n :
  uniform k (Extension p n) = true <-> (length p < k)%nat /\ uniform (k - length p) n = true.
Proof. cbn. by rewrite andb_true_iff, bool_decide_eq_true. Qed.

(** The used slots of a branch are below 16. *)
Lemma branch_ok_slot st i n :
  branch_ok st -> st !! i = Some n -> is_empty n = false -> (i < 16)%nat.
Proof.
  intros Hb Hi Hn. pose proof (lookup_lt_Some _ _ _ Hi) as Hl. rewrite (bo_length _ Hb) in Hl.
  destruct (decide (i = 16%nat)) as [->|]; [|lia]. rewrite (bo_value _ Hb) in Hi.
  by injection Hi as <-.
Qed.

Lemma branch_ok_lookup st a :
  branch_ok st -> (nibble_index a < 16)%nat -> exists n, st !! nibble_index a = Some n /\ canonical n = true.
Proof.
  intros Hb Ha. destruct (lookup_lt_is_Some_2 st (nibble_index a)) as [n Hn].
  { rewrite (bo_length _ Hb). lia. }
  exists n. split; [done|]. by apply (bo_children _ Hb _ _ Hn).
Qed.

Lemma branch_ok_insert st i n :
  branch_ok st -> (i < 16)%nat -> canonical n = true -> branch_ok (<[i := n]> st).
Proof.
  intros Hb Hi Hn. split.
  - rewrite length_insert. apply Hb.
  - rewrite list_lookup_insert_ne by lia. apply Hb.
  - intros j m Hj. apply list_lookup_insert_Some in Hj as [(-> & -> & _)|[_ Hj]]; [done|].
    by apply (bo_children _ Hb _ _ Hj).
Qed.

(** A trie that is not empty holds a key; a branch holds two that differ in
    their first nibble. *)
Lemma canonical_key n :
  canonical n = true -> is_empty n = false -> exists q v, get n q = Some v.
Proof.
  induction n as [| |p v|p n IH|st IH] using node_ind; intros Hc He; [done|done| | |].
  - exists p, v. cbn. by rewrite decide_True.
  - apply canonical_extension in Hc as (_ & _ & Hb & Hc).
    destruct IH as (q & v & G); [done|by destruct n|]. exists (p ++ q), v. by rewrite get_extension.
  - apply canonical_branch in Hc as [Hb H2]. apply non_empty_two in H2 as (i & n & _ & _ & _ & Hi & _ & Hn & _).
    destruct (proj1 (Forall_lookup _ _) IH _ _ Hi (bo_children _ Hb _ _ Hi) Hn) as (q & v & G).
    exists (index_nibble i :: q), v. rewrite get_branch, nibble_index_nibble, Hi; [done|].
    pose proof (branch_ok_slot _ _ _ Hb Hi Hn). lia.
Qed.

Lemma branch_keys st :
  canonical (Branch st) = true -> exists a q v b r w, a <> b /\
    get (Branch st) (a :: q) = Some v /\ get (Branch st) (b :: r) = Some w.
Proof.
  intros Hc. apply canonical_branch in Hc as [Hb H2].
  apply non_empty_two in H2 as (i & n & j & m & Hij & Hi & Hj & Hn & Hm).
  pose proof (branch_ok_slot _ _ _ Hb Hi Hn). pose proof (branch_ok_slot _ _ _ Hb Hj Hm).
  destruct (canonical_key n) as (q & v & Gn); [by apply (bo_children _ Hb _ _ Hi)|done|].
  destruct (canonical_key m) as (r & w & Gm); [by apply (bo_children _ Hb _ _ Hj)|done|].
  exists (index_nibble i), q, v, (index_nibble j), r, w. rewrite !get_branch, !nibble_index_nibble by lia.
  rewrite Hi, Hj. repeat split; [|done..]. intros E. apply Hij.
  rewrite <- (nibble_index_nibble i), E, nibble_index_nibble by lia. done.
Qed.

(** *** The form is determined by the map *)

(** A node other than [Empty] and a leaf holds two keys. *)
Lemma two_keys n :
  canonical n = true -> is_empty n = false -> (forall p v, n <> Leaf p v) ->
  exists q r, q <> r /\ get n q <> None /\ get n r <> None.
Proof.
  intros Hc He Hl. destruct n as [| |p v|p n|st]; [done|done|by destruct (Hl p v)| |].
  - apply canonical_extension in Hc as (_ & _ & Hb & Hc). destruct n as [| | | |st]; try done.
    destruct (branch_keys st Hc) as (a & q & v & b & r & w & Hab & Ga & Gb).
    exists (p ++ a :: q), (p ++ b :: r). rewrite !get_extension, Ga, Gb.
    repeat split; [|done..]. intros E. apply app_inv_head in E. congruence.
  - destruct (branch_keys st Hc) as (a & q & v & b & r & w & Hab & Ga & Gb).
    exists (a :: q), (b :: r). rewrite Ga, Gb. repeat split; [congruence|done..].
Qed.

Lemma leaf_or_two_keys p v n :
  canonical n = true -> (forall q, get (Leaf p v) q = get n q) -> n = Leaf p v.
Proof.
  intros Hc Hq. pose proof (Hq p) as Hp. cbn in Hp. rewrite decide_True in Hp by done.
  destruct (is_empty n) eqn:He; [by destruct n|].
  assert (Hd : (exists p' v', n = Leaf p' v') \/ forall p' v', n <> Leaf p' v').
  { destruct n; eauto; right; congruence. }
  destruct Hd as [(p' & v' & ->)|Hd].
  - cbn in Hp. case_decide; congruence.
  - destruct (two_keys n Hc He Hd) as (q & r & Hqr & Gq & Gr).
    rewrite <- Hq in Gq, Gr. cbn in Gq, Gr. case_decide; [|done]. case_decide; congruence.
Qed.

(** The prefix of an extension is the longest that its keys share. *)
Lemma extension_prefix_le p st p' n' :
  canonical (Branch st) = true ->
  (forall q, get (Extension p (Branch st)) q = get (Extension p' n') q) -> (length p' <= length p)%nat.
Proof.
  intros Hc Hq. destruct (branch_keys st Hc) as (a & q & v & b & r & w & Hab & Ga & Gb).
  rewrite <- (get_extension p) in Ga, Gb. rewrite Hq in Ga, Gb.
  apply get_extension_inv in Ga as (q' & Eq & _), Gb as (r' & Er & _).
  destruct (decide (length p' <= length p)%nat); [done|]. exfalso. apply Hab.
  apply (f_equal (lookup (length p))) in Eq, Er.
  rewrite list_lookup_middle in Eq, Er by done.
  rewrite lookup_app_l in Eq, Er by lia. congruence.
Qed.

Lemma extension_branch p n st :
  canonical (Extension p n) = true -> canonical (Branch st) = true ->
  ~ forall q, get (Extension p n) q = get (Branch st) q.
Proof.
  intros Hx Hc Hq. destruct (branch_keys st Hc) as (a & q & v & b & r & w & Hab & Ga & Gb).
  apply canonical_extension in Hx as (_ & Hp & _). rewrite <- Hq in Ga, Gb.
  apply get_extension_inv in Ga as (q' & Eq & _), Gb as (r' & Er & _).
  destruct p; [done|]. cbn in *. congruence.
Qed.

Lemma canonical_unique n n' :
  canonical n = true -> canonical n' = true -> (forall q, get n q = get n' q) -> n = n'.
Proof.
  revert n'. induction n as [| |p v|p n IH|st IH] using node_ind; intros n' Hc Hc' Hq.
  - destruct (is_empty n') eqn:He; [by destruct n'|].
    destruct (canonical_key n' Hc' He) as (q & v & G). by rewrite <- Hq in G.
  - done.
  - symmetry. by apply leaf_or_two_keys.
  - destruct n' as [| |p' v'|p' n'|st'].
    + destruct (canonical_key _ Hc) as (q & v & G); [done|]. by rewrite Hq in G.
    + done.
    + apply leaf_or_two_keys; [done|]. intros q. by rewrite Hq.
    + pose proof Hc as (_ & _ & Hb & Hn)%canonical_extension.
      pose proof Hc' as (_ & _ & Hb' & Hn')%canonical_extension.
      destruct n as [| | | |st]; try done. destruct n' as [| | | |st']; try done.
      pose proof (extension_prefix_le _ _ _ _ Hn Hq).
      pose proof (extension_prefix_le _ _ _ _ Hn' (fun q => eq_sym (Hq q))).
      destruct (branch_keys st Hn) as (a & q & v & _ & _ & _ & _ & Ga & _).
      rewrite <- (get_extension p), Hq in Ga. apply get_extension_inv in Ga as (q' & Eq & _).
      apply app_inj_1 in Eq as [<- _]; [|lia]. f_equal. apply IH; [done..|].
      intros r. specialize (Hq (p ++ r)). by rewrite !get_extension in Hq.
    + by destruct (extension_branch _ _ _ Hc Hc' Hq).
  - destruct n' as [| |p' v'|p' n'|st'].
    + destruct (canonical_key _ Hc) as (q & v & G); [done|]. by rewrite Hq in G.
    + done.
    + apply leaf_or_two_keys; [done|]. intros q. by rewrite Hq.
    + by destruct (extension_branch _ _ _ Hc' Hc (fun q => eq_sym (Hq q))).
    + apply canonical_branch in Hc as [Hb _], Hc' as [Hb' _]. f_equal. apply list_eq_same_length with 17%nat.
      * apply Hb'.
      * apply Hb.
      * intros i m m' Hi Hm Hm'. destruct (decide (i = 16%nat)) as [->|].
        { rewrite (bo_value _ Hb) in Hm. rewrite (bo_value _ Hb') in Hm'. congruence. }
        apply (proj1 (Forall_lookup _ _) IH _ _ Hm);
          [by apply (bo_children _ Hb _ _ Hm)|by apply (bo_children _ Hb' _ _ Hm')|].
        intros q. specialize (Hq (index_nibble i :: q)).
        rewrite !get_branch, !nibble_index_nibble, Hm, Hm' in Hq by lia. exact Hq.
Qed.

(** ** Insertion *)

(** A branch with two used slots, and a node below a possibly empty prefix. *)
Definition fork (a : byte) (x : t) (b : byte) (y : t) : t :=
  Branch (<[nibble_index b := y]> (<[nibble_index a := x]> (replicate BRANCH_LIST_LENGTH Empty))).

Definition below (p : Nibbles) (n : t) : t :=
  match p with [] => n | _ => Extension p n end.

Lemma get_below p n q :
  get (below p n) q = if decide (take (length p) q = p) then get n (drop (length p) q) else None.
Proof. by destruct p. Qed.

Lemma get_below_app p n q : get (below p n) (p ++ q) = get n q.
Proof. by rewrite get_below, take_app_length, decide_True, drop_app_length by done. Qed.

Lemma get_below_snoc p a n q :
  get (below (p ++ [a]) n) (p ++ q) =
    match q with [] => None | c :: r => if decide (c = a) then get n r else None end.
Proof.
  rewrite get_below. destruct q as [|c q].
  - rewrite decide_False; [done|]. intros E. apply (f_equal length) in E.
    rewrite length_take, !length_app in E. cbn in E. lia.
  - replace (p ++ c :: q) with ((p ++ [c]) ++ q) by by rewrite <- app_assoc.
    replace (length (p ++ [a])) with (length (p ++ [c])) by by rewrite !length_app.
    rewrite take_app_length, drop_app_length.
    destruct (decide (c = a)) as [->|Hca]; [by rewrite decide_True|].
    rewrite decide_False; [done|]. intros E. apply app_inv_head in E. congruence.
Qed.

Lemma get_below_ne p n q : take (length p) q <> p -> get (below p n) q = None.
Proof. intros Hq. by rewrite get_below, decide_False. Qed.

(** A path is below a prefix, or it is not. *)
Lemma prefix_cases (p q : Nibbles) :
  (exists r, q = p ++ r) \/ take (length p) q <> p.
Proof.
  destruct (decide (take (length p) q = p)) as [E|]; [left|by right].
  exists (drop (length p) q). rewrite <- E at 1. by rewrite take_drop.
Qed.

Lemma get_fork a x b y q :
  (nibble_index a < 16)%nat -> (nibble_index b < 16)%nat -> a <> b ->
  get (fork a x b y) q =
    match q with
    | [] => None
    | c :: r => if decide (c = b) then get y r else if decide (c = a) then get x r else None
    end.
Proof.
  intros Ha Hb Hab. destruct q as [|c r]; [done|]. unfold fork. rewrite get_branch.
  case_decide as Eb; [subst c|].
  { rewrite list_lookup_insert_eq; [done|]. rewrite length_insert, length_replicate. unfold BRANCH_LIST_LENGTH. lia. }
  rewrite list_lookup_insert_ne by (intros E; by apply (inj _) in E).
  case_decide as Ea; [subst c|].
  { rewrite list_lookup_insert_eq; [done|]. rewrite length_replicate. unfold BRANCH_LIST_LENGTH. lia. }
  rewrite list_lookup_insert_ne by (intros E; by apply (inj _) in E).
  destruct (replicate _ _ !! _) as [n|] eqn:E; [|done]. apply lookup_replicate in E as [-> _]. done.
Qed.

Lemma empties_ok : branch_ok (replicate BRANCH_LIST_LENGTH Empty).
Proof.
  split; [done|done|]. intros i n Hi. by apply lookup_replicate in Hi as [-> _].
Qed.

Lemma canonical_fork a x b y :
  (nibble_index a < 16)%nat -> (nibble_index b < 16)%nat -> a <> b ->
  canonical x = true -> canonical y = true -> is_empty x = false -> is_empty y = false ->
  canonical (fork a x b y) = true.
Proof.
  intros Ha Hb Hab Hx Hy Ex Ey. apply canonical_branch. split.
  - do 2 (apply branch_ok_insert; [|lia|done]). apply empties_ok.
  - apply non_empty_two. exists (nibble_index a), x, (nibble_index b), y.
    assert (Hi : nibble_index b <> nibble_index a) by (intros E; by apply (inj _) in E).
    repeat split; [done| | |done|done].
    + rewrite list_lookup_insert_ne, list_lookup_insert_eq; [done| |done].
      rewrite length_replicate. unfold BRANCH_LIST_LENGTH. lia.
    + rewrite list_lookup_insert_eq; [done|]. rewrite length_insert, length_replicate. unfold BRANCH_LIST_LENGTH. lia.
Qed.

Lemma uniform_fork k a x b y :
  uniform k x = true -> uniform k y = true -> uniform (S k) (fork a x b y) = true.
Proof.
  intros Hx Hy. apply uniform_branch. split; [lia|].
  replace (S k - 1)%nat with k by lia. intros i n Hi.
  apply list_lookup_insert_Some in Hi as [(_ & -> & _)|[_ Hi]]; [done|].
  apply list_lookup_insert_Some in Hi as [(_ & -> & _)|[_ Hi]]; [done|].
  by apply lookup_replicate in Hi as [-> _].
Qed.

Lemma canonical_below p n :
  nibbles_ok p = true -> is_branch n = true -> canonical n = true -> canonical (below p n) = true.
Proof. intros Hp Hb Hn. destruct p; [done|]. by apply canonical_extension. Qed.

Lemma uniform_below k p n :
  (0 < k)%nat -> uniform k n = true -> uniform (length p + k) (below p n) = true.
Proof.
  intros Hk Hn. destruct p; [done|]. apply uniform_extension. split; [cbn; lia|].
  by rewrite Nat.add_comm, Nat.add_sub.
Qed.

(** The leaves of a path and of a prefix that leave each other at [a] and [b]. *)
Lemma split_run p a r b s old value self :
  (nibble_index a < 16)%nat -> (nibble_index b < 16)%nat -> a <> b ->
  split (p ++ b :: s) (p ++ a :: r) old value self =
    (Ok (), below p (fork a (old r) b (Leaf s value))).
Proof.
  intros Ha Hb Hab. unfold split. cbn zeta. rewrite common_prefix_app by congruence.
  rewrite !list_lookup_middle by done. rewrite decide_True by (rewrite length_replicate; unfold BRANCH_LIST_LENGTH; lia).
  rewrite decide_True by (rewrite length_insert, length_replicate; unfold BRANCH_LIST_LENGTH; lia).
  rewrite !drop_app, !drop_ge by lia.
  replace (length p + 1 - length p)%nat with 1%nat by lia. cbn [drop app].
  rewrite take_app_length. unfold below, fork. f_equal.
  destruct p; [done|]. by rewrite decide_False.
Qed.

(** [ends n]: [n] with [path] set to [value], on keys of the same length. *)
Record inserted (path : Nibbles) (value : bytes) (n n' : t) : Prop := {
  in_canonical : canonical n' = true;
  in_uniform : uniform (length path) n' = true;
  in_branch : is_branch n = true -> is_branch n' = true;
  in_used : is_empty n' = false;
  in_get q : get n' q = if decide (q = path) then Some value else get n q
}.

(** Splitting [n], which holds what [x] holds below [p ++ [a]]. *)
Lemma split_inserted p a r b s x value n :
  nibbles_ok (p ++ a :: r) = true -> nibbles_ok (p ++ b :: s) = true -> a <> b ->
  canonical x = true -> is_empty x = false -> uniform (length s) x = true ->
  is_branch n = false ->
  (forall q, get n q = get (below (p ++ [a]) x) q) ->
  inserted (p ++ b :: s) value n (below p (fork a x b (Leaf s value))).
Proof.
  intros Hr Hs Hab Hx Ex Ux Hn Hg.
  rewrite nibbles_ok_app, andb_true_iff, nibbles_ok_cons in Hr, Hs.
  destruct Hr as (Hp & Ha & _), Hs as (_ & Hb & Hs). split.
  - apply canonical_below; [done|done|]. by apply canonical_fork.
  - rewrite length_app. apply uniform_below; [cbn; lia|]. apply uniform_fork; [done|].
    by apply bool_decide_eq_true.
  - congruence.
  - by destruct p.
  - intros q. rewrite Hg. destruct (prefix_cases p q) as [[q' ->]|Hq].
    + rewrite get_below_app, get_fork, get_below_snoc by done.
      destruct q' as [|c q']; [|cbn [get]; destruct (decide (c = b)) as [->|Hcb]].
      * by rewrite decide_False by (intros E; by apply app_inv_head in E).
      * rewrite (decide_ext (p ++ b :: q' = p ++ b :: s) (q' = s)) by
          (split; [intros E; apply app_inv_head in E|]; congruence).
        by rewrite (decide_False (P := b = a)).
      * by rewrite (decide_False (P := p ++ _ = _)) by (intros E; apply app_inv_head in E; congruence).
    + rewrite get_below_ne by done. rewrite decide_False.
      * symmetry. apply get_below_ne. rewrite length_app. intros E. apply Hq.
        apply (f_equal (take (length p))) in E. rewrite take_take, take_app_length in E.
        by rewrite Nat.min_l in E by lia.
      * intros ->. apply Hq. apply take_app_length.
Qed.

(** [path] with a prefix of its length at most shares it or leaves it. *)
Lemma prefix_or_fork (path prefix : Nibbles) :
  (length prefix <= length path)%nat -> path <> prefix ->
  (exists r, path = prefix ++ r /\ common_prefix_length path prefix = length prefix) \/
  (exists p a r b s, prefix = p ++ a :: r /\ path = p ++ b :: s /\ a <> b /\
     (common_prefix_length path prefix < length prefix)%nat).
Proof.
  intros Hl Hne. destruct (common_prefix_split path prefix) as (s & r & Hs & Hr & Hn & Hd).
  set (n := common_prefix_length path prefix) in *. set (p := take n path) in *.
  clearbody p. subst path prefix. rewrite !length_app in Hl.
  destruct r as [|a r].
  - left. exists s. rewrite !app_nil_r. auto.
  - destruct s as [|b s]; [cbn in Hl; lia|]. right. exists p, a, r, b, s.
    repeat split; [congruence|]. rewrite length_app. cbn. lia.
Qed.

Section Insert.
Context `{Keccak} `{TrieProvider}.

Lemma branch_inserted st a rest value n n' :
  canonical (Branch st) = true -> uniform (S (length rest)) (Branch st) = true ->
  (nibble_index a < 16)%nat -> st !! nibble_index a = Some n -> inserted rest value n n' ->
  inserted (a :: rest) value (Branch st) (Branch (<[nibble_index a := n']> st)).
Proof.
  intros Hc Hu Ha Hn [Cn Un Bn En Gn]. apply canonical_branch in Hc as [Hb H2]. split.
  - apply canonical_branch. split; [by apply branch_ok_insert|].
    apply non_empty_two in H2 as (i & x & j & y & Hij & Hi & Hj & Hx & Hy). apply non_empty_two.
    pose proof (lookup_lt_Some _ _ _ Hn) as Hl.
    assert (HL : forall k z, st !! k = Some z -> is_empty z = false ->
              exists z', <[nibble_index a := n']> st !! k = Some z' /\ is_empty z' = false).
    { intros k z Hk Hz. destruct (decide (k = nibble_index a)) as [->|].
      - exists n'. by rewrite list_lookup_insert_eq.
      - exists z. by rewrite list_lookup_insert_ne. }
    destruct (HL i x Hi Hx) as (x' & Hi' & Hx'), (HL j y Hj Hy) as (y' & Hj' & Hy').
    by exists i, x', j, y'.
  - apply uniform_branch in Hu as [_ Hu]. apply uniform_branch. split; [cbn; lia|].
    intros i m Hi. replace (length (a :: rest) - 1)%nat with (length rest) by (cbn; lia).
    replace (S (length rest) - 1)%nat with (length rest) in Hu by lia.
    apply list_lookup_insert_Some in Hi as [(_ & -> & _)|[_ Hi]]; [done|]. by apply (Hu i).
  - done.
  - done.
  - intros [|c q]; [done|]. rewrite !get_branch. destruct (decide (c = a)) as [->|Hca].
    + rewrite list_lookup_insert_eq, Hn by (by apply lookup_lt_Some in Hn). cbn. rewrite Gn.
      apply decide_ext. split; congruence.
    + rewrite list_lookup_insert_ne by (intros E; by apply (inj _) in E).
      by rewrite (decide_False (P := c :: q = a :: rest)) by congruence.
Qed.

Lemma extension_inserted p rest value n n' :
  canonical (Extension p n) = true -> (0 < length rest)%nat -> inserted rest value n n' ->
  inserted (p ++ rest) value (Extension p n) (Extension p n').
Proof.
  intros Hc Hr [Cn Un Bn En Gn]. apply canonical_extension in Hc as (Hp & Hp' & Hb & Hc). split.
  - apply canonical_extension. auto.
  - apply uniform_extension. rewrite length_app. split; [lia|].
    by replace (length p + length rest - length p)%nat with (length rest) by lia.
  - done.
  - done.
  - intros q. destruct (prefix_cases p q) as [[q' ->]|Hq].
    + rewrite !get_extension, Gn. apply decide_ext. split; [congruence|]. by intros ?%app_inv_head.
    + cbn. rewrite !(decide_False (P := take _ _ = _)) by done. rewrite decide_False; [done|].
      intros ->. apply Hq, take_app_length.
Qed.

(** What a node holds below a prefix that is made of two. *)
Lemma get_leaf_below p r v q : get (Leaf (p ++ r) v) q = get (below p (Leaf r v)) q.
Proof.
  destruct (prefix_cases p q) as [[q' ->]|Hq].
  - rewrite get_below_app. cbn. apply decide_ext. split; [by intros ?%app_inv_head|congruence].
  - rewrite get_below_ne by done. cbn. rewrite decide_False; [done|].
    intros ->. apply Hq, take_app_length.
Qed.

Lemma get_below_below p r n q : get (below (p ++ r) n) q = get (below p (below r n)) q.
Proof.
  destruct (prefix_cases p q) as [[q' ->]|Hq].
  - rewrite get_below_app. rewrite !get_below, length_app, take_app, drop_app, take_ge, drop_ge by lia.
    replace (length p + length r - length p)%nat with (length r) by lia.
    cbn. apply decide_ext. split; [by intros ?%app_inv_head|congruence].
  - rewrite !get_below_ne; [done|done|]. intros E. apply Hq.
    apply (f_equal (take (length p))) in E.
    rewrite take_take, take_app_length, length_app, Nat.min_l in E by lia. done.
Qed.

(** The case of [insert] that splits a leaf or an extension. *)
Lemma split_full p a r b s old value n :
  nibbles_ok (p ++ a :: r) = true -> nibbles_ok (p ++ b :: s) = true -> a <> b ->
  canonical (old r) = true -> is_empty (old r) = false -> uniform (length s) (old r) = true ->
  is_branch n = false ->
  (forall q, get n q = get (below (p ++ [a]) (old r)) q) ->
  exists n', split (p ++ b :: s) (p ++ a :: r) old value n = (Ok (), n') /\
    inserted (p ++ b :: s) value n n'.
Proof.
  intros Hr Hs Hab Hx Ex Ux Hn Hg.
  pose proof (nibbles_ok_lookup _ (length p) a Hr) as Ha. rewrite list_lookup_middle in Ha by done.
  pose proof (nibbles_ok_lookup _ (length p) b Hs) as Hb. rewrite list_lookup_middle in Hb by done.
  rewrite split_run by auto. eexists. split; [done|]. by apply (split_inserted _ _ r).
Qed.

Lemma split_extension p a r b s n value :
  canonical (Extension (p ++ a :: r) n) = true -> nibbles_ok (p ++ b :: s) = true -> a <> b ->
  (length (p ++ a :: r) < length (p ++ b :: s))%nat ->
  uniform (length (p ++ b :: s) - length (p ++ a :: r)) n = true ->
  exists n',
    split (p ++ b :: s) (p ++ a :: r)
      (fun rest => match rest with [] => n | _ => Extension rest n end) value
      (Extension (p ++ a :: r) n) = (Ok (), n') /\
    inserted (p ++ b :: s) value (Extension (p ++ a :: r) n) n'.
Proof.
  intros Hc Hp Hab Hl Hu. apply canonical_extension in Hc as (Ho & _ & Hb & Hn).
  rewrite !length_app in Hl, Hu. cbn in Hl, Hu.
  pose proof Ho as Ho'. rewrite nibbles_ok_app, andb_true_iff, nibbles_ok_cons in Ho'.
  apply (split_full p a r b s (fun rest => below rest n)); try done.
  - destruct Ho' as (_ & _ & Hr). destruct r; [done|]. by apply canonical_extension.
  - by destruct r; [destruct n|].
  - destruct r as [|a' r]; cbn [length] in Hl, Hu.
    { by replace (length s) with (length p + S (length s) - (length p + 1))%nat by lia. }
    apply uniform_extension. cbn. split; [lia|].
    by replace (length s - S (length r))%nat
      with (length p + S (length s) - (length p + S (S (length r))))%nat by lia.
  - intros q. rewrite <- get_below_below, <- app_assoc. by destruct p.
Qed.

Lemma insert_full fuel path value n :
  canonical n = true -> uniform (length path) n = true -> nibbles_ok path = true ->
  (height n < fuel)%nat ->
  exists n', insert fuel path value n = (Ok (), n') /\ inserted path value n n'.
Proof.
  revert path n. induction fuel as [|fuel IH]; intros path n Hc Hu Hp Hf; [lia|].
  cbn [insert]. destruct n as [|c|p v|p n|st]; [| | | |].
  - eexists. split; [done|]. split; [done|by apply bool_decide_eq_true|done|done|done].
  - done.
  - apply bool_decide_eq_true in Hu. case_decide as E.
    + subst p. eexists. split; [done|]. split; [done|by apply bool_decide_eq_true|done|done|].
      intros q. cbn. by case_decide.
    + destruct (prefix_or_fork path p) as [(r & -> & _)|(p' & a & r & b & s & -> & -> & Hab & _)];
        [lia|done|rewrite length_app in Hu; destruct r; [by rewrite app_nil_r in E|cbn in Hu; lia]|].
      apply split_full; try done.
      * cbn in Hc. rewrite nibbles_ok_app, andb_true_iff, nibbles_ok_cons in Hc. apply Hc.
      * apply bool_decide_eq_true. rewrite !length_app in Hu. cbn in Hu. lia.
      * intros q. rewrite cons_middle, app_assoc. apply get_leaf_below.
  - pose proof Hc as (Ho & Hne & Hb & Hn)%canonical_extension. apply uniform_extension in Hu as [Hl Hu].
    destruct (prefix_or_fork path p) as [(r & -> & E)|(p' & a & r & b & s & -> & -> & Hab & E)];
      [lia|intros ->; lia| |].
    + rewrite decide_True, drop_app_length by done. rewrite length_app in Hl, Hu.
      rewrite nibbles_ok_app, andb_true_iff in Hp. destruct Hp as [_ Hp].
      destruct (IH r n) as (n' & Hi & Hn'); [done| |done|cbn in Hf; lia|].
      { by replace (length r) with (length p + length r - length p)%nat by lia. }
      unfold on_node. rewrite Hi. eexists. split; [done|]. apply extension_inserted; [done|lia|done].
    + rewrite decide_False by lia. by apply (split_extension p' a r b s n).
  - apply uniform_branch in Hu as Hu'. destruct path as [|a rest]; [cbn in Hu'; lia|].
    apply nibbles_ok_cons in Hp as [Ha Hp].
    pose proof Hc as [Hb _]%canonical_branch. destruct (branch_ok_lookup st a Hb Ha) as (n & Hn & Cn).
    rewrite Hn. destruct (IH rest n) as (n' & Hi & Hn'); [done| |done| |].
    + destruct Hu' as [_ Hu']. specialize (Hu' _ _ Hn). cbn in Hu'. by rewrite Nat.sub_0_r in Hu'.
    + pose proof (height_child _ _ _ Hn). lia.
    + unfold on_child. rewrite Hi. eexists. split; [done|]. by apply (branch_inserted _ _ _ _ n).
Qed.

End Insert.

(** ** Deletion *)

(** The node [n'] holds what [n] holds, in canonical form. *)
Record collapsed (k : nat) (n n' : t) : Prop := {
  co_canonical : canonical n' = true;
  co_uniform : uniform k n' = true;
  co_get q : get n' q = get n q
}.

Record deleted (path : Nibbles) (n n' : t) : Prop := {
  de_canonical : canonical n' = true;
  de_uniform : uniform (length path) n' = true;
  de_get q : get n' q = if decide (q = path) then None else get n q
}.

Section Delete.
Context `{Keccak} `{TrieProvider}.

Lemma get_only_child st i n q :
  branch_ok st -> non_empty_children st = [(i, n)] ->
  get (Branch st) q = get (below [index_nibble i] n) q /\ (i < 16)%nat /\ canonical n = true.
Proof.
  intros Hb E. assert (Hi : (i, n) ∈ non_empty_children st) by (rewrite E; set_solver).
  apply elem_of_non_empty in Hi as [Hi Hn]. pose proof (branch_ok_slot _ _ _ Hb Hi Hn) as Hl.
  split; [|split; [done|by apply (bo_children _ Hb _ _ Hi)]].
  rewrite (get_below_snoc [] (index_nibble i) n q : get (below [index_nibble i] n) q = _).
  destruct q as [|c q]; [done|].
  rewrite get_branch. case_decide as Ec.
  - by rewrite Ec, nibble_index_nibble, Hi by lia.
  - destruct (st !! nibble_index c) as [m|] eqn:Em; [|done].
    destruct (non_empty_one _ _ _ _ _ E Em) as [->| ->]; [|done]. by rewrite index_nibble_index in Ec.
Qed.

(** A prefix in front of a node, merged with the node's own. *)
Definition prepend (p : Nibbles) (n : t) : t :=
  match n with
  | Leaf r v => Leaf (p ++ r) v
  | Extension r m => Extension (p ++ r) m
  | Branch _ => Extension p n
  | _ => n
  end.

Lemma prepend_collapsed p k n :
  nibbles_ok p = true -> p <> [] -> canonical n = true -> uniform k n = true ->
  collapsed (length p + k) (below p n) (prepend p n).
Proof.
  intros Hp Hne Hc Hu. destruct n as [| |r v|r m|st]; cbn [prepend].
  - split; [done|done|]. intros q. rewrite get_below. by case_decide.
  - done.
  - apply bool_decide_eq_true in Hu. split.
    + cbn. by rewrite nibbles_ok_app, Hp.
    + apply bool_decide_eq_true. rewrite length_app. lia.
    + intros q. apply get_leaf_below.
  - apply uniform_extension in Hu as [Hl Hu]. pose proof Hc as (Hr & Hr' & Hb & Hm)%canonical_extension. split.
    + apply canonical_extension. rewrite nibbles_ok_app, Hp, Hr. repeat split; [|done..].
      by destruct p.
    + apply uniform_extension. rewrite length_app. split; [lia|].
      by replace (length p + k - (length p + length r))%nat with (k - length r)%nat by lia.
    + intros q. pose proof (get_below_below p r m q) as E. by destruct p, r.
  - pose proof Hu as [Hk _]%uniform_branch. split.
    + by apply canonical_extension.
    + apply uniform_extension. split; [lia|].
      by replace (length p + k - length p)%nat with k by lia.
    + intros q. by destruct p.
Qed.

Lemma collapse_extension fuel p k n :
  nibbles_ok p = true -> p <> [] -> canonical n = true -> uniform k n = true ->
  exists n', collapse_if_possible fuel (Extension p n) = (Ok (), n') /\
    collapsed (length p + k) (Extension p n) n'.
Proof.
  intros Hp Hne Hc Hu. exists (prepend p n). split.
  - by destruct fuel, n.
  - destruct (prepend_collapsed p k n Hp Hne Hc Hu) as [? ? G]. split; [done..|].
    intros q. rewrite G. by destruct p.
Qed.

Lemma collapse_branch fuel k st :
  branch_ok st -> uniform (S k) (Branch st) = true -> non_empty_children st <> [] ->
  exists n', collapse_if_possible fuel (Branch st) = (Ok (), n') /\ collapsed (S k) (Branch st) n'.
Proof.
  intros Hb Hu He. destruct (non_empty_children st) as [|[i n] l] eqn:E; [done|].
  destruct l as [|[j m] l].
  - destruct (get_only_child st i n [] Hb E) as (_ & Hi & Hc).
    assert (Hin : (i, n) ∈ non_empty_children st) by (rewrite E; set_solver).
    apply elem_of_non_empty in Hin as [Hs Hn].
    exists (prepend [index_nibble i] n). split.
    + destruct fuel; cbn [collapse_if_possible]; rewrite E; by destruct n.
    + apply uniform_branch in Hu as [_ Hu]. specialize (Hu _ _ Hs).
      replace (S k - 1)%nat with k in Hu by lia.
      destruct (prepend_collapsed [index_nibble i] k n) as [? ? G]; [|done..|].
      { apply nibbles_ok_cons. by rewrite nibble_index_nibble by lia. }
      split; [done..|]. intros q. rewrite G. by destruct (get_only_child st i n q Hb E) as [-> _].
  - exists (Branch st). split; [destruct fuel; cbn [collapse_if_possible]; by rewrite E|].
    split; [|done|done]. apply canonical_branch. split; [done|]. rewrite E. cbn. lia.
Qed.

Lemma extension_deleted fuel p rest n n' :
  canonical (Extension p n) = true -> deleted rest n n' ->
  exists n'', collapse_if_possible fuel (Extension p n') = (Ok (), n'') /\
    deleted (p ++ rest) (Extension p n) n''.
Proof.
  intros Hc [Cn Un Gn]. apply canonical_extension in Hc as (Hp & Hne & Hb & Hc).
  destruct (collapse_extension fuel p (length rest) n') as (n'' & Hr & [C U G]); [done..|].
  exists n''. split; [done|]. split; [done|by rewrite length_app|].
  intros q. rewrite G. destruct (prefix_cases p q) as [[q' ->]|Hq].
  - rewrite !get_extension, Gn. apply decide_ext. split; [congruence|]. by intros ?%app_inv_head.
  - cbn. rewrite !(decide_False (P := take _ _ = _)) by done. by case_decide.
Qed.

Lemma branch_deleted fuel st a rest n n' :
  canonical (Branch st) = true -> uniform (S (length rest)) (Branch st) = true ->
  (nibble_index a < 16)%nat -> st !! nibble_index a = Some n -> deleted rest n n' ->
  exists n'', collapse_if_possible fuel (Branch (<[nibble_index a := n']> st)) = (Ok (), n'') /\
    deleted (a :: rest) (Branch st) n''.
Proof.
  intros Hc Hu Ha Hn [Cn Un Gn]. apply canonical_branch in Hc as [Hb H2].
  destruct (collapse_branch fuel (length rest) (<[nibble_index a := n']> st)) as (n'' & Hr & [C U G]).
  - by apply branch_ok_insert.
  - apply uniform_branch in Hu as [Hk Hu]. apply uniform_branch. split; [done|]. intros i m Hi.
    replace (S (length rest) - 1)%nat with (length rest) in * by lia.
    apply list_lookup_insert_Some in Hi as [(_ & -> & _)|[_ Hi]]; [done|]. by apply (Hu i).
  - apply non_empty_two in H2 as (i & x & j & y & Hij & Hi & Hj & Hx & Hy). intros E.
    assert (HE : forall k z, k <> nibble_index a -> st !! k = Some z -> z = Empty).
    { intros k z Hk Hz. apply (non_empty_nil _ k z E). by rewrite list_lookup_insert_ne. }
    destruct (decide (i = nibble_index a)) as [->|Hia].
    + by rewrite (HE j y) in Hy.
    + by rewrite (HE i x) in Hx.
  - exists n''. split; [done|]. split; [done..|]. intros [|c q]; rewrite G; [done|].
    rewrite !get_branch. destruct (decide (c = a)) as [->|Hca].
    + rewrite list_lookup_insert_eq, Hn by (by apply lookup_lt_Some in Hn). cbn. rewrite Gn.
      apply decide_ext. split; congruence.
    + rewrite list_lookup_insert_ne by (intros E; by apply (inj _) in E).
      by rewrite (decide_False (P := c :: q = a :: rest)) by congruence.
Qed.

Lemma delete_full fuel path n :
  canonical n = true -> uniform (length path) n = true -> nibbles_ok path = true ->
  (height n < fuel)%nat ->
  match get n path with
  | Some _ => exists n', delete fuel path n = (Ok (), n') /\ deleted path n n'
  | None => delete fuel path n = (Err KeyNotFound, n)
  end.
Proof.
  revert path n. induction fuel as [|fuel IH]; intros path n Hc Hu Hp Hf; [lia|].
  cbn [delete]. destruct n as [|c|p v|p n|st]; [done|done| | |].
  - cbn. case_decide as E; [|done]. exists Empty. split; [done|]. split; [done|done|].
    intros q. cbn. subst. by case_decide.
  - pose proof Hc as (Ho & Hne & Hb & Hn)%canonical_extension. apply uniform_extension in Hu as [Hl Hu].
    destruct (prefix_or_fork path p) as [(r & -> & E)|(p' & a & r & b & s & -> & -> & Hab & E)];
      [lia|intros ->; lia| |].
    + cbv zeta. rewrite length_app in Hl, Hu. rewrite get_extension, E, decide_False, decide_False, drop_app_length
        by (rewrite ?length_app; lia).
      rewrite nibbles_ok_app, andb_true_iff in Hp. destruct Hp as [_ Hp].
      ospecialize* (IH r n); [done| |done|cbn in Hf; lia|].
      { by replace (length r) with (length p + length r - length p)%nat by lia. }
      unfold on_node. destruct (get n r); [|by rewrite IH].
      destruct IH as (n' & Hi & Hn'). rewrite Hi. by apply (extension_deleted _ _ _ n).
    + cbv zeta. rewrite (decide_True (P := (_ < _)%nat)) by done. cbn. rewrite decide_False; [done|].
      intros F. apply Hab. apply (f_equal (lookup (length p'))) in F.
      rewrite lookup_take_lt, !list_lookup_middle in F by (rewrite ?length_app; cbn; lia).
      congruence.
  - pose proof Hu as Hu'. apply uniform_branch in Hu'. destruct path as [|a rest]; [cbn in Hu'; lia|].
    apply nibbles_ok_cons in Hp as [Ha Hp].
    pose proof Hc as [Hb _]%canonical_branch. destruct (branch_ok_lookup st a Hb Ha) as (n & Hn & Cn).
    rewrite get_branch, Hn. cbn [mbind option_bind]. 
    ospecialize* (IH rest n); [done| |done|pose proof (height_child _ _ _ Hn); lia|].
    { destruct Hu' as [_ Hu']. specialize (Hu' _ _ Hn). cbn in Hu'. by rewrite Nat.sub_0_r in Hu'. }
    unfold on_child. destruct (get n rest).
    + destruct IH as (n' & Hi & Hn'). rewrite Hi. by apply (branch_deleted _ _ _ _ n).
    + rewrite IH. by rewrite list_insert_id.
Qed.

(** ** Lookup *)

Lemma open_full fuel path n :
  canonical n = true -> uniform (length path) n = true -> nibbles_ok path = true ->
  (height n < fuel)%nat -> open fuel path n = (Ok (get n path), n).
Proof.
  revert path n. induction fuel as [|fuel IH]; intros path n Hc Hu Hp Hf; [lia|].
  cbn [open]. destruct n as [|c|p v|p n|st]; [done|done|done| |].
  - pose proof Hc as (Ho & Hne & Hb & Hn)%canonical_extension. apply uniform_extension in Hu as [Hl Hu].
    unfold slice. rewrite decide_True by (unfold len; lia).
    replace (Z.to_nat (len p - 0)) with (length p) by (unfold len; lia). change (Z.to_nat 0) with 0%nat. rewrite drop_0. cbn [get].
    case_decide as E; [|done]. unfold on_node. rewrite bind_run.
    assert (Hx : unblind n = (Ok (), n)) by by destruct n. rewrite Hx.
    rewrite IH; [|done| |by apply nibbles_ok_drop|cbn in Hf; lia].
    { reflexivity. }
    by rewrite length_drop.
  - pose proof Hu as Hu'. apply uniform_branch in Hu'. destruct path as [|a rest]; [cbn in Hu'; lia|].
    apply nibbles_ok_cons in Hp as [Ha Hp].
    pose proof Hc as [Hb _]%canonical_branch. destruct (branch_ok_lookup st a Hb Ha) as (n & Hn & Cn).
    rewrite get_branch, Hn. cbn [mbind option_bind]. unfold on_child. rewrite IH; [|done| |done|].
    + by rewrite list_insert_id.
    + destruct Hu' as [_ Hu']. specialize (Hu' _ _ Hn). cbn in Hu'. by rewrite Nat.sub_0_r in Hu'.
    + pose proof (height_child _ _ _ Hn). lia.
Qed.

End Delete.
