(* ===== verification/TrieReveals.v ===== *)
(** * Partially revealed tries

    A trie whose nodes are fetched on demand behaves as the revealed one: every
    operation returns the same result and leaves a trie that reveals to the same
    nodes.  Together with the facts on revealed tries, the operations refine
    those of a finite map. *)

From S2P Require Import Prelude Effects Primitives SpanTxData Tries TrieProofs.

Import TrieNode.

Definition is_blinded (n : t) : bool := match n with Blinded _ => true | _ => false end.

(** A node other than [Empty] and [Blinded]. *)
Definition is_proper (n : t) : bool :=
  match n with Empty | Blinded _ => false | _ => true end.

Section Opens.
Context `{Keccak} `{TrieRlp} `{TrieProvider}.

(** [opens n m]: [m] is [n] with all nodes revealed.  A commitment below the root
    hides a node that the provider knows and that is long enough to be hashed. *)
#[warnings="-register-all"]
Inductive opens : t -> t -> Prop :=
| opens_empty : opens Empty Empty
| opens_leaf p v : opens (Leaf p v) (Leaf p v)
| opens_extension p n m : opens n m -> opens (Extension p n) (Extension p m)
| opens_branch st st' : Forall2 opens st st' -> opens (Branch st) (Branch st')
| opens_blinded c n m :
    c <> EMPTY_ROOT_HASH -> trie_node_by_hash c = Ok n -> is_proper n = true ->
    blind n = c -> len B256_ZERO <= node_length n -> opens n m -> opens (Blinded c) m.

(** At the root a short node may be hidden too, and the empty trie has its
    commitment. *)
Inductive opens_root : t -> t -> Prop :=
| root_opens n m : opens n m -> opens_root n m
| root_empty : opens_root (Blinded EMPTY_ROOT_HASH) Empty
| root_blinded c n m :
    c <> EMPTY_ROOT_HASH -> trie_node_by_hash c = Ok n -> is_proper n = true -> blind n = c ->
    opens n m -> opens_root (Blinded c) m.

Lemma opens_ind' (P : t -> t -> Prop) :
  P Empty Empty -> (forall p v, P (Leaf p v) (Leaf p v)) ->
  (forall p n m, opens n m -> P n m -> P (Extension p n) (Extension p m)) ->
  (forall st st', Forall2 opens st st' -> Forall2 P st st' -> P (Branch st) (Branch st')) ->
  (forall c n m, c <> EMPTY_ROOT_HASH -> trie_node_by_hash c = Ok n -> is_proper n = true ->
     blind n = c -> len B256_ZERO <= node_length n -> opens n m -> P n m -> P (Blinded c) m) ->
  forall n m, opens n m -> P n m.
Proof.
  intros HE HL HX HS HB. fix IH 3. intros n m [| |p x y Ho|st st' Hs|c x y Hc Hx Hp Hb Hl Ho].
  - exact HE.
  - apply HL.
  - apply HX; [exact Ho|apply IH, Ho].
  - apply HS; [exact Hs|]. induction Hs as [|x y l l' Hx Hl IHl]; constructor; [apply IH, Hx|exact IHl].
  - apply (HB c x); try assumption. apply IH, Ho.
Qed.

Lemma opens_is_empty n m : opens n m -> is_empty n = is_empty m.
Proof.
  intros Ho. induction Ho as [| | | |c n m _ _ Hp _ _ Ho IH] using opens_ind'; try done.
  rewrite <- IH. by destruct n.
Qed.

Lemma opens_revealed n m : opens n m -> is_blinded m = false.
Proof. intros Ho. by induction Ho using opens_ind'. Qed.

Lemma unblind_opens n m :
  opens n m -> exists n', unblind n = (Ok (), n') /\ opens n' m /\ is_blinded n' = false.
Proof.
  intros Ho. destruct (is_blinded n) eqn:Hb; [|exists n; by destruct n].
  destruct Ho as [| | | |c n m Hc Hn Hp _ _ Ho]; try done. exists n. cbn [unblind].
  rewrite decide_False, Hn by done. repeat split; [done|]. by destruct n.
Qed.

(** *** Operations that start by revealing the node *)

Section Reveal.
Context {A : Type} (op : nat -> eff TrieNodeError t A).
Hypothesis op_blinded : forall fuel c,
  op (S fuel) (Blinded c) = (unblind ≫= fun _ => op fuel) (Blinded c).

(** It is enough to consider a node that is not blinded. *)
Lemma reveal_first (Q : result TrieNodeError A * t -> Prop) need fuel n m :
  opens n m -> (need < fuel)%nat ->
  (forall fuel' n', opens n' m -> is_blinded n' = false -> (need <= fuel')%nat -> Q (op fuel' n')) ->
  Q (op fuel n).
Proof.
  intros Ho Hf HQ. destruct (is_blinded n) eqn:Hb; [|apply HQ; [done|done|lia]].
  destruct Ho as [| | | |c n m Hc Hn Hp _ _ Ho]; try done.
  destruct fuel as [|fuel]; [lia|]. rewrite op_blinded, bind_run. cbn [unblind].
  rewrite decide_False, Hn by done. apply HQ; [done|by destruct n|lia].
Qed.

Lemma reveal_root (Q : result TrieNodeError A * t -> Prop) need fuel n m :
  opens_root n m -> (need < fuel)%nat ->
  (forall fuel' n', opens n' m -> (need <= fuel')%nat -> Q (op fuel' n')) -> Q (op fuel n).
Proof.
  intros Hr Hf HQ. destruct Hr as [n m Ho| |c n m Hc Hn Hp _ Ho]; [apply HQ; [done|lia]| |];
    (destruct fuel as [|fuel]; [lia|]; rewrite op_blinded, bind_run; cbn [unblind]).
  - rewrite decide_True by done. apply HQ; [constructor|lia].
  - rewrite decide_False, Hn by done. apply HQ; [done|lia].
Qed.

End Reveal.

(** The outcome [out] is that of the revealed trie, [(r, m')]. *)
Definition agrees {A} (r : result TrieNodeError A) (m' : t) (out : result TrieNodeError A * t) : Prop :=
  out.1 = r /\ opens out.2 m'.

Lemma on_node_agrees {A} p n r m' (f : eff TrieNodeError t A) :
  agrees r m' (f n) -> agrees r (Extension p m') (on_node p n f).
Proof. unfold on_node. destruct (f n). intros [Hr Ho]. split; [done|]. by constructor. Qed.

Lemma on_child_agrees {A} st st' i n r m' (f : eff TrieNodeError t A) :
  Forall2 opens st st' -> agrees r m' (f n) ->
  agrees r (Branch (<[i := m']> st')) (on_child st i n f).
Proof.
  unfold on_child. destruct (f n). intros Hs [Hr Ho]. split; [done|]. constructor.
  by apply Forall2_insert.
Qed.

Lemma opens_child st st' i m :
  Forall2 opens st st' -> st' !! i = Some m -> exists n, st !! i = Some n /\ opens n m.
Proof. intros Hs Hi. by apply (Forall2_lookup_r _ _ _ _ _ Hs Hi). Qed.

Lemma opens_child_none st st' i : Forall2 opens st st' -> st' !! i = None -> st !! i = None.
Proof.
  intros Hs Hi. apply lookup_ge_None in Hi. apply lookup_ge_None.
  by rewrite (Forall2_length _ _ _ Hs).
Qed.

(** *** [open] *)

Lemma open_agrees fuel fuel' path n m r m' :
  opens n m -> open fuel path m = (r, m') -> r <> Panic -> (2 * fuel <= fuel')%nat ->
  agrees r m' (open fuel' path n).
Proof.
  revert fuel' path n m r m'. induction fuel as [|fuel IH]; intros fuel' path n m r m' Ho Hm Hr Hf;
    [injection Hm as <- _; done|].
  apply (reveal_first (fun fuel => open fuel path) (fun _ _ => eq_refl) _ (S (2 * fuel)) _ n m);
    [done|lia|].
  clear n Ho Hf fuel'. intros fuel' n Ho Hb Hf. destruct fuel' as [|fuel']; [lia|].
  cbn [open] in *. destruct Ho as [|p v|p n m Ho|st st' Hs|]; [| | | |done].
  - injection Hm as <- <-. by repeat constructor.
  - injection Hm as <- <-. by repeat constructor.
  - destruct (slice path 0 (len p)); [|injection Hm as <- _; done].
    case_decide; [|injection Hm as <- <-; by repeat constructor].
    assert (Hx : unblind m = (Ok (), m)).
    { pose proof (opens_revealed _ _ Ho). by destruct m. }
    unfold on_node in Hm. rewrite bind_run, Hx in Hm.
    destruct (open fuel _ m) as [r1 m1] eqn:Em. injection Hm as <- <-. apply on_node_agrees.
    destruct (unblind_opens _ _ Ho) as (n' & Hn & Ho' & _). rewrite bind_run, Hn.
    apply (IH _ _ _ m); [done|done|done|lia].
  - destruct path as [|a rest]; [injection Hm as <- <-; by repeat constructor|].
    destruct (st' !! nibble_index a) as [m|] eqn:Em.
    + destruct (opens_child _ _ _ _ Hs Em) as (n & Hn & Ho). rewrite Hn. unfold on_child in Hm.
      destruct (open fuel rest m) as [r1 m1] eqn:E. injection Hm as <- <-.
      apply on_child_agrees; [done|]. apply (IH _ _ _ m); [done|done|done|lia].
    + rewrite (opens_child_none _ _ _ Hs Em). injection Hm as <- <-. by repeat constructor.
Qed.

(** *** [insert] *)

Lemma split_agrees path prefix old old' value n m r m' :
  (forall rest, opens (old rest) (old' rest)) -> opens n m ->
  split path prefix old' value m = (r, m') -> agrees r m' (split path prefix old value n).
Proof.
  intros Hold Ho Hm. unfold split in *. cbn zeta in *.
  destruct (prefix !! _); [|injection Hm as <- <-; done].
  rewrite length_replicate in *. case_decide; [|injection Hm as <- <-; done].
  destruct (path !! _); [|injection Hm as <- <-; done].
  rewrite length_insert, length_replicate in *. case_decide; [|injection Hm as <- <-; done].
  injection Hm as <- <-. split; [done|]. cbn [snd].
  assert (Hs : Forall2 opens
    (<[nibble_index b0:=Leaf (drop (common_prefix_length path prefix + 1) path) value]>
       (<[nibble_index b:=old (drop (common_prefix_length path prefix + 1) prefix)]>
          (replicate BRANCH_LIST_LENGTH Empty)))
    (<[nibble_index b0:=Leaf (drop (common_prefix_length path prefix + 1) path) value]>
       (<[nibble_index b:=old' (drop (common_prefix_length path prefix + 1) prefix)]>
          (replicate BRANCH_LIST_LENGTH Empty)))).
  { do 2 (apply Forall2_insert; [|by constructor || apply Hold]).
    apply Forall2_replicate. constructor. }
  case_decide; by repeat constructor.
Qed.

Lemma insert_agrees fuel fuel' path value n m r m' :
  opens n m -> insert fuel path value m = (r, m') -> r <> Panic -> (2 * fuel <= fuel')%nat ->
  agrees r m' (insert fuel' path value n).
Proof.
  revert fuel' path n m r m'. induction fuel as [|fuel IH]; intros fuel' path n m r m' Ho Hm Hr Hf;
    [injection Hm as <- _; done|].
  apply (reveal_first (fun fuel => insert fuel path value) (fun _ _ => eq_refl) _ (S (2 * fuel)) _ n m);
    [done|lia|].
  clear n Ho Hf fuel'. intros fuel' n Ho Hb Hf. destruct fuel' as [|fuel']; [lia|].
  cbn [insert] in *. destruct Ho as [|p v|p n m Ho|st st' Hs|]; [| | | |done].
  - injection Hm as <- <-. by repeat constructor.
  - case_decide; [injection Hm as <- <-; by repeat constructor|].
    by apply (split_agrees _ _ _ (fun rest => Leaf rest v) _ _ (Leaf p v)); [constructor..|].
  - case_decide.
    + unfold on_node in Hm. destruct (insert fuel _ value m) as [r1 m1] eqn:Em.
      injection Hm as <- <-. apply on_node_agrees. apply (IH _ _ _ m); [done|done|done|lia].
    + by apply (split_agrees _ _ _ (fun rest => below rest m) _ _ (Extension p m));
        [intros []; by repeat constructor|by constructor|].
  - destruct path as [|a rest]; [injection Hm as <- <-; by repeat constructor|].
    destruct (st' !! nibble_index a) as [m|] eqn:Em; [|injection Hm as <- _; done].
    destruct (opens_child _ _ _ _ Hs Em) as (n & Hn & Ho). rewrite Hn. unfold on_child in Hm.
    destruct (insert fuel rest value m) as [r1 m1] eqn:E. injection Hm as <- <-.
    apply on_child_agrees; [done|]. apply (IH _ _ _ m); [done|done|done|lia].
Qed.

(** *** [delete] *)

Lemma non_empty_opens st st' :
  Forall2 opens st st' ->
  Forall2 (fun x y => x.1 = y.1 /\ opens x.2 y.2) (non_empty_children st) (non_empty_children st').
Proof.
  intros Hs. unfold non_empty_children.
  assert (HG : forall f : nat -> nat,
    Forall2 (fun x y => x.1 = y.1 /\ opens x.2 y.2)
      (filter (fun child => is_empty child.2 = false) (imap (fun i n => (f i, n)) st))
      (filter (fun child => is_empty child.2 = false) (imap (fun i n => (f i, n)) st'))).
  { induction Hs as [|n m st st' Ho Hs IH]; intros f; [constructor|]. cbn [imap].
    rewrite !filter_cons. cbn [snd]. rewrite (opens_is_empty _ _ Ho).
    specialize (IH (f ∘ S)). case_decide; [constructor; [done|]|]; exact IH. }
  exact (HG id).
Qed.

(** A successful outcome that agrees with the one on the revealed trie. *)
Definition revealed (full out : result TrieNodeError () * t) : Prop :=
  full.1 = Ok () /\ agrees (Ok ()) full.2 out /\ is_blinded out.2 = false.

Lemma collapse_extension_opens fuel fuel' p n m :
  opens n m -> is_blinded n = false ->
  revealed (collapse_if_possible fuel (Extension p m)) (collapse_if_possible fuel' (Extension p n)).
Proof.
  intros Ho Hb. destruct Ho as [| | | |]; [..|done];
    destruct fuel, fuel'; cbn; by repeat constructor.
Qed.

Lemma only_child_opens st st' i m :
  Forall2 opens st st' -> non_empty_children st' = [(i, m)] ->
  exists n, non_empty_children st = [(i, n)] /\ st !! i = Some n /\ opens n m.
Proof.
  intros Hs E. pose proof (non_empty_opens _ _ Hs) as HF. rewrite E in HF.
  apply Forall2_cons_inv_r in HF as ([j n] & l & [Hj Ho] & HF & En).
  apply Forall2_nil_inv_r in HF as ->. cbn in *. subst j. exists n. repeat split; [done| |done].
  apply (elem_of_non_empty st i n). rewrite En. set_solver.
Qed.

(** The only child of a branch, once it is revealed. *)
Lemma collapse_only_child fuel fuel' st st' i n m :
  Forall2 opens st st' -> non_empty_children st' = [(i, m)] ->
  non_empty_children st = [(i, n)] -> opens n m -> is_blinded n = false ->
  revealed (collapse_if_possible fuel (Branch st')) (collapse_if_possible fuel' (Branch st)).
Proof.
  intros Hs Em En Ho Hb.
  destruct fuel, fuel'; cbn [collapse_if_possible]; rewrite Em, En;
    (destruct Ho; [..|done]; by repeat constructor).
Qed.

Lemma collapse_branch_opens fuel fuel' st st' :
  Forall2 opens st st' -> (0 < fuel')%nat ->
  revealed (collapse_if_possible fuel (Branch st')) (collapse_if_possible fuel' (Branch st)).
Proof.
  intros Hs Hf. destruct (decide (length (non_empty_children st') = 1%nat)) as [Hone|Hnone].
  - destruct (non_empty_children st') as [|[i m] []] eqn:Em; [done| |done].
    destruct (only_child_opens _ _ _ _ Hs Em) as (n & En & Hn & Ho).
    destruct (is_blinded n) eqn:Hb; [|by apply (collapse_only_child _ _ _ _ i n m)].
    destruct fuel' as [|fuel']; [lia|]. destruct n as [|c| | |]; try done.
    cbn [collapse_if_possible]. rewrite En. unfold on_child.
    destruct (unblind_opens _ _ Ho) as (n & Hu & Ho' & Hb'). rewrite Hu.
    assert (Hs' : Forall2 opens (<[i := n]> st) st').
    { rewrite <- (list_insert_id st' i m); [by apply Forall2_insert|].
      apply (elem_of_non_empty st' i m). rewrite Em. set_solver. }
    destruct (only_child_opens _ _ _ _ Hs' Em) as (n' & En' & Hn' & Ho'').
    rewrite list_lookup_insert_eq in Hn' by (by apply lookup_lt_Some in Hn). injection Hn' as ->.
    by apply (collapse_only_child _ _ _ _ i n' m).
  - pose proof (Forall2_length _ _ _ (non_empty_opens _ _ Hs)) as Hl.
    assert (Hu : forall st0 fuel0, length (non_empty_children st0) <> 1%nat ->
      collapse_if_possible fuel0 (Branch st0) = (Ok (), Branch st0)).
    { intros st0 fuel0 H1'. destruct fuel0; cbn [collapse_if_possible];
        by destruct (non_empty_children st0) as [|[] []]. }
    rewrite !Hu by congruence. by repeat constructor.
Qed.

(** A deletion below a node, followed by the simplification of the node. *)
Definition then_collapse (fuel : nat) (out : result TrieNodeError () * t) : result TrieNodeError () * t :=
  match out with
  | (Ok _, self) => collapse_if_possible fuel self
  | (Err e, self) => (Err e, self)
  | (Panic, self) => (Panic, self)
  end.

Lemma then_collapse_agrees fuel fuel' r r1 n1 m1 m' out :
  then_collapse fuel (r1, m1) = (r, m') -> agrees r1 m1 out -> out.2 = n1 ->
  (r1 = Ok () -> revealed (collapse_if_possible fuel m1) (collapse_if_possible fuel' n1)) ->
  agrees r m' (then_collapse fuel' out) /\
  (r = Ok () -> is_blinded (then_collapse fuel' out).2 = false).
Proof.
  destruct out as [r2 n2]. intros Hm [Hr Ho] Hn HR. cbn in Hr, Ho, Hn. subst r2 n2.
  destruct r1 as [[]|e|]; cbn in *; [|injection Hm as <- <-; done..].
  rewrite Hm in HR. destruct (HR eq_refl) as (Hr & Ha & Hb). cbn in *. by subst r.
Qed.

(** The fuel of the revealed trie is not used up. *)
Lemma then_collapse_no_panic fuel r1 m1 r m' :
  then_collapse fuel (r1, m1) = (r, m') -> r <> Panic -> r1 <> Panic.
Proof. intros Hm Hr ->. by injection Hm as <- _. Qed.

Lemma delete_agrees fuel fuel' path n m r m' :
  opens n m -> delete fuel path m = (r, m') -> r <> Panic -> (2 * fuel <= fuel')%nat ->
  agrees r m' (delete fuel' path n) /\ (r = Ok () -> is_blinded (delete fuel' path n).2 = false).
Proof.
  revert fuel' path n m r m'. induction fuel as [|fuel IH]; intros fuel' path n m r m' Ho Hm Hr Hf;
    [injection Hm as <- _; done|].
  apply (reveal_first (fun fuel => delete fuel path) (fun _ _ => eq_refl)
    (fun out => agrees r m' out /\ (r = Ok () -> is_blinded out.2 = false)) (S (2 * fuel)) _ n m);
    [done|lia|].
  clear n Ho Hf fuel'. intros fuel' n Ho Hb Hf. destruct fuel' as [|fuel']; [lia|].
  cbn [delete] in *. destruct Ho as [|p v|p n m Ho|st st' Hs|]; [| | | |done].
  - injection Hm as <- <-. by repeat constructor.
  - case_decide; injection Hm as <- <-; by repeat constructor.
  - cbv zeta in *. case_decide; [injection Hm as <- <-; split; [by repeat constructor|done]|].
    case_decide; [injection Hm as <- <-; by repeat constructor|].
    unfold on_node in Hm. destruct (delete fuel (drop (length p) path) m) as [r1 m1] eqn:Em.
    change (then_collapse fuel (r1, Extension p m1) = (r, m')) in Hm.
    destruct (IH fuel' (drop (length p) path) n m r1 m1) as [Ha1 Hb1];
      [done|done|by apply (then_collapse_no_panic _ _ _ _ _ Hm)|lia|].
    apply (then_collapse_agrees _ _ _ _ _ _ _ _ Hm (on_node_agrees p _ _ _ _ Ha1) eq_refl).
    intros ->. unfold on_node. destruct Ha1 as [_ Ho1]. specialize (Hb1 eq_refl).
    destruct (delete fuel' _ n) as [r2 n1]. by apply collapse_extension_opens.
  - destruct path as [|a rest]; [injection Hm as <- <-; split; [by repeat constructor|done]|].
    destruct (st' !! nibble_index a) as [m|] eqn:Em; [|by injection Hm as <- _].
    destruct (opens_child _ _ _ _ Hs Em) as (n & Hn & Ho). rewrite Hn. unfold on_child in Hm.
    destruct (delete fuel rest m) as [r1 m1] eqn:E.
    change (then_collapse fuel (r1, Branch (<[nibble_index a := m1]> st')) = (r, m')) in Hm.
    destruct (IH fuel' rest n m r1 m1) as [Ha1 Hb1];
      [done|done|by apply (then_collapse_no_panic _ _ _ _ _ Hm)|lia|].
    apply (then_collapse_agrees _ _ _ _ _ _ _ _ Hm
      (on_child_agrees _ _ (nibble_index a) _ _ _ _ Hs Ha1) eq_refl).
    intros ->. unfold on_child. destruct Ha1 as [_ Ho1].
    destruct fuel; [injection E as E _; done|].
    destruct (delete fuel' rest n) as [r2 n1]. apply collapse_branch_opens; [|lia].
    by apply Forall2_insert.
Qed.

(** ** Refinement of a finite map *)

(** The trie [n] holds the map [M] with keys of [k] nibbles. *)
Definition represents (k : nat) (n : t) (M : gmap Nibbles bytes) : Prop :=
  exists m, opens_root n m /\ canonical m = true /\ uniform k m = true /\
    forall q, get m q = M !! q.

(** A call of one of the operations, with the result of [open] for all. *)
Inductive TrieOp : Type :=
| Open (path : Nibbles)
| Insert (path : Nibbles) (value : bytes)
| Delete (path : Nibbles).

Definition op_path (o : TrieOp) : Nibbles :=
  match o with Open path | Insert path _ | Delete path => path end.

Definition run_op (fuel : nat) (o : TrieOp) : eff TrieNodeError t (option bytes) :=
  match o with
  | Open path => open fuel path
  | Insert path value => insert fuel path value ≫= fun _ => mret None
  | Delete path => delete fuel path ≫= fun _ => mret None
  end.

Definition map_op (o : TrieOp) : eff TrieNodeError (gmap Nibbles bytes) (option bytes) := fun M =>
  match o with
  | Open path => (Ok (M !! path), M)
  | Insert path value => (Ok None, <[path := value]> M)
  | Delete path =>
      match M !! path with
      | Some _ => (Ok None, base.delete path M)
      | None => (Err KeyNotFound, M)
      end
  end.

(** Every level of a trie uses up a nibble. *)
Lemma height_le k m : canonical m = true -> uniform k m = true -> (height m <= k)%nat.
Proof.
  revert k. induction m as [| | |p m IH|st IH] using node_ind; intros k Hc Hu; [cbn; lia..| |].
  - apply canonical_extension in Hc as (_ & Hp & _ & Hc). apply uniform_extension in Hu as [Hl Hu].
    specialize (IH _ Hc Hu). destruct p; [done|]. cbn in *. lia.
  - apply canonical_branch in Hc as [Hb _]. apply uniform_branch in Hu as [Hk Hu].
    assert (HL : forall i n, st !! i = Some n -> (height n <= k - 1)%nat).
    { intros i n Hi. apply (proj1 (Forall_lookup _ _) IH _ _ Hi); [|by apply (Hu i)].
      by apply (bo_children _ Hb _ _ Hi). }
    clear -HL Hk. cbn. enough (fold_right (fun n h => height n `max` h)%nat 0%nat st <= k - 1)%nat by lia.
    induction st as [|n st IH]; cbn; [lia|]. apply Nat.max_lub; [by apply (HL 0%nat)|].
    apply IH. intros i. apply (HL (S i)).
Qed.

(** The outcome of an operation on a trie that represents a map. *)
Lemma represents_intro {A} k (r : result TrieNodeError A) m' M' out :
  agrees r m' out -> canonical m' = true -> uniform k m' = true -> (forall q, get m' q = M' !! q) ->
  out.1 = r /\ represents k out.2 M'.
Proof. intros [Hr Ho] Hc Hu Hg. split; [done|]. exists m'. split; [by constructor|done]. Qed.

Lemma open_represents fuel path n M :
  represents (length path) n M -> nibbles_ok path = true -> (2 * length path + 3 <= fuel)%nat ->
  (open fuel path n).1 = Ok (M !! path) /\ represents (length path) (open fuel path n).2 M.
Proof.
  intros (m & Hr & Hc & Hu & Hg) Hp Hf. pose proof (height_le _ _ Hc Hu) as Hh.
  pose proof (open_full (S (length path)) path m Hc Hu Hp ltac:(lia)) as Hm. rewrite Hg in Hm.
  apply (reveal_root (fun fuel => open fuel path) (fun _ _ => eq_refl) (fun out => out.1 = Ok (M !! path) /\
    represents (length path) out.2 M) (2 * length path + 2) _ n m Hr); [lia|].
  intros fuel' n' Ho Hf'. apply (represents_intro _ _ m); [|done..].
  apply (open_agrees (S (length path)) _ _ _ m); [done..|lia].
Qed.

Lemma insert_represents fuel path value n M :
  represents (length path) n M -> nibbles_ok path = true -> (2 * length path + 3 <= fuel)%nat ->
  (insert fuel path value n).1 = Ok () /\
  represents (length path) (insert fuel path value n).2 (<[path := value]> M).
Proof.
  intros (m & Hr & Hc & Hu & Hg) Hp Hf. pose proof (height_le _ _ Hc Hu) as Hh.
  destruct (insert_full (S (length path)) path value m Hc Hu Hp ltac:(lia)) as (m' & Hm & [C U _ _ G]).
  apply (reveal_root (fun fuel => insert fuel path value) (fun _ _ => eq_refl) (fun out => out.1 = Ok () /\
    represents (length path) out.2 _) (2 * length path + 2) _ n m Hr); [lia|].
  intros fuel' n' Ho Hf'. apply (represents_intro _ _ m'); [|done|done|].
  - apply (insert_agrees (S (length path)) _ _ _ _ m); [done..|lia].
  - intros q. rewrite G, Hg. case_decide as E; [by subst; rewrite lookup_insert_eq|].
    by rewrite lookup_insert_ne.
Qed.

Lemma delete_represents fuel path n M :
  represents (length path) n M -> nibbles_ok path = true -> (2 * length path + 3 <= fuel)%nat ->
  (delete fuel path n).1 = (if M !! path is Some _ then Ok () else Err KeyNotFound) /\
  represents (length path) (delete fuel path n).2 (base.delete path M).
Proof.
  intros (m & Hr & Hc & Hu & Hg) Hp Hf. pose proof (height_le _ _ Hc Hu) as Hh.
  pose proof (delete_full (S (length path)) path m Hc Hu Hp ltac:(lia)) as Hm. rewrite Hg in Hm.
  apply (reveal_root (fun fuel => delete fuel path) (fun _ _ => eq_refl) (fun out => out.1 = _ /\
    represents (length path) out.2 _) (2 * length path + 2) _ n m Hr); [lia|].
  intros fuel' n' Ho Hf'. destruct (M !! path) eqn:E.
  - destruct Hm as (m' & Hm & [C U G]). apply (represents_intro _ _ m'); [|done|done|].
    + apply (delete_agrees (S (length path)) _ _ _ m); [done..|lia].
    + intros q. rewrite G, Hg. case_decide as E'; [by subst; rewrite lookup_delete_eq|].
      by rewrite lookup_delete_ne.
  - rewrite delete_id by done. apply (represents_intro _ _ m); [|done..].
    apply (delete_agrees (S (length path)) _ _ _ m); [done..|lia].
Qed.

Lemma run_op_represents fuel k o n M :
  represents k n M -> length (op_path o) = k -> nibbles_ok (op_path o) = true ->
  (2 * k + 3 <= fuel)%nat ->
  (run_op fuel o n).1 = (map_op o M).1 /\ represents k (run_op fuel o n).2 (map_op o M).2.
Proof.
  intros Hn <- Hp Hf. destruct o as [path|path value|path]; cbn [run_op map_op op_path] in *.
  - by apply open_represents.
  - destruct (insert_represents fuel path value n M Hn Hp Hf) as [Hr Hn']. rewrite bind_run.
    destruct (insert fuel path value n) as [r n']. cbn in Hr, Hn'. by subst r.
  - destruct (delete_represents fuel path n M Hn Hp Hf) as [Hr Hn']. rewrite bind_run.
    destruct (delete fuel path n) as [r n']. cbn in Hr, Hn'. subst r.
    destruct (M !! path) eqn:E; [done|]. by rewrite delete_id in Hn'.
Qed.

(** One call after the other. *)
Lemma run_ops_represent fuel k (ops : list TrieOp) n M :
  represents k n M ->
  Forall (fun o => length (op_path o) = k /\ nibbles_ok (op_path o) = true) ops ->
  (2 * k + 3 <= fuel)%nat ->
  (run_all (map (run_op fuel) ops) n).1 = (run_all (map map_op ops) M).1 /\
  represents k (run_all (map (run_op fuel) ops) n).2 (run_all (map map_op ops) M).2.
Proof.
  intros Hn Ho Hf. revert n M Hn. induction Ho as [|o ops [Hk Hp] Ho IH]; intros n M Hn; [done|].
  cbn [map run_all]. destruct (run_op_represents fuel k o n M Hn Hk Hp Hf) as [Hr Hn'].
  destruct (run_op fuel o n) as [r n'], (map_op o M) as [r' M']. cbn in Hr, Hn'. subst r'.
  destruct (IH n' M' Hn') as [Hrs Hn''].
  destruct (run_all (map (run_op fuel) ops) n') as [rs n''], (run_all (map map_op ops) M') as [rs' M''].
  cbn in *. by subst.
Qed.

End Opens.
