(* ===== verification/TrieCodecs.v ===== *)
(** * Commitments and encodings of trie nodes

    The laws of RLP, of the compact path encoding and of the hash that the nodes
    rely on; the commitment of a trie is that of its revealed nodes, hence
    determined by the map it holds; and a node is recovered from its encoding,
    with its long children blinded. *)

From S2P Require Import Prelude Effects Primitives SpanTxData Tries TrieProofs TrieReveals.

Import TrieNode.

(** The compact ("hex prefix") encoding of a path: a first byte with the flag of
    a leaf, the parity and the first nibble of an odd path, then two nibbles per
    byte. *)
Fixpoint pack (p : Nibbles) : bytes :=
  match p with
  | a :: b :: p => byte.of_Z (16 * byte.unsigned a + byte.unsigned b) :: pack p
  | _ => []
  end.

Definition compact (p : Nibbles) (is_leaf : bool) : bytes :=
  let flag := if is_leaf then 32 else 0 in
  if Nat.even (length p) then byte.of_Z flag :: pack p
  else match p with
       | a :: p => byte.of_Z (flag + 16 + byte.unsigned a) :: pack p
       | [] => []
       end.

(** [decode_vec] decodes the elements of a list one after the other. *)
Definition decodes_each {A} (d : bytes -> result RlpError (A * bytes)) (items : list (A * bytes)) : Prop :=
  Forall (fun '(a, e) => e <> [] /\
    forall r, len (e ++ r) <= len (concat items.*2) -> d (e ++ r) = Ok (a, r)) items.

Class TrieRlpLaws `{TrieRlp} : Prop := {
  length_of_header_encode h : length_of_header h = len (encode_header h);
  length_of_header_payload h : length_of_header h = length_of_length (RlpHeader.payload_length h);
  length_of_length_pos n : 0 < length_of_length n;
  length_of_length_short n : 0 <= n < 56 -> length_of_length n = 1;
  decode_list_header n rest : 0 <= n < 2 ^ 64 -> n <= len rest ->
    decode_header (encode_header (RlpHeader.mk true n) ++ rest) = Some (RlpHeader.mk true n, rest);
  decode_string_header b rest : len b < 2 ^ 64 ->
    decode_header (encode_string b ++ rest) = Some (RlpHeader.mk false (len b), b ++ rest);
  encode_empty_string : encode_string [] = [Byte.x80];
  len_encode_byte b : byte.unsigned b < 128 -> len (encode_string [b]) = 1;
  len_encode_string b : (forall x, b = [x] -> 128 <= byte.unsigned x) ->
    len (encode_string b) = len b + length_of_length (len b);
  string_length_encode b : string_length b = len (encode_string b);
  decode_string_encode b rest : len b < 2 ^ 64 -> decode_string (encode_string b ++ rest) = Some (b, rest);
  decode_b256_encode b rest : len b = 32 -> decode_b256 (encode_string b ++ rest) = Some (b, rest);
  decode_vec_encode {A} (d : bytes -> result RlpError (A * bytes)) items rest :
    decodes_each d items -> len (concat items.*2 ++ rest) < 2 ^ 64 ->
    decode_vec d (encode_header (RlpHeader.mk true (len (concat items.*2))) ++ concat items.*2 ++ rest) =
      Ok (items.*1, rest);
  decode_header_bounds b h rest : decode_header b = Some (h, rest) ->
    0 <= RlpHeader.payload_length h <= len rest /\ len rest <= len b /\
    len rest - RlpHeader.payload_length h < len b /\
    (RlpHeader.list h = true \/ RlpHeader.payload_length h = 0 -> len b = length_of_header h + len rest);
  decode_string_shorter b s rest : decode_string b = Some (s, rest) -> len rest < len b;
  decode_vec_no_panic {A} (d : bytes -> result RlpError (A * bytes)) b :
    (forall b', len b' < len b -> d b' <> Panic) -> decode_vec d b <> Panic;
  encode_path_leaf_compact p is_leaf : nibbles_ok p = true -> encode_path_leaf p is_leaf = compact p is_leaf
}.

(** A hash has 32 bytes. *)
Class KeccakLaws `{Keccak} : Prop := len_keccak256 b : len (keccak256 b) = 32.

(** A node as [decode] returns it: well-formed paths, commitments of 32 bytes and
    branches of 17 elements. *)
Fixpoint encodable (n : t) : bool :=
  match n with
  | Empty => true
  | Blinded commitment => bool_decide (len commitment = 32)
  | Leaf prefix _ => nibbles_ok prefix
  | Extension prefix node => nibbles_ok prefix && encodable node
  | Branch stack => bool_decide (length stack = BRANCH_LIST_LENGTH) && forallb encodable stack
  end.

Section Lengths.
Context `{Keccak} `{!KeccakLaws} `{TrieRlp} `{!TrieRlpLaws}.

Lemma len_encode_b256 c : len c = 32 -> len (encode_string c) = 33.
Proof.
  intros Hc. rewrite len_encode_string, Hc, length_of_length_short by (lia || by intros x ->). done.
Qed.

Lemma string_length_b256 c : len c = 32 -> string_length c = 33.
Proof. intros Hc. by rewrite string_length_encode, len_encode_b256. Qed.

Lemma blinded_of_eq l : blinded_of l = if decide (32 <= l) then 33 else l.
Proof. unfold blinded_of. by rewrite string_length_b256. Qed.

Lemma len_blind n : encodable n = true -> len (blind n) = 32.
Proof.
  destruct n; cbn; intros He; try apply len_keccak256. by apply bool_decide_eq_true in He.
Qed.

(** A node in place of a child. *)
Definition point (n : t) : t :=
  if decide (len B256_ZERO <= node_length n) then Blinded (blind n) else n.

Lemma encode_pointer_point n : encode_pointer (encode n) n = encode (point n).
Proof. unfold encode_pointer, point. by case_decide. Qed.

Lemma point_blinded c : point (Blinded c) = Blinded c.
Proof. unfold point. by case_decide. Qed.

Lemma encodable_point n : encodable n = true -> encodable (point n) = true.
Proof.
  intros He. unfold point. case_decide; [|done]. apply bool_decide_eq_true. by apply len_blind.
Qed.

Lemma node_length_point n : encodable n = true -> node_length (point n) = blinded_length n.
Proof.
  intros He. unfold point, blinded_length, blinded_of.
  case_decide; [|done]. cbn. by rewrite !string_length_b256 by (done || by apply len_blind).
Qed.

Lemma pack_length (p : Nibbles) : len (pack p) = len p / 2.
Proof.
  assert (Hs : forall l, (length l <= length p)%nat -> len (pack l) = len l / 2); [|by apply Hs].
  induction p as [|x p IH]; intros l Hl; [by destruct l; [|cbn in Hl; lia]|].
  destruct l as [|a [|b l]]; [done|done|]. cbn in Hl. cbn [pack]. rewrite !len_cons, IH by lia.
  replace (len l + 1 + 1) with (len l + 1 * 2) by lia. by rewrite Z.div_add.
Qed.

Lemma compact_length p is_leaf : len (compact p is_leaf) = len p / 2 + 1.
Proof.
  unfold compact. destruct (Nat.even (length p)) eqn:E.
  - rewrite len_cons, pack_length. done.
  - destruct p as [|a p]; [done|]. rewrite !len_cons, pack_length. f_equal.
    cbn [length] in E. rewrite Nat.even_succ in E.
    assert (Ho : Nat.even (length p) = true).
    { rewrite <- Nat.negb_odd. by rewrite E. }
    apply Nat.even_spec in Ho as [h Hh]. unfold len. rewrite Hh.
    Z.div_mod_to_equations. lia.
Qed.

Lemma encoded_key_length_eq p is_leaf :
  nibbles_ok p = true -> len (encode_string (encode_path_leaf p is_leaf)) = encoded_key_length p.
Proof.
  intros Hp. rewrite encode_path_leaf_compact by done. unfold encoded_key_length. case_decide as E.
  - rewrite len_encode_string; rewrite ?compact_length; [done|]. intros x Hx.
    apply (f_equal len) in Hx. rewrite compact_length in Hx. done.
  - assert (E' : len p / 2 = 0) by lia. apply Z.div_small_iff in E'; [|lia].
    destruct p as [|a [|b p]]; [| |unfold len in E'; cbn in E'; lia]; unfold compact; cbn [length Nat.even pack].
    + rewrite len_encode_byte; [lia|]. by destruct is_leaf.
    + apply nibbles_ok_cons in Hp as [Ha _]. unfold nibble_index in Ha.
      pose proof (byte.unsigned_range a). rewrite len_encode_byte; [lia|].
      rewrite byte.unsigned_of_Z. unfold byte.wrap. rewrite Z.mod_small; destruct is_leaf; lia.
Qed.

Lemma fold_sum (f : t -> Z) st acc :
  fold_left (fun acc n => acc + f n) st acc = acc + fold_right Z.add 0 (map f st).
Proof. revert acc. induction st as [|n st IH]; intros acc; cbn; [lia|]. rewrite IH. lia. Qed.

Lemma len_concat (es : list bytes) : len (concat es) = fold_right Z.add 0 (map len es).
Proof. induction es as [|e es IH]; [done|]. cbn. by rewrite len_app, IH. Qed.

(** The bytes that follow the header of a list. *)
Definition payload (n : t) : bytes :=
  match n with
  | Leaf prefix value => encode_string (encode_path_leaf prefix true) ++ encode_string value
  | Extension prefix node => encode_string (encode_path_leaf prefix false) ++ encode (point node)
  | Branch stack => concat (map (fun node => encode (point node)) stack)
  | _ => []
  end.

Lemma encode_payload n :
  is_proper n = true -> encode n = encode_header (RlpHeader.mk true (payload_length n)) ++ payload n.
Proof.
  destruct n as [| |p v|p n|st]; try done; intros _; cbn [encode payload].
  - by rewrite encode_pointer_point.
  - do 2 f_equal. apply map_ext. apply encode_pointer_point.
Qed.

(** The predicted lengths are those of the encoding. *)
Lemma lengths_encode n :
  encodable n = true ->
  node_length n = len (encode n) /\ (is_proper n = true -> payload_length n = len (payload n)).
Proof.
  assert (HP : forall n, is_proper n = true -> payload_length n = len (payload n) ->
    node_length n = len (encode n)).
  { intros m Hm Hl. rewrite encode_payload, len_app, <- Hl by done. rewrite <- length_of_header_encode.
    by destruct m. }
  assert (Hpt : forall m, encodable m = true -> node_length m = len (encode m) ->
    blinded_length m = len (encode (point m))).
  { intros m He Hl. rewrite <- node_length_point by done. unfold point. case_decide; [|done].
    cbn. apply string_length_encode. }
  induction n as [|c|p v|p n IH|st IH] using node_ind; intros He.
  - done.
  - split; [|done]. cbn. apply string_length_encode.
  - assert (Hl : payload_length (Leaf p v) = len (payload (Leaf p v))); [|auto].
    cbn. by rewrite len_app, string_length_encode, encoded_key_length_eq.
  - apply andb_true_iff in He as [Hp He]. destruct (IH He) as [Hn _].
    assert (Hl : payload_length (Extension p n) = len (payload (Extension p n))); [|auto].
    cbn [payload]. rewrite len_app, encoded_key_length_eq, <- Hpt by done. done.
  - apply andb_true_iff in He as [_ He]. rewrite forallb_forall in He.
    assert (Hl : payload_length (Branch st) = len (payload (Branch st))); [|auto].
    cbn [payload payload_length]. rewrite fold_sum, len_concat, map_map, Z.add_0_l. f_equal.
    apply map_ext_in. intros n Hn. apply Hpt; [by apply He|].
    apply list_elem_of_In in Hn. apply (proj1 (list.Forall_forall _ _) IH n Hn).
    apply He. by apply list_elem_of_In.
Qed.

End Lengths.

(** ** The commitment of a trie *)

Section Commitments.
Context `{Keccak} `{!KeccakLaws} `{TrieRlp} `{!TrieRlpLaws} `{TrieProvider}.

(** What the parent of a node sees of it, and what the node commits to. *)
Record seen_as (n m : t) : Prop := {
  se_point : encode (point n) = encode (point m);
  se_length : blinded_length n = blinded_length m;
  se_blind : blind n = blind m;
  se_node : is_blinded n = false -> encode n = encode m /\ node_length n = node_length m
}.

Lemma seen_same n m :
  is_blinded n = false -> encode n = encode m -> node_length n = node_length m -> blind n = blind m ->
  seen_as n m.
Proof.
  intros Hn He Hl Hb. split; [|unfold blinded_length; by rewrite Hl|done|done].
  unfold point. rewrite Hl. case_decide; cbn; by rewrite ?Hb.
Qed.

(** Nodes of the same kind whose payloads are the same. *)
Lemma seen_proper n m :
  is_proper n = true -> is_proper m = true ->
  payload_length n = payload_length m -> payload n = payload m -> seen_as n m.
Proof.
  intros Hn Hm Hl Hp. assert (He : encode n = encode m) by (rewrite !encode_payload by done; congruence).
  apply seen_same; [by destruct n|done| |].
  - unfold node_length. rewrite Hl. by destruct n, m.
  - unfold blind. rewrite He. by destruct n, m.
Qed.

Lemma opens_seen n m : opens n m -> seen_as n m.
Proof.
  revert n m. apply opens_ind'; [by apply seen_same|intros; by apply seen_same| | |].
  - intros p n m _ [Hp Hl _ _]. apply seen_proper; [done|done| |]; cbn [payload payload_length].
    + unfold blinded_length, node_length in Hl. by rewrite Hl.
    + by rewrite Hp.
  - intros st st' _ IH. apply seen_proper; [done|done| |]; cbn [payload payload_length].
    + rewrite !fold_sum. do 2 f_equal. induction IH as [|x y st st' [_ Hx _ _] _ IH]; [done|].
      cbn. by f_equal.
    + f_equal. induction IH as [|x y st st' [Hx _ _ _] _ IH]; [done|]. cbn. by f_equal.
  - intros c n m Hc Hn Hp Hb Hl _ [Ip Il Ib In]. destruct In as [_ Im]; [by destruct n|].
    assert (Hlc : len c = 32) by (subst c; destruct n; try done; apply len_keccak256).
    assert (Hbl : blinded_length (Blinded c) = 33).
    { unfold blinded_length, node_length. cbn [length_of]. rewrite (string_length_b256 c Hlc).
      apply blinded_of_eq. }
    split; [| |cbn; congruence|done].
    + rewrite <- Ip, point_blinded. unfold point. rewrite decide_True by done. by rewrite Hb.
    + rewrite Hbl, <- Il. unfold blinded_length, blinded_of. rewrite decide_True by done.
      by rewrite string_length_b256.
Qed.

Lemma opens_root_blind n m : opens_root n m -> blind n = blind m.
Proof.
  intros [x y Ho| |c x y Hc Hx Hp Hb Ho]; [apply (opens_seen _ _ Ho)|done|].
  cbn. rewrite <- Hb. apply (opens_seen _ _ Ho).
Qed.

(** C14: the root commits to the map and to nothing else.  Two tries that hold
    the same map have the same commitment, whatever operations built them and
    whichever of their nodes are still blinded. *)
Theorem root_commits_map k k' n n' M : represents k n M -> represents k' n' M -> blind n = blind n'.
Proof.
  intros (m & Ho & Hc & _ & Hg) (m' & Ho' & Hc' & _ & Hg').
  rewrite (opens_root_blind _ _ Ho), (opens_root_blind _ _ Ho').
  by rewrite (canonical_unique m m' Hc Hc') by (intros q; by rewrite Hg, Hg').
Qed.

End Commitments.
