(* ===== verification/TrieDecodes.v ===== *)
(** * Decoding trie nodes

    A node is recovered from its encoding with its long children blinded, and a
    provider that decodes the preimages of the commitments of a trie reveals that
    trie from its root. *)

From S2P Require Import Prelude Effects Primitives SpanTxData Tries TrieProofs TrieReveals TrieCodecs.

Import TrieNode.

(** ** Paths *)

Lemma byte_eq_unsigned a z : 0 <= z < 256 -> byte.unsigned a = z -> byte.of_Z z = a.
Proof. intros Hz <-. apply byte.of_Z_unsigned. Qed.

Lemma unsigned_of_small z : 0 <= z < 256 -> byte.unsigned (byte.of_Z z) = z.
Proof. intros Hz. rewrite byte.unsigned_of_Z. unfold byte.wrap. by rewrite Z.mod_small by lia. Qed.

Lemma nibble_range a : (nibble_index a < 16)%nat -> 0 <= byte.unsigned a < 16.
Proof. unfold nibble_index. pose proof (byte.unsigned_range a). lia. Qed.

Lemma high_nibble x y : 0 <= x < 16 -> 0 <= y < 16 -> Z.shiftr (16 * x + y) 4 = x.
Proof. intros Hx Hy. rewrite Z.shiftr_div_pow2 by lia. change (2 ^ 4) with 16. Z.div_mod_to_equations. lia. Qed.

Lemma low_nibble x y : 0 <= x < 16 -> 0 <= y < 16 -> Z.land (16 * x + y) 15 = y.
Proof.
  intros Hx Hy. change 15 with (Z.ones 4). rewrite Z.land_ones by lia. change (2 ^ 4) with 16.
  Z.div_mod_to_equations. lia.
Qed.

Lemma unpack_pack (p : Nibbles) :
  nibbles_ok p = true -> Nat.even (length p) = true -> flat_map unpack_byte (pack p) = p.
Proof.
  assert (Hs : forall (q p : Nibbles), (length p <= length q)%nat ->
    nibbles_ok p = true -> Nat.even (length p) = true -> flat_map unpack_byte (pack p) = p); [|by apply (Hs p)].
  clear p. intros q. induction q as [|x q IH]; intros p Hl Hp He; [by destruct p; [|cbn in Hl; lia]|].
  destruct p as [|a [|b p]]; [done|done|]. apply nibbles_ok_cons in Hp as [Ha Hp].
  apply nibbles_ok_cons in Hp as [Hb Hp]. cbn in Hl, He. apply nibble_range in Ha, Hb.
  cbn [pack flat_map]. rewrite IH by (done || lia). unfold unpack_byte.
  rewrite unsigned_of_small, high_nibble, low_nibble, !byte.of_Z_unsigned by lia. done.
Qed.

(** The first byte of a compact path tells the kind of node and the parity. *)
Lemma compact_decodes p is_leaf :
  nibbles_ok p = true -> exists b rest, compact p is_leaf = b :: rest /\
    let odd := negb (Nat.even (length p)) in
    Z.shiftr (byte.unsigned b) 4 = (if is_leaf then 2 else 0) + (if odd then 1 else 0) /\
    unpack_path_to_nibbles
      (if odd then Some (byte.of_Z (Z.land (byte.unsigned b) 15)) else None) rest = p.
Proof.
  intros Hp. unfold compact. destruct (Nat.even (length p)) eqn:E; cbn [negb].
  - eexists _, _. split; [done|]. split; [by destruct is_leaf|]. by apply unpack_pack.
  - destruct p as [|a p]; [done|]. apply nibbles_ok_cons in Hp as [Ha Hp]. apply nibble_range in Ha.
    eexists _, _. split; [done|].
    replace ((if is_leaf then 32 else 0) + 16 + byte.unsigned a)
      with (16 * ((if is_leaf then 2 else 0) + 1) + byte.unsigned a) by (destruct is_leaf; lia).
    rewrite unsigned_of_small, high_nibble, low_nibble, byte.of_Z_unsigned by (destruct is_leaf; lia).
    split; [done|]. cbn [unpack_path_to_nibbles]. f_equal. apply unpack_pack; [done|].
    cbn [length] in E. rewrite Nat.even_succ in E. by rewrite <- Nat.negb_odd, E.
Qed.

(** ** Elements of a list *)

Section Items.
Context `{TrieRlp} `{!TrieRlpLaws}.

(** [e] is an RLP item: its header leads to the end of the item. *)
Definition rlp_item (e : bytes) : Prop :=
  e <> [] /\ forall rest, len (e ++ rest) < 2 ^ 64 -> exists h body,
    RlpHeader.payload_length h = len body /\ decode_header (e ++ rest) = Some (h, body ++ rest).

Lemma encode_string_nonempty b : encode_string b <> [].
Proof.
  intros E. assert (Hl : len (encode_string b) = 0) by by rewrite E.
  destruct b as [|x [|y b]].
  - by rewrite encode_empty_string in E.
  - destruct (decide (byte.unsigned x < 128)); [by rewrite len_encode_byte in Hl|].
    rewrite len_encode_string in Hl by (intros ? [= <-]; lia).
    rewrite length_of_length_short in Hl by done. done.
  - rewrite len_encode_string in Hl by done. pose proof (len_nonneg (x :: y :: b)).
    pose proof (length_of_length_pos (len (x :: y :: b))). lia.
Qed.

Lemma string_item b : len b < 2 ^ 64 -> rlp_item (encode_string b).
Proof.
  intros Hb. split; [apply encode_string_nonempty|]. intros rest _.
  exists (RlpHeader.mk false (len b)), b. by rewrite decode_string_header.
Qed.

Lemma list_header_nonempty n : 0 < len (encode_header (RlpHeader.mk true n)).
Proof. rewrite <- length_of_header_encode, length_of_header_payload. apply length_of_length_pos. Qed.

Lemma list_item body :
  rlp_item (encode_header (RlpHeader.mk true (len body)) ++ body).
Proof.
  split.
  - intros E. apply (f_equal len) in E. rewrite len_app, len_nil in E.
    pose proof (list_header_nonempty (len body)). pose proof (len_nonneg body). lia.
  - intros rest Hr. exists (RlpHeader.mk true (len body)), body. split; [done|].
    rewrite !len_app in Hr. rewrite <- app_assoc. pose proof (len_nonneg body). pose proof (len_nonneg rest).
    pose proof (list_header_nonempty (len body)).
    apply decode_list_header; rewrite ?len_app; lia.
Qed.

Lemma count_items fuel es k rest :
  Forall rlp_item es -> (length es <= fuel)%nat -> len (concat es ++ rest) < 2 ^ 64 ->
  count_elements fuel (len rest) k (concat es ++ rest) = Ok (k + len es).
Proof.
  revert fuel k. induction es as [|e es IH]; intros fuel k He Hf Hl.
  - cbn [concat app]. rewrite len_nil, Z.add_0_r.
    destruct fuel; cbn [count_elements]; by rewrite decide_False by lia.
  - apply Forall_cons in He as [[Hne He] Hes]. cbn [concat] in *. rewrite <- app_assoc in *.
    destruct (He _ Hl) as (h & body & Hb & Hd).
    assert (He1 : 0 < len e) by (destruct e; [done|]; rewrite len_cons; pose proof (len_nonneg e); lia).
    rewrite !len_app in Hl. pose proof (len_nonneg (concat es)). pose proof (len_nonneg rest).
    destruct fuel as [|fuel]; [cbn in Hf; lia|]. cbn [count_elements].
    rewrite decide_True by (rewrite !len_app; lia). rewrite Hd. cbn [ok_or mbind result_bind].
    unfold slice. rewrite Hb, decide_True by (rewrite len_app; pose proof (len_nonneg body); pose proof (len_nonneg (concat es ++ rest)); lia).
    cbn [or_panic mbind result_bind]. rewrite firstn_all2 by (rewrite length_drop; unfold len; lia).
    replace (Z.to_nat (len body)) with (length body) by (unfold len; lia).
    rewrite drop_app_length, IH; [|done|cbn in Hf; lia|rewrite len_app; lia].
    rewrite len_cons. f_equal. lia.
Qed.

Lemma list_length_items es rest :
  Forall rlp_item es -> len (encode_header (RlpHeader.mk true (len (concat es))) ++ concat es ++ rest) < 2 ^ 64 ->
  rlp_list_element_length (encode_header (RlpHeader.mk true (len (concat es))) ++ concat es ++ rest) =
    Ok (len es).
Proof.
  intros He Hl. rewrite !len_app in Hl. unfold rlp_list_element_length.
  pose proof (len_nonneg (concat es)). pose proof (len_nonneg rest).
  pose proof (list_header_nonempty (len (concat es))).
  rewrite decode_list_header by (rewrite ?len_app; lia). cbn [ok_or mbind result_bind].
  cbn [RlpHeader.list RlpHeader.payload_length].
  replace (u64_sub (len (concat es ++ rest)) (len (concat es))) with (len rest).
  - rewrite count_items; [done|done| |rewrite len_app; lia].
    rewrite length_app. clear - He. induction He as [|e es [Hne _] _ IH]; cbn; [lia|].
    rewrite length_app. destruct e; [done|]. cbn in *. lia.
  - unfold u64_sub, wrap. rewrite len_app, Z.mod_small by lia. lia.
Qed.

End Items.

(** ** Nodes *)

Section Nodes.
Context `{Keccak} `{!KeccakLaws} `{TrieRlp} `{!TrieRlpLaws}.

(** A node with its long children blinded, at any depth of inlining. *)
Fixpoint shallow (n : t) : t :=
  match n with
  | Extension prefix node =>
      Extension prefix
        (if decide (len B256_ZERO <= node_length node) then Blinded (blind node) else shallow node)
  | Branch stack =>
      Branch (map (fun node => if decide (len B256_ZERO <= node_length node)
                               then Blinded (blind node) else shallow node) stack)
  | _ => n
  end.

Definition pointed (n : t) : t :=
  if decide (len B256_ZERO <= node_length n) then Blinded (blind n) else shallow n.

(** The elements of the list that encodes a node. *)
Definition elements (n : t) : list bytes :=
  match n with
  | Leaf prefix value => [encode_string (encode_path_leaf prefix true); encode_string value]
  | Extension prefix node => [encode_string (encode_path_leaf prefix false); encode (point node)]
  | Branch stack => map (fun node => encode (point node)) stack
  | _ => []
  end.

Lemma payload_elements n : is_proper n = true -> payload n = concat (elements n).
Proof. destruct n; try done; intros _; cbn; by rewrite app_nil_r. Qed.

Lemma encode_elements n :
  encodable n = true -> is_proper n = true ->
  encode n = encode_header (RlpHeader.mk true (len (concat (elements n)))) ++ concat (elements n).
Proof.
  intros He Hp. rewrite encode_payload, (proj2 (lengths_encode n He) Hp), payload_elements by done. done.
Qed.

Lemma len_element e (es : list bytes) : e ∈ es -> len e <= len (concat es).
Proof.
  intros Hin. induction es as [|x es IH]; [by apply not_elem_of_nil in Hin|].
  cbn. rewrite len_app. apply elem_of_cons in Hin as [->|Hin].
  - pose proof (len_nonneg (concat es)). lia.
  - pose proof (len_nonneg x). specialize (IH Hin). lia.
Qed.

Lemma len_le_encode_string b : len b <= len (encode_string b).
Proof.
  destruct b as [|x [|y b]].
  - rewrite len_nil. apply len_nonneg.
  - destruct (decide (byte.unsigned x < 128)); [by rewrite len_encode_byte|].
    rewrite len_encode_string by (intros ? [= <-]; lia). pose proof (length_of_length_pos (len [x])). lia.
  - rewrite len_encode_string by done. pose proof (length_of_length_pos (len (x :: y :: b))). lia.
Qed.

Lemma node_item n : encodable n = true -> len (encode n) < 2 ^ 64 -> rlp_item (encode n).
Proof.
  intros He Hl. destruct (is_proper n) eqn:Hp.
  - rewrite encode_elements by done. apply list_item.
  - destruct n as [|c| | |]; try done; cbn in *.
    + rewrite <- encode_empty_string. by apply string_item.
    + apply string_item. pose proof (len_le_encode_string c). lia.
Qed.

Lemma elements_items n :
  encodable n = true -> is_proper n = true -> len (concat (elements n)) < 2 ^ 64 ->
  Forall rlp_item (elements n).
Proof.
  intros He Hp Hl. apply list.Forall_forall. intros e Hin. pose proof (len_element _ _ Hin) as Hle.
  assert (HS : forall b, e = encode_string b -> rlp_item e).
  { intros b ->. apply string_item. pose proof (len_le_encode_string b). lia. }
  assert (HN : forall m, e = encode (point m) -> encodable m = true -> rlp_item e).
  { intros m -> Hm. apply node_item; [by apply encodable_point|lia]. }
  destruct n as [| |p v|p n|st]; try done; cbn in Hin, He.
  - apply elem_of_cons in Hin as [E|Hin]; [eauto|]. apply list_elem_of_singleton in Hin. eauto.
  - apply andb_true_iff in He as [_ He]. apply elem_of_cons in Hin as [E|Hin]; [eauto|].
    apply list_elem_of_singleton in Hin. eauto.
  - apply andb_true_iff in He as [_ He]. rewrite forallb_forall in He.
    apply list_elem_of_fmap in Hin as (m & -> & Hm). apply (HN m); [done|].
    apply He. by apply list_elem_of_In.
Qed.

(** The steps of [decode] for a list. *)
Lemma decode_list fuel n rest :
  encodable n = true -> is_proper n = true -> len (encode n ++ rest) < 2 ^ 64 ->
  decode_fuel (S fuel) (encode n ++ rest) =
    if decide (len (elements n) = Z.of_nat BRANCH_LIST_LENGTH) then
      '(stack, buf) ← decode_vec (decode_fuel fuel)
          (encode_header (RlpHeader.mk true (len (concat (elements n)))) ++ concat (elements n) ++ rest);
      Ok (Branch stack, buf)
    else if decide (len (elements n) = LEAF_OR_EXTENSION_LIST_LENGTH) then
      map_err (fun _ => UnexpectedList)
        (try_decode_leaf_or_extension_payload (decode_fuel fuel) (concat (elements n) ++ rest))
    else Err UnexpectedLength.
Proof.
  intros He Hp Hl. rewrite encode_elements in * by done. set (P := concat (elements n)) in *.
  rewrite <- app_assoc in *. pose proof (len_nonneg P). pose proof (len_nonneg rest).
  pose proof (list_header_nonempty (len P)). pose proof Hl as Hl'. rewrite !len_app in Hl'.
  assert (Hc : rlp_list_element_length (encode_header (RlpHeader.mk true (len P)) ++ P ++ rest) =
    Ok (len (elements n))).
  { apply list_length_items; [|done]. apply elements_items; [done|done|fold P; lia]. }
  cbn [decode_fuel]. rewrite decode_list_header by (rewrite ?len_app; lia).
  cbn [ok_or mbind result_bind RlpHeader.list]. rewrite Hc.
  cbn [mbind result_bind]. case_decide; [done|]. case_decide; [|done].
  unfold slice. rewrite length_of_header_encode, decide_True by (rewrite !len_app; lia).
  cbn [or_panic mbind result_bind]. rewrite firstn_all2 by (rewrite length_drop; unfold len; lia).
  replace (Z.to_nat (len (encode_header (RlpHeader.mk true (len P)))))
    with (length (encode_header (RlpHeader.mk true (len P)))) by (unfold len; lia).
  by rewrite drop_app_length.
Qed.

(** The path of a leaf or an extension selects the rest of the decoder. *)
Lemma decode_payload d p is_leaf buf :
  nibbles_ok p = true -> len (encode_string (encode_path_leaf p is_leaf)) < 2 ^ 64 ->
  try_decode_leaf_or_extension_payload d (encode_string (encode_path_leaf p is_leaf) ++ buf) =
    if is_leaf then
      '(value, buf) ← map_err RLPError (ok_or Malformed (decode_string buf));
      Ok (Leaf p value, buf)
    else
      '(node, buf) ← map_err RLPError (d buf);
      Ok (Extension p node, buf).
Proof.
  intros Hp Hl. unfold try_decode_leaf_or_extension_payload.
  pose proof (len_le_encode_string (encode_path_leaf p is_leaf)).
  rewrite decode_string_encode by lia. cbn [ok_or map_err mbind result_bind].
  rewrite encode_path_leaf_compact by done.
  destruct (compact_decodes p is_leaf Hp) as (b & rest & -> & Hb & Hu). cbn zeta in *. rewrite Hb.
  destruct is_leaf, (negb (Nat.even (length p)));
    repeat first [rewrite decide_True by lia|rewrite decide_False by lia]; by rewrite Hu.
Qed.

Lemma decode_blinded fuel c rest :
  len c = 32 -> decode_fuel (S fuel) (encode (Blinded c) ++ rest) = Ok (Blinded c, rest).
Proof.
  intros Hc. cbn [encode decode_fuel]. rewrite decode_string_header by lia.
  cbn [ok_or mbind result_bind RlpHeader.list RlpHeader.payload_length]. rewrite Hc.
  rewrite decide_False, decide_True by done. by rewrite decode_b256_encode.
Qed.

Lemma decode_empty fuel rest : decode_fuel (S fuel) (encode Empty ++ rest) = Ok (Empty, rest).
Proof.
  cbn [encode decode_fuel]. rewrite <- encode_empty_string, decode_string_header by done.
  cbn [ok_or mbind result_bind RlpHeader.list RlpHeader.payload_length app].
  rewrite decide_True by done. rewrite encode_empty_string.
  rewrite length_of_header_payload. cbn [RlpHeader.payload_length].
  rewrite length_of_length_short by (rewrite len_nil; lia).
  unfold slice. rewrite decide_True by (cbn [app]; rewrite len_cons; pose proof (len_nonneg rest); lia).
  cbn [or_panic mbind result_bind]. rewrite firstn_all2 by (rewrite length_drop; unfold len; lia). done.
Qed.

(** The element for a child decodes to the child as its parent has it. *)
Lemma decode_pointed fuel n rest :
  encodable n = true -> (0 < fuel)%nat ->
  ((len (encode n) <= len (encode (point n))) ->
     decode_fuel fuel (encode n ++ rest) = Ok (shallow n, rest)) ->
  decode_fuel fuel (encode (point n) ++ rest) = Ok (pointed n, rest).
Proof.
  intros He Hf IH. destruct fuel as [|fuel]; [lia|]. unfold point, pointed in *. case_decide.
  - apply decode_blinded. by apply len_blind.
  - apply IH. lia.
Qed.

Lemma len_elements_le n : encodable n = true -> is_proper n = true ->
  0 <= len (concat (elements n)) < len (encode n).
Proof.
  intros He Hp. rewrite encode_elements, len_app by done.
  pose proof (list_header_nonempty (len (concat (elements n)))).
  pose proof (len_nonneg (concat (elements n))). lia.
Qed.

Lemma decodes_children fuel st :
  Forall (fun n => forall fuel rest, encodable n = true -> len (encode n ++ rest) < 2 ^ 64 ->
    len (encode n) < Z.of_nat fuel -> decode_fuel fuel (encode n ++ rest) = Ok (shallow n, rest)) st ->
  (forall n, In n st -> encodable n = true) ->
  let items := map (fun n => (pointed n, encode (point n))) st in
  len (concat items.*2) < Z.of_nat fuel -> len (concat items.*2) < 2 ^ 64 ->
  decodes_each (decode_fuel fuel) items.
Proof.
  intros IH He items Hf Hl. apply list.Forall_forall. intros [m e] Hin.
  assert (Hle : len e <= len (concat items.*2)).
  { apply len_element. apply list_elem_of_fmap. by exists (m, e). }
  apply list_elem_of_fmap in Hin as (n & [= -> ->] & Hn).
  assert (En : encodable n = true) by by apply He, list_elem_of_In.
  split; [apply node_item; [by apply encodable_point|lia]|]. intros r Hr.
  pose proof (len_nonneg (concat items.*2)). apply decode_pointed; [done|lia|]. intros Hp.
  rewrite len_app in Hr. apply (proj1 (list.Forall_forall _ _) IH n Hn); [done|rewrite len_app|]; lia.
Qed.

Lemma decode_fuel_encode n fuel rest :
  encodable n = true -> len (encode n ++ rest) < 2 ^ 64 -> len (encode n) < Z.of_nat fuel ->
  decode_fuel fuel (encode n ++ rest) = Ok (shallow n, rest).
Proof.
  revert fuel rest. induction n as [|c|p v|p n IH|st IH] using node_ind; intros fuel rest He Hl Hf;
    match type of Hf with len ?e < _ => pose proof (len_nonneg e) end;
    pose proof (len_nonneg rest); (destruct fuel as [|fuel]; [lia|]).
  - apply decode_empty.
  - apply decode_blinded. by apply bool_decide_eq_true in He.
  - pose proof (len_elements_le (Leaf p v) He eq_refl) as He'. rewrite decode_list by done.
    rewrite len_app in Hl. cbn [elements concat] in *. rewrite app_nil_r, <- app_assoc in *. rewrite !len_app in He'.
    pose proof (len_nonneg (encode_string (encode_path_leaf p true))).
    pose proof (len_nonneg (encode_string v)). pose proof (len_le_encode_string v).
    rewrite decide_False, decide_True, decode_payload by (done || lia).
    by rewrite decode_string_encode by lia.
  - pose proof (len_elements_le (Extension p n) He eq_refl) as He'. rewrite decode_list by done.
    apply andb_true_iff in He as [Hp He].
    rewrite len_app in Hl. cbn [elements concat] in *. rewrite app_nil_r, <- app_assoc in *. rewrite !len_app in He'.
    pose proof (len_nonneg (encode_string (encode_path_leaf p false))). pose proof (len_nonneg (encode (point n))).
    rewrite decide_False, decide_True, decode_payload by (done || lia).
    rewrite decode_pointed; [done|done|lia|]. intros Hle. apply IH; [done|rewrite len_app; lia|lia].
  - pose proof (len_elements_le (Branch st) He eq_refl) as He'. rewrite decode_list by done.
    rewrite len_app in Hl. apply andb_true_iff in He as [Hs He]. apply bool_decide_eq_true in Hs.
    rewrite decide_True by (cbn [elements]; unfold len; by rewrite length_map, Hs).
    cbn [elements] in *. set (items := map (fun n => (pointed n, encode (point n))) st).
    assert (H2' : map (fun n => encode (point n)) st = items.*2) by (unfold items; by rewrite <- list_fmap_compose).
    assert (H1' : items.*1 = map pointed st) by (unfold items; by rewrite <- list_fmap_compose).
    rewrite H2' in *. rewrite decode_vec_encode.
    + cbn [mbind result_bind]. by rewrite H1'.
    + rewrite forallb_forall in He. apply (decodes_children fuel st IH He); fold items; lia.
    + rewrite len_app. lia.
Qed.

(** Blinding the children of a node changes neither what it commits to nor what
    its parent sees. *)
Lemma pointed_seen n : encodable n = true -> seen_as (shallow n) n -> seen_as (pointed n) n.
Proof.
  intros He Hs. unfold pointed. case_decide as Hl; [|done]. split; [| |done|done].
  - rewrite point_blinded. unfold point. by rewrite decide_True.
  - unfold blinded_length, node_length at 1. cbn [length_of].
    rewrite string_length_b256 by by apply len_blind.
    rewrite (blinded_of_eq 33). unfold blinded_of. rewrite decide_True by done.
    rewrite decide_True by done. by rewrite string_length_b256.
Qed.

Lemma shallow_seen n : encodable n = true -> seen_as (shallow n) n.
Proof.
  induction n as [|c|p v|p n IH|st IH] using node_ind; intros He.
  - by apply seen_same.
  - cbn. by split.
  - by apply seen_same.
  - apply andb_true_iff in He as [_ He]. destruct (pointed_seen n He (IH He)) as [Hp Hl _ _].
    apply seen_proper; [done|done| |]; cbn [shallow payload payload_length].
    + f_equal. exact Hl.
    + f_equal. exact Hp.
  - apply andb_true_iff in He as [_ He]. rewrite forallb_forall in He.
    assert (HS : Forall (fun n => seen_as (pointed n) n) st).
    { apply list.Forall_forall. intros n Hn. assert (En : encodable n = true) by by apply He, list_elem_of_In.
      apply pointed_seen; [done|]. by apply (proj1 (list.Forall_forall _ _) IH n Hn). }
    apply seen_proper; [done|done| |]; cbn [shallow payload payload_length]; fold pointed.
    + rewrite !fold_sum, map_map. do 2 f_equal. apply map_ext_Forall.
      eapply list.Forall_impl; [exact HS|]. by intros n [_ Hl _ _].
    + rewrite map_map. f_equal. apply map_ext_Forall.
      eapply list.Forall_impl; [exact HS|]. by intros n [Hp _ _ _].
Qed.

(** C24: a node is recovered from its encoding, whatever follows it, with every
    child of 32 bytes or more replaced by its commitment; the node that is
    recovered has the same encoding and commitment.  Nesting of decoder calls is
    bounded by the input. *)
Theorem node_round_trip n rest :
  encodable n = true -> len (encode n ++ rest) < 2 ^ 64 ->
  decode (encode n ++ rest) = Ok (shallow n, rest) /\
  encode (shallow n) = encode n /\ blind (shallow n) = blind n.
Proof.
  intros He Hl. pose proof (len_nonneg rest). split.
  - apply decode_fuel_encode; [done|done|]. rewrite len_app in Hl. rewrite length_app. unfold len. lia.
  - destruct (shallow_seen n He) as [_ _ Hb Hn]. split; [|done].
    destruct (is_blinded n) eqn:E; [by destruct n|]. apply Hn. by destruct n.
Qed.

(** *** Arbitrary input *)

Lemma count_no_panic fuel m k buf :
  len buf <= Z.of_nat fuel -> 0 <= m -> count_elements fuel m k buf <> Panic.
Proof.
  revert k buf. induction fuel as [|fuel IH]; intros k buf Hf Hm; cbn [count_elements].
  - rewrite decide_False by (pose proof (len_nonneg buf); lia). done.
  - case_decide; [|done]. destruct (decode_header buf) as [[h rest]|] eqn:E; [|done].
    cbn [ok_or mbind result_bind]. apply decode_header_bounds in E as (Hp & Hr & Hs & _).
    unfold slice. rewrite decide_True by lia. cbn [or_panic mbind result_bind].
    apply IH; [|done]. unfold len in *. rewrite length_take, length_drop. lia.
Qed.

Lemma list_length_no_panic buf : len buf < 2 ^ 64 -> rlp_list_element_length buf <> Panic.
Proof.
  intros Hl. unfold rlp_list_element_length. destruct (decode_header buf) as [[h rest]|]; [|done].
  cbn [ok_or mbind result_bind]. destruct (RlpHeader.list h); [|done].
  apply count_no_panic; [unfold len; lia|]. unfold u64_sub, wrap. apply Z.mod_pos_bound. lia.
Qed.

Lemma payload_no_panic d buf :
  (forall b, len b < len buf -> d b <> Panic) -> try_decode_leaf_or_extension_payload d buf <> Panic.
Proof.
  intros Hd. unfold try_decode_leaf_or_extension_payload.
  destruct (decode_string buf) as [[path rest]|] eqn:E; [|done]. cbn [ok_or map_err mbind result_bind].
  apply decode_string_shorter in E. destruct path as [|b path]; [done|].
  case_decide; [|done]. cbv zeta. case_decide.
  - specialize (Hd rest E). by destruct (d rest) as [[]| |].
  - by destruct (decode_string rest) as [[]|].
Qed.

Lemma decode_fuel_no_panic fuel buf :
  len buf < Z.of_nat fuel -> len buf < 2 ^ 64 -> decode_fuel fuel buf <> Panic.
Proof.
  revert buf. induction fuel as [|fuel IH]; intros buf Hf Hl; [pose proof (len_nonneg buf); lia|].
  cbn [decode_fuel]. destruct (decode_header buf) as [[h rest]|] eqn:E; [|done].
  cbn [ok_or mbind result_bind]. apply decode_header_bounds in E as (Hp & Hr & Hs & Hh).
  destruct (RlpHeader.list h).
  - specialize (Hh (or_introl eq_refl)).
    apply bind_no_panic; [by apply list_length_no_panic|]. intros l _. case_decide.
    + apply bind_no_panic; [|by intros []]. apply decode_vec_no_panic. intros b Hb. apply IH; lia.
    + case_decide; [|done]. unfold slice.
      pose proof (length_of_length_pos (RlpHeader.payload_length h)) as Hpos.
      rewrite <- length_of_header_payload in Hpos.
      rewrite decide_True by lia. cbn [or_panic mbind result_bind].
      enough (HP : try_decode_leaf_or_extension_payload (decode_fuel fuel)
        (take (Z.to_nat (len buf - length_of_header h)) (drop (Z.to_nat (length_of_header h)) buf)) <> Panic)
        by by destruct (try_decode_leaf_or_extension_payload _ _).
      apply payload_no_panic. intros b Hb.
      assert (len b < len buf); [|apply IH; lia].
      unfold len in *. rewrite length_take, length_drop in Hb. lia.
  - case_decide as E0; [|case_decide; [by destruct (decode_b256 buf) as [[]|]|done]].
    specialize (Hh (or_intror E0)). pose proof (length_of_length_pos (RlpHeader.payload_length h)) as Hpos.
    rewrite <- length_of_header_payload in Hpos. unfold slice. rewrite decide_True by lia. done.
Qed.

(** C36: decoding arbitrary bytes as a trie node ends, in a node or in an error:
    it does not panic and the bound on its recursion is not reached. *)
Theorem node_decode_total buf : len buf < 2 ^ 64 -> decode buf <> Panic.
Proof. intros Hl. apply decode_fuel_no_panic; [unfold len; lia|done]. Qed.

End Nodes.

(** ** A trie behind its root *)

(** [PreimageOracle] is the client of the preimage oracle: the preimage of a
    keccak hash; its errors, and those of the decoder, are displayed. *)
Class PreimageOracle : Type := {
  preimage : B256 -> result string bytes;
  rlp_error_display : RlpError -> string
}.

(** [TrieProvider] of the oracle-backed chain providers. *)
Definition oracle_provider `{PreimageOracle} `{TrieRlp} : TrieProvider := fun key =>
  data ← preimage key;
  match decode data with
  | Ok (node, _) => Ok node
  | Err e => Err (rlp_error_display e)
  | Panic => Panic
  end.

(** All nodes of a trie. *)
Fixpoint nodes (n : t) : list t :=
  n :: match n with
       | Extension _ node => nodes node
       | Branch stack => concat (map nodes stack)
       | _ => []
       end.

Section Served.
Context `{Keccak} `{!KeccakLaws} `{TrieRlp} `{!TrieRlpLaws} `{PreimageOracle}.

(** The oracle has the preimage of a node, whose commitment is not that of the
    empty trie. *)
Definition served (n : t) : Prop :=
  preimage (blind n) = Ok (encode n) /\ blind n <> EMPTY_ROOT_HASH /\ len (encode n) < 2 ^ 64.

Lemma canonical_encodable n : canonical n = true -> encodable n = true.
Proof.
  induction n as [| | |p n IH|st IH] using node_ind; intros Hc; [done|done|done| |].
  - apply canonical_extension in Hc as (Hp & _ & _ & Hc). cbn. by rewrite Hp, IH.
  - apply canonical_branch in Hc as [Hb _]. cbn. apply andb_true_iff. split.
    + apply bool_decide_eq_true. apply Hb.
    + apply forallb_forall. intros n Hn. apply list_elem_of_In, list_elem_of_lookup_1 in Hn as [i Hi].
      apply (proj1 (Forall_lookup _ _) IH _ _ Hi). by apply (bo_children _ Hb _ _ Hi).
Qed.

Lemma preimage_reveals n :
  encodable n = true -> preimage (blind n) = Ok (encode n) -> len (encode n) < 2 ^ 64 ->
  @trie_node_by_hash oracle_provider (blind n) = Ok (shallow n).
Proof.
  intros He Hp Hl. unfold trie_node_by_hash, oracle_provider. rewrite Hp. cbn [mbind result_bind].
  pose proof (decode_fuel_encode n (S (length (encode n))) [] He) as Hd. rewrite app_nil_r in Hd.
  unfold decode. rewrite Hd; [done|done|unfold len; lia].
Qed.

Lemma oracle_reveals n :
  encodable n = true -> served n -> @trie_node_by_hash oracle_provider (blind n) = Ok (shallow n).
Proof. intros He (Hp & _ & Hl). by apply preimage_reveals. Qed.

Lemma is_proper_shallow n : is_proper (shallow n) = is_proper n.
Proof. by destruct n. Qed.

(** A node is revealed when the oracle serves the long nodes below it. *)
Lemma opens_pointed n :
  canonical n = true -> (len B256_ZERO <= node_length n -> served n) ->
  @opens _ _ oracle_provider (shallow n) n -> @opens _ _ oracle_provider (pointed n) n.
Proof.
  intros Hc Hs Ho. unfold pointed. case_decide as Hl; [|done].
  pose proof (canonical_encodable n Hc) as He. destruct (shallow_seen n He) as [_ _ Hb Hn].
  assert (Hp : is_proper n = true) by by destruct n.
  apply (@opens_blinded _ _ oracle_provider _ (shallow n)); try done.
  - apply (Hs Hl).
  - apply oracle_reveals; [done|by apply Hs].
  - by rewrite is_proper_shallow.
  - destruct Hn as [_ ->]; [|done]. by destruct n.
Qed.

(** The oracle serves the long nodes below the root [n]. *)
Definition serves_below (n : t) : Prop :=
  forall x, x ∈ tail (nodes n) -> len B256_ZERO <= node_length x -> served x.

Lemma nodes_self n : nodes n = n :: tail (nodes n).
Proof. by destruct n. Qed.

Lemma serves_child n c :
  (forall x, x ∈ nodes c -> x ∈ tail (nodes n)) -> serves_below n ->
  serves_below c /\ (len B256_ZERO <= node_length c -> served c).
Proof.
  intros Hsub Hs. split.
  - intros x Hx. apply Hs, Hsub. rewrite nodes_self. by right.
  - apply Hs, Hsub. rewrite nodes_self. by left.
Qed.

Lemma opens_shallow n :
  canonical n = true -> serves_below n -> @opens _ _ oracle_provider (shallow n) n.
Proof.
  induction n as [| |p v|p n IH|st IH] using node_ind; intros Hc Hs; [constructor|done|constructor| |].
  - apply canonical_extension in Hc as (_ & _ & _ & Hc).
    destruct (serves_child (Extension p n) n (fun x Hx => Hx) Hs) as [Hb Hn]. constructor.
    apply opens_pointed; auto.
  - apply canonical_branch in Hc as [Hb _]. cbn [shallow]. fold pointed. constructor.
    apply Forall2_fmap_l, Forall_Forall2_diag, Forall_lookup. intros i n Hi.
    pose proof (bo_children _ Hb _ _ Hi) as Hc.
    destruct (serves_child (Branch st) n) as [Hbn Hn]; [|done|].
    { intros x Hx. cbn. apply list_elem_of_In, in_concat. exists (nodes n).
      split; [apply in_map, list_elem_of_In, (list_elem_of_lookup_2 _ _ _ Hi)|by apply list_elem_of_In]. }
    apply opens_pointed; [done|done|]. by apply (proj1 (Forall_lookup _ _) IH _ _ Hi).
Qed.

(** A blinded root represents the map of its trie. *)
Lemma represents_served k m M :
  canonical m = true -> uniform k m = true -> (forall q, get m q = M !! q) ->
  is_empty m = false -> served m -> serves_below m ->
  @represents _ _ oracle_provider k (new_blinded (blind m)) M.
Proof.
  intros Hc Hu Hg He Hs Hb. exists m. split; [|done].
  pose proof (canonical_encodable m Hc) as Hen.
  apply (@root_blinded _ _ oracle_provider _ (shallow m)).
  - apply Hs.
  - by apply oracle_reveals.
  - rewrite is_proper_shallow. by destruct m.
  - apply (shallow_seen m Hen).
  - by apply opens_shallow.
Qed.

(** C7: operations on a trie of which only the root commitment is known.  If the
    oracle serves the encodings of the root and of the long nodes below it, then
    any sequence of [open], [insert] and [delete] calls with keys of [k] nibbles
    returns what the same calls on the map return: the value of a key, and
    [KeyNotFound] exactly for the deletion of an absent key.  No call panics or
    fails otherwise, and a recursion depth of [2 k + 3] is enough.  The commitment
    of the trie that is left is that of every trie in canonical form with the
    resulting map, whatever nodes are still blinded. *)
Theorem stateless_updates fuel k ops m M :
  canonical m = true -> uniform k m = true -> (forall q, get m q = M !! q) ->
  is_empty m = false -> served m -> serves_below m ->
  Forall (fun o => length (op_path o) = k /\ nibbles_ok (op_path o) = true) ops ->
  (2 * k + 3 <= fuel)%nat ->
  let '(results, n) := run_all (map (@run_op _ oracle_provider fuel) ops) (new_blinded (blind m)) in
  let '(results', M') := run_all (map map_op ops) M in
  results = results' /\
  forall m', canonical m' = true -> (forall q, get m' q = M' !! q) -> blind n = blind m'.
Proof.
  intros Hc Hu Hg He Hs Hb Ho Hf.
  pose proof (represents_served k m M Hc Hu Hg He Hs Hb) as Hr.
  destruct (@run_ops_represent _ _ oracle_provider fuel k ops _ M Hr Ho Hf) as [Hrs Hn].
  destruct (run_all (map (@run_op _ oracle_provider fuel) ops) _) as [rs n].
  destruct (run_all (map map_op ops) M) as [rs' M']. cbn [fst snd] in *.
  split; [done|]. intros m' Hc' Hg'.
  destruct Hn as (x & Hx & Cx & _ & Gx). rewrite (@opens_root_blind _ _ _ _ oracle_provider _ _ Hx).
  by rewrite (canonical_unique x m' Cx Hc') by (intros q; by rewrite Gx, Hg').
Qed.

End Served.
