(* ===== verification/TrieWalkers.v ===== *)
(** * Lists committed to by a trie

    [proof/mpt/src/list_walker.rs] and the index helper of [util.rs]: the walker
    collects the leaves of the trie of an ordered list, such as the transactions
    of a block, and puts them into the order of the list. *)

From stdpp Require Import sorting.
From S2P Require Import Prelude Effects Primitives SpanTxData Tries TrieProofs TrieReveals TrieCodecs TrieDecodes.

Import TrieNode.

(** [adjust_index_for_rlp]: the index of the [i]-th leaf in the order of keys. *)
Definition adjust_index_for_rlp (i len : nat) : nat :=
  if decide (127 < i)%nat then i
  else if decide (i = 127%nat \/ i + 1 = len)%nat then 0
  else i + 1.

Inductive OrderedListWalkerError : Type :=
| AlreadyHydrated
| TrieNodeErr (e : TrieNodeError).

Module OrderedListWalker.

Record t : Type := mk { root : B256; inner : option (list (bytes * bytes)) }.

Section Walker.
Context `{TrieProvider}.

Definition new (root : B256) : t := mk root None.

Definition get_trie_node (hash : B256) : result OrderedListWalkerError TrieNode.t :=
  map_err (fun e => TrieNodeErr (Provider e)) (trie_node_by_hash hash).

Fixpoint fetch_leaves (fuel : nat) (trie_node : TrieNode.t)
    : result OrderedListWalkerError (list (bytes * bytes)) :=
  match fuel with
  | O => Panic
  | S fuel =>
      match trie_node with
      | Branch stack =>
          fold_left (fun acc item =>
            leaf_values ← acc;
            match item with
            | Blinded commitment =>
                trie_node ← get_trie_node commitment;
                more ← fetch_leaves fuel trie_node; Ok (leaf_values ++ more)
            | Empty => Ok leaf_values
            | item => more ← fetch_leaves fuel item; Ok (leaf_values ++ more)
            end) stack (Ok [])
      | Leaf prefix value => Ok [(prefix, value)]
      | Extension _ node =>
          match node with
          | Blinded commitment =>
              trie_node ← get_trie_node commitment; fetch_leaves fuel trie_node
          | node => fetch_leaves fuel node
          end
      | Empty => Ok []
      | Blinded _ => Err (TrieNodeErr InvalidNodeType)
      end
  end.

(** The move of the first element of the list, whose key is the empty string. *)
Definition first_to_front {A} (ordered_list : list A) : result OrderedListWalkerError (list A) :=
  match ordered_list with
  | [] => Ok []
  | _ =>
      if decide (length ordered_list <= 128)%nat then
        first ← or_panic (last ordered_list);
        Ok (first :: take (length ordered_list - 1) ordered_list)
      else
        first ← or_panic (ordered_list !! 127%nat);
        Ok (first :: take 127 ordered_list ++ drop 128 ordered_list)
  end.

Definition hydrate (fuel : nat) : eff OrderedListWalkerError t () := fun self =>
  match inner self with
  | Some (_ :: _) => (Err AlreadyHydrated, self)
  | _ =>
      match
        root_trie_node ← get_trie_node (root self);
        ordered_list ← fetch_leaves fuel root_trie_node;
        first_to_front ordered_list
      with
      | Ok ordered_list => (Ok (), mk (root self) (Some ordered_list))
      | Err e => (Err e, self)
      | Panic => (Panic, self)
      end
  end.

Definition try_new_hydrated (fuel : nat) (root : B256) : result OrderedListWalkerError t :=
  match hydrate fuel (new root) with
  | (Ok _, walker) => Ok walker
  | (Err e, _) => Err e
  | (Panic, _) => Panic
  end.

Definition take_inner (self : t) : option (list (bytes * bytes)) * t :=
  (inner self, mk (root self) None).

(** [Iterator::next], and the iterator run to its end. *)
Definition next (self : t) : option (bytes * bytes) * t :=
  match inner self with
  | Some leaves =>
      match leaves with
      | [] => (None, mk (root self) None)
      | item :: rest => (Some item, mk (root self) (match rest with [] => None | _ => Some rest end))
      end
  | None => (None, self)
  end.

Fixpoint collect (fuel : nat) (self : t) : result OrderedListWalkerError (list (bytes * bytes)) :=
  match fuel with
  | O => Panic
  | S fuel =>
      match next self with
      | (Some item, self) => items ← collect fuel self; Ok (item :: items)
      | (None, _) => Ok []
      end
  end.

(** The number of [next] calls until the first [None]. *)
Definition collect_fuel (self : t) : nat := S (length (default [] (inner self))).

End Walker.

End OrderedListWalker.

(** ** The leaves of a revealed trie *)

Fixpoint leaves (n : TrieNode.t) : list (Nibbles * bytes) :=
  match n with
  | Empty | Blinded _ => []
  | Leaf prefix value => [(prefix, value)]
  | Extension prefix node => map (fun leaf => (prefix ++ leaf.1, leaf.2)) (leaves node)
  | Branch stack =>
      concat (imap (fun i l => map (fun leaf => (index_nibble i :: leaf.1, leaf.2)) l) (map leaves stack))
  end.

(** Paths in the order of their nibbles. *)
Fixpoint path_lt (p q : Nibbles) : Prop :=
  match p, q with
  | [], _ :: _ => True
  | a :: p, b :: q =>
      (nibble_index a < nibble_index b)%nat \/ a = b /\ path_lt p q
  | _, _ => False
  end.

Lemma path_lt_irrefl p : ~ path_lt p p.
Proof. induction p as [|a p IH]; cbn; [tauto|]. intros [|[_ ?]]; [lia|done]. Qed.

#[global] Instance path_lt_trans : Transitive path_lt.
Proof.
  intros p. induction p as [|a p IH]; intros q r Hpq Hqr; destruct q as [|b q], r as [|c r]; try done.
  cbn in *. destruct Hpq as [Hab|[-> Hpq]], Hqr as [Hbc|[-> Hqr]]; [left; lia|by left|by left|].
  right. split; [done|]. by apply (IH q).
Qed.

Lemma path_lt_app p q r : path_lt q r -> path_lt (p ++ q) (p ++ r).
Proof. intros Hlt. induction p as [|a p IH]; [done|]. by right. Qed.

Definition leaf_lt (x y : Nibbles * bytes) : Prop := path_lt x.1 y.1.

#[global] Instance leaf_lt_antisymm : AntiSymm (=) leaf_lt.
Proof. intros x y Hxy Hyx. destruct (path_lt_irrefl x.1). by apply (path_lt_trans _ y.1). Qed.

Lemma sorted_map f (l : list (Nibbles * bytes)) :
  (forall x y, leaf_lt x y -> leaf_lt (f x) (f y)) -> StronglySorted leaf_lt l ->
  StronglySorted leaf_lt (map f l).
Proof.
  intros Hf Hs. induction Hs as [|x l Hs IH Hx]; cbn; constructor; [done|].
  apply Forall_fmap. eapply Forall_impl; [exact Hx|]. intros y. apply Hf.
Qed.

Lemma sorted_app (l k : list (Nibbles * bytes)) :
  StronglySorted leaf_lt l -> StronglySorted leaf_lt k ->
  (forall x y, x ∈ l -> y ∈ k -> leaf_lt x y) -> StronglySorted leaf_lt (l ++ k).
Proof.
  intros Hl Hk Hlk. induction Hl as [|x l Hl IH Hx]; cbn; [done|]. constructor.
  - apply IH. set_solver.
  - apply Forall_app. split; [done|]. apply Forall_forall. intros y Hy. apply Hlk; [set_solver|done].
Qed.

(** The slots of a branch from index [j] on. *)
Definition slot_leaves (j : nat) (stack : list TrieNode.t) : list (Nibbles * bytes) :=
  concat (imap (fun i l => map (fun leaf => (index_nibble (j + i) :: leaf.1, leaf.2)) l) (map leaves stack)).

Lemma slot_leaves_cons j n st :
  slot_leaves j (n :: st) =
    map (fun leaf => (index_nibble j :: leaf.1, leaf.2)) (leaves n) ++ slot_leaves (S j) st.
Proof.
  unfold slot_leaves. cbn [map imap concat]. rewrite Nat.add_0_r. do 2 f_equal. apply imap_ext.
  intros i m _. cbn. by replace (j + S i)%nat with (S (j + i)) by lia.
Qed.

Lemma elem_slot_leaves j st q v :
  (q, v) ∈ slot_leaves j st <-> exists i n r,
    st !! i = Some n /\ q = index_nibble (j + i) :: r /\ (r, v) ∈ leaves n.
Proof.
  revert j. induction st as [|n st IH]; intros j.
  - split; [by intros ?%not_elem_of_nil|]. by intros (i & n & r & Hi & _).
  - rewrite slot_leaves_cons, elem_of_app, IH. split.
    + intros [Hin|(i & m & r & Hi & -> & Hr)].
      * apply list_elem_of_fmap in Hin as ([r w] & [= -> ->] & Hr). exists 0%nat, n, r.
        by rewrite Nat.add_0_r.
      * exists (S i), m, r. by replace (j + S i)%nat with (S j + i)%nat by lia.
    + intros ([|i] & m & r & Hi & -> & Hr).
      * left. injection Hi as ->. rewrite Nat.add_0_r. apply list_elem_of_fmap. by exists (r, v).
      * right. exists i, m, r. by replace (j + S i)%nat with (S j + i)%nat by lia.
Qed.

(** ** Order and contents of the leaves *)

Lemma slot_leaves_sorted j st :
  (j + length st <= 256)%nat -> Forall (fun n => StronglySorted leaf_lt (leaves n)) st ->
  StronglySorted leaf_lt (slot_leaves j st).
Proof.
  revert j. induction st as [|n st IH]; intros j Hl Hs; [constructor|].
  apply Forall_cons in Hs as [Hn Hs]. cbn in Hl. rewrite slot_leaves_cons. apply sorted_app.
  - apply sorted_map; [|done]. intros x y Hxy. by right.
  - apply IH; [lia|done].
  - intros [p v] [q w] Hp Hq. apply list_elem_of_fmap in Hp as ([p' v'] & [= -> ->] & _).
    apply elem_slot_leaves in Hq as (i & m & r & Hi & -> & _). apply lookup_lt_Some in Hi.
    left. rewrite !nibble_index_nibble by lia. lia.
Qed.

Lemma leaves_sorted n : canonical n = true -> StronglySorted leaf_lt (leaves n).
Proof.
  induction n as [| |p v|p n IH|st IH] using node_ind; intros Hc; [constructor..|by repeat constructor| |].
  - apply canonical_extension in Hc as (_ & _ & _ & Hc). apply sorted_map; [|by apply IH].
    intros x y. apply path_lt_app.
  - apply canonical_branch in Hc as [Hb _]. apply (slot_leaves_sorted 0).
    + rewrite (bo_length _ Hb). lia.
    + apply Forall_lookup. intros i n Hi. apply (proj1 (Forall_lookup _ _) IH _ _ Hi).
      by apply (bo_children _ Hb _ _ Hi).
Qed.

Lemma elem_leaves n q v : canonical n = true -> (q, v) ∈ leaves n <-> get n q = Some v.
Proof.
  revert q. induction n as [| |p w|p n IH|st IH] using node_ind; intros q Hc.
  - split; [by intros ?%not_elem_of_nil|done].
  - done.
  - cbn. rewrite list_elem_of_singleton. case_decide; split; congruence.
  - apply canonical_extension in Hc as (_ & _ & _ & Hc). cbn [leaves]. rewrite list_elem_of_fmap. split.
    + intros ([r w] & [= -> ->] & Hr). rewrite get_extension. by apply IH.
    + intros (r & -> & G)%get_extension_inv. exists (r, v). split; [done|]. by apply IH.
  - apply canonical_branch in Hc as [Hb _].
    change (leaves (Branch st)) with (slot_leaves 0 st). rewrite elem_slot_leaves. split.
    + intros (i & n & r & Hi & -> & Hr). pose proof (lookup_lt_Some _ _ _ Hi) as Hl.
      rewrite (bo_length _ Hb) in Hl. cbn [Nat.add]. rewrite get_branch, nibble_index_nibble, Hi by lia.
      apply (proj1 (Forall_lookup _ _) IH _ _ Hi); [|done]. by apply (bo_children _ Hb _ _ Hi).
    + destruct q as [|a q]; [done|]. rewrite get_branch.
      destruct (st !! nibble_index a) as [n|] eqn:Hi; [|done]. intros G.
      exists (nibble_index a), n, q. cbn. rewrite index_nibble_index. repeat split; [done|].
      apply (proj1 (Forall_lookup _ _) IH _ _ Hi); [|done]. by apply (bo_children _ Hb _ _ Hi).
Qed.

(** The leaves are the bindings of the map, in the order of their keys. *)
Lemma leaves_unique n l :
  canonical n = true -> StronglySorted leaf_lt l ->
  (forall q v, (q, v) ∈ l <-> get n q = Some v) -> leaves n = l.
Proof.
  intros Hc Hs Hl. assert (HN : forall k, StronglySorted leaf_lt k -> NoDup k).
  { intros k Hk. induction Hk as [|x k Hk IH Hx]; constructor; [|done].
    intros Hin. apply (path_lt_irrefl x.1). by apply (proj1 (Forall_forall _ _) Hx). }
  pose proof (leaves_sorted n Hc) as Hn.
  apply (StronglySorted_unique leaf_lt); [done|done|]. apply NoDup_Permutation; [auto..|].
  intros [q v]. by rewrite Hl, elem_leaves.
Qed.

(** ** The keys of a list *)

(** The RLP of an index: the empty string for 0, a single byte below 128, and the
    minimal big-endian bytes after their length. *)
Definition index_size (i : nat) : nat := Z.to_nat (Z.log2 (Z.of_nat i) / 8 + 1).

Definition rlp_index (i : nat) : bytes :=
  if decide (i = 0)%nat then [Byte.x80]
  else if decide (i < 128)%nat then [index_nibble i]
  else index_nibble (128 + index_size i) :: to_be_bytes (index_size i) (Z.of_nat i).

(** The path of an index in the trie of a list. *)
Definition index_path (i : nat) : Nibbles := flat_map unpack_byte (rlp_index i).

(** The byte orders of keys and of their nibbles agree. *)
Lemma unpack_byte_index b : exists x y, unpack_byte b = [x; y] /\
  nibble_index b = (16 * nibble_index x + nibble_index y)%nat /\ (nibble_index y < 16)%nat.
Proof.
  eexists _, _. split; [done|]. pose proof (byte.unsigned_range b). unfold nibble_index.
  rewrite Z.shiftr_div_pow2 by lia. change 15 with (Z.ones 4). rewrite Z.land_ones by lia.
  change (2 ^ 4) with 16. rewrite !unsigned_of_small by (Z.div_mod_to_equations; lia).
  Z.div_mod_to_equations. lia.
Qed.

Lemma unpack_lt p q : path_lt p q -> path_lt (flat_map unpack_byte p) (flat_map unpack_byte q).
Proof.
  revert q. induction p as [|a p IH]; intros q Hlt; destruct q as [|b q]; try done.
  cbn [path_lt] in Hlt. cbn [flat_map]. destruct Hlt as [Hlt|[-> Hlt]]; [|apply path_lt_app; auto].
  destruct (unpack_byte_index a) as (x & y & -> & Ea & Hy), (unpack_byte_index b) as (z & w & -> & Eb & Hw).
  cbn [app path_lt]. destruct (decide (x = z)) as [->|Hne]; [right; split; [done|left; lia]|left].
  enough (nibble_index x <> nibble_index z) by lia. intros E. by apply (inj _) in E.
Qed.

Lemma path_lt_app_same p q r s :
  length p = length q -> path_lt p q -> path_lt (p ++ r) (q ++ s).
Proof.
  revert q. induction p as [|a p IH]; intros q Hl Hlt; destruct q as [|b q]; try done.
  cbn in *. destruct Hlt as [Hlt|[-> Hlt]]; [by left|right]. split; [done|]. apply IH; [lia|done].
Qed.

Lemma be_bytes_snoc n z : to_be_bytes (S n) z = to_be_bytes n (z / 256) ++ [byte.of_Z z].
Proof.
  unfold to_be_bytes. change (le_split (S n) z) with (byte.of_Z z :: le_split n (Z.shiftr z 8)).
  rewrite Z.shiftr_div_pow2 by lia. reflexivity.
Qed.

Lemma be_bytes_lt n x y : 0 <= x < y -> y < 256 ^ Z.of_nat n -> path_lt (to_be_bytes n x) (to_be_bytes n y).
Proof.
  revert x y. induction n as [|n IH]; intros x y Hxy Hy; [cbn in Hy; lia|].
  rewrite Nat2Z.inj_succ, Z.pow_succ_r in Hy by lia. rewrite !be_bytes_snoc.
  destruct (decide (x / 256 < y / 256)) as [Hlt|Hge].
  - apply path_lt_app_same; [by rewrite !length_to_be_bytes|]. apply IH; [Z.div_mod_to_equations; lia|].
    apply Z.div_lt_upper_bound; lia.
  - assert (E : x / 256 = y / 256) by (Z.div_mod_to_equations; lia). rewrite E. apply path_lt_app.
    left. unfold nibble_index. rewrite !byte.unsigned_of_Z. unfold byte.wrap. change (2 ^ 8) with 256.
    Z.div_mod_to_equations. lia.
Qed.

Lemma index_size_spec i :
  (0 < i)%nat -> Z.of_nat i < 2 ^ 64 ->
  (1 <= index_size i <= 8)%nat /\ Z.of_nat i < 256 ^ Z.of_nat (index_size i).
Proof.
  intros Hi Hl. unfold index_size. pose proof (Z.log2_nonneg (Z.of_nat i)).
  assert (Hlog : Z.log2 (Z.of_nat i) < 64) by (apply Z.log2_lt_pow2; lia).
  pose proof (Z.log2_spec (Z.of_nat i) ltac:(lia)) as [_ Hs].
  split; [Z.div_mod_to_equations; lia|]. rewrite Z2Nat.id by (Z.div_mod_to_equations; lia).
  change 256 with (2 ^ 8). rewrite <- Z.pow_mul_r by (Z.div_mod_to_equations; lia).
  eapply Z.lt_le_trans; [exact Hs|]. apply Z.pow_le_mono_r; [lia|]. Z.div_mod_to_equations. lia.
Qed.

Lemma index_size_mono i j : (0 < i <= j)%nat -> (index_size i <= index_size j)%nat.
Proof.
  intros Hij. unfold index_size. pose proof (Z.log2_le_mono (Z.of_nat i) (Z.of_nat j) ltac:(lia)).
  apply Z2Nat.inj_le; pose proof (Z.log2_nonneg (Z.of_nat i)); Z.div_mod_to_equations; lia.
Qed.

(** Indices from 128 on are in order, and after all smaller ones. *)
Lemma rlp_index_large i j :
  (128 <= i < j)%nat -> Z.of_nat j < 2 ^ 64 -> path_lt (rlp_index i) (rlp_index j).
Proof.
  intros Hij Hj. unfold rlp_index. rewrite !decide_False by lia.
  destruct (index_size_spec i) as [Hi' _]; [lia..|]. destruct (index_size_spec j) as [Hj' Hb]; [lia..|].
  pose proof (index_size_mono i j ltac:(lia)).
  destruct (decide (index_size i = index_size j)) as [E|].
  - rewrite E. right. split; [done|]. apply be_bytes_lt; [lia|done].
  - left. rewrite !nibble_index_nibble by lia. lia.
Qed.

Definition code (i : nat) : nat := if decide (i = 0)%nat then 128%nat else i.

Lemma rlp_index_small i : (i < 128)%nat -> exists b, rlp_index i = [b] /\ nibble_index b = code i.
Proof.
  intros Hi. unfold rlp_index, code. case_decide; [by exists Byte.x80|].
  rewrite decide_True by lia. exists (index_nibble i). split; [done|]. apply nibble_index_nibble. lia.
Qed.

Lemma rlp_index_small_large i j :
  (i < 128 <= j)%nat -> Z.of_nat j < 2 ^ 64 -> path_lt (rlp_index i) (rlp_index j).
Proof.
  intros Hij Hj. destruct (rlp_index_small i) as (b & -> & Hb); [lia|].
  destruct (index_size_spec j) as [Hj' _]; [lia..|].
  unfold rlp_index. rewrite !decide_False by lia. left. rewrite Hb, nibble_index_nibble by lia.
  unfold code. case_decide; lia.
Qed.

Lemma rlp_index_small_lt i j :
  (i < 128)%nat -> (j < 128)%nat -> (code i < code j)%nat -> path_lt (rlp_index i) (rlp_index j).
Proof.
  intros Hi Hj Hc. destruct (rlp_index_small i Hi) as (a & -> & Ha), (rlp_index_small j Hj) as (b & -> & Hb).
  left. lia.
Qed.

(** [adjust_index_for_rlp] enumerates the indices in the order of their keys. *)
Lemma adjust_sorted n i j :
  (i < j < n)%nat -> Z.of_nat n < 2 ^ 64 ->
  path_lt (index_path (adjust_index_for_rlp i n)) (index_path (adjust_index_for_rlp j n)).
Proof.
  intros Hij Hn. apply unpack_lt. unfold adjust_index_for_rlp.
  destruct (decide (127 < i)%nat).
  - rewrite decide_True by lia. apply rlp_index_large; lia.
  - destruct (decide (127 < j)%nat).
    + apply rlp_index_small_large; [|lia]. case_decide; lia.
    + rewrite (decide_False (P := (i = _ \/ _)%nat)) by lia.
      apply rlp_index_small_lt; [lia|case_decide; lia|]. unfold code. case_decide; [lia|].
      repeat case_decide; lia.
Qed.

(** ** Walking a list *)

(** The trie [m] holds the list [vs]. *)
Definition holds_list (m : TrieNode.t) (vs : list bytes) : Prop :=
  forall q v, get m q = Some v <-> exists i, vs !! i = Some v /\ q = index_path i.

Lemma adjust_lt n i : (i < n)%nat -> (adjust_index_for_rlp i n < n)%nat.
Proof. intros Hi. unfold adjust_index_for_rlp. repeat case_decide; lia. Qed.

Lemma adjust_surj n j : (j < n)%nat -> exists i, (i < n)%nat /\ adjust_index_for_rlp i n = j.
Proof.
  intros Hj. unfold adjust_index_for_rlp. destruct (decide (j = 0)%nat) as [->|].
  - exists ((n - 1) `min` 127)%nat. split; [lia|]. repeat case_decide; lia.
  - destruct (decide (127 < j)%nat).
    + exists j. split; [done|]. by case_decide.
    + exists (j - 1)%nat. split; [lia|]. repeat case_decide; lia.
Qed.

Lemma sorted_seq (f : nat -> Nibbles * bytes) k n :
  (forall i j, (k <= i < j)%nat -> (j < k + n)%nat -> leaf_lt (f i) (f j)) ->
  StronglySorted leaf_lt (map f (seq k n)).
Proof.
  revert k. induction n as [|n IH]; intros k Hf; cbn; constructor.
  - apply IH. intros i j Hi Hj. apply Hf; lia.
  - apply Forall_fmap, Forall_forall. intros j Hj. apply elem_of_seq in Hj. apply Hf; lia.
Qed.

Lemma list_leaves m vs :
  canonical m = true -> holds_list m vs -> len vs < 2 ^ 64 ->
  (leaves m).*2 = map (fun i => vs !!! adjust_index_for_rlp i (length vs)) (seq 0 (length vs)).
Proof.
  intros Hc Hh Hl. set (n := length vs). set (adj := fun i => adjust_index_for_rlp i n).
  rewrite (leaves_unique m (map (fun i => (index_path (adj i), vs !!! adj i)) (seq 0 n))); [|done| |].
  - by rewrite <- list_fmap_compose.
  - apply sorted_seq. intros i j Hi Hj. apply adjust_sorted; [lia|]. exact Hl.
  - intros q v. rewrite (Hh q v), list_elem_of_fmap. split.
    + intros (i & [= -> ->] & Hi). apply elem_of_seq in Hi. exists (adj i). split; [|done].
      apply list_lookup_lookup_total_lt. apply adjust_lt. fold n. lia.
    + intros (j & Hj & ->). destruct (adjust_surj n j) as (i & Hi & Ei); [by apply lookup_lt_Some in Hj|].
      exists i. unfold adj. rewrite Ei. rewrite (list_lookup_total_correct _ _ _ Hj).
      split; [done|]. apply elem_of_seq. lia.
Qed.

Section Walk.
Context `{Keccak} `{TrieRlp} `{TrieProvider}.

Import OrderedListWalker.

Lemma values_slots j st : (slot_leaves j st).*2 = concat (map (fun n => (leaves n).*2) st).
Proof.
  revert j. induction st as [|n st IH]; intros j; [done|].
  rewrite slot_leaves_cons, fmap_app, IH. cbn. f_equal. by rewrite <- list_fmap_compose.
Qed.

(** The leaves found below a child, which may be blinded. *)
Definition fetch_item (fuel : nat) (item : TrieNode.t)
    : result OrderedListWalkerError (list (bytes * bytes)) :=
  match item with
  | Blinded commitment => trie_node ← get_trie_node commitment; fetch_leaves fuel trie_node
  | Empty => Ok []
  | item => fetch_leaves fuel item
  end.

Lemma fetch_branch fuel st acc :
  fold_left (fun acc item =>
    leaf_values ← acc;
    match item with
    | Blinded commitment =>
        trie_node ← get_trie_node commitment;
        more ← fetch_leaves fuel trie_node; Ok (leaf_values ++ more)
    | Empty => Ok leaf_values
    | item => more ← fetch_leaves fuel item; Ok (leaf_values ++ more)
    end) st acc =
  fold_left (fun acc item => l ← acc; more ← fetch_item fuel item; Ok (l ++ more)) st acc.
Proof.
  revert acc. induction st as [|n st IH]; intros acc; [done|]. cbn [fold_left]. rewrite IH. f_equal.
  destruct acc; [|done..]. destruct n; [by cbn; rewrite app_nil_r| |done..].
  cbn. by destruct (get_trie_node commitment).
Qed.

Lemma fetch_all fuel (st : list TrieNode.t) (vss : list (list bytes)) acc :
  Forall2 (fun n vs => exists l, fetch_item fuel n = Ok l /\ l.*2 = vs) st vss ->
  exists l, fold_left (fun acc item => l ← acc; more ← fetch_item fuel item; Ok (l ++ more)) st (Ok acc) = Ok l
    /\ l.*2 = acc.*2 ++ concat vss.
Proof.
  intros Hf. revert acc. induction Hf as [|n vs st vss (l & Hl & <-) Hf IH]; intros acc.
  - exists acc. cbn. by rewrite app_nil_r.
  - cbn [fold_left mbind result_bind]. rewrite Hl. cbn [mbind result_bind].
    destruct (IH (acc ++ l)) as (l' & -> & E). exists l'. split; [done|].
    rewrite E, fmap_app, <- app_assoc. reflexivity.
Qed.

Lemma fetch_leaves_opens fuel n m :
  opens n m -> is_blinded n = false -> (height m < fuel)%nat ->
  exists l, fetch_leaves fuel n = Ok l /\ l.*2 = (leaves m).*2.
Proof.
  revert n m. induction fuel as [|fuel IH]; intros n m Ho Hb Hf; [lia|].
  assert (HI : forall n m, opens n m -> (height m < fuel)%nat ->
    exists l, fetch_item fuel n = Ok l /\ l.*2 = (leaves m).*2).
  { intros x y Hxy Hy. destruct (is_blinded x) eqn:Hx.
    - destruct Hxy as [| | | |c x y _ Hx' Hp _ _ Hxy]; try done. cbn. unfold get_trie_node.
      rewrite Hx'. cbn. apply IH; [done|by destruct x|done].
    - destruct (IH x y Hxy Hx Hy) as (l & Hl & E). destruct x; try done; [|by exists l..].
      inversion Hxy; subst. by exists []. }
  cbn [fetch_leaves]. destruct Ho as [|p v|p n m Ho|st st' Hs|]; [by exists []|by exists [(p, v)]| | |done].
  - destruct (HI n m Ho) as (l & Hl & E); [cbn in Hf; lia|]. exists l. split.
    + destruct n; try done. destruct fuel; [cbn in Hf; lia|]. done.
    + rewrite E. cbn. by rewrite <- list_fmap_compose.
  - rewrite fetch_branch. destruct (fetch_all fuel st (map (fun n => (leaves n).*2) st') []) as (l & Hl & E).
    + apply Forall2_fmap_r. apply Forall2_same_length_lookup. split; [by apply Forall2_length in Hs|].
      intros i x y Hx Hy. destruct (opens_child _ _ _ _ Hs Hy) as (x' & Hx' & Hxy).
      assert (x' = x) as -> by congruence. apply HI; [done|]. pose proof (height_child _ _ _ Hy). lia.
    + exists l. split; [done|]. rewrite E. symmetry. apply (values_slots 0).
Qed.

Lemma first_to_front_fmap {A B} (f : A -> B) (l : list A) :
  first_to_front (map f l) =
    match first_to_front l with Ok k => Ok (map f k) | Err e => Err e | Panic => Panic end.
Proof.
  unfold first_to_front. destruct l as [|a l]; [done|]. change (map f (a :: l)) with (f a :: map f l) at 1.
  cbn iota. rewrite length_map. change (@map A B f) with (@fmap list list_fmap A B f).
  rewrite fmap_last, list_lookup_fmap, <- !fmap_take, <- fmap_drop. case_decide.
  - by destruct (last (a :: l)).
  - destruct ((a :: l) !! 127%nat); [|done]. cbn [option_map fmap option_fmap or_panic mbind result_bind].
    by rewrite fmap_cons, fmap_app.
Qed.

Lemma seq_split_at k n : (k < n)%nat -> seq 0 n = seq 0 k ++ k :: seq (S k) (n - S k).
Proof.
  intros Hk. replace n with (k + S (n - S k))%nat at 1 by lia. rewrite seq_app. reflexivity.
Qed.

(** The rotation undoes [adjust_index_for_rlp]. *)
Lemma first_to_front_adjust {A} (f : nat -> A) n :
  first_to_front (map (fun i => f (adjust_index_for_rlp i n)) (seq 0 n)) = Ok (map f (seq 0 n)).
Proof.
  destruct n as [|n]; [done|]. set (g := fun i => f (adjust_index_for_rlp i (S n))).
  set (k := (n `min` 127)%nat).
  assert (Hg : map g (seq 0 k) = map f (seq 1 k)).
  { rewrite <- seq_shift, map_map. apply map_ext_in. intros i Hi. apply in_seq in Hi.
    unfold g, adjust_index_for_rlp. rewrite !decide_False by lia. by rewrite Nat.add_1_r. }
  assert (Hk : g k = f 0%nat).
  { unfold g, adjust_index_for_rlp. by rewrite decide_False, decide_True by lia. }
  assert (Ht : map g (seq (S k) (n - k)) = map f (seq (S k) (n - k))).
  { apply map_ext_in. intros i Hi. apply in_seq in Hi.
    unfold g, adjust_index_for_rlp. by rewrite decide_True by lia. }
  assert (Hs : map g (seq 0 (S n)) = map f (seq 1 k) ++ f 0%nat :: map f (seq (S k) (n - k))).
  { rewrite (seq_split_at k (S n)), map_app by lia. cbn [map]. by rewrite Hg, Hk, Nat.sub_succ, Ht. }
  assert (Hr : map f (seq 0 (S n)) = f 0%nat :: map f (seq 1 k) ++ map f (seq (S k) (n - k))).
  { cbn [seq map]. f_equal. rewrite <- map_app. f_equal.
    replace n with (k + (n - k))%nat at 1 by lia. by rewrite seq_app. }
  assert (Hl : length (map f (seq 1 k)) = k) by by rewrite length_map, length_seq.
  rewrite Hr. unfold first_to_front. destruct (map g (seq 0 (S n))) eqn:E; [done|]. rewrite <- E in *.
  rewrite length_map, length_seq, Hs. case_decide as Hn.
  - replace (n - k)%nat with 0%nat by lia. cbn [seq map]. rewrite last_snoc, app_nil_r.
    cbn [or_panic mbind result_bind]. by rewrite take_app_length' by lia.
  - replace k with 127%nat in * by lia. rewrite list_lookup_middle by done. cbn [or_panic mbind result_bind].
    rewrite take_app_length' by done. rewrite cons_middle, app_assoc.
    by rewrite drop_app_length' by (rewrite length_app, Hl; done).
Qed.

Lemma collect_leaves r l : collect (S (length l)) (mk r (Some l)) = Ok l.
Proof.
  destruct l as [|x l]; [done|]. revert x. induction l as [|y l IH]; intros x; [done|].
  change (collect (S (length (x :: y :: l))) (mk r (Some (x :: y :: l)))) with
    (items ← collect (S (length (y :: l))) (mk r (Some (y :: l))); Ok (x :: items) : result OrderedListWalkerError _).
  by rewrite IH.
Qed.

Lemma collect_all w l : inner w = Some l -> collect (collect_fuel w) w = Ok l.
Proof. destruct w as [r i]. cbn [inner]. intros ->. apply collect_leaves. Qed.

(** A walker over the trie of a list yields the list.  The leaves come in the
    order of the keys, where index 0, encoded as the empty string, stands after
    the indices up to 127; hydration restores the order of the list, and the
    iterator then returns every value once. *)
Theorem walker_in_order fuel root n m vs :
  trie_node_by_hash root = Ok n -> is_blinded n = false -> opens n m ->
  canonical m = true -> holds_list m vs -> len vs < 2 ^ 64 -> (height m < fuel)%nat ->
  exists walker items, try_new_hydrated fuel root = Ok walker /\
    collect (collect_fuel walker) walker = Ok items /\ items.*2 = vs.
Proof.
  intros Hr Hb Ho Hc Hh Hl Hf.
  destruct (fetch_leaves_opens fuel n m Ho Hb Hf) as (l & Hfl & E).
  rewrite (list_leaves m vs Hc Hh Hl) in E.
  pose proof (first_to_front_adjust (fun i => vs !!! i) (length vs)) as Ha. cbv beta in Ha. rewrite <- E in Ha.
  change (l.*2) with (map snd l) in Ha. rewrite first_to_front_fmap in Ha.
  destruct (first_to_front l) as [items| |] eqn:Ei; try done. injection Ha as Ha.
  exists (mk root (Some items)), items. split; [|split].
  - unfold try_new_hydrated, hydrate, new, get_trie_node. cbn [inner OrderedListWalker.root].
    rewrite Hr. cbn [map_err mbind result_bind]. rewrite Hfl. cbn [mbind result_bind]. by rewrite Ei.
  - by apply collect_all.
  - change (items.*2) with (map snd items). rewrite Ha. apply list_eq_same_length with (length vs); [done|by rewrite length_map, length_seq|].
    intros i x y Hi Hx Hy. rewrite list_lookup_fmap, lookup_seq_lt in Hx by done. injection Hx as <-.
    by rewrite (list_lookup_total_correct _ _ _ Hy).
Qed.

End Walk.
