(* ===== verification/TrieModels.v ===== *)
(** * Concrete tries

    RLP as a concrete codec that satisfies the laws of [TrieRlpLaws], a stand-in
    for the hash, and the theorems on tries at small examples.  The stand-in hash
    is a polynomial in the bytes: the theorems ask of a hash only its length, and
    of the examples that their few nodes do not collide. *)

From S2P Require Import Prelude Effects Primitives SpanTxData Tries TrieProofs TrieReveals TrieCodecs TrieDecodes TrieWalkers.

Import TrieNode.

(** ** RLP *)

(** The bytes of a positive length. *)
Definition model_size (n : Z) : nat := Z.to_nat (Z.log2 n / 8 + 1).

Definition model_encode_header (h : RlpHeader.t) : bytes :=
  let n := RlpHeader.payload_length h in
  let base := if RlpHeader.list h then 192 else 128 in
  if decide (n < 56) then [byte.of_Z (base + n)]
  else byte.of_Z (base + 55 + Z.of_nat (model_size n)) :: to_be_bytes (model_size n) n.

Definition model_length_of_length (n : Z) : Z :=
  if decide (n < 56) then 1 else 1 + Z.of_nat (model_size n).

(** A length in [k] bytes, in its only admissible form. *)
Definition model_long_header (list : bool) (k : nat) (r : bytes) : option (RlpHeader.t * bytes) :=
  let n := from_be_bytes (take k r) in
  if decide ((k <= length r)%nat /\ 56 <= n /\ model_size n = k /\ n <= len (drop k r))
  then Some (RlpHeader.mk list n, drop k r) else None.

Definition model_short_header (list : bool) (n : Z) (r : bytes) : option (RlpHeader.t * bytes) :=
  if decide (n <= len r) then Some (RlpHeader.mk list n, r) else None.

Definition model_header (b : bytes) : option (RlpHeader.t * bytes) :=
  match b with
  | [] => None
  | x :: r =>
      let x := byte.unsigned x in
      if decide (x < 128) then Some (RlpHeader.mk false 1, b)
      else if decide (x < 184) then model_short_header false (x - 128) r
      else if decide (x < 192) then model_long_header false (Z.to_nat (x - 183)) r
      else if decide (x < 248) then model_short_header true (x - 192) r
      else model_long_header true (Z.to_nat (x - 247)) r
  end.

Definition model_encode_string (b : bytes) : bytes :=
  match b with
  | [x] => if decide (byte.unsigned x < 128) then b
           else model_encode_header (RlpHeader.mk false 1) ++ b
  | _ => model_encode_header (RlpHeader.mk false (len b)) ++ b
  end.

Definition model_decode_string (b : bytes) : option (bytes * bytes) :=
  '(h, r) ← model_header b;
  if RlpHeader.list h then None
  else let n := Z.to_nat (RlpHeader.payload_length h) in Some (take n r, drop n r).

Fixpoint model_elements {A} (d : bytes -> result RlpError (A * bytes)) (fuel : nat) (b : bytes)
    : result RlpError (list A) :=
  match b, fuel with
  | [], _ => Ok []
  | _, O => Err Malformed
  | _, S fuel =>
      '(a, r) ← d b;
      if decide (length r < length b)%nat then l ← model_elements d fuel r; Ok (a :: l)
      else Err Malformed
  end.

Definition model_decode_vec {A} (d : bytes -> result RlpError (A * bytes)) (b : bytes)
    : result RlpError (list A * bytes) :=
  '(h, r) ← ok_or Malformed (model_header b);
  if RlpHeader.list h then
    let n := Z.to_nat (RlpHeader.payload_length h) in
    l ← model_elements d n (take n r); Ok (l, drop n r)
  else Err UnexpectedString.

#[export] Instance model_trie_rlp : TrieRlp := {|
  encode_header := model_encode_header;
  length_of_header h := model_length_of_length (RlpHeader.payload_length h);
  decode_header := model_header;
  length_of_length := model_length_of_length;
  encode_string := model_encode_string;
  string_length b := len (model_encode_string b);
  decode_string := model_decode_string;
  decode_b256 b := '(c, r) ← model_decode_string b; if decide (len c = 32) then Some (c, r) else None;
  decode_vec A := @model_decode_vec A;
  encode_path_leaf := compact
|}.

Lemma model_size_spec n :
  0 < n < 2 ^ 64 -> (1 <= model_size n <= 8)%nat /\ n < 256 ^ Z.of_nat (model_size n).
Proof.
  intros Hn. unfold model_size. pose proof (Z.log2_nonneg n).
  assert (Hlog : Z.log2 n < 64) by (apply Z.log2_lt_pow2; lia).
  pose proof (Z.log2_spec n ltac:(lia)) as [_ Hs].
  split; [Z.div_mod_to_equations; lia|]. rewrite Z2Nat.id by (Z.div_mod_to_equations; lia).
  change 256 with (2 ^ 8). rewrite <- Z.pow_mul_r by (Z.div_mod_to_equations; lia).
  eapply Z.lt_le_trans; [exact Hs|]. apply Z.pow_le_mono_r; [lia|]. Z.div_mod_to_equations. lia.
Qed.

Lemma model_header_encode list n rest :
  0 <= n < 2 ^ 64 -> n <= len rest ->
  model_header (model_encode_header (RlpHeader.mk list n) ++ rest) = Some (RlpHeader.mk list n, rest).
Proof.
  intros Hn Hr. unfold model_encode_header. cbn [RlpHeader.payload_length RlpHeader.list].
  case_decide as Hs; cbn [app model_header].
  - rewrite unsigned_of_small by (destruct list; lia).
    destruct list; rewrite ?(decide_False (P := _ < 128)), ?(decide_False (P := _ < 184)),
      ?(decide_False (P := _ < 192)) by lia; rewrite decide_True by lia; unfold model_short_header;
      rewrite decide_True by lia; do 3 f_equal; lia.
  - destruct (model_size_spec n) as [Hk Hb]; [lia|]. set (k := model_size n) in *.
    rewrite unsigned_of_small by (destruct list; lia).
    assert (HL : model_long_header list k (to_be_bytes k n ++ rest) = Some (RlpHeader.mk list n, rest)).
    { unfold model_long_header. rewrite take_app_length', drop_app_length' by by rewrite length_to_be_bytes.
      rewrite from_to_be_bytes by (rewrite Z.mul_comm, Z.pow_mul_r by lia; change (2 ^ 8) with 256; lia).
      rewrite decide_True; [done|]. rewrite length_app, length_to_be_bytes. repeat split; [lia|lia|lia]. }
    destruct list; rewrite ?(decide_False (P := _ < 128)), ?(decide_False (P := _ < 184)),
      ?(decide_False (P := _ < 192)), ?(decide_False (P := _ < 248)) by lia;
      [|rewrite decide_True by lia].
    + replace (Z.to_nat (192 + 55 + Z.of_nat k - 247)) with k by lia. exact HL.
    + replace (Z.to_nat (128 + 55 + Z.of_nat k - 183)) with k by lia. exact HL.
Qed.

Lemma model_string_header b rest :
  len b < 2 ^ 64 -> model_header (model_encode_string b ++ rest) = Some (RlpHeader.mk false (len b), b ++ rest).
Proof.
  intros Hb. assert (HS : model_header ((model_encode_header (RlpHeader.mk false (len b)) ++ b) ++ rest) =
    Some (RlpHeader.mk false (len b), b ++ rest)).
  { rewrite <- app_assoc. pose proof (len_nonneg b). pose proof (len_nonneg rest).
    apply model_header_encode; [lia|]. rewrite len_app. lia. }
  unfold model_encode_string. destruct b as [|x [|y b]]; [exact HS| |exact HS].
  case_decide; [|exact HS]. cbn [app model_header]. by rewrite decide_True.
Qed.

Lemma model_string_decode b rest :
  len b < 2 ^ 64 -> model_decode_string (model_encode_string b ++ rest) = Some (b, rest).
Proof.
  intros Hb. unfold model_decode_string. rewrite model_string_header by done. cbn.
  replace (Z.to_nat (len b)) with (length b) by (unfold len; lia).
  by rewrite take_app_length, drop_app_length.
Qed.

Lemma model_long_bounds list k r h rest :
  model_long_header list k r = Some (h, rest) ->
  56 <= RlpHeader.payload_length h <= len rest /\ model_size (RlpHeader.payload_length h) = k /\
  len r = Z.of_nat k + len rest /\ RlpHeader.list h = list.
Proof.
  unfold model_long_header. case_decide as Hk; [|done]. intros [= <- <-].
  destruct Hk as (Hk & Hn & Hs & Hl). cbn [RlpHeader.payload_length RlpHeader.list].
  repeat split; [done|done|done|]. unfold len. rewrite length_drop. lia.
Qed.

Lemma model_header_bounds b h rest :
  model_header b = Some (h, rest) ->
  0 <= RlpHeader.payload_length h <= len rest /\ len rest <= len b /\
  len rest - RlpHeader.payload_length h < len b /\
  (RlpHeader.list h = true \/ RlpHeader.payload_length h = 0 ->
     len b = model_length_of_length (RlpHeader.payload_length h) + len rest).
Proof.
  destruct b as [|x r]; [done|]. cbn [model_header]. rewrite len_cons. pose proof (len_nonneg r).
  assert (HS : forall list n, 0 <= n < 56 -> model_short_header list n r = Some (h, rest) ->
    0 <= RlpHeader.payload_length h <= len rest /\ len rest <= len r + 1 /\
    len rest - RlpHeader.payload_length h < len r + 1 /\
    (RlpHeader.list h = true \/ RlpHeader.payload_length h = 0 ->
       len r + 1 = model_length_of_length (RlpHeader.payload_length h) + len rest)).
  { intros list n Hn. unfold model_short_header. case_decide; [|done]. intros [= <- <-].
    cbn [RlpHeader.payload_length]. unfold model_length_of_length. rewrite decide_True by lia. lia. }
  assert (HL : forall list k, model_long_header list k r = Some (h, rest) ->
    0 <= RlpHeader.payload_length h <= len rest /\ len rest <= len r + 1 /\
    len rest - RlpHeader.payload_length h < len r + 1 /\
    (RlpHeader.list h = true \/ RlpHeader.payload_length h = 0 ->
       len r + 1 = model_length_of_length (RlpHeader.payload_length h) + len rest)).
  { intros list k E. apply model_long_bounds in E as (Hn & Hs & Hr & _).
    unfold model_length_of_length. rewrite decide_False, Hs by lia. lia. }
  repeat case_decide; try (apply HL); try (apply HS; lia).
  intros [= <- <-]. cbn [RlpHeader.payload_length RlpHeader.list]. rewrite len_cons.
  repeat split; lia.
Qed.

Lemma model_elements_items {A} (d : bytes -> result RlpError (A * bytes)) (items : list (A * bytes)) bound fuel :
  Forall (fun '(a, e) => e <> [] /\ forall r, len (e ++ r) <= bound -> d (e ++ r) = Ok (a, r)) items ->
  len (concat items.*2) <= bound -> (length (concat items.*2) <= fuel)%nat ->
  model_elements d fuel (concat items.*2) = Ok items.*1.
Proof.
  intros Hd. revert fuel. induction Hd as [|[a e] items [Hne He] Hd IH]; intros fuel Hb Hf; [by destruct fuel|].
  cbn [fmap list_fmap fst snd concat] in *. rewrite length_app in Hf.
  destruct e as [|x e]; [done|]. destruct fuel as [|fuel]; [cbn in Hf; lia|]. cbn [app model_elements].
  specialize (He (concat items.*2) Hb). cbn [app] in He. rewrite He. cbn [mbind result_bind].
  rewrite decide_True by (cbn; rewrite length_app; lia).
  rewrite IH; [done| |cbn in Hf; lia]. rewrite len_app in Hb. pose proof (len_nonneg (x :: e)). lia.
Qed.

Lemma model_elements_no_panic {A} (d : bytes -> result RlpError (A * bytes)) fuel b :
  (forall b', (length b' <= length b)%nat -> d b' <> Panic) -> model_elements d fuel b <> Panic.
Proof.
  revert b. induction fuel as [|fuel IH]; intros b Hd; destruct b as [|x b]; try done.
  cbn [model_elements]. apply bind_no_panic; [by apply Hd|]. intros [a r] _. case_decide; [|done].
  apply bind_no_panic; [|done]. apply IH. intros b' Hb'. apply Hd. lia.
Qed.

#[export] Instance model_trie_laws : TrieRlpLaws.
Proof.
  split; cbn.
  - intros [l n]. unfold model_length_of_length, model_encode_header. cbn. case_decide; [done|].
    by rewrite len_cons, len_to_be_bytes, Z.add_comm.
  - done.
  - intros n. unfold model_length_of_length. case_decide; lia.
  - intros n Hn. unfold model_length_of_length. by rewrite decide_True by lia.
  - intros n rest Hn Hr. by apply model_header_encode.
  - intros b rest Hb. by apply model_string_header.
  - done.
  - intros b Hb. unfold model_encode_string. by rewrite decide_True.
  - intros b Hb. assert (HL : forall n, len (model_encode_header (RlpHeader.mk false n) ++ b) =
      len b + model_length_of_length n).
    { intros n. rewrite len_app. unfold model_length_of_length, model_encode_header. cbn.
      case_decide; rewrite len_cons, ?len_to_be_bytes, ?len_nil; lia. }
    unfold model_encode_string. destruct b as [|x [|y b]]; [apply HL| |apply HL].
    rewrite decide_False by (specialize (Hb x eq_refl); lia). apply HL.
  - done.
  - intros b rest Hb. by apply model_string_decode.
  - intros b rest Hb. rewrite model_string_decode by lia. cbn. by rewrite decide_True.
  - intros A d items rest Hd Hl. unfold model_decode_vec. rewrite len_app in Hl.
    pose proof (len_nonneg (concat items.*2)). pose proof (len_nonneg rest).
    rewrite model_header_encode by (rewrite ?len_app; lia). cbn.
    replace (Z.to_nat (len (concat items.*2))) with (length (concat items.*2)) by (unfold len; lia).
    rewrite take_app_length, drop_app_length.
    by rewrite (model_elements_items d items (len (concat items.*2))).
  - intros b h rest. apply model_header_bounds.
  - intros b s rest E. unfold model_decode_string in E.
    destruct (model_header b) as [[h r]|] eqn:Eh; [|done]. apply model_header_bounds in Eh as (Hp & Hr & Hs & _).
    cbn in E. destruct (RlpHeader.list h); [done|]. injection E as <- <-.
    unfold len in *. rewrite length_drop. lia.
  - intros A d b Hd. unfold model_decode_vec. destruct (model_header b) as [[h r]|] eqn:Eh; [|done].
    apply model_header_bounds in Eh as (Hp & Hr & Hs & Hh). cbn. destruct (RlpHeader.list h); [|done].
    specialize (Hh (or_introl eq_refl)). apply bind_no_panic; [|done]. apply model_elements_no_panic.
    intros b' Hb'. apply Hd. rewrite length_take in Hb'.
    assert (0 < model_length_of_length (RlpHeader.payload_length h))
      by (unfold model_length_of_length; case_decide; lia).
    unfold len in *. lia.
  - done.
Qed.

(** ** The stand-in hash *)

#[export] Instance model_keccak : Keccak := fun b =>
  to_be_bytes 32 (fold_left (fun acc x => (acc * 263 + byte.unsigned x + 1) mod 2 ^ 256) b 7).

#[export] Instance model_keccak_laws : KeccakLaws.
Proof. intros b. apply len_to_be_bytes. Qed.

(** ** A state trie *)

Definition nibs (l : list Z) : Nibbles := map byte.of_Z l.
Definition big (z : Z) : bytes := replicate 40 (byte.of_Z z).

Definition no_nodes : TrieProvider := fun _ => Err "no node"%string.

Definition put (path : Nibbles) (value : bytes) (n : t) : t :=
  (@insert model_keccak no_nodes 20 path value n).2.

Definition sample_trie : t := Eval vm_compute in
  put (nibs [9; 1; 1; 1]) (big 4) (put (nibs [1; 7; 0; 0]) (big 3)
    (put (nibs [1; 2; 3; 5]) (big 2) (put (nibs [1; 2; 3; 4]) (big 1) Empty))).

(** The same entries, put in another order. *)
Definition sample_trie' : t := Eval vm_compute in
  put (nibs [1; 2; 3; 4]) (big 1) (put (nibs [1; 2; 3; 5]) (big 2)
    (put (nibs [9; 1; 1; 1]) (big 4) (put (nibs [1; 7; 0; 0]) (big 3) Empty))).

Definition preimages_of (n : t) : list (bytes * bytes) :=
  map (fun x => (blind x, encode x)) (nodes n).

Definition oracle_of (store : list (bytes * bytes)) : PreimageOracle := {|
  preimage c := match list_find (fun p => p.1 = c) store with Some (_, p) => Ok p.2 | None => Err "missing"%string end;
  rlp_error_display _ := "rlp"%string
|}.

Definition sample_store : list (bytes * bytes) := Eval vm_compute in preimages_of sample_trie.

Definition served_check `{PreimageOracle} (n : t) : bool :=
  match preimage (blind n) with
  | Ok b => bool_decide (b = encode n)
  | _ => false
  end && negb (bool_decide (blind n = EMPTY_ROOT_HASH)) && bool_decide (len (encode n) < 2 ^ 64).

Lemma served_check_served `{PreimageOracle} n : served_check n = true -> served n.
Proof.
  unfold served_check, served. intros Hs. apply andb_true_iff in Hs as [Hs Hl].
  apply andb_true_iff in Hs as [Hs He]. apply bool_decide_eq_true in Hl.
  apply negb_true_iff, bool_decide_eq_false in He.
  destruct (preimage (blind n)) as [b| |]; [|done..].
  apply bool_decide_eq_true in Hs as ->. done.
Qed.

Lemma serves_below_check `{PreimageOracle} n :
  forallb (fun x => negb (bool_decide (len B256_ZERO <= node_length x)) || served_check x)
    (tail (nodes n)) = true ->
  serves_below n.
Proof.
  rewrite forallb_forall. intros Hs x Hx Hl. apply list_elem_of_In, Hs, orb_true_iff in Hx as [Hx|Hx].
  - by rewrite negb_true_iff, bool_decide_eq_false in Hx.
  - by apply served_check_served.
Qed.

(** The map of a trie, from its leaves. *)
Lemma leaves_map n q :
  canonical n = true -> get n q = (list_to_map (leaves n) : gmap Nibbles bytes) !! q.
Proof.
  intros Hc. assert (HN : NoDup (leaves n).*1).
  { pose proof (leaves_sorted n Hc) as Hs. induction Hs as [|x l Hs IH Hx]; cbn; constructor; [|done].
    intros Hin. apply list_elem_of_fmap in Hin as (y & Hy & Hin).
    apply (path_lt_irrefl x.1). rewrite Hy at 2. by apply (proj1 (list.Forall_forall _ _) Hx). }
  apply option_eq. intros v. rewrite <- elem_leaves by done. apply elem_of_list_to_map, HN.
Qed.

Definition sample_map : gmap Nibbles bytes := list_to_map (leaves sample_trie).

Definition sample_ops : list TrieOp :=
  [Open (nibs [1; 2; 3; 4]); Insert (nibs [1; 2; 3; 4]) (big 8); Delete (nibs [1; 7; 0; 0]);
   Open (nibs [1; 7; 0; 0]); Delete (nibs [5; 5; 5; 5]); Insert (nibs [5; 5; 5; 5]) (big 9);
   Open (nibs [1; 2; 3; 4])].

Lemma stateless_updates_witness :
  let '(results, n) := run_all (map (@run_op _ (@oracle_provider (oracle_of sample_store) _) 11) sample_ops)
                         (new_blinded (blind sample_trie)) in
  let '(results', M') := run_all (map map_op sample_ops) sample_map in
  results = results' /\
  forall m', canonical m' = true -> (forall q, get m' q = M' !! q) -> blind n = blind m'.
Proof.
  apply (@stateless_updates _ _ _ _ (oracle_of sample_store) 11 4 sample_ops sample_trie sample_map).
  - vm_compute. reflexivity.
  - vm_compute. reflexivity.
  - intros q. apply leaves_map. vm_compute. reflexivity.
  - reflexivity.
  - apply served_check_served. vm_compute. reflexivity.
  - apply serves_below_check. vm_compute. reflexivity.
  - repeat constructor.
  - lia.
Defined.

Lemma root_commits_map_witness :
  blind ((@open _ (@oracle_provider (oracle_of sample_store) _) 11 (nibs [1; 7; 0; 0])
    (new_blinded (blind sample_trie))).2) = blind sample_trie'.
Proof.
  apply (@root_commits_map _ _ _ _ (@oracle_provider (oracle_of sample_store) _) 4 4 _ _ sample_map).
  - apply (@open_represents _ _ (@oracle_provider (oracle_of sample_store) _) 11 (nibs [1; 7; 0; 0]));
      [|reflexivity|cbn; lia].
    apply (@represents_served _ _ _ _ (oracle_of sample_store) 4).
    + vm_compute. reflexivity.
    + vm_compute. reflexivity.
    + intros q. apply leaves_map. vm_compute. reflexivity.
    + reflexivity.
    + apply served_check_served. vm_compute. reflexivity.
    + apply serves_below_check. vm_compute. reflexivity.
  - exists sample_trie'. split; [|split; [vm_compute; reflexivity|split; [vm_compute; reflexivity|]]].
    + apply root_opens. unfold sample_trie'. by repeat constructor.
    + intros q. apply leaves_map. vm_compute. reflexivity.
Defined.

Lemma node_round_trip_witness :
  decode (encode sample_trie ++ [Byte.x01]) = Ok (shallow sample_trie, [Byte.x01]) /\
  encode (shallow sample_trie) = encode sample_trie /\ blind (shallow sample_trie) = blind sample_trie.
Proof. apply (node_round_trip sample_trie [Byte.x01]); vm_compute; reflexivity. Defined.

Lemma node_decode_total_witness : decode [Byte.xc3; Byte.x82; Byte.x20; Byte.x01] <> Panic.
Proof. apply (node_decode_total [Byte.xc3; Byte.x82; Byte.x20; Byte.x01]). vm_compute. reflexivity. Defined.

(** ** The trie of a list *)

Definition sample_list : list bytes := [big 1; big 2; big 3].

Definition list_trie : t := Eval vm_compute in
  put (index_path 2) (big 3) (put (index_path 1) (big 2) (put (index_path 0) (big 1) Empty)).

Definition list_store : list (bytes * bytes) := Eval vm_compute in preimages_of list_trie.

Lemma leaves_hold_list m vs :
  canonical m = true -> leaves m ≡ₚ imap (fun i v => (index_path i, v)) vs -> holds_list m vs.
Proof.
  intros Hc Hp q v. rewrite <- elem_leaves, Hp, elem_of_lookup_imap by done. split.
  - intros (i & w & [= -> ->] & Hi). eauto.
  - intros (i & Hi & ->). eauto.
Qed.

Lemma walker_in_order_witness :
  exists walker items,
    @OrderedListWalker.try_new_hydrated (@oracle_provider (oracle_of list_store) _) 5 (blind list_trie) = Ok walker /\
    OrderedListWalker.collect (OrderedListWalker.collect_fuel walker) walker = Ok items /\
    items.*2 = sample_list.
Proof.
  apply (@walker_in_order _ _ (@oracle_provider (oracle_of list_store) _) 5 (blind list_trie)
    (shallow list_trie) list_trie sample_list).
  - apply oracle_reveals; [vm_compute; reflexivity|]. apply served_check_served. vm_compute. reflexivity.
  - reflexivity.
  - apply opens_shallow; [vm_compute; reflexivity|]. apply serves_below_check. vm_compute. reflexivity.
  - vm_compute. reflexivity.
  - apply leaves_hold_list; [vm_compute; reflexivity|].
    vm_compute. symmetry. apply (Permutation_cons_append [_; _]).
  - reflexivity.
  - vm_compute. lia.
Defined.
