(* ===== verification/Preimages.v ===== *)
(** * The preimage oracle

    [proof/preimage/src]: preimage keys, and the protocol between the client
    program and its host over a pair of message queues ([key.rs], [oracle.rs],
    [hint.rs], [native_channel.rs]); the loops of the host
    ([proof/host/src/server.rs]) and the caching client
    ([proof/proof/src/caching_oracle.rs]).  Client and host are processes that
    send and receive; their interleavings are the steps of a network. *)

From stdpp Require Import relations.
From S2P Require Import Prelude Effects Primitives SpanTxData Tries.

Inductive ChannelError : Type := Closed | UnexpectedEOF.

Inductive PreimageOracleError : Type :=
| IOError (e : ChannelError)
| InvalidPreimageKey
| PreimageKeyNotFound
| PreimageTimeout
| BufferLengthMismatch (expected got : Z)
| HintParseFailed (s : string)
| WitnessOracle (s : string)
| OtherError (s : string).

Inductive PreimageKeyType : Type :=
| Local | Keccak256 | GlobalGeneric | Sha256 | Blob | Precompile.

#[global] Instance key_type_eq_dec : EqDecision PreimageKeyType.
Proof. solve_decision. Defined.

(** [key_type as u8], and its inverse. *)
Definition key_type_byte (ty : PreimageKeyType) : byte :=
  match ty with
  | Local => Byte.x01
  | Keccak256 => Byte.x02
  | GlobalGeneric => Byte.x03
  | Sha256 => Byte.x04
  | Blob => Byte.x05
  | Precompile => Byte.x06
  end.

Definition key_type_try_from (value : byte) : result PreimageOracleError PreimageKeyType :=
  match value with
  | Byte.x01 => Ok Local
  | Byte.x02 => Ok Keccak256
  | Byte.x03 => Ok GlobalGeneric
  | Byte.x04 => Ok Sha256
  | Byte.x05 => Ok Blob
  | Byte.x06 => Ok Precompile
  | _ => Err InvalidPreimageKey
  end.

Module PreimageKey.

Record t : Type := mk { data : bytes; key_type : PreimageKeyType }.

#[global] Instance eq_dec : EqDecision t.
Proof. solve_decision. Defined.

Definition new (key : B256) (key_type : PreimageKeyType) : t := mk (drop 1 key) key_type.

Definition new_local (local_ident : Z) : t := mk (zeros 23 ++ to_be_bytes 8 local_ident) Local.

Definition new_keccak256 (digest : B256) : t := new digest Keccak256.

Definition new_precompile `{Keccak} (precompile_addr : Address) (input : bytes) : t :=
  mk (drop 1 (keccak256 (precompile_addr ++ input))) Precompile.

Definition key_value (self : t) : Z := from_be_bytes (data self).

(** [From<PreimageKey> for [u8; 32]] and [TryFrom<[u8; 32]>]. *)
Definition to_bytes (self : t) : bytes := key_type_byte (key_type self) :: data self.

Definition try_from (value : bytes) : result PreimageOracleError t :=
  key_type ← ok_or InvalidPreimageKey (head value) ≫= key_type_try_from;
  Ok (new value key_type).

Lemma try_from_to_bytes key : try_from (to_bytes key) = Ok key.
Proof. by destruct key as [data []]. Qed.

End PreimageKey.

(** ** Processes

    Asynchronous code on a [NativeChannel]: a write puts a message into the other
    party's queue, [read_exact] waits for a message, which must have the length of
    the buffer ([copy_from_slice] panics otherwise).  The queues are unbounded and
    stay open. *)
Inductive proc (E A : Type) : Type :=
| Return (r : result E A)
| Write (message : bytes) (k : proc E A)
| ReadExact (n : nat) (k : bytes -> proc E A).
Arguments Return {E A} r.
Arguments Write {E A} message k.
Arguments ReadExact {E A} n k.

(** [match p.await { .. }]. *)
Fixpoint await {E F A B} (p : proc E A) (k : result E A -> proc F B) : proc F B :=
  match p with
  | Return r => k r
  | Write message p => Write message (await p k)
  | ReadExact n p => ReadExact n (fun message => await (p message) k)
  end.

(** [p.await?]. *)
Definition await_ok {E A B} (p : proc E A) (k : A -> proc E B) : proc E B :=
  await p (fun r =>
    match r with Ok a => k a | Err e => Return (Err e) | Panic => Return Panic end).

(** *** The client *)

Module OracleReader.

Definition write_key (key : PreimageKey.t) : proc PreimageOracleError Z :=
  Write (PreimageKey.to_bytes key)
    (ReadExact 8 (fun length_buffer => Return (Ok (from_be_bytes length_buffer)))).

Definition get (key : PreimageKey.t) : proc PreimageOracleError bytes :=
  await_ok (write_key key) (fun length =>
    if decide (length = 0) then Return (Ok [])
    else ReadExact (Z.to_nat length) (fun data_buffer => Return (Ok data_buffer))).

(** The buffer of [n] bytes is returned as it is filled. *)
Definition get_exact (key : PreimageKey.t) (n : nat) : proc PreimageOracleError bytes :=
  await_ok (write_key key) (fun length =>
    if decide (Z.of_nat n <> length) then Return (Err (BufferLengthMismatch length (Z.of_nat n)))
    else if decide (length = 0) then Return (Ok [])
    else ReadExact n (fun buf => Return (Ok buf))).

End OracleReader.

(** *** The host *)

(** [PreimageFetcher] and [HintRouter] of the backend. *)
Class PreimageServerBackend : Type := {
  get_preimage : PreimageKey.t -> result PreimageOracleError bytes;
  route_hint : bytes -> result PreimageOracleError ()
}.

Inductive HostError : Type :=
| PreimageRequestFailed (e : PreimageOracleError)
| RouteHintFailed (e : PreimageOracleError).

Module OracleServer.

Definition next_preimage_request `{PreimageServerBackend} : proc PreimageOracleError () :=
  ReadExact 32 (fun buf =>
    match preimage_key ← PreimageKey.try_from buf; get_preimage preimage_key with
    | Ok value => Write (to_be_bytes 8 (len value)) (Write value (Return (Ok ())))
    | Err e => Return (Err e)
    | Panic => Return Panic
    end).

(** [PreimageServer::start_oracle_server]: the loop, for at most [fuel] requests. *)
Fixpoint start_oracle_server `{PreimageServerBackend} (fuel : nat) : proc HostError () :=
  match fuel with
  | O => Return Panic
  | S fuel =>
      await next_preimage_request (fun r =>
        match r with
        | Ok _ => start_oracle_server fuel
        | Err (IOError _) => Return (Ok ())
        | Err e => Return (Err (PreimageRequestFailed e))
        | Panic => Return Panic
        end)
  end.

End OracleServer.

(** *** Hints *)

(** [String::from_utf8]: the well-formed byte sequences of Unicode, table 3-7. *)
Definition in_range (lo hi : Z) (b : byte) : bool :=
  bool_decide (lo <= byte.unsigned b <= hi).

Fixpoint utf8_valid (s : bytes) : bool :=
  match s with
  | [] => true
  | a :: s1 =>
      if in_range 0 127 a then utf8_valid s1
      else match s1 with
      | b :: s2 =>
          if in_range 194 223 a && in_range 128 191 b then utf8_valid s2
          else match s2 with
          | c :: s3 =>
              if (in_range 224 224 a && in_range 160 191 b || in_range 225 236 a && in_range 128 191 b ||
                  in_range 237 237 a && in_range 128 159 b || in_range 238 239 a && in_range 128 191 b) &&
                 in_range 128 191 c
              then utf8_valid s3
              else match s3 with
              | d :: s4 =>
                  (in_range 240 240 a && in_range 144 191 b || in_range 241 243 a && in_range 128 191 b ||
                   in_range 244 244 a && in_range 128 143 b) && in_range 128 191 c && in_range 128 191 d &&
                  utf8_valid s4
              | [] => false
              end
          | [] => false
          end
      | [] => false
      end
  end.

Module HintWriter.

(** A hint is a string; [hint] is its UTF-8. *)
Definition write (hint : bytes) : proc PreimageOracleError () :=
  Write (to_be_bytes 4 (wrap 32 (len hint))) (Write hint (ReadExact 1 (fun _ => Return (Ok ())))).

End HintWriter.

Module HintReader.

Definition next_hint `{PreimageServerBackend} : proc PreimageOracleError () :=
  ReadExact 4 (fun len_buf =>
    ReadExact (Z.to_nat (from_be_bytes len_buf)) (fun raw_payload =>
      if utf8_valid raw_payload then
        match route_hint raw_payload with
        | Ok _ => Write [Byte.x00] (Return (Ok ()))
        | Err e => Write [Byte.x00] (Return (Err e))
        | Panic => Return Panic
        end
      else Write [Byte.x00] (Return (Err (OtherError "Failed to decode hint payload"))))).

(** [PreimageServer::start_hint_router]. *)
Fixpoint start_hint_router `{PreimageServerBackend} (fuel : nat) : proc HostError () :=
  match fuel with
  | O => Return Panic
  | S fuel =>
      await next_hint (fun r =>
        match r with
        | Ok _ => start_hint_router fuel
        | Err (IOError _) => Return (Ok ())
        | Err e => Return (Err (RouteHintFailed e))
        | Panic => Return Panic
        end)
  end.

End HintReader.

(** ** The network

    [BidirectionalChannel]: the client, the host, and the messages on their way. *)
Module Network.

Record t (E A F B : Type) : Type := mk {
  client : proc E A;
  host : proc F B;
  to_host : list bytes;
  to_client : list bytes
}.
Arguments mk {E A F B} _ _ _ _.
Arguments client {E A F B} _.
Arguments host {E A F B} _.
Arguments to_host {E A F B} _.
Arguments to_client {E A F B} _.

(** [read_exact] of [n] bytes when the message [d] is next. *)
Definition receive {E A} (n : nat) (k : bytes -> proc E A) (d : bytes) : proc E A :=
  if decide (length d = n) then k d else Return Panic.

Inductive step {E A F B : Type} : t E A F B -> t E A F B -> Prop :=
| client_write m k h th tc : step (mk (Write m k) h th tc) (mk k h (th ++ [m]) tc)
| client_read n k h th d tc : step (mk (ReadExact n k) h th (d :: tc)) (mk (receive n k d) h th tc)
| host_write c m k th tc : step (mk c (Write m k) th tc) (mk c k th (tc ++ [m]))
| host_read c n k d th tc : step (mk c (ReadExact n k) (d :: th) tc) (mk c (receive n k d) th tc).

Definition stuck {E A F B : Type} (s : t E A F B) : Prop := forall s', ~ step s s'.

End Network.

(** ** Requests *)

Module Exchange.

Import Network.

(** A client that requests one preimage after the other. *)
Fixpoint fetch_all (keys : list PreimageKey.t) (acc : list bytes) : proc PreimageOracleError (list bytes) :=
  match keys with
  | [] => Return (Ok acc)
  | key :: keys => await_ok (OracleReader.get key) (fun value => fetch_all keys (acc ++ [value]))
  end.

Abbreviation net := (Network.t PreimageOracleError (list bytes) HostError ()).

Section Exchange.
Context `{PreimageServerBackend}.

(** The client that waits for the length of the first preimage, and for the
    preimage itself; the host that has to answer with [value]. *)
Definition waiting (key : PreimageKey.t) keys acc : proc PreimageOracleError (list bytes) :=
  match fetch_all (key :: keys) acc with Write _ p => p | p => p end.

Definition reading (value : bytes) keys acc : proc PreimageOracleError (list bytes) :=
  ReadExact (length value) (fun data => fetch_all keys (acc ++ [data])).

Definition sending (value : bytes) fuel : proc HostError () :=
  Write value (OracleServer.start_oracle_server fuel).

Definition answering (value : bytes) fuel : proc HostError () :=
  Write (to_be_bytes 8 (len value)) (sending value fuel).

(** A key that the host serves with [value]. *)
Definition answers (key : PreimageKey.t) (value : bytes) : Prop :=
  length (PreimageKey.data key) = 31%nat /\ get_preimage key = Ok value /\ len value < 2 ^ 64.

Lemma host_receives key value fuel :
  answers key value ->
  match OracleServer.start_oracle_server (S fuel) with
  | ReadExact n k => receive n k (PreimageKey.to_bytes key)
  | p => p
  end = answering value fuel.
Proof.
  intros (Hk & Hv & _). cbn [OracleServer.start_oracle_server OracleServer.next_preimage_request await].
  unfold receive. rewrite decide_True by (cbn; by rewrite Hk).
  rewrite PreimageKey.try_from_to_bytes. cbn [mbind result_bind]. rewrite Hv. reflexivity.
Qed.

Lemma client_receives key value keys acc :
  len value < 2 ^ 64 ->
  match waiting key keys acc with
  | ReadExact n k => receive n k (to_be_bytes 8 (len value))
  | p => p
  end = if decide (value = []) then fetch_all keys (acc ++ [[]]) else reading value keys acc.
Proof.
  intros Hv. cbn. unfold receive. rewrite length_to_be_bytes, decide_True by done. cbn.
  rewrite from_to_be_bytes by (pose proof (len_nonneg value); cbn; lia).
  destruct value as [|x value]; [done|]. rewrite decide_False by (unfold len; cbn; lia).
  rewrite (decide_False (P := x :: value = [])) by done. cbn [await]. unfold reading, len. by rewrite Nat2Z.id.
Qed.

(** What is left to request: non-empty preimages that complete [all]. *)
Definition pending (all acc : list bytes) (keys : list PreimageKey.t) : Prop :=
  exists values, Forall2 answers keys values /\ Forall (.≠ []) values /\ all = acc ++ values.

(** The states of an exchange with [n] steps to go; the host is ready for [base]
    more requests in the end. *)
Inductive phase (base : nat) (all : list bytes) : nat -> net -> Prop :=
| ph_start keys acc : pending all acc keys ->
    phase base all (6 * length keys)
      (mk (fetch_all keys acc) (OracleServer.start_oracle_server (length keys + base)) [] [])
| ph_asked key value keys acc :
    answers key value -> value <> [] -> pending all (acc ++ [value]) keys ->
    phase base all (6 * length keys + 5)
      (mk (waiting key keys acc) (OracleServer.start_oracle_server (S (length keys + base)))
        [PreimageKey.to_bytes key] [])
| ph_found key value keys acc :
    answers key value -> value <> [] -> pending all (acc ++ [value]) keys ->
    phase base all (6 * length keys + 4)
      (mk (waiting key keys acc) (answering value (length keys + base)) [] [])
| ph_length key value keys acc :
    answers key value -> value <> [] -> pending all (acc ++ [value]) keys ->
    phase base all (6 * length keys + 3)
      (mk (waiting key keys acc) (sending value (length keys + base)) [] [to_be_bytes 8 (len value)])
| ph_both key value keys acc :
    answers key value -> value <> [] -> pending all (acc ++ [value]) keys ->
    phase base all (6 * length keys + 2)
      (mk (waiting key keys acc) (OracleServer.start_oracle_server (length keys + base)) []
        [to_be_bytes 8 (len value); value])
| ph_reading value keys acc :
    pending all (acc ++ [value]) keys ->
    phase base all (6 * length keys + 2)
      (mk (reading value keys acc) (sending value (length keys + base)) [] [])
| ph_sent value keys acc :
    pending all (acc ++ [value]) keys ->
    phase base all (6 * length keys + 1)
      (mk (reading value keys acc) (OracleServer.start_oracle_server (length keys + base)) [] [value]).

(** A process that is about to read or to write. *)
Lemma server_reads fuel : exists k, OracleServer.start_oracle_server (S fuel) = ReadExact 32 k.
Proof. by eexists. Qed.

Lemma waiting_reads key keys acc : exists k, waiting key keys acc = ReadExact 8 k.
Proof. by eexists. Qed.

Lemma receive_length {E A} (k : bytes -> proc E A) d : receive (length d) k d = k d.
Proof. unfold receive. by rewrite decide_True. Qed.

Lemma phase_step base all n s s' :
  (0 < base)%nat -> phase base all n s -> step s s' -> exists n', n = S n' /\ phase base all n' s'.
Proof.
  intros Hbase Hp Hs. destruct Hp as [keys acc Hk|key value keys acc Hkv Hne Hk|key value keys acc Hkv Hne Hk|
    key value keys acc Hkv Hne Hk|key value keys acc Hkv Hne Hk|value keys acc Hk|value keys acc Hk].
  - destruct Hk as (values & Hk & Hv & ->). destruct base as [|base]; [lia|].
    destruct Hk as [|key value keys values Hkv Hk]; [inversion Hs|]. apply Forall_cons in Hv as [Hne Hv].
    inversion Hs; subst. exists (6 * length keys + 5)%nat. split; [cbn; lia|].
    apply (ph_asked _ _ key value); [done..|]. exists values. by rewrite <- app_assoc.
  - inversion Hs; subst. exists (6 * length keys + 4)%nat. split; [lia|].
    pose proof (host_receives key value (length keys + base) Hkv) as E. cbn in E. cbn. rewrite E.
    by apply (ph_found _ _ key value).
  - inversion Hs; subst. exists (6 * length keys + 3)%nat. split; [lia|]. by apply (ph_length _ _ key value).
  - exists (6 * length keys + 2)%nat. split; [lia|].
    pose proof (client_receives key value keys acc (proj2 (proj2 Hkv))) as E.
    rewrite (decide_False (P := value = [])) in E by done.
    destruct (waiting_reads key keys acc) as [k Ek]. rewrite Ek in *. inversion Hs; subst.
    + cbn in E. rewrite E. by apply ph_reading.
    + rewrite <- Ek. by apply (ph_both _ _ key value).
  - exists (6 * length keys + 1)%nat. split; [lia|]. destruct base as [|base]; [lia|].
    pose proof (client_receives key value keys acc (proj2 (proj2 Hkv))) as E.
    rewrite (decide_False (P := value = [])) in E by done.
    destruct (waiting_reads key keys acc) as [k Ek]. rewrite Ek in *.
    rewrite (Nat.add_succ_r (length keys) base) in Hs. destruct (server_reads (length keys + base)) as [h Eh]. rewrite Eh in *.
    inversion Hs; subst. cbn in E. rewrite E, <- Eh, <- (Nat.add_succ_r (length keys) base). by apply ph_sent.
  - inversion Hs; subst. exists (6 * length keys + 1)%nat. split; [lia|]. by apply ph_sent.
  - exists (6 * length keys)%nat. split; [lia|]. destruct base as [|base]; [lia|].
    rewrite (Nat.add_succ_r (length keys) base) in Hs. destruct (server_reads (length keys + base)) as [h Eh]. rewrite Eh in *.
    inversion Hs; subst. rewrite receive_length, <- Eh, <- (Nat.add_succ_r (length keys) base). by apply ph_start.
Qed.

Lemma phase_progress base all n s : (0 < base)%nat -> phase base all (S n) s -> exists s', step s s'.
Proof.
  intros Hbase Hp. remember (S n) as m eqn:Em. destruct Hp as [keys acc Hk| | | | | |].
  - destruct keys; [done|]. eexists. apply client_write.
  - eexists. apply host_read.
  - eexists. apply host_write.
  - eexists. apply host_write.
  - eexists. apply client_read.
  - eexists. apply host_write.
  - eexists. apply client_read.
Qed.

Lemma phase_final base all s :
  phase base all 0 s -> s = mk (Return (Ok all)) (OracleServer.start_oracle_server base) [] [].
Proof.
  intros Hp. remember 0%nat as n eqn:En. destruct Hp as [keys acc Hk| | | | | |]; [|lia..].
  destruct keys; [|cbn in En; lia]. destruct Hk as (values & Hk & _ & ->).
  apply Forall2_nil_inv_l in Hk as ->. by rewrite app_nil_r.
Qed.

(** C19: client and host agree on every preimage.  A client that requests
    non-empty preimages one after the other gets all of them, in order, whatever
    the interleaving of the two parties: every run has exactly six steps per
    request, is never blocked before, and ends with the queues empty and the host
    ready for the next request. *)
Theorem oracle_exchange base keys values n (s : net) :
  (0 < base)%nat -> Forall2 answers keys values -> Forall (.≠ []) values ->
  nsteps step n (mk (fetch_all keys []) (OracleServer.start_oracle_server (length keys + base)) [] []) s ->
  (n <= 6 * length keys)%nat /\
  (n = (6 * length keys)%nat -> s = mk (Return (Ok values)) (OracleServer.start_oracle_server base) [] []) /\
  ((n < 6 * length keys)%nat -> exists s', step s s').
Proof.
  intros Hbase Hk Hv Hn.
  assert (Hp : exists k, (6 * length keys)%nat = (n + k)%nat /\ phase base values k s).
  { assert (Hstart : phase base values (6 * length keys)
      (mk (fetch_all keys []) (OracleServer.start_oracle_server (length keys + base)) [] []))
      by (apply ph_start; by exists values).
    revert Hstart. generalize (6 * length keys)%nat. clear Hk Hv.
    induction Hn as [s|n s1 s2 s3 Hs Hn IH]; intros m Hm; [by exists m|].
    destruct (phase_step _ _ _ _ _ Hbase Hm Hs) as (m' & -> & Hm').
    destruct (IH m' Hm') as (k & -> & Hk). by exists k. }
  destruct Hp as (k & E & Hp). split; [lia|]. split.
  - intros ->. assert (k = 0%nat) as -> by lia. by apply phase_final.
  - intros Hlt. destruct k as [|k]; [lia|]. by apply (phase_progress base values k).
Qed.

(** *** An empty preimage

    For an empty preimage the client does not read the second message, but the
    host sends it. *)
Inductive derailed (k1 k2 : PreimageKey.t) (keys : list PreimageKey.t) (fuel : nat) : net -> Prop :=
| de_start : derailed k1 k2 keys fuel
    (mk (fetch_all (k1 :: k2 :: keys) []) (OracleServer.start_oracle_server (S fuel)) [] [])
| de_asked : derailed k1 k2 keys fuel
    (mk (waiting k1 (k2 :: keys) []) (OracleServer.start_oracle_server (S fuel)) [PreimageKey.to_bytes k1] [])
| de_found : derailed k1 k2 keys fuel (mk (waiting k1 (k2 :: keys) []) (answering [] fuel) [] [])
| de_length : derailed k1 k2 keys fuel
    (mk (waiting k1 (k2 :: keys) []) (sending [] fuel) [] [to_be_bytes 8 0])
| de_both h th q : derailed k1 k2 keys fuel
    (mk (waiting k1 (k2 :: keys) []) h th (to_be_bytes 8 0 :: [] :: q))
| de_next : derailed k1 k2 keys fuel (mk (fetch_all (k2 :: keys) [[]]) (sending [] fuel) [] [])
| de_left h th q : derailed k1 k2 keys fuel (mk (fetch_all (k2 :: keys) [[]]) h th ([] :: q))
| de_again th : derailed k1 k2 keys fuel (mk (waiting k2 keys [[]]) (sending [] fuel) th [])
| de_wrong h th q : derailed k1 k2 keys fuel (mk (waiting k2 keys [[]]) h th ([] :: q))
| de_panic h th q : derailed k1 k2 keys fuel (mk (Return Panic) h th q).

Lemma derailed_step k1 k2 keys fuel s s' :
  answers k1 [] -> derailed k1 k2 keys fuel s -> step s s' -> derailed k1 k2 keys fuel s'.
Proof.
  intros Hk Hd Hs. pose proof (host_receives k1 [] fuel Hk) as Eh.
  destruct Hd; inversion Hs; subst; try constructor. cbn in Eh. cbn. rewrite Eh. constructor.
Qed.

(** An empty preimage breaks the exchange over native channels.  The host
    sends an empty message that the client, which knows the length to be zero,
    leaves in the queue; the next request takes that message for the length of its
    answer and panics.  Such a client cannot finish: in every reachable state it
    has panicked or goes on, and it never returns. *)
Theorem empty_preimage_panics k1 k2 keys fuel (s : net) :
  answers k1 [] ->
  rtc step (mk (fetch_all (k1 :: k2 :: keys) []) (OracleServer.start_oracle_server (S fuel)) [] []) s ->
  client s = Return Panic \/ (exists s', step s s') /\ forall r, client s <> Return r.
Proof.
  intros Hk Hs. assert (Hd : derailed k1 k2 keys fuel s).
  { remember (mk (fetch_all _ _) _ _ _) as s0 eqn:E0.
    assert (Hd : derailed k1 k2 keys fuel s0) by (subst; constructor). clear E0.
    induction Hs as [s|s1 s2 s3 Hs _ IH]; [done|]. apply IH. by apply (derailed_step _ _ _ _ s1). }
  destruct Hd; [right..|by left]; (split; [eexists|done]).
  - apply client_write.
  - apply host_read.
  - apply host_write.
  - apply host_write.
  - apply client_read.
  - apply client_write.
  - apply client_write.
  - apply host_write.
  - apply client_read.
Qed.

(** *** Hints *)

Abbreviation hint_net := (Network.t PreimageOracleError () PreimageOracleError ()).

(** What the host returns after it has acknowledged a hint. *)
Definition routed (hint : bytes) : result PreimageOracleError () :=
  if utf8_valid hint then route_hint hint else Err (OtherError "Failed to decode hint payload").

Definition payload_wait (n : nat) : proc PreimageOracleError () :=
  match HintReader.next_hint with
  | ReadExact _ k => match k (to_be_bytes 4 (Z.of_nat n)) with ReadExact _ k => ReadExact n k | p => p end
  | p => p
  end.

Definition ack_wait : proc PreimageOracleError () := ReadExact 1 (fun _ => Return (Ok ())).

Inductive hint_phase (hint : bytes) : nat -> hint_net -> Prop :=
| hp_start : hint_phase hint 6 (mk (HintWriter.write hint) HintReader.next_hint [] [])
| hp_length : hint_phase hint 5
    (mk (Write hint ack_wait) HintReader.next_hint [to_be_bytes 4 (len hint)] [])
| hp_written : hint_phase hint 4
    (mk ack_wait HintReader.next_hint [to_be_bytes 4 (len hint); hint] [])
| hp_ready : hint_phase hint 4 (mk (Write hint ack_wait) (payload_wait (length hint)) [] [])
| hp_payload : hint_phase hint 3 (mk ack_wait (payload_wait (length hint)) [hint] [])
| hp_routed : hint_phase hint 2 (mk ack_wait (Write [Byte.x00] (Return (routed hint))) [] [])
| hp_ack : hint_phase hint 1 (mk ack_wait (Return (routed hint)) [] [[Byte.x00]])
| hp_done : hint_phase hint 0 (mk (Return (Ok ())) (Return (routed hint)) [] []).

Lemma host_reads_length n :
  Z.of_nat n < 2 ^ 32 ->
  match HintReader.next_hint with
  | ReadExact m k => receive m k (to_be_bytes 4 (Z.of_nat n))
  | p => p
  end = payload_wait n.
Proof.
  intros Hn. cbn. unfold receive, payload_wait. rewrite length_to_be_bytes, decide_True by done. cbn.
  by rewrite from_to_be_bytes, Nat2Z.id by (cbn; lia).
Qed.

Lemma host_reads_hint hint :
  route_hint hint <> Panic ->
  match payload_wait (length hint) with
  | ReadExact m k => receive m k hint
  | p => p
  end = Write [Byte.x00] (Return (routed hint)).
Proof.
  intros Hr. cbn. rewrite receive_length. unfold routed. destruct (utf8_valid hint); [|done].
  by destruct (route_hint hint) as [[]| |].
Qed.

Lemma hint_phase_step hint n s s' :
  len hint < 2 ^ 32 -> route_hint hint <> Panic ->
  hint_phase hint n s -> step s s' -> exists n', n = S n' /\ hint_phase hint n' s'.
Proof.
  intros Hl Hr Hp Hs.
  pose proof (host_reads_length (length hint) Hl) as El. pose proof (host_reads_hint hint Hr) as Eh.
  destruct Hp; inversion Hs; subst; (eexists; split; [done|]);
    try (cbn in El |- *; unfold len; rewrite El); try (cbn in Eh |- *; rewrite Eh); try constructor.
  rewrite wrap_small by (pose proof (len_nonneg hint); lia). constructor.
Qed.

(** A hint of less than 4 GiB is delivered and acknowledged, also when it is
    malformed or its routing fails: every run has six steps and leaves the client
    with success and the host with the outcome of the routing. *)
Theorem hint_exchange hint n (s : hint_net) :
  len hint < 2 ^ 32 -> route_hint hint <> Panic ->
  nsteps step n (mk (HintWriter.write hint) HintReader.next_hint [] []) s ->
  (n <= 6)%nat /\
  (n = 6%nat -> s = mk (Return (Ok ())) (Return (routed hint)) [] []) /\
  ((n < 6)%nat -> exists s', step s s').
Proof.
  intros Hl Hr Hn. assert (Hp : exists k, 6%nat = (n + k)%nat /\ hint_phase hint k s).
  { pose proof (hp_start hint) as Hstart. revert Hstart. generalize 6%nat.
    induction Hn as [s|n s1 s2 s3 Hs Hn IH]; intros m Hm; [by exists m|].
    destruct (hint_phase_step _ _ _ _ Hl Hr Hm Hs) as (m' & -> & Hm').
    destruct (IH m' Hm') as (k & -> & Hk). by exists k. }
  destruct Hp as (k & E & Hp). split; [lia|]. split.
  - intros ->. assert (k = 0%nat) as -> by lia. by inversion Hp.
  - intros Hlt. destruct Hp; try lia; eexists; (apply client_write || apply host_read || apply host_write || apply client_read).
Qed.

End Exchange.

End Exchange.

(** ** The caching client *)

(** [LruCache] of the lru crate, by what it promises: [get] finds a value that is
    in the cache and changes no entry, [put] stores a value and may evict others,
    [clear] removes all. *)
Class Cache (C : Type) : Type := {
  cache_get : PreimageKey.t -> C -> option bytes * C;
  cache_put : PreimageKey.t -> bytes -> C -> C;
  cache_clear : C -> C
}.

Class CacheLaws (C : Type) `{Cache C} : Prop := {
  cache_get_keeps key key' c : (cache_get key (cache_get key' c).2).1 = (cache_get key c).1;
  cache_put_get key value key' value' c :
    (cache_get key' (cache_put key value c)).1 = Some value' ->
    key' = key /\ value' = value \/ key' <> key /\ (cache_get key' c).1 = Some value';
  cache_clear_get key c : (cache_get key (cache_clear c)).1 = None
}.

(** The wrapped [oracle_reader], whose answers do not change. *)
Class OracleClient : Type := {
  reader_get : PreimageKey.t -> result PreimageOracleError bytes;
  reader_get_exact : PreimageKey.t -> nat -> result PreimageOracleError bytes
}.

(** [get_exact] checks the length of the buffer, as [OracleReader] does. *)
Class OracleClientLaws `{OracleClient} : Prop :=
  reader_exact key n : reader_get_exact key n =
    match reader_get key with
    | Ok value => if decide (length value = n) then Ok value
                  else Err (BufferLengthMismatch (len value) (Z.of_nat n))
    | Err e => Err e
    | Panic => Panic
    end.

Module CachingOracle.

Section Caching.
Context {C : Type} `{Cache C} `{OracleClient}.

Abbreviation eff := (eff PreimageOracleError C).

Definition flush : eff () := modify cache_clear.

Definition get (key : PreimageKey.t) : eff bytes := fun cache =>
  match cache_get key cache with
  | (Some value, cache) => (Ok value, cache)
  | (None, cache) =>
      match reader_get key with
      | Ok value => (Ok value, cache_put key value cache)
      | Err e => (Err e, cache)
      | Panic => (Panic, cache)
      end
  end.

(** The buffer has [n] bytes; [copy_from_slice] panics when the cached value has
    another length. *)
Definition get_exact (key : PreimageKey.t) (n : nat) : eff bytes := fun cache =>
  match cache_get key cache with
  | (Some value, cache) => (if decide (length value = n) then Ok value else Panic, cache)
  | (None, cache) =>
      match reader_get_exact key n with
      | Ok buf => (Ok buf, cache_put key buf cache)
      | Err e => (Err e, cache)
      | Panic => (Panic, cache)
      end
  end.

(** A call of the caching client, and the answer of the wrapped one. *)
Inductive call : Type :=
| Get (key : PreimageKey.t)
| GetExact (key : PreimageKey.t) (n : nat)
| Flush.

Definition cached (c : call) : eff bytes :=
  match c with
  | Get key => get key
  | GetExact key n => get_exact key n
  | Flush => flush ≫= fun _ => mret []
  end.

Definition direct (c : call) : result PreimageOracleError bytes :=
  match c with
  | Get key => reader_get key
  | GetExact key n => reader_get_exact key n
  | Flush => Ok []
  end.

(** A buffer whose length is not the one of its preimage. *)
Definition misfit (c : call) : Prop :=
  exists key n value, c = GetExact key n /\ reader_get key = Ok value /\ length value <> n.

Context `{!CacheLaws C} `{!OracleClientLaws}.

(** Every cached value is the answer of the oracle. *)
Definition coherent (cache : C) : Prop :=
  forall key value, (cache_get key cache).1 = Some value -> reader_get key = Ok value.

Lemma coherent_get key cache : coherent cache -> coherent (cache_get key cache).2.
Proof. intros Hc key' value. rewrite cache_get_keeps. apply Hc. Qed.

Lemma coherent_put key value cache :
  coherent cache -> reader_get key = Ok value -> coherent (cache_put key value cache).
Proof.
  intros Hc Hv key' value' Hp. apply cache_put_get in Hp as [[-> ->]|[_ Hp]]; [done|]. by apply Hc.
Qed.

Lemma get_coherent key cache :
  coherent cache -> (get key cache).1 = reader_get key /\ coherent (get key cache).2.
Proof.
  intros Hc. pose proof (coherent_get key cache Hc) as Hc'. unfold get.
  destruct (cache_get key cache) as [[value|] cache'] eqn:E; cbn [fst snd] in *.
  - split; [|done]. symmetry. apply Hc. by rewrite E.
  - destruct (reader_get key) as [value|e|] eqn:Er; [|done..]. split; [done|]. by apply coherent_put.
Qed.

Lemma get_exact_coherent key n cache :
  coherent cache ->
  (get_exact key n cache).1 =
    match (cache_get key cache).1 with
    | Some value => if decide (length value = n) then reader_get_exact key n else Panic
    | None => reader_get_exact key n
    end /\ coherent (get_exact key n cache).2.
Proof.
  intros Hc. pose proof (coherent_get key cache Hc) as Hc'. unfold get_exact.
  destruct (cache_get key cache) as [[value|] cache'] eqn:E; cbn [fst snd] in *.
  - split; [|done]. case_decide; [|done]. rewrite reader_exact, (Hc key value) by by rewrite E.
    by rewrite decide_True.
  - pose proof (reader_exact key n) as Hx. rewrite Hx. clear Hx.
    destruct (reader_get key) as [value|e|] eqn:Er; [|done..]. case_decide; [|done].
    split; [done|]. by apply coherent_put.
Qed.

Lemma cached_coherent c cache :
  coherent cache ->
  ((cached c cache).1 = direct c \/ misfit c /\ (cached c cache).1 = Panic) /\
  coherent (cached c cache).2.
Proof.
  intros Hc. destruct c as [key|key n|]; cbn [cached direct].
  - destruct (get_coherent key cache Hc). auto.
  - destruct (get_exact_coherent key n cache Hc) as [Hr Hn]. split; [|done]. rewrite Hr.
    destruct (cache_get key cache) as [[value|] cache'] eqn:E; cbn [fst]; [|by left].
    case_decide; [by left|]. right. split; [|done]. exists key, n, value. split_and!; [done| |done].
    apply Hc. by rewrite E.
  - split; [by left|]. intros key value Hv. change ((cache_get key (cache_clear cache)).1 = Some value) in Hv.
    by rewrite cache_clear_get in Hv.
Qed.

(** C35: the cache is invisible but for one error.  Starting from an empty cache,
    each call of any sequence returns what the wrapped oracle returns, whatever
    is evicted or flushed in between.  The exception is a [get_exact] into a
    buffer whose length is not the one of the preimage: the wrapped oracle then
    answers with a length mismatch, and the cache may panic instead. *)
Theorem caching_transparent (calls : list call) (cache : C) :
  (forall key, (cache_get key cache).1 = None) ->
  Forall2 (fun c r => r = direct c \/ misfit c /\ r = Panic) calls
    (run_all (map cached calls) cache).1.
Proof.
  intros He. assert (Hc : coherent cache) by (intros key value; by rewrite He). clear He.
  revert cache Hc. induction calls as [|c calls IH]; intros cache Hc; [constructor|].
  cbn [map run_all]. destruct (cached_coherent c cache Hc) as [Hr Hn].
  destruct (cached c cache) as [r cache']. cbn [fst snd] in *. specialize (IH cache' Hn).
  destruct (run_all (map cached calls) cache') as [rs cache'']. cbn [fst] in *. by constructor.
Qed.

(** The cache is visible otherwise: a buffer of another length is an error of the
    wrapped oracle, and a panic once the value is in the cache. *)
Theorem cached_length_panics key value n cache :
  (cache_get key cache).1 = Some value -> reader_get key = Ok value -> length value <> n ->
  (get_exact key n cache).1 = Panic /\
  reader_get_exact key n = Err (BufferLengthMismatch (len value) (Z.of_nat n)).
Proof.
  intros Hg Hr Hn. rewrite reader_exact, Hr. unfold get_exact.
  destruct (cache_get key cache) as [v cache']. cbn [fst] in Hg. subst v. cbn [fst].
  by rewrite !decide_False.
Qed.

End Caching.

End CachingOracle.

(** ** Examples *)

Module SampleExchange.

Import Network Exchange.

(** A scheduler that prefers the client. *)
Definition sched {E A F B} (s : Network.t E A F B) : option (Network.t E A F B) :=
  let host_turn :=
    match host s, to_host s with
    | Write m k, th => Some (mk (client s) k th (to_client s ++ [m]))
    | ReadExact n k, d :: th => Some (mk (client s) (receive n k d) th (to_client s))
    | _, _ => None
    end in
  match client s, to_client s with
  | Write m k, tc => Some (mk k (host s) (to_host s ++ [m]) tc)
  | ReadExact n k, d :: tc => Some (mk (receive n k d) (host s) (to_host s) tc)
  | _, _ => host_turn
  end.

Fixpoint run {E A F B} (n : nat) (s : Network.t E A F B) : option (Network.t E A F B) :=
  match n with
  | O => Some s
  | S n => sched s ≫= run n
  end.

Lemma sched_step {E A F B} (s s' : Network.t E A F B) : sched s = Some s' -> step s s'.
Proof.
  destruct s as [[r|m k|n k] [hr|hm hk|hn hk] [|hd th] [|d tc]]; cbn; intros [= <-]; constructor.
Qed.

Lemma run_nsteps {E A F B} n (s s' : Network.t E A F B) : run n s = Some s' -> nsteps step n s s'.
Proof.
  revert s. induction n as [|n IH]; intros s; cbn; [intros [= ->]; constructor|].
  destruct (sched s) as [s1|] eqn:Es; [|done]. intros Hr. eapply nsteps_l; [by apply sched_step|]. by apply IH.
Qed.

Definition key (n : Z) : PreimageKey.t := PreimageKey.new_local n.

(** The host knows two preimages and takes the rest to be empty. *)
#[local] Instance sample_backend : PreimageServerBackend := {|
  get_preimage k :=
    if decide (k = key 1) then Ok [Byte.x0a; Byte.x0b]
    else if decide (k = key 2) then Ok [Byte.x0c]
    else Ok [];
  route_hint _ := Ok ()
|}.

(** The state after [n] steps of the scheduler, if it can make them. *)
Definition ran {E A F B} (n : nat) (s : Network.t E A F B) : Network.t E A F B := default s (run n s).

Definition runs {E A F B} (n : nat) (s : Network.t E A F B) : bool :=
  match run n s with Some _ => true | None => false end.

Lemma ran_nsteps {E A F B} n (s : Network.t E A F B) : runs n s = true -> nsteps step n s (ran n s).
Proof.
  unfold runs, ran. destruct (run n s) eqn:Er; [|done]. intros _. by apply run_nsteps.
Qed.

Definition two_requests : net :=
  mk (fetch_all [key 1; key 2] []) (OracleServer.start_oracle_server (2 + 1)) [] [].

Lemma oracle_exchange_witness :
  ran 12 two_requests = mk (Return (Ok [[Byte.x0a; Byte.x0b]; [Byte.x0c]])) (OracleServer.start_oracle_server 1) [] [].
Proof.
  refine (proj1 (proj2 (oracle_exchange 1 [key 1; key 2] [[Byte.x0a; Byte.x0b]; [Byte.x0c]] 12 _ _ _ _ _)) eq_refl).
  - lia.
  - by repeat constructor.
  - by repeat constructor.
  - apply ran_nsteps. vm_compute. reflexivity.
Defined.

(** The host has only empty preimages for the first key. *)
Definition bad_request : net :=
  mk (fetch_all [key 3; key 1] []) (OracleServer.start_oracle_server 3) [] [].

Lemma empty_preimage_panics_witness :
  client (ran 8 bad_request) = Return Panic \/
  (exists s', step (ran 8 bad_request) s') /\ forall r, client (ran 8 bad_request) <> Return r.
Proof.
  apply (empty_preimage_panics (key 3) (key 1) [] 2 (ran 8 bad_request)); [by repeat constructor|].
  eapply rtc_nsteps_2, ran_nsteps. vm_compute. reflexivity.
Defined.

(** A cache for one preimage. *)
#[local] Instance one_cache : Cache (option (PreimageKey.t * bytes)) := {|
  cache_get k c := (match c with Some (k', v) => if decide (k = k') then Some v else None | None => None end, c);
  cache_put k v _ := Some (k, v);
  cache_clear _ := None
|}.

#[local] Instance one_cache_laws : CacheLaws (option (PreimageKey.t * bytes)).
Proof.
  split; [done| |done]. cbn. intros k v k' v' c. case_decide; [|done]. intros [= ->]. by left.
Qed.

#[local] Instance sample_client : OracleClient := {|
  reader_get := get_preimage;
  reader_get_exact k n :=
    match get_preimage k with
    | Ok value => if decide (length value = n) then Ok value
                  else Err (BufferLengthMismatch (len value) (Z.of_nat n))
    | Err e => Err e
    | Panic => Panic
    end
|}.

#[local] Instance sample_client_laws : OracleClientLaws.
Proof. done. Qed.

Definition sample_calls : list CachingOracle.call :=
  [CachingOracle.Get (key 1); CachingOracle.GetExact (key 1) 2; CachingOracle.Get (key 2);
   CachingOracle.Flush; CachingOracle.Get (key 1); CachingOracle.GetExact (key 1) 3].

(** The last call panics, the others answer as the oracle does. *)
Lemma caching_transparent_witness :
  Forall2 (fun c r => r = CachingOracle.direct c \/ CachingOracle.misfit c /\ r = Panic) sample_calls
    (run_all (map CachingOracle.cached sample_calls) None).1 /\
  last (run_all (map CachingOracle.cached sample_calls) None).1 = Some Panic.
Proof.
  split; [|by vm_compute].
  apply (CachingOracle.caching_transparent (C := option (PreimageKey.t * bytes))). done.
Defined.

End SampleExchange.
