(* ===== verification/OracleProviders.v ===== *)
(** * The oracle-backed chain providers of the proof program

    [proof/proof/src]: hints ([hint.rs]), the errors ([errors.rs]), the L1 and L2
    chain providers that read the chains through the preimage oracle
    ([l1/chain_provider.rs], [l2/chain_provider.rs]) and the block hash lookup in
    the history contract of EIP-2935 ([eip2935.rs]). *)

From S2P Require Import Prelude Effects Primitives Upgrades Rollup SingleBatches SpanTxData SpanChecks Pipeline Tries TrieProofs TrieReveals TrieCodecs TrieDecodes TrieWalkers Preimages.

(** ** Hints *)

Definition text (s : string) : bytes := String.list_byte_of_string s.

Module HintType.

Inductive t : Type :=
| L1BlockHeader | L1Transactions | L1Receipts | L1Blob | L1Precompile | L2BlockHeader
| L2Transactions | L2Code | StartingL2Output | L2StateNode | L2AccountProof
| L2AccountStorageProof | L2PayloadWitness.

(** [From<HintType> for &str], also its [Display]. *)
Definition to_str (ty : t) : bytes :=
  match ty with
  | L1BlockHeader => text "l1-block-header"
  | L1Transactions => text "l1-transactions"
  | L1Receipts => text "l1-receipts"
  | L1Blob => text "l1-blob"
  | L1Precompile => text "l1-precompile"
  | L2BlockHeader => text "l2-block-header"
  | L2Transactions => text "l2-transactions"
  | L2Code => text "l2-code"
  | StartingL2Output => text "starting-l2-output"
  | L2StateNode => text "l2-state-node"
  | L2AccountProof => text "l2-account-proof"
  | L2AccountStorageProof => text "l2-account-storage-proof"
  | L2PayloadWitness => text "l2-payload-witness"
  end.

(** The arms of [HintType::from_str], in order. *)
Definition names : list (bytes * t) :=
  [(text "l1-block-header", L1BlockHeader); (text "l1-transactions", L1Transactions);
   (text "l1-receipts", L1Receipts); (text "l1-blob", L1Blob); (text "l1-precompile", L1Precompile);
   (text "l2-block-header", L2BlockHeader); (text "l2-transactions", L2Transactions);
   (text "l2-code", L2Code); (text "starting-l2-output", StartingL2Output);
   (text "l2-state-node", L2StateNode); (text "l2-account-proof", L2AccountProof);
   (text "l2-account-storage-proof", L2AccountStorageProof); (text "l2-payload-witness", L2PayloadWitness)].

Definition from_str (value : bytes) : result bytes t :=
  match list_find (fun p => p.1 = value) names with
  | Some (_, (_, ty)) => Ok ty
  | None => Err value
  end.

End HintType.

(** [Display] of [Bytes] and [hex::decode]. *)
Class Hex : Type := {
  bytes_display : bytes -> bytes;
  hex_decode : bytes -> result bytes bytes
}.

Class HexLaws `{Hex} : Prop := {
  hex_decode_display b : hex_decode (bytes_display b) = Ok b;
  display_no_space b : Byte.x20 ∉ bytes_display b
}.

(** [str::split(' ')]. *)
Fixpoint split_spaces (s : bytes) : list bytes :=
  match s with
  | [] => [[]]
  | c :: s =>
      if decide (c = Byte.x20) then [] :: split_spaces s
      else match split_spaces s with
           | part :: parts => (c :: part) :: parts
           | [] => [[c]]
           end
  end.

Module Hint.

Record t : Type := mk { ty : HintType.t; data : bytes }.

(** [HintType::with_data]: the slices are put together. *)
Definition of_slices (ty : HintType.t) (slices : list bytes) : t := mk ty (concat slices).

(** [Hint::with_data]. *)
Definition with_data (self : t) (more : bytes) : t :=
  match more with
  | [] => self
  | _ => mk (ty self) (data self ++ more)
  end.

Section Hex.
Context `{Hex}.

Definition encode (self : t) : bytes := HintType.to_str (ty self) ++ [Byte.x20] ++ bytes_display (data self).

(** [HintParsingError] carries a message. *)
Definition from_str (s : bytes) : result bytes t :=
  match split_spaces s with
  | [first; second] =>
      hint_type ← HintType.from_str first;
      hint_data ← hex_decode second;
      Ok (mk hint_type hint_data)
  | _ => Err (text "Invalid hint format: " ++ s)
  end.

End Hex.

End Hint.

(** ** Errors *)

Inductive OracleProviderError : Type :=
| BlockNumberPastHead (number head : Z)
| PreimageError (e : PreimageOracleError)
| TrieWalkerError (e : OrderedListWalkerError)
| TrieNodeFailure (e : TrieNodeError)
| BlockInfoFailure (e : FromBlockError)
| RlpFailure (e : RlpError).

(** What the providers use of other crates: the oracle client with its hint
    writer, headers, receipts, transactions and accounts, and the messages of
    errors. *)
Class CommsClient : Type := {
  oracle_get : PreimageKey.t -> result PreimageOracleError bytes;
  hint_write : bytes -> result PreimageOracleError ()
}.

Module ExecHeader.

(** The fields of [alloy_consensus::Header] that are read. *)
Record t : Type := mk {
  number : Z;
  timestamp : Z;
  parent_hash : B256;
  state_root : B256;
  transactions_root : B256;
  receipts_root : B256
}.

End ExecHeader.

Class ChainCodec : Type := {
  decode_block_header : bytes -> result RlpError ExecHeader.t;
  hash_slow : ExecHeader.t -> B256;
  decode_receipt : bytes -> result RlpError Receipt.t;
  decode_l1_tx : bytes -> result RlpError L1Tx.t;
  decode_l2_tx : bytes -> result RlpError BlockTx.t;
  account_storage_root : bytes -> result RlpError B256;
  error_display : OracleProviderError -> string
}.

(** [From<OracleProviderError> for PipelineErrorKind]. *)
Definition into_pipeline_error `{ChainCodec} (val : OracleProviderError) : PipelineErrorKind :=
  match val with
  | BlockNumberPastHead _ _ => crit PipelineError.EndOfSource
  | _ => crit (PipelineError.Provider (error_display val))
  end.

Section Comms.
Context `{Hex} `{CommsClient} `{ChainCodec} `{TrieRlp}.

(** [Hint::send]. *)
Definition send (hint : Hint.t) : result OracleProviderError () :=
  map_err PreimageError (hint_write (Hint.encode hint)).

Definition get_keccak (hash : B256) : result OracleProviderError bytes :=
  map_err PreimageError (oracle_get (PreimageKey.new_keccak256 hash)).

(** [TrieProvider] of both providers. *)
#[export] Instance comms_oracle : PreimageOracle := {|
  preimage key := map_err (fun e => error_display (PreimageError e))
                    (oracle_get (PreimageKey.new key Keccak256));
  rlp_error_display e := error_display (RlpFailure e)
|}.

#[export] Instance comms_provider : TrieNode.TrieProvider := oracle_provider.

(** [.into_iter().map(..).collect::<Result<Vec<_>, _>>()] on a hydrated walker. *)
Definition decode_all {A} (decode : bytes -> result RlpError A) (walker : OrderedListWalker.t)
    : result OracleProviderError (list A) :=
  items ← map_err TrieWalkerError (OrderedListWalker.collect (OrderedListWalker.collect_fuel walker) walker);
  map_err RlpFailure (mapM (fun item : bytes * bytes => decode item.2) items).

End Comms.

(** ** The L1 provider

    [depth] bounds the recursion in a trie, and [fuel] the walk back. *)

Module OracleL1ChainProvider.

Record t : Type := mk { l1_head : B256 }.

Section Provider.
Context `{Hex} `{CommsClient} `{ChainCodec} `{Keccak} `{TrieRlp}.

Definition header_by_hash (hash : B256) : result OracleProviderError ExecHeader.t :=
  _ ← send (Hint.of_slices HintType.L1BlockHeader [hash]);
  header_rlp ← get_keccak hash;
  map_err RlpFailure (decode_block_header header_rlp).

(** [while header.number > block_number]. *)
Fixpoint walk_back (fuel : nat) (block_number : Z) (header : ExecHeader.t)
    : result OracleProviderError ExecHeader.t :=
  if decide (block_number < ExecHeader.number header) then
    match fuel with
    | O => Panic
    | S fuel =>
        header ← header_by_hash (ExecHeader.parent_hash header);
        walk_back fuel block_number header
    end
  else Ok header.

Definition block_info_by_number (fuel : nat) (self : t) (block_number : Z)
    : result OracleProviderError BlockInfo.t :=
  header ← header_by_hash (l1_head self);
  if decide (ExecHeader.number header < block_number)
  then Err (BlockNumberPastHead block_number (ExecHeader.number header))
  else
    header ← walk_back fuel block_number header;
    Ok (BlockInfo.mk (hash_slow header) (ExecHeader.number header) (ExecHeader.parent_hash header)
          (ExecHeader.timestamp header)).

Definition receipts_by_hash (depth : nat) (hash : B256) : result OracleProviderError (list Receipt.t) :=
  header ← header_by_hash hash;
  _ ← send (Hint.of_slices HintType.L1Receipts [hash]);
  trie_walker ← map_err TrieWalkerError
    (OrderedListWalker.try_new_hydrated depth (ExecHeader.receipts_root header));
  decode_all decode_receipt trie_walker.

Definition block_info_and_transactions_by_hash (depth : nat) (hash : B256)
    : result OracleProviderError (BlockInfo.t * list L1Tx.t) :=
  header ← header_by_hash hash;
  let block_info := BlockInfo.mk hash (ExecHeader.number header) (ExecHeader.parent_hash header)
                      (ExecHeader.timestamp header) in
  _ ← send (Hint.of_slices HintType.L1Transactions [hash]);
  trie_walker ← map_err TrieWalkerError
    (OrderedListWalker.try_new_hydrated depth (ExecHeader.transactions_root header));
  transactions ← decode_all decode_l1_tx trie_walker;
  Ok (block_info, transactions).

End Provider.

End OracleL1ChainProvider.

(** ** The history contract *)


Definition HASHED_HISTORY_STORAGE_ADDRESS : B256 :=
  map byte.of_Z
    [0x6c; 0x9d; 0x57; 0xbe; 0x05; 0xdd; 0x69; 0x37; 0x1c; 0x4d; 0xd2; 0xe8; 0x71; 0xbc; 0xe6; 0xe9;
     0xf4; 0x12; 0x42; 0x36; 0x82; 0x5b; 0xb6; 0x12; 0xee; 0x18; 0xa4; 0x5e; 0x56; 0x75; 0xbe; 0x51].

(** [HISTORY_STORAGE_ADDRESS] of [alloy_eips]. *)
Definition HISTORY_STORAGE_ADDRESS : Address :=
  map byte.of_Z
    [0x00; 0x00; 0xF9; 0x08; 0x27; 0xF1; 0xC5; 0x3a; 0x10; 0xcb;
     0x7A; 0x02; 0x33; 0x5B; 0x17; 0x53; 0x20; 0x00; 0x29; 0x35].

Definition HISTORY_SERVE_WINDOW : Z := 2 ^ 13 - 1.

Definition history_slot (header_number block_number : Z) : Z :=
  (if decide (u64_saturating_sub header_number block_number <= HISTORY_SERVE_WINDOW)
   then block_number else header_number) mod HISTORY_SERVE_WINDOW.

Section History.
Context `{Hex} `{CommsClient} `{ChainCodec} `{Keccak} `{TrieRlp}.

Definition slot_path (slot : Z) : Nibbles :=
  flat_map TrieNode.unpack_byte (keccak256 (to_be_bytes 32 slot)).

(** [TrieHinter::hint_storage_proof], as the error text that reaches the caller. *)
Definition hint_storage_proof (chain_id : option Z) (address : Address) (slot block_number : Z)
    : result OracleProviderError () :=
  send (Hint.with_data
    (Hint.of_slices HintType.L2AccountStorageProof
       [to_be_bytes 8 block_number; address; to_be_bytes 32 slot])
    (match chain_id with Some id => to_be_bytes 8 id | None => [] end)).

Definition open_key (depth : nat) (root : B256) (path : Nibbles) : result OracleProviderError bytes :=
  value ← map_err TrieNodeFailure (TrieNode.open depth path (TrieNode.new_blinded root)).1;
  ok_or (TrieNodeFailure KeyNotFound) value.

Definition eip_2935_history_lookup (depth : nat) (chain_id : option Z) (header : ExecHeader.t) (block_number : Z)
    : result OracleProviderError B256 :=
  let slot := history_slot (ExecHeader.number header) block_number in
  _ ← map_err (fun e => PreimageError (OtherError (error_display e)))
        (hint_storage_proof chain_id HISTORY_STORAGE_ADDRESS slot (ExecHeader.number header));
  raw_account ← open_key depth (ExecHeader.state_root header)
                  (flat_map TrieNode.unpack_byte HASHED_HISTORY_STORAGE_ADDRESS);
  storage_root ← map_err RlpFailure (account_storage_root raw_account);
  slot_value ← open_key depth storage_root (slot_path slot);
  map_err RlpFailure (ok_or Malformed (fst <$> decode_b256 slot_value)).

End History.

(** ** The L2 provider *)

Module OracleL2ChainProvider.

(** [cursor] is the hash of the safe head that the shared cursor shows. *)
Record t : Type := mk {
  l2_head : B256;
  rollup_config : RollupConfig.t;
  cursor : option B256;
  chain_id : option Z
}.

Definition new (l2_head : B256) (rollup_config : RollupConfig.t) : t := mk l2_head rollup_config None None.

Definition set_chain_id (id : option Z) (self : t) : t := mk (l2_head self) (rollup_config self) (cursor self) id.

Definition set_cursor (hash : B256) (self : t) : t :=
  mk (l2_head self) (rollup_config self) (Some hash) (chain_id self).

Definition l2_safe_head (self : t) : B256 := default (l2_head self) (cursor self).

Section Provider.
Context `{Hex} `{CommsClient} `{ChainCodec} `{Keccak} `{TrieRlp} `{RuntimeUpgradeRegistry}.

(** A hint with the chain id. *)
Definition chain_hint (self : t) (ty : HintType.t) (slices : list bytes) : result OracleProviderError () :=
  send (Hint.with_data (Hint.of_slices ty slices)
    (match chain_id self with Some id => to_be_bytes 8 id | None => [] end)).

Definition header_by_hash (self : t) (hash : B256) : result OracleProviderError ExecHeader.t :=
  _ ← chain_hint self HintType.L2BlockHeader [hash];
  header_bytes ← get_keccak hash;
  map_err RlpFailure (decode_block_header header_bytes).

Definition bytecode_by_hash (self : t) (hash : B256) : result OracleProviderError bytes :=
  _ ← chain_hint self HintType.L2Code [hash];
  get_keccak hash.

Definition hint_trie_node (self : t) (hash : B256) : result OracleProviderError () :=
  chain_hint self HintType.L2StateNode [hash].

Definition hint_account_proof (self : t) (address : Address) (block_number : Z)
    : result OracleProviderError () :=
  chain_hint self HintType.L2AccountProof [to_be_bytes 8 block_number; address].

(** The loop of [header_by_number]. *)
Fixpoint lookback (depth fuel : nat) (self : t) (block_number : Z) (linear_fallback : bool)
    (header : ExecHeader.t) : result OracleProviderError ExecHeader.t :=
  if decide (block_number < ExecHeader.number header) then
    match fuel with
    | O => Panic
    | S fuel =>
        if RollupConfig.is_isthmus_active (rollup_config self) (ExecHeader.timestamp header)
           && negb linear_fallback
        then
          match eip_2935_history_lookup depth (chain_id self) header block_number with
          | Ok block_hash =>
              header ← header_by_hash self block_hash;
              lookback depth fuel self block_number linear_fallback header
          | Err _ => lookback depth fuel self block_number true header
          | Panic => Panic
          end
        else
          header ← header_by_hash self (ExecHeader.parent_hash header);
          lookback depth fuel self block_number linear_fallback header
    end
  else Ok header.

Definition header_by_number (depth fuel : nat) (self : t) (block_number : Z)
    : result OracleProviderError ExecHeader.t :=
  header ← header_by_hash self (l2_safe_head self);
  if decide (ExecHeader.number header < block_number)
  then Err (BlockNumberPastHead block_number (ExecHeader.number header))
  else lookback depth fuel self block_number false header.

(** [BaseBlock]; of the body the transactions are kept. *)
Definition block_from_header (depth : nat) (self : t) (header : ExecHeader.t) (header_hash : B256)
    : result OracleProviderError L2Block.t :=
  _ ← chain_hint self HintType.L2Transactions [header_hash];
  trie_walker ← map_err TrieWalkerError
    (OrderedListWalker.try_new_hydrated depth (ExecHeader.transactions_root header));
  transactions ← decode_all decode_l2_tx trie_walker;
  Ok (L2Block.mk
        (BlockInfo.mk (hash_slow header) (ExecHeader.number header) (ExecHeader.parent_hash header)
           (ExecHeader.timestamp header)) transactions).

Definition block_by_number (depth fuel : nat) (self : t) (number : Z) : result OracleProviderError L2Block.t :=
  header ← header_by_number depth fuel self number;
  block_from_header depth self header (hash_slow header).

Definition l2_block_info_by_number (depth fuel : nat) (self : t) (number : Z)
    : result OracleProviderError L2BlockInfo.t :=
  block ← block_by_number depth fuel self number;
  map_err BlockInfoFailure (from_block_and_genesis block (RollupConfig.genesis (rollup_config self))).

Definition l2_block_info_by_hash (depth : nat) (self : t) (hash : B256) : result OracleProviderError L2BlockInfo.t :=
  header ← header_by_hash self hash;
  block ← block_from_header depth self header hash;
  map_err BlockInfoFailure (from_block_and_genesis block (RollupConfig.genesis (rollup_config self))).

End Provider.

End OracleL2ChainProvider.


(** ** Hints are read back *)

Lemma split_spaces_none s : Byte.x20 ∉ s -> split_spaces s = [s].
Proof.
  induction s as [|c s IH]; intros Hs; [done|]. apply not_elem_of_cons in Hs as [Hc Hs].
  cbn [split_spaces]. by rewrite decide_False, IH.
Qed.

Lemma split_spaces_app a b : Byte.x20 ∉ a -> split_spaces (a ++ Byte.x20 :: b) = a :: split_spaces b.
Proof.
  induction a as [|c a IH]; intros Ha; [done|]. apply not_elem_of_cons in Ha as [Hc Ha].
  cbn [app split_spaces]. by rewrite decide_False, IH.
Qed.

Lemma hint_type_no_space ty : Byte.x20 ∉ HintType.to_str ty.
Proof. apply (bool_decide_unpack _). by destruct ty. Qed.

Lemma hint_type_from_str ty : HintType.from_str (HintType.to_str ty) = Ok ty.
Proof. by destruct ty. Qed.

(** The host reads back every hint that the client encodes. *)
Lemma hint_round_trip `{HexLaws} (hint : Hint.t) : Hint.from_str (Hint.encode hint) = Ok hint.
Proof.
  unfold Hint.from_str, Hint.encode. cbn [app].
  rewrite split_spaces_app, split_spaces_none by (apply hint_type_no_space || apply display_no_space).
  rewrite hint_type_from_str, hex_decode_display. by destruct hint.
Qed.

(** ** The ring of block hashes *)

(** The block whose hash is looked up: the one asked for, or the oldest of the window. *)
Definition history_target (header_number block_number : Z) : Z :=
  Z.max block_number (header_number - HISTORY_SERVE_WINDOW).

Lemma history_slot_target header_number block_number :
  0 <= block_number < header_number ->
  history_slot header_number block_number =
    history_target header_number block_number mod HISTORY_SERVE_WINDOW /\
  block_number <= history_target header_number block_number < header_number /\
  header_number - HISTORY_SERVE_WINDOW <= history_target header_number block_number.
Proof.
  intros Hb. unfold history_slot, history_target, u64_saturating_sub, HISTORY_SERVE_WINDOW.
  split; [|lia]. case_decide.
  - f_equal. lia.
  - rewrite Z.max_r by lia. symmetry. rewrite <- (Z_mod_plus_full header_number (-1)). f_equal; lia.
Qed.

Lemma unpack_key b : nibbles_ok (flat_map TrieNode.unpack_byte b) = true /\
  length (flat_map TrieNode.unpack_byte b) = (2 * length b)%nat.
Proof.
  induction b as [|c b [IH IL]]; [done|]. cbn [flat_map app]. 
  unfold nibbles_ok in *. rewrite forallb_app, IH. rewrite length_app, IL. split; [|cbn; lia].
  destruct c; reflexivity.
Qed.

Lemma len_history_address : length HASHED_HISTORY_STORAGE_ADDRESS = 32%nat.
Proof. done. Qed.

Definition history_path : Nibbles := flat_map TrieNode.unpack_byte HASHED_HISTORY_STORAGE_ADDRESS.

Section HistoryProofs.
Context `{Hex} `{CommsClient} `{ChainCodec} `{KeccakLaws} `{TrieRlp}.

Lemma open_key_represents depth root b M :
  represents 64 (TrieNode.new_blinded root) M -> len b = 32 -> (131 <= depth)%nat ->
  open_key depth root (flat_map TrieNode.unpack_byte b) =
    ok_or (TrieNodeFailure KeyNotFound) (M !! flat_map TrieNode.unpack_byte b).
Proof.
  intros Hr Hb Hd. destruct (unpack_key b) as [Hn Hl]. unfold len in Hb.
  replace (2 * length b)%nat with 64%nat in Hl by lia.
  destruct (open_represents depth (flat_map TrieNode.unpack_byte b) (TrieNode.new_blinded root) M)
    as [Ho _]; [by rewrite Hl|done|rewrite Hl; lia|].
  unfold open_key. by rewrite Ho.
Qed.

(** The lookup reads the slot in the storage of the contract's account. *)
Lemma history_lookup_value depth chain_id header block_number accounts raw storage_root slots :
  (forall hint, hint_write hint = Ok ()) -> (131 <= depth)%nat ->
  represents 64 (TrieNode.new_blinded (ExecHeader.state_root header)) accounts ->
  accounts !! history_path = Some raw -> account_storage_root raw = Ok storage_root ->
  represents 64 (TrieNode.new_blinded storage_root) slots ->
  eip_2935_history_lookup depth chain_id header block_number =
    (slot_value ← ok_or (TrieNodeFailure KeyNotFound)
       (slots !! slot_path (history_slot (ExecHeader.number header) block_number));
     map_err RlpFailure (ok_or Malformed (fst <$> decode_b256 slot_value))).
Proof.
  intros Hw Hd Ha Er Eroot Hs.
  unfold eip_2935_history_lookup, hint_storage_proof, send. rewrite Hw. cbn [map_err mbind result_bind].
  rewrite (open_key_represents depth _ HASHED_HISTORY_STORAGE_ADDRESS accounts) by done.
  fold history_path. rewrite Er. cbn [ok_or mbind result_bind]. rewrite Eroot. cbn [map_err mbind result_bind].
  unfold slot_path. by rewrite (open_key_represents depth _ _ slots Hs) by (done || apply len_keccak256).
Qed.

Lemma history_lookup_absent depth chain_id header block_number accounts :
  (forall hint, hint_write hint = Ok ()) -> (131 <= depth)%nat ->
  represents 64 (TrieNode.new_blinded (ExecHeader.state_root header)) accounts ->
  accounts !! history_path = None ->
  eip_2935_history_lookup depth chain_id header block_number = Err (TrieNodeFailure KeyNotFound).
Proof.
  intros Hw Hd Ha Er.
  unfold eip_2935_history_lookup, hint_storage_proof, send. rewrite Hw. cbn [map_err mbind result_bind].
  rewrite (open_key_represents depth _ HASHED_HISTORY_STORAGE_ADDRESS accounts) by done.
  fold history_path. by rewrite Er.
Qed.

(** A storage trie holds a word without its leading zero bytes.  A block hash that
    begins with a zero byte is not decoded as 32 bytes, and the lookup fails. *)
Lemma trimmed_hash_not_found depth chain_id header block_number accounts raw storage_root slots word :
  (forall b, len b <> 32 -> decode_b256 (encode_string b) = None) ->
  (forall hint, hint_write hint = Ok ()) -> (131 <= depth)%nat ->
  represents 64 (TrieNode.new_blinded (ExecHeader.state_root header)) accounts ->
  accounts !! history_path = Some raw -> account_storage_root raw = Ok storage_root ->
  represents 64 (TrieNode.new_blinded storage_root) slots ->
  slots !! slot_path (history_slot (ExecHeader.number header) block_number) = Some (encode_string word) ->
  len word < 32 ->
  eip_2935_history_lookup depth chain_id header block_number = Err (RlpFailure Malformed).
Proof.
  intros Hz Hw Hd Ha Er Eroot Hs Ev Hl. rewrite (history_lookup_value _ _ _ _ accounts raw storage_root slots) by done.
  rewrite Ev. cbn [ok_or mbind result_bind]. by rewrite Hz by lia.
Qed.

(** What the state below [header] says of the history contract: no account, or
    one with a storage in which a slot of the ring is unset or holds the hash of
    the latest block before [header] that has the slot. *)
Definition history_recorded (hash_of : Z -> B256) (header : ExecHeader.t) : Prop :=
  exists accounts, represents 64 (TrieNode.new_blinded (ExecHeader.state_root header)) accounts /\
  forall raw, accounts !! history_path = Some raw ->
  exists storage_root slots, account_storage_root raw = Ok storage_root /\
    represents 64 (TrieNode.new_blinded storage_root) slots /\
    forall b v, 0 <= b -> ExecHeader.number header - HISTORY_SERVE_WINDOW <= b < ExecHeader.number header ->
      slots !! slot_path (b mod HISTORY_SERVE_WINDOW) = Some v ->
      forall hash, fst <$> decode_b256 v = Some hash -> hash = hash_of b.

Lemma history_lookup_recorded depth chain_id header block_number hash_of :
  (forall hint, hint_write hint = Ok ()) -> (131 <= depth)%nat ->
  0 <= block_number < ExecHeader.number header -> history_recorded hash_of header ->
  match eip_2935_history_lookup depth chain_id header block_number with
  | Ok hash => hash = hash_of (history_target (ExecHeader.number header) block_number)
  | Err _ => True
  | Panic => False
  end.
Proof.
  intros Hw Hd Hb (accounts & Ha & Hacc).
  destruct (history_slot_target _ _ Hb) as (Es & Ht & Hwin).
  destruct (accounts !! history_path) as [raw|] eqn:Er; [|by rewrite (history_lookup_absent _ _ _ _ accounts)].
  destruct (Hacc raw eq_refl) as (storage_root & slots & Eroot & Hs & Hslots).
  rewrite (history_lookup_value _ _ _ _ accounts raw storage_root slots), Es by done.
  destruct (slots !! _) as [v|] eqn:Ev; [|done]. cbn [ok_or mbind result_bind].
  destruct (fst <$> decode_b256 v) as [hash|] eqn:Eh; [|done].
  eapply Hslots; [| |exact Ev|exact Eh]; lia.
Qed.

End HistoryProofs.

Section Chains.
Context `{Hex} `{CommsClient} `{ChainCodec} `{KeccakLaws} `{TrieRlp} `{RuntimeUpgradeRegistry}.

(** The headers of a chain up to [head], all of them served by the oracle. *)
Record chain_served (chain : Z -> ExecHeader.t) (head : Z) : Prop := {
  cs_hints : forall hint, hint_write hint = Ok ();
  cs_number : forall n, 0 <= n <= head -> ExecHeader.number (chain n) = n;
  cs_parent : forall n, 0 < n <= head -> ExecHeader.parent_hash (chain n) = hash_slow (chain (n - 1));
  cs_data : forall n, 0 <= n <= head -> exists data,
    oracle_get (PreimageKey.new_keccak256 (hash_slow (chain n))) = Ok data /\
    decode_block_header data = Ok (chain n)
}.

Context (chain : Z -> ExecHeader.t) (head : Z) (Hchain : chain_served chain head).

Lemma l1_header_served n :
  0 <= n <= head -> OracleL1ChainProvider.header_by_hash (hash_slow (chain n)) = Ok (chain n).
Proof.
  intros Hn. destruct (cs_data _ _ Hchain n Hn) as (data & Hg & Hd).
  unfold OracleL1ChainProvider.header_by_hash, send, get_keccak.
  rewrite (cs_hints _ _ Hchain), Hg. cbn [map_err mbind result_bind]. by rewrite Hd.
Qed.

Lemma l2_header_served self n :
  0 <= n <= head -> OracleL2ChainProvider.header_by_hash self (hash_slow (chain n)) = Ok (chain n).
Proof.
  intros Hn. destruct (cs_data _ _ Hchain n Hn) as (data & Hg & Hd).
  unfold OracleL2ChainProvider.header_by_hash, OracleL2ChainProvider.chain_hint, send, get_keccak.
  rewrite (cs_hints _ _ Hchain), Hg. cbn [map_err mbind result_bind]. by rewrite Hd.
Qed.

Lemma walk_back_served fuel block_number n :
  0 <= block_number <= n -> n <= head -> (Z.to_nat (n - block_number) <= fuel)%nat ->
  OracleL1ChainProvider.walk_back fuel block_number (chain n) = Ok (chain block_number).
Proof.
  revert n. induction fuel as [|fuel IH]; intros n Hb Hn Hf; cbn [OracleL1ChainProvider.walk_back];
    rewrite (cs_number _ _ Hchain) by lia; case_decide; try lia; try (do 2 f_equal; lia).
  rewrite (cs_parent _ _ Hchain), l1_header_served by lia. cbn [mbind result_bind]. apply IH; lia.
Qed.

(** A leap or a step always ends at an earlier header that is not before the one
    asked for, and the fallback happens once. *)
Lemma lookback_served depth fuel self block_number linear_fallback n :
  (131 <= depth)%nat ->
  (forall n, 0 <= n <= head -> history_recorded (fun b => hash_slow (chain b)) (chain n)) ->
  0 <= block_number <= n -> n <= head ->
  (Z.to_nat (n - block_number) + Nat.b2n (negb linear_fallback) <= fuel)%nat ->
  OracleL2ChainProvider.lookback depth fuel self block_number linear_fallback (chain n) =
    Ok (chain block_number).
Proof.
  intros Hd Hh. revert n linear_fallback.
  induction fuel as [|fuel IH]; intros n lf Hb Hn Hf; cbn [OracleL2ChainProvider.lookback];
    rewrite (cs_number _ _ Hchain) by lia; case_decide; try lia; try (do 2 f_equal; lia).
  destruct (RollupConfig.is_isthmus_active _ _ && negb lf) eqn:Ei.
  - apply andb_true_iff in Ei as [_ Ei]. destruct lf; [done|].
    pose proof (history_lookup_recorded depth (OracleL2ChainProvider.chain_id self) (chain n) block_number
      (fun b => hash_slow (chain b)) (cs_hints _ _ Hchain) Hd) as HL.
    rewrite (cs_number _ _ Hchain) in HL by lia. specialize (HL ltac:(lia) (Hh n ltac:(lia))).
    destruct (eip_2935_history_lookup _ _ _ _) as [hash| |]; [|apply IH; cbn in *; lia|done].
    destruct (history_slot_target n block_number ltac:(lia)) as (_ & Ht & _).
    subst hash. rewrite l2_header_served by lia. cbn [mbind result_bind]. apply IH; cbn in *; lia.
  - rewrite (cs_parent _ _ Hchain), l2_header_served by lia. cbn [mbind result_bind]. apply IH; lia.
Qed.

(** The provider finds the header of every block up to the safe head; a number
    past it is an error. *)
Lemma header_by_number_finds depth fuel self block_number :
  OracleL2ChainProvider.l2_safe_head self = hash_slow (chain head) -> 0 <= head ->
  (forall n, 0 <= n <= head -> history_recorded (fun b => hash_slow (chain b)) (chain n)) ->
  0 <= block_number -> (131 <= depth)%nat -> (Z.to_nat (head - block_number) < fuel)%nat ->
  OracleL2ChainProvider.header_by_number depth fuel self block_number =
    if decide (block_number <= head) then Ok (chain block_number)
    else Err (BlockNumberPastHead block_number head).
Proof.
  intros Hs Hz Hh Hb Hd Hf. unfold OracleL2ChainProvider.header_by_number.
  rewrite Hs, l2_header_served by lia. cbn [mbind result_bind]. rewrite (cs_number _ _ Hchain) by lia.
  case_decide; case_decide; try lia; [done|]. apply lookback_served; cbn; done || lia.
Qed.

(** The L1 provider walks back to the block of the given number. *)
Lemma block_info_by_number_finds fuel self block_number :
  OracleL1ChainProvider.l1_head self = hash_slow (chain head) -> 0 <= head ->
  0 <= block_number -> (Z.to_nat (head - block_number) <= fuel)%nat ->
  OracleL1ChainProvider.block_info_by_number fuel self block_number =
    if decide (block_number <= head) then
      Ok (BlockInfo.mk (hash_slow (chain block_number)) block_number
            (ExecHeader.parent_hash (chain block_number)) (ExecHeader.timestamp (chain block_number)))
    else Err (BlockNumberPastHead block_number head).
Proof.
  intros Hs Hz Hb Hf. unfold OracleL1ChainProvider.block_info_by_number.
  rewrite Hs, l1_header_served by lia. cbn [mbind result_bind]. rewrite (cs_number _ _ Hchain) by lia.
  case_decide; case_decide; try lia; [done|]. rewrite walk_back_served by lia. cbn [mbind result_bind].
  by rewrite (cs_number _ _ Hchain) by lia.
Qed.

End Chains.

Section Lists.
Context `{Hex} `{CommsClient} `{ChainCodec} `{KeccakLaws} `{TrieRlpLaws} `{RuntimeUpgradeRegistry}.

(** The list [vs] is the one below [root], and the oracle serves its trie. *)
Definition list_served (depth : nat) (root : B256) (vs : list bytes) : Prop :=
  exists m, root = TrieNode.blind m /\ TrieNode.canonical m = true /\ holds_list m vs /\
    len vs < 2 ^ 64 /\ (TrieNode.height m < depth)%nat /\
    preimage root = Ok (TrieNode.encode m) /\ len (TrieNode.encode m) < 2 ^ 64 /\ serves_below m.

Lemma decode_all_served {A} (decode : bytes -> result RlpError A) depth root vs :
  list_served depth root vs ->
  (walker ← map_err TrieWalkerError (OrderedListWalker.try_new_hydrated depth root);
   decode_all decode walker) = map_err RlpFailure (mapM decode vs).
Proof.
  intros (m & -> & Hc & Hv & Hlv & Hh & Hp & Hl & Hb).
  pose proof (preimage_reveals m (canonical_encodable m Hc) Hp Hl) as Hr.
  destruct (walker_in_order depth (TrieNode.blind m) (shallow m) m vs) as (walker & items & -> & Hi & <-);
    [exact Hr|by destruct m|by apply opens_shallow|done..|].
  unfold decode_all. cbn [map_err mbind result_bind]. rewrite Hi. cbn [map_err mbind result_bind].
  f_equal. clear. induction items as [|item items IH]; [done|]. cbn. by rewrite IH.
Qed.

(** C34: the L1 provider returns the transactions and the receipts that a block
    commits to, each list in its order and complete, when the oracle serves the
    header and the tries.  One that does not decode is an error. *)
Theorem l1_block_lists depth hash data header txs receipts :
  (forall hint, hint_write hint = Ok ()) ->
  oracle_get (PreimageKey.new_keccak256 hash) = Ok data -> decode_block_header data = Ok header ->
  list_served depth (ExecHeader.transactions_root header) txs ->
  list_served depth (ExecHeader.receipts_root header) receipts ->
  OracleL1ChainProvider.block_info_and_transactions_by_hash depth hash =
    (transactions ← map_err RlpFailure (mapM decode_l1_tx txs);
     Ok (BlockInfo.mk hash (ExecHeader.number header) (ExecHeader.parent_hash header)
           (ExecHeader.timestamp header), transactions)) /\
  OracleL1ChainProvider.receipts_by_hash depth hash = map_err RlpFailure (mapM decode_receipt receipts).
Proof.
  intros Hw Hg Hd Ht Hr.
  assert (Hh : OracleL1ChainProvider.header_by_hash hash = Ok header).
  { unfold OracleL1ChainProvider.header_by_hash, send, get_keccak. rewrite Hw, Hg.
    cbn [map_err mbind result_bind]. by rewrite Hd. }
  unfold OracleL1ChainProvider.block_info_and_transactions_by_hash, OracleL1ChainProvider.receipts_by_hash, send.
  rewrite Hh, !Hw. cbn [map_err mbind result_bind]. split; [|by apply decode_all_served].
  rewrite <- (decode_all_served decode_l1_tx depth _ txs Ht).
  by destruct (OrderedListWalker.try_new_hydrated _ _).
Qed.

Lemma block_from_header_served depth self header hash txs :
  (forall hint, hint_write hint = Ok ()) ->
  list_served depth (ExecHeader.transactions_root header) txs ->
  OracleL2ChainProvider.block_from_header depth self header hash =
    (transactions ← map_err RlpFailure (mapM decode_l2_tx txs);
     Ok (L2Block.mk
           (BlockInfo.mk (hash_slow header) (ExecHeader.number header) (ExecHeader.parent_hash header)
              (ExecHeader.timestamp header)) transactions)).
Proof.
  intros Hw Ht. unfold OracleL2ChainProvider.block_from_header, OracleL2ChainProvider.chain_hint, send.
  rewrite Hw. cbn [map_err mbind result_bind]. rewrite <- (decode_all_served decode_l2_tx depth _ txs Ht).
  by destruct (OrderedListWalker.try_new_hydrated _ _).
Qed.

(** C21: on a chain whose headers, history storage and transactions the oracle
    serves, the L2 provider returns every block up to the safe head.  It leaps
    through the ring of block hashes where the upgrade is active and walks back
    one block at a time where a lookup fails, whatever the reason; the loop ends
    after at most one round per block in between and one for the fallback.  The
    transactions are those of the block, in order.  A number past the safe head is
    an error. *)
Theorem block_by_number_reads chain head depth fuel self block_number (txs : Z -> list bytes) :
  chain_served chain head -> OracleL2ChainProvider.l2_safe_head self = hash_slow (chain head) ->
  (forall n, 0 <= n <= head -> history_recorded (fun b => hash_slow (chain b)) (chain n)) ->
  (forall n, 0 <= n <= head -> list_served depth (ExecHeader.transactions_root (chain n)) (txs n)) ->
  0 <= head -> 0 <= block_number -> (131 <= depth)%nat -> (Z.to_nat (head - block_number) < fuel)%nat ->
  OracleL2ChainProvider.block_by_number depth fuel self block_number =
    if decide (block_number <= head) then
      transactions ← map_err RlpFailure (mapM decode_l2_tx (txs block_number));
      Ok (L2Block.mk
            (BlockInfo.mk (hash_slow (chain block_number)) block_number
               (ExecHeader.parent_hash (chain block_number)) (ExecHeader.timestamp (chain block_number)))
            transactions)
    else Err (BlockNumberPastHead block_number head).
Proof.
  intros Hc Hs Hh Ht Hz Hb Hd Hf. unfold OracleL2ChainProvider.block_by_number.
  rewrite (header_by_number_finds chain head Hc) by done. case_decide; [|done]. cbn [mbind result_bind].
  rewrite (block_from_header_served depth self _ _ (txs block_number) (cs_hints _ _ Hc)) by (apply Ht; lia).
  by rewrite (cs_number _ _ Hc) by lia.
Qed.

End Lists.
