(* ===== verification/OracleModels.v ===== *)
(** * A concrete chain behind an oracle

    Two small chains with concrete codecs, whose headers, tries and history
    storage an oracle serves: the theorems on the chain providers apply to them. *)

From S2P Require Import Prelude Effects Primitives Upgrades Rollup SingleBatches SpanTxData SpanChecks Pipeline Tries TrieProofs TrieReveals TrieCodecs TrieDecodes TrieWalkers TrieModels Preimages OracleProviders.

(** Stand-ins: a header is its number behind a tag, an account its storage root,
    and a transaction its bytes. *)
Definition header_data (n : Z) : bytes := [Byte.xaa; byte.of_Z n].

Definition header_hash (n : Z) : B256 := keccak256 (header_data n).

(** The storage of the history contract and the state after the blocks 1 and 2. *)
Definition storage_1 : TrieNode.t := Eval vm_compute in
  put (slot_path 0) (encode_string (header_hash 0)) TrieNode.Empty.

Definition storage_2 : TrieNode.t := Eval vm_compute in
  put (slot_path 1) (encode_string (header_hash 1)) storage_1.

Definition state_1 : TrieNode.t := Eval vm_compute in TrieNode.Leaf history_path (TrieNode.blind storage_1).
Definition state_2 : TrieNode.t := Eval vm_compute in TrieNode.Leaf history_path (TrieNode.blind storage_2).

Definition sample_storage (n : Z) : TrieNode.t := if decide (n = 1) then storage_1 else storage_2.
Definition sample_state (n : Z) : TrieNode.t := if decide (n = 1) then state_1 else state_2.

Definition state_root_1 : B256 := Eval vm_compute in TrieNode.blind state_1.
Definition state_root_2 : B256 := Eval vm_compute in TrieNode.blind state_2.
Definition list_root : B256 := Eval vm_compute in TrieNode.blind list_trie.

Definition sample_state_root (n : Z) : B256 :=
  if decide (n = 0) then TrieNode.EMPTY_ROOT_HASH
  else if decide (n = 1) then state_root_1 else state_root_2.

Definition sample_header (n : Z) : ExecHeader.t :=
  ExecHeader.mk n (1000 + 2 * n) (header_hash (n - 1)) (sample_state_root n) list_root list_root.

Definition chain_store : list (PreimageKey.t * bytes) := Eval vm_compute in
  map (fun p => (PreimageKey.new_keccak256 p.1, p.2))
    (map (fun n => (header_hash n, header_data n)) [0; 1; 2] ++ preimages_of list_trie ++
     concat (map preimages_of [state_1; state_2; storage_1; storage_2])).

Definition sample_comms : CommsClient := {|
  oracle_get key :=
    match list_find (fun p => p.1 = key) chain_store with
    | Some (_, p) => Ok p.2
    | None => Err PreimageKeyNotFound
    end;
  hint_write _ := Ok ()
|}.

Definition sample_codec : ChainCodec := {|
  decode_block_header data :=
    match data with
    | [tag; n] => if decide (tag = Byte.xaa) then Ok (sample_header (byte.unsigned n)) else Err Malformed
    | _ => Err Malformed
    end;
  hash_slow header := header_hash (ExecHeader.number header);
  decode_receipt data := Ok (Receipt.mk true []);
  decode_l1_tx data := Ok (L1Tx.mk (L1Tx.Legacy None data) (keccak256 data));
  decode_l2_tx data := Ok (BlockTx.mk None 2 data);
  account_storage_root raw := if decide (len raw = 32) then Ok raw else Err Malformed;
  error_display _ := "error"%string
|}.

Definition hex_digit (n : Z) : byte := byte.of_Z (if decide (n < 10) then 48 + n else 87 + n).

Definition hex_value (c : byte) : option Z :=
  let n := byte.unsigned c in
  if decide (48 <= n < 58) then Some (n - 48)
  else if decide (97 <= n < 103) then Some (n - 87)
  else None.

Fixpoint hex_pairs (s : bytes) : result bytes bytes :=
  match s with
  | [] => Ok []
  | a :: b :: s =>
      match hex_value a, hex_value b with
      | Some x, Some y => r ← hex_pairs s; Ok (byte.of_Z (16 * x + y) :: r)
      | _, _ => Err (text "Invalid character")
      end
  | _ => Err (text "Odd number of digits")
  end.

Fixpoint hex_digits (b : bytes) : bytes :=
  match b with
  | [] => []
  | c :: b => hex_digit (byte.unsigned c / 16) :: hex_digit (byte.unsigned c mod 16) :: hex_digits b
  end.

(** Lower case digits behind [0x], which [hex::decode] strips. *)
Definition sample_hex : Hex := {|
  bytes_display b := text "0x" ++ hex_digits b;
  hex_decode s := hex_pairs (if decide (take 2 s = text "0x") then drop 2 s else s)
|}.

#[local] Existing Instances sample_comms sample_codec sample_hex.

#[local] Instance no_overrides : RuntimeUpgradeRegistry := ∅ : Registry.t.

Definition sample_isthmus_config : RollupConfig.t :=
  RollupConfig.set_upgrade_activation_timestamp sample_config Isthmus 0.

Definition sample_provider : OracleL2ChainProvider.t :=
  OracleL2ChainProvider.new (header_hash 2) sample_isthmus_config.

Lemma hex_pair c : hex_value (hex_digit (byte.unsigned c / 16)) = Some (byte.unsigned c / 16) /\
  hex_value (hex_digit (byte.unsigned c mod 16)) = Some (byte.unsigned c mod 16) /\
  hex_digit (byte.unsigned c / 16) <> Byte.x20 /\ hex_digit (byte.unsigned c mod 16) <> Byte.x20.
Proof. by destruct c. Qed.

(** The laws of hexadecimal text hold of the digits. *)
Lemma sample_hex_laws : HexLaws.
Proof.
  split.
  - intros b. change (hex_pairs (hex_digits b) = Ok b). induction b as [|c b IH]; [done|].
    cbn [hex_digits hex_pairs]. destruct (hex_pair c) as (-> & -> & _). rewrite IH. cbn [mbind result_bind].
    rewrite <- (Z.div_mod (byte.unsigned c) 16) by lia. by rewrite byte.of_Z_unsigned.
  - intros b. change (Byte.x20 ∉ text "0x" ++ hex_digits b). apply not_elem_of_app. split; [by apply (bool_decide_unpack _)|].
    induction b as [|c b IH]; [apply not_elem_of_nil|]. cbn [hex_digits]. rewrite !not_elem_of_cons.
    destruct (hex_pair c) as (_ & _ & H1 & H2). auto.
Qed.

(** ** The tries are served *)

Lemma list_trie_served depth : (5 <= depth)%nat -> list_served depth list_root sample_list.
Proof.
  intros Hd. exists list_trie. split; [by vm_compute|]. split; [by vm_compute|]. split; [|split; [done|]].
  - apply leaves_hold_list; [by vm_compute|]. vm_compute. symmetry. apply (Permutation_cons_append [_; _]).
  - split; [|split; [by vm_compute|split; [by vm_compute|]]].
    + eapply Nat.lt_le_trans; [|exact Hd]. vm_compute. lia.
    + apply serves_below_check. by vm_compute.
Qed.

Lemma represents_check k m :
  TrieNode.canonical m && TrieNode.uniform k m && negb (TrieNode.is_empty m) && served_check m &&
    forallb (fun x => negb (bool_decide (len B256_ZERO <= TrieNode.node_length x)) || served_check x)
      (tail (nodes m)) = true ->
  represents k (TrieNode.new_blinded (TrieNode.blind m)) (list_to_map (leaves m)).
Proof.
  rewrite !andb_true_iff, negb_true_iff. intros ((((Hc & Hu) & He) & Hs) & Hb).
  apply represents_served; [done|done| |done|by apply served_check_served|by apply serves_below_check].
  intros q. by apply leaves_map.
Qed.

Lemma small_cases n : 0 <= n <= 2 -> n = 0 \/ n = 1 \/ n = 2.
Proof. lia. Qed.

Lemma sample_chain_served : chain_served sample_header 2.
Proof.
  split; [done|done|done|]. intros n Hn. exists (header_data n).
  destruct (small_cases n Hn) as [->|[->| ->]]; (split; [by vm_compute|done]).
Qed.

Lemma sample_history_recorded n :
  0 <= n <= 2 -> history_recorded (fun b => hash_slow (sample_header b)) (sample_header n).
Proof.
  intros Hn. destruct (small_cases n Hn) as [->|Hn'].
  { exists ∅. split; [|done]. exists TrieNode.Empty. split; [apply root_empty|done]. }
  exists (list_to_map (leaves (sample_state n))). split.
  { replace (ExecHeader.state_root (sample_header n)) with (TrieNode.blind (sample_state n)).
    - apply (represents_check 64). by destruct Hn' as [->| ->]; vm_compute.
    - by destruct Hn' as [->| ->]; vm_compute. }
  intros raw Hr. assert (raw = TrieNode.blind (sample_storage n)) as ->.
  { apply (inj Some). rewrite <- Hr. by destruct Hn' as [->| ->]; vm_compute. }
  exists (TrieNode.blind (sample_storage n)), (list_to_map (leaves (sample_storage n))).
  split; [by destruct Hn' as [->| ->]; vm_compute|]. split.
  { apply (represents_check 64). by destruct Hn' as [->| ->]; vm_compute. }
  intros b v Hb Hw Ev hash Eh. cbn [ExecHeader.number sample_header] in Hw.
  assert (v = encode_string (header_hash b)) as ->.
  { apply (inj Some). rewrite <- Ev. assert (Hc : b = 0 \/ b = 1 /\ n = 2) by lia.
    destruct Hc as [->|[-> ->]]; [destruct Hn' as [->| ->]|]; by vm_compute. }
  pose proof (decode_b256_encode (header_hash b) [] (len_keccak256 _)) as Hd.
  rewrite app_nil_r in Hd. rewrite Hd in Eh. by injection Eh as <-.
Qed.

Lemma l1_block_lists_witness :
  OracleL1ChainProvider.block_info_and_transactions_by_hash 5 (header_hash 1) =
    (transactions ← map_err RlpFailure (mapM decode_l1_tx sample_list);
     Ok (BlockInfo.mk (header_hash 1) 1 (header_hash 0) 1002, transactions)) /\
  OracleL1ChainProvider.receipts_by_hash 5 (header_hash 1) =
    map_err RlpFailure (mapM decode_receipt sample_list).
Proof.
  apply (l1_block_lists 5 (header_hash 1) (header_data 1) (sample_header 1)).
  - reflexivity.
  - vm_compute. reflexivity.
  - reflexivity.
  - apply list_trie_served. lia.
  - apply list_trie_served. lia.
Defined.

Lemma block_by_number_reads_witness :
  OracleL2ChainProvider.block_by_number 131 3 sample_provider 0 =
    Ok (L2Block.mk (BlockInfo.mk (header_hash 0) 0 (header_hash (-1)) 1000)
          (map (BlockTx.mk None 2) sample_list)).
Proof.
  refine (eq_trans (block_by_number_reads sample_header 2 131 3 sample_provider 0 (fun _ => sample_list)
    _ _ _ _ _ _ _ _) _).
  - apply sample_chain_served.
  - reflexivity.
  - apply sample_history_recorded.
  - intros n _. apply list_trie_served. lia.
  - lia.
  - lia.
  - lia.
  - vm_compute. lia.
  - vm_compute. reflexivity.
Defined.
