(* ===== verification/Policies.v ===== *)
(** * The policy registry

    [common/precompiles/src/policy]: the registry of the account policies that the
    tokens consult, as of its third version ([logic/v3.rs], [storage.rs],
    [dispatch.rs]).  A policy is an allow list, a block list, or a union or an
    intersection of such policies; a bit of the identifier negates it. *)

From S2P Require Import Prelude Effects Primitives.

Inductive PolicyType : Type := BLOCKLIST | ALLOWLIST | UNION | INTERSECT.

Definition as_discriminant (ty : PolicyType) : Z :=
  match ty with BLOCKLIST => 0 | ALLOWLIST => 1 | UNION => 2 | INTERSECT => 3 end.

(** The errors of [IPolicyRegistry]. *)
Inductive PolicyRevert : Type :=
| PolicyNotFound
| Unauthorized
| ZeroAddress
| IncompatiblePolicyType
| BatchSizeTooLarge (max : Z)
| ChildPoliciesOutsideOfRange
| InvalidChildPolicy (child : Z)
| NoPendingAdmin.

(** [BasePrecompileError], with the contract error of a revert unencoded. *)
Inductive PrecompileError (R : Type) : Type :=
| UnderOverflow
| EnumConversionError
| Revert (e : R).
Arguments UnderOverflow {R}.
Arguments EnumConversionError {R}.
Arguments Revert {R} e.

(** The events of [IPolicyRegistry]. *)
Inductive PolicyEvent : Type :=
| PolicyCreated (policy_id : Z) (creator : Address) (policy_type : PolicyType)
| PolicyAdminUpdated (policy_id : Z) (previous_admin new_admin : Address)
| PolicyAdminStaged (policy_id : Z) (current_admin pending_admin : Address)
| AllowlistUpdated (policy_id : Z) (updater : Address) (allowed : bool) (accounts : list Address)
| BlocklistUpdated (policy_id : Z) (updater : Address) (blocked : bool) (accounts : list Address)
| CompositePolicyUpdated (policy_id : Z) (updater : Address) (child_policy_ids : list Z).

Module PackedPolicy.

Definition EXISTS_BIT : Z := 2 ^ 255.
Definition ADMIN_MASK : Z := Z.ones 160.

Definition new (admin : Address) : Z := Z.lor (from_be_bytes admin) EXISTS_BIT.

Definition with_admin (self : Z) (new_admin : Address) : Z := new new_admin.

Definition admin (self : Z) : Address := drop 12 (to_be_bytes 32 (Z.land self ADMIN_MASK)).

Definition exists_ (self : Z) : bool := negb (bool_decide (Z.land self EXISTS_BIT = 0)).

End PackedPolicy.

(** The storage; a slot that was never written reads as zero. *)
Module PolicyStorage.

Record t : Type := mk {
  policies : gmap Z Z;
  members : gset (Z * Address);
  pending_admins : gmap Z Address;
  next_counter : Z;
  children : gmap Z (list Z);
  initialized : bool;
  logs : list PolicyEvent
}.

Definition empty : t := mk ∅ ∅ ∅ 0 ∅ false [].

Definition read_policy_word (policy_id : Z) (s : t) : Z := default 0 (policies s !! policy_id).
Definition read_member (policy_id : Z) (account : Address) (s : t) : bool :=
  bool_decide ((policy_id, account) ∈ members s).
Definition read_pending_admin (policy_id : Z) (s : t) : Address :=
  default Address_ZERO (pending_admins s !! policy_id).
Definition read_children (policy_id : Z) (s : t) : list Z := default [] (children s !! policy_id).

Definition write_policy_word (policy_id word : Z) (s : t) : t :=
  mk (<[policy_id := word]> (policies s)) (members s) (pending_admins s) (next_counter s) (children s)
    (initialized s) (logs s).
Definition set_member (policy_id : Z) (account : Address) (s : t) : t :=
  mk (policies s) ({[(policy_id, account)]} ∪ members s) (pending_admins s) (next_counter s) (children s)
    (initialized s) (logs s).
Definition delete_member (policy_id : Z) (account : Address) (s : t) : t :=
  mk (policies s) (members s ∖ {[(policy_id, account)]}) (pending_admins s) (next_counter s) (children s)
    (initialized s) (logs s).
Definition write_pending_admin (policy_id : Z) (admin : Address) (s : t) : t :=
  mk (policies s) (members s) (<[policy_id := admin]> (pending_admins s)) (next_counter s) (children s)
    (initialized s) (logs s).
Definition delete_pending_admin (policy_id : Z) (s : t) : t :=
  mk (policies s) (members s) (delete policy_id (pending_admins s)) (next_counter s) (children s)
    (initialized s) (logs s).
Definition write_next_counter (counter : Z) (s : t) : t :=
  mk (policies s) (members s) (pending_admins s) counter (children s) (initialized s) (logs s).
Definition mark_initialized (s : t) : t :=
  mk (policies s) (members s) (pending_admins s) (next_counter s) (children s) true (logs s).
Definition write_children (policy_id : Z) (child_policy_ids : list Z) (s : t) : t :=
  mk (policies s) (members s) (pending_admins s) (next_counter s)
    (<[policy_id := child_policy_ids]> (children s)) (initialized s) (logs s).
Definition emit_event (log : PolicyEvent) (s : t) : t :=
  mk (policies s) (members s) (pending_admins s) (next_counter s) (children s) (initialized s)
    (logs s ++ [log]).

End PolicyStorage.

Import PolicyStorage.

(** The state of a frame that fails is undone. *)
Definition frame {E S A} (m : eff E S A) : eff E S A := fun s =>
  match m s with
  | (Ok a, s') => (Ok a, s')
  | (r, _) => (r, s)
  end.

(** [if !condition { return Err(..) }] *)
Definition ensure {E S} (condition : bool) (e : E) : eff E S () := if condition then mret () else fail e.

Module PolicyRegistryV3.

Abbreviation Error := (PrecompileError PolicyRevert).
Abbreviation op := (eff Error PolicyStorage.t).

Definition POLICY_ID_TYPE_SHIFT : Z := 56.
Definition ALWAYS_ALLOW_ID : Z := 0.
Definition ALWAYS_BLOCK_ID : Z := Z.lor (Z.shiftl 1 POLICY_ID_TYPE_SHIFT) 1.
Definition BUILTIN_POLICY_COUNT : Z := 2.
Definition COUNTER_MASK : Z := Z.shiftl 1 56 - 1.
Definition INVERTED_POLICY_BIT : Z := Z.shiftl 1 63.
Definition MAX_ACCOUNTS_PER_BATCH : Z := 64.
Definition MIN_CHILD_POLICIES : Z := 2.
Definition MAX_CHILD_POLICIES : Z := 4.

Definition policy_id_type (policy_id : Z) : Z := wrap 8 (Z.shiftr policy_id POLICY_ID_TYPE_SHIFT).

Definition make_id (policy_type counter : Z) : Z :=
  Z.lor (Z.shiftl policy_type POLICY_ID_TYPE_SHIFT) (Z.land counter COUNTER_MASK).

Definition inverted_policy_id (policy_id : Z) : Z := Z.lxor policy_id INVERTED_POLICY_BIT.

Definition is_composite (policy_id : Z) : bool :=
  bool_decide (policy_id_type policy_id = as_discriminant UNION) ||
  bool_decide (policy_id_type policy_id = as_discriminant INTERSECT).

Definition is_well_formed (policy_id : Z) : bool :=
  bool_decide (policy_id_type policy_id <= as_discriminant INTERSECT).

Definition is_builtin (policy_id : Z) : bool :=
  bool_decide (policy_id = ALWAYS_ALLOW_ID) || bool_decide (policy_id = ALWAYS_BLOCK_ID).

Definition base_policy_id (policy_id : Z) : Z := Z.land policy_id (Z.lnot INVERTED_POLICY_BIT).

(** *** Reads *)

Definition policy_exists (storage : PolicyStorage.t) (policy_id : Z) : bool :=
  let policy_id := base_policy_id policy_id in
  if is_builtin policy_id then true
  else if negb (is_well_formed policy_id) then false
  else PackedPolicy.exists_ (read_policy_word policy_id storage).

(** The first child for which [f] is [stop], in order. *)
Fixpoint find_child (stop : bool) (f : Z -> result Error bool) (children : list Z) : result Error bool :=
  match children with
  | [] => Ok (negb stop)
  | child :: children =>
      authorized ← f child;
      if eqb authorized stop then Ok stop else find_child stop f children
  end.

Fixpoint is_authorized (fuel : nat) (storage : PolicyStorage.t) (policy_id : Z) (account : Address)
    : result Error bool :=
  match fuel with
  | O => Panic
  | S fuel =>
      if decide (policy_id = ALWAYS_ALLOW_ID) then Ok true
      else if decide (policy_id = ALWAYS_BLOCK_ID) then Ok false
      else if decide (Z.land policy_id INVERTED_POLICY_BIT <> 0) then
        let base := base_policy_id policy_id in
        if policy_exists storage base
        then authorized ← is_authorized fuel storage base account; Ok (negb authorized)
        else Ok false
      else if negb (is_well_formed policy_id) then Ok false
      else if decide (policy_id_type policy_id = as_discriminant UNION) then
        find_child true (fun child => is_authorized fuel storage child account)
          (read_children policy_id storage)
      else if decide (policy_id_type policy_id = as_discriminant INTERSECT) then
        find_child false (fun child => is_authorized fuel storage child account)
          (read_children policy_id storage)
      else if decide (policy_id_type policy_id = as_discriminant ALLOWLIST) then
        Ok (read_member policy_id account storage)
      else Ok (negb (read_member policy_id account storage))
  end.

(** A negated composite of negated lists: four calls. *)
Definition AUTHORIZATION_DEPTH : nat := 4.

Definition get_policy_admin (storage : PolicyStorage.t) (policy_id : Z) : Address :=
  let policy_id := base_policy_id policy_id in
  if negb (is_well_formed policy_id) then Address_ZERO
  else
    let packed := read_policy_word policy_id storage in
    if PackedPolicy.exists_ packed then PackedPolicy.admin packed else Address_ZERO.

Definition pending_policy_admin (storage : PolicyStorage.t) (policy_id : Z) : Address :=
  let policy_id := base_policy_id policy_id in
  if negb (is_well_formed policy_id) then Address_ZERO
  else if is_builtin policy_id then Address_ZERO
  else read_pending_admin policy_id storage.

Definition composite_policy_child_ids (storage : PolicyStorage.t) (policy_id : Z) : list Z :=
  let policy_id := base_policy_id policy_id in
  if negb (is_well_formed policy_id) then []
  else if negb (is_composite policy_id) then []
  else read_children policy_id storage.

(** *** Guards *)

Definition require_existing_policy (policy_id : Z) : op Z :=
  packed ← gets (read_policy_word policy_id);
  _ ← ensure (PackedPolicy.exists_ packed) (Revert PolicyNotFound);
  mret packed.

Definition require_account_batch_size (accounts : list Address) : op () :=
  ensure (bool_decide (len accounts <= MAX_ACCOUNTS_PER_BATCH)) (Revert (BatchSizeTooLarge MAX_ACCOUNTS_PER_BATCH)).

Definition require_child_policy_in_range (child_policy_ids : list Z) : op () :=
  ensure (bool_decide (MIN_CHILD_POLICIES <= len child_policy_ids <= MAX_CHILD_POLICIES))
    (Revert ChildPoliciesOutsideOfRange).

Fixpoint for_each {E S A} (f : A -> eff E S ()) (l : list A) : eff E S () :=
  match l with
  | [] => mret ()
  | a :: l => _ ← f a; for_each f l
  end.

Definition validate_composite_child_policies (child_policy_ids : list Z) : op () :=
  _ ← for_each (fun child => _ ← require_existing_policy (base_policy_id child); mret ()) child_policy_ids;
  for_each (fun child =>
    let base := base_policy_id child in
    ensure (negb (is_builtin base || is_composite base)) (Revert (InvalidChildPolicy child))) child_policy_ids.

Definition validate_create_policy_inputs (admin : Address) (policy_type : PolicyType) : op Z :=
  _ ← ensure (negb (bool_decide (admin = Address_ZERO))) (Revert ZeroAddress);
  match policy_type with
  | BLOCKLIST | ALLOWLIST => mret (as_discriminant policy_type)
  | _ => fail (Revert IncompatiblePolicyType)
  end.

(** *** Changes, on a call of [caller] *)

Section Calls.
Context (caller : Address).

Definition require_admin (policy_id : Z) : op Z :=
  packed ← require_existing_policy policy_id;
  _ ← ensure (bool_decide (PackedPolicy.admin packed = caller)) (Revert Unauthorized);
  mret packed.

Definition ensure_initialized_and_get_counter : op Z :=
  counter ← gets next_counter;
  if decide (BUILTIN_POLICY_COUNT <= counter) then mret counter
  else
    _ ← modify mark_initialized;
    let builtin := PackedPolicy.new Address_ZERO in
    _ ← modify (write_policy_word ALWAYS_ALLOW_ID builtin);
    _ ← modify (write_policy_word ALWAYS_BLOCK_ID builtin);
    _ ← modify (write_next_counter BUILTIN_POLICY_COUNT);
    mret BUILTIN_POLICY_COUNT.

Definition create_policy_inner (admin : Address) (policy_type : PolicyType) (policy_type_u8 : Z) : op Z :=
  counter ← ensure_initialized_and_get_counter;
  _ ← ensure (negb (bool_decide (COUNTER_MASK <= counter))) UnderOverflow;
  _ ← modify (write_next_counter (counter + 1));
  let policy_id := make_id policy_type_u8 counter in
  _ ← modify (write_policy_word policy_id (PackedPolicy.new admin));
  _ ← modify (emit_event (PolicyCreated policy_id caller policy_type));
  _ ← modify (emit_event (PolicyAdminUpdated policy_id Address_ZERO admin));
  mret policy_id.

Definition update_membership (policy_id expected_type : Z) (add : bool) (accounts : list Address) : op () :=
  packed ← require_existing_policy policy_id;
  _ ← ensure (bool_decide (policy_id_type policy_id = expected_type)) (Revert IncompatiblePolicyType);
  _ ← ensure (bool_decide (PackedPolicy.admin packed = caller)) (Revert Unauthorized);
  _ ← require_account_batch_size accounts;
  for_each (fun account =>
    modify (if add then set_member policy_id account else delete_member policy_id account)) accounts.

Definition create_policy (admin : Address) (policy_type : PolicyType) : op Z :=
  policy_type_u8 ← validate_create_policy_inputs admin policy_type;
  create_policy_inner admin policy_type policy_type_u8.

Definition create_policy_with_accounts (admin : Address) (policy_type : PolicyType)
    (accounts : list Address) : op Z :=
  policy_type_u8 ← validate_create_policy_inputs admin policy_type;
  _ ← require_account_batch_size accounts;
  policy_id ← create_policy_inner admin policy_type policy_type_u8;
  _ ← for_each (fun account => modify (set_member policy_id account)) accounts;
  _ ← match policy_type with
      | ALLOWLIST => modify (emit_event (AllowlistUpdated policy_id caller true accounts))
      | BLOCKLIST => modify (emit_event (BlocklistUpdated policy_id caller true accounts))
      | _ => fail EnumConversionError
      end;
  mret policy_id.

Definition create_composite_policy (admin : Address) (policy_type : PolicyType)
    (child_policy_ids : list Z) : op Z :=
  _ ← ensure (negb (bool_decide (admin = Address_ZERO))) (Revert ZeroAddress);
  _ ← match policy_type with
      | UNION | INTERSECT => mret ()
      | _ => fail (Revert IncompatiblePolicyType)
      end;
  _ ← require_child_policy_in_range child_policy_ids;
  _ ← validate_composite_child_policies child_policy_ids;
  policy_id ← create_policy_inner admin policy_type (as_discriminant policy_type);
  _ ← modify (write_children policy_id child_policy_ids);
  _ ← modify (emit_event (CompositePolicyUpdated policy_id caller child_policy_ids));
  mret policy_id.

Definition update_composite (policy_id : Z) (child_policy_ids : list Z) : op () :=
  packed ← require_existing_policy policy_id;
  _ ← ensure (is_composite policy_id) (Revert IncompatiblePolicyType);
  _ ← ensure (bool_decide (PackedPolicy.admin packed = caller)) (Revert Unauthorized);
  _ ← require_child_policy_in_range child_policy_ids;
  _ ← validate_composite_child_policies child_policy_ids;
  _ ← modify (write_children policy_id child_policy_ids);
  modify (emit_event (CompositePolicyUpdated policy_id caller child_policy_ids)).

Definition stage_update_admin (policy_id : Z) (new_admin : Address) : op () :=
  _ ← require_admin policy_id;
  _ ← modify (if decide (new_admin = Address_ZERO) then delete_pending_admin policy_id
              else write_pending_admin policy_id new_admin);
  modify (emit_event (PolicyAdminStaged policy_id caller new_admin)).

Definition finalize_update_admin (policy_id : Z) : op () :=
  packed ← require_existing_policy policy_id;
  pending ← gets (read_pending_admin policy_id);
  _ ← ensure (negb (bool_decide (pending = Address_ZERO))) (Revert NoPendingAdmin);
  _ ← ensure (bool_decide (pending = caller)) (Revert Unauthorized);
  let previous_admin := PackedPolicy.admin packed in
  _ ← modify (write_policy_word policy_id (PackedPolicy.with_admin packed caller));
  _ ← modify (delete_pending_admin policy_id);
  modify (emit_event (PolicyAdminUpdated policy_id previous_admin caller)).

Definition renounce_admin (policy_id : Z) : op () :=
  packed ← require_admin policy_id;
  _ ← modify (write_policy_word policy_id (PackedPolicy.with_admin packed Address_ZERO));
  _ ← modify (delete_pending_admin policy_id);
  modify (emit_event (PolicyAdminUpdated policy_id caller Address_ZERO)).

Definition update_allowlist (policy_id : Z) (allowed : bool) (accounts : list Address) : op () :=
  _ ← update_membership policy_id (as_discriminant ALLOWLIST) allowed accounts;
  modify (emit_event (AllowlistUpdated policy_id caller allowed accounts)).

Definition update_blocklist (policy_id : Z) (blocked : bool) (accounts : list Address) : op () :=
  _ ← update_membership policy_id (as_discriminant BLOCKLIST) blocked accounts;
  modify (emit_event (BlocklistUpdated policy_id caller blocked accounts)).

End Calls.

End PolicyRegistryV3.

(** The calls of [IPolicyRegistry] that change the registry, as [route] sends them. *)
Inductive PolicyCall : Type :=
| createPolicy (admin : Address) (policy_type : PolicyType)
| createPolicyWithAccounts (admin : Address) (policy_type : PolicyType) (accounts : list Address)
| createCompositePolicy (admin : Address) (policy_type : PolicyType) (child_policy_ids : list Z)
| updateComposite (policy_id : Z) (child_policy_ids : list Z)
| stageUpdateAdmin (policy_id : Z) (new_admin : Address)
| finalizeUpdateAdmin (policy_id : Z)
| renounceAdmin (policy_id : Z)
| updateAllowlist (policy_id : Z) (allowed : bool) (accounts : list Address)
| updateBlocklist (policy_id : Z) (blocked : bool) (accounts : list Address).

Definition route (caller : Address) (call : PolicyCall) : PolicyRegistryV3.op (option Z) :=
  match call with
  | createPolicy admin policy_type =>
      id ← PolicyRegistryV3.create_policy caller admin policy_type; mret (Some id)
  | createPolicyWithAccounts admin policy_type accounts =>
      id ← PolicyRegistryV3.create_policy_with_accounts caller admin policy_type accounts; mret (Some id)
  | createCompositePolicy admin policy_type child_policy_ids =>
      id ← PolicyRegistryV3.create_composite_policy caller admin policy_type child_policy_ids; mret (Some id)
  | updateComposite policy_id child_policy_ids =>
      _ ← PolicyRegistryV3.update_composite caller policy_id child_policy_ids; mret None
  | stageUpdateAdmin policy_id new_admin =>
      _ ← PolicyRegistryV3.stage_update_admin caller policy_id new_admin; mret None
  | finalizeUpdateAdmin policy_id =>
      _ ← PolicyRegistryV3.finalize_update_admin caller policy_id; mret None
  | renounceAdmin policy_id =>
      _ ← PolicyRegistryV3.renounce_admin caller policy_id; mret None
  | updateAllowlist policy_id allowed accounts =>
      _ ← PolicyRegistryV3.update_allowlist caller policy_id allowed accounts; mret None
  | updateBlocklist policy_id blocked accounts =>
      _ ← PolicyRegistryV3.update_blocklist caller policy_id blocked accounts; mret None
  end.

(** A sequence of calls, each in a frame of its own. *)
Definition run_calls (calls : list (Address * PolicyCall)) (s : PolicyStorage.t) : PolicyStorage.t :=
  fold_left (fun s c => (frame (route c.1 c.2) s).2) calls s.
