(* ===== verification/PolicyProofs.v ===== *)
(** * The policy registry keeps its promises

    The invariant of the registry, what an authorization means in it, and who can
    change a policy. *)

From S2P Require Import Prelude Effects Primitives Policies.

Import PolicyStorage PolicyRegistryV3.

(** ** Words and identifiers *)

Lemma packed_exists admin : PackedPolicy.exists_ (PackedPolicy.new admin) = true.
Proof.
  unfold PackedPolicy.exists_, PackedPolicy.new. apply negb_true_iff, bool_decide_eq_false. intros H0.
  assert (HB : Z.testbit (Z.land (Z.lor (from_be_bytes admin) PackedPolicy.EXISTS_BIT) PackedPolicy.EXISTS_BIT) 255 = true).
  { rewrite Z.land_spec, Z.lor_spec. by rewrite orb_true_r. }
  by rewrite H0, Z.bits_0 in HB.
Qed.

Lemma packed_admin admin : len admin = 20 -> PackedPolicy.admin (PackedPolicy.new admin) = admin.
Proof.
  intros Hl. unfold PackedPolicy.admin, PackedPolicy.new, PackedPolicy.ADMIN_MASK, PackedPolicy.EXISTS_BIT.
  pose proof (from_be_bytes_bound admin) as Hb. rewrite Hl in Hb.
  replace (2 ^ 255) with (Z.shiftl 1 255) by done.
  rewrite lor_shiftl_add; [|lia|split; [lia|]; eapply Z.lt_trans; [apply Hb|done]].
  rewrite Z.land_ones by lia. replace (from_be_bytes admin + 1 * 2 ^ 255)
    with (from_be_bytes admin + 2 ^ 95 * 2 ^ 160) by lia.
  rewrite Z_mod_plus_full, Z.mod_small by lia. rewrite (to_be_bytes_pad 12 20) by lia.
  rewrite drop_app_length' by done. replace 20%nat with (length admin) by (unfold len in Hl; lia).
  apply to_from_be_bytes.
Qed.

Lemma packed_none : PackedPolicy.exists_ 0 = false.
Proof. done. Qed.

Definition is_inverted (policy_id : Z) : Prop := Z.land policy_id INVERTED_POLICY_BIT <> 0.

#[export] Instance is_inverted_dec policy_id : Decision (is_inverted policy_id) := _.

Lemma base_not_inverted policy_id : ~ is_inverted (base_policy_id policy_id).
Proof.
  unfold is_inverted, base_policy_id. rewrite <- Z.land_assoc, (Z.land_comm (Z.lnot _)), Z.land_lnot_diag, Z.land_0_r.
  auto.
Qed.

Lemma base_of_plain policy_id : ~ is_inverted policy_id -> base_policy_id policy_id = policy_id.
Proof.
  unfold is_inverted, base_policy_id. intros Hp. rewrite <- Z.ldiff_land.
  pose proof (Z.lor_ldiff_and policy_id INVERTED_POLICY_BIT) as Hs.
  destruct (decide (Z.land policy_id INVERTED_POLICY_BIT = 0)) as [E|]; [|done].
  by rewrite E, Z.lor_0_r in Hs.
Qed.

Lemma base_inverted policy_id : base_policy_id (inverted_policy_id policy_id) = base_policy_id policy_id.
Proof.
  unfold base_policy_id, inverted_policy_id. apply Z.bits_inj'. intros k Hk.
  rewrite !Z.land_spec, Z.lxor_spec, Z.lnot_spec by done. by destruct (Z.testbit policy_id k), (Z.testbit INVERTED_POLICY_BIT k).
Qed.

Lemma inverted_toggles policy_id : is_inverted (inverted_policy_id policy_id) <-> ~ is_inverted policy_id.
Proof.
  assert (Hb : forall x, is_inverted x <-> Z.testbit x 63 = true).
  { intros x. unfold is_inverted, INVERTED_POLICY_BIT. rewrite Z.shiftl_1_l. split.
    - intros Hx. destruct (Z.testbit x 63) eqn:E; [done|]. destruct Hx. apply Z.bits_inj'. intros k Hk.
      rewrite Z.land_spec, Z.bits_0. destruct (decide (k = 63)) as [->|Hn]; [by rewrite E|].
      rewrite Z.pow2_bits_false by lia. apply andb_false_r.
    - intros Hx E. assert (Ht : Z.testbit (Z.land x (2 ^ 63)) 63 = true).
      { rewrite Z.land_spec, Hx, Z.pow2_bits_true by lia. done. }
      by rewrite E, Z.bits_0 in Ht. }
  rewrite !Hb. unfold inverted_policy_id. rewrite Z.lxor_spec. change (Z.testbit INVERTED_POLICY_BIT 63) with true.
  by destruct (Z.testbit policy_id 63).
Qed.

Lemma policy_exists_base s policy_id : policy_exists s (base_policy_id policy_id) = policy_exists s policy_id.
Proof.
  unfold policy_exists. by rewrite (base_of_plain (base_policy_id policy_id)) by apply base_not_inverted.
Qed.

Lemma policy_exists_inverted s policy_id :
  policy_exists s (inverted_policy_id policy_id) = policy_exists s policy_id.
Proof. by rewrite <- policy_exists_base, base_inverted, policy_exists_base. Qed.

Lemma make_id_val ty counter :
  0 <= counter <= COUNTER_MASK -> make_id (as_discriminant ty) counter = as_discriminant ty * 2 ^ 56 + counter.
Proof.
  change COUNTER_MASK with (2 ^ 56 - 1). intros Hc. unfold make_id, POLICY_ID_TYPE_SHIFT.
  change COUNTER_MASK with (Z.ones 56). rewrite Z.land_ones, Z.mod_small by lia.
  rewrite Z.lor_comm, lor_shiftl_add by lia. lia.
Qed.

Lemma policy_id_type_make ty counter :
  0 <= counter <= COUNTER_MASK -> policy_id_type (make_id (as_discriminant ty) counter) = as_discriminant ty.
Proof.
  intros Hc. rewrite make_id_val by done. change COUNTER_MASK with (2 ^ 56 - 1) in Hc.
  unfold policy_id_type, POLICY_ID_TYPE_SHIFT, wrap. rewrite Z.shiftr_div_pow2 by lia.
  rewrite Z.div_add_l, (Z.div_small counter) by lia. destruct ty; reflexivity.
Qed.

Lemma make_id_inj ty ty' counter counter' :
  0 <= counter <= COUNTER_MASK -> 0 <= counter' <= COUNTER_MASK ->
  make_id (as_discriminant ty) counter = make_id (as_discriminant ty') counter' -> counter = counter'.
Proof.
  intros Hc Hc'. rewrite !make_id_val by done. change COUNTER_MASK with (2 ^ 56 - 1) in *.
  intros E. destruct ty, ty'; cbn [as_discriminant] in E; lia.
Qed.

Lemma make_id_plain ty counter :
  0 <= counter <= COUNTER_MASK -> ~ is_inverted (make_id (as_discriminant ty) counter).
Proof.
  intros Hc. rewrite make_id_val by done. change COUNTER_MASK with (2 ^ 56 - 1) in Hc.
  unfold is_inverted. intros []. apply Z.bits_inj'. intros k Hk. rewrite Z.land_spec, Z.bits_0.
  destruct (decide (k = 63)) as [->|Hn].
  - rewrite <- (Z.mod_small (as_discriminant ty * 2 ^ 56 + counter) (2 ^ 63)) by (destruct ty; cbn; lia).
    by rewrite Z.mod_pow2_bits_high by lia.
  - unfold INVERTED_POLICY_BIT. rewrite Z.shiftl_1_l, Z.pow2_bits_false by lia. apply andb_false_r.
Qed.

Lemma builtin_counters policy_id :
  is_builtin policy_id = true -> policy_id = make_id (as_discriminant BLOCKLIST) 0 \/
    policy_id = make_id (as_discriminant ALLOWLIST) 1.
Proof.
  unfold is_builtin. rewrite orb_true_iff, !bool_decide_eq_true. intros [->| ->]; auto.
Qed.

(** ** What an authorization means *)

Definition authorized (s : PolicyStorage.t) (policy_id : Z) (account : Address) : bool :=
  match is_authorized AUTHORIZATION_DEPTH s policy_id account with Ok b => b | _ => false end.

Lemma find_child_ext stop f g l b :
  (forall child b, child ∈ l -> f child = Ok b -> g child = Ok b) ->
  find_child stop f l = Ok b -> find_child stop g l = Ok b.
Proof.
  induction l as [|child l IH]; intros Hfg; [done|]. cbn [find_child].
  destruct (f child) as [x| |] eqn:E; [|done|done]. rewrite (Hfg child x) by (done || by left).
  cbn [mbind result_bind]. destruct (eqb x stop); [done|]. apply IH. intros c y Hc. apply Hfg. by right.
Qed.

Lemma is_authorized_more fuel s policy_id account b :
  is_authorized fuel s policy_id account = Ok b -> is_authorized (S fuel) s policy_id account = Ok b.
Proof.
  revert policy_id b. induction fuel as [|fuel IH]; intros policy_id b; [done|].
  remember (S fuel) as fuel' eqn:Ef. rewrite Ef at 1. cbn [is_authorized].
  case_decide; [done|]. case_decide; [done|]. case_decide.
  - destruct (policy_exists _ _); [|done].
    destruct (is_authorized fuel s (base_policy_id policy_id) account) as [x| |] eqn:E; [|done|done].
    subst fuel'. by rewrite (IH _ _ E).
  - destruct (negb _); [done|]. case_decide; [|case_decide; [|done]]; apply find_child_ext;
      intros child x _ E; subst fuel'; by apply IH.
Qed.

Lemma is_authorized_at_least fuel fuel' s policy_id account b :
  (fuel <= fuel')%nat -> is_authorized fuel s policy_id account = Ok b ->
  is_authorized fuel' s policy_id account = Ok b.
Proof. induction 1 as [|fuel' _ IH]; [done|]. intros E. by apply is_authorized_more, IH. Qed.

Lemma find_child_all stop f (g : Z -> bool) l :
  (forall child, child ∈ l -> f child = Ok (g child)) ->
  find_child stop f l = Ok (if stop then existsb g l else forallb g l).
Proof.
  induction l as [|child l IH]; intros Hf; [by destruct stop|]. cbn [find_child].
  rewrite Hf by by left. cbn [mbind result_bind]. rewrite IH by (intros c Hc; apply Hf; by right).
  cbn [existsb forallb]. by destruct stop, (g child).
Qed.

(** ** The invariant *)

Definition exists_at (s : PolicyStorage.t) (policy_id : Z) : bool :=
  PackedPolicy.exists_ (read_policy_word policy_id s).

(** A child of a composite: a list of accounts that was created, or its negation. *)
Definition child_ok (s : PolicyStorage.t) (child : Z) : Prop :=
  exists_at s (base_policy_id child) = true /\
  is_builtin (base_policy_id child) = false /\ is_composite (base_policy_id child) = false.

Record wf (s : PolicyStorage.t) : Prop := {
  wf_counter : next_counter s = 0 \/ BUILTIN_POLICY_COUNT <= next_counter s <= COUNTER_MASK;
  wf_ids : forall policy_id, exists_at s policy_id = true ->
    exists ty counter, 0 <= counter < next_counter s /\ policy_id = make_id (as_discriminant ty) counter;
  wf_builtins : next_counter s <> 0 -> exists_at s ALWAYS_ALLOW_ID = true /\ exists_at s ALWAYS_BLOCK_ID = true;
  wf_children : forall policy_id, Forall (child_ok s) (read_children policy_id s);
  wf_members : forall policy_id account, (policy_id, account) ∈ members s -> exists_at s policy_id = true
}.

Lemma wf_empty : wf empty.
Proof.
  split.
  - by left.
  - intros policy_id. unfold exists_at, read_policy_word, empty. cbn. rewrite lookup_empty. done.
  - done.
  - intros policy_id. unfold read_children, empty. cbn. rewrite lookup_empty. constructor.
  - intros policy_id account. cbn. intros H. by apply not_elem_of_empty in H.
Qed.

Lemma counter_bound s : wf s -> 0 <= next_counter s <= COUNTER_MASK.
Proof. intros [[->|H] _ _ _ _]; [done|]. unfold BUILTIN_POLICY_COUNT in H. lia. Qed.

(** The list of a plain policy is read in one call, a child of a composite takes
    two, a composite three and a negated composite four. *)
Lemma authorized_list fuel s policy_id account :
  ~ is_inverted policy_id -> is_composite policy_id = false ->
  exists b, is_authorized (S fuel) s policy_id account = Ok b.
Proof.
  intros Hp Hc. unfold is_inverted in Hp. cbn [is_authorized]. do 2 (case_decide; [by eauto|]).
  rewrite decide_False by done. destruct (negb _); [by eauto|].
  unfold is_composite in Hc. apply orb_false_iff in Hc as [Hu Hi].
  rewrite bool_decide_eq_false in Hu, Hi. rewrite !decide_False by done. case_decide; by eauto.
Qed.

Lemma authorized_child fuel s child account :
  child_ok s child -> exists b, is_authorized (S (S fuel)) s child account = Ok b.
Proof.
  intros (He & _ & Hc). destruct (decide (is_inverted child)) as [Hi|Hi].
  - destruct (authorized_list fuel s (base_policy_id child) account (base_not_inverted child) Hc) as [b Eb].
    remember (S fuel) as fuel' eqn:Ef. cbn [is_authorized]. do 2 (case_decide; [by eauto|]).
    rewrite decide_True by exact Hi. destruct (policy_exists _ _); [|by eauto]. rewrite Eb. by eexists.
  - rewrite base_of_plain in Hc by done. by apply authorized_list.
Qed.

Lemma authorized_plain fuel s policy_id account :
  wf s -> ~ is_inverted policy_id -> exists b, is_authorized (S (S (S fuel))) s policy_id account = Ok b.
Proof.
  intros Hwf Hp. remember (S (S fuel)) as fuel' eqn:Ef. cbn [is_authorized]. unfold is_inverted in Hp.
  do 2 (case_decide; [by eauto|]). rewrite decide_False by done. destruct (negb _); [by eauto|].
  pose proof (wf_children s Hwf policy_id) as Hc. rewrite Forall_forall in Hc.
  assert (Hf : forall stop, exists b,
    find_child stop (fun child => is_authorized fuel' s child account) (read_children policy_id s) = Ok b).
  { intros stop. exists (let g := fun child => match is_authorized fuel' s child account with Ok b => b | _ => false end in
      if stop then existsb g (read_children policy_id s) else forallb g (read_children policy_id s)).
    apply find_child_all. intros child Hch. subst fuel'.
    destruct (authorized_child fuel s child account (Hc child Hch)) as [b ->]. done. }
  case_decide; [apply Hf|]. case_decide; [apply Hf|]. case_decide; by eauto.
Qed.

Lemma authorized_at fuel s policy_id account :
  wf s -> (AUTHORIZATION_DEPTH <= fuel)%nat ->
  is_authorized fuel s policy_id account = Ok (authorized s policy_id account).
Proof.
  intros Hwf Hf. assert (Ht : exists b, is_authorized AUTHORIZATION_DEPTH s policy_id account = Ok b).
  { destruct (decide (is_inverted policy_id)) as [Hi|Hi].
    - destruct (authorized_plain 0 s (base_policy_id policy_id) account Hwf (base_not_inverted policy_id)) as [b Eb].
      unfold AUTHORIZATION_DEPTH. remember 3%nat as fuel' eqn:Ef. cbn [is_authorized].
      do 2 (case_decide; [by eauto|]). rewrite decide_True by exact Hi.
      destruct (policy_exists _ _); [|by eauto]. rewrite Eb. by eexists.
    - by apply authorized_plain. }
  destruct Ht as [b Eb]. apply (is_authorized_at_least AUTHORIZATION_DEPTH); [done|].
  unfold authorized. by rewrite Eb.
Qed.

Lemma authorized_inverted s policy_id account :
  wf s -> policy_exists s policy_id = true ->
  authorized s (inverted_policy_id policy_id) account = negb (authorized s policy_id account).
Proof.
  intros Hwf. assert (Hside : forall x, is_inverted x -> policy_exists s x = true ->
    authorized s x account = negb (authorized s (base_policy_id x) account)).
  { intros x Hx He. pose proof (authorized_at 5 s x account Hwf ltac:(unfold AUTHORIZATION_DEPTH; lia)) as E. 
    rewrite <- policy_exists_base in He. remember 4%nat as fuel eqn:Ef. cbn [is_authorized] in E.
    rewrite decide_False in E by (intros ->; by vm_compute in Hx).
    rewrite decide_False in E by (intros ->; by vm_compute in Hx).
    rewrite decide_True, He in E by exact Hx.
    rewrite (authorized_at fuel) in E by (done || (subst; unfold AUTHORIZATION_DEPTH; lia)). by injection E as <-. }
  intros He. destruct (decide (is_inverted policy_id)) as [Hi|Hi].
  - rewrite (Hside _ Hi He), negb_involutive. f_equal. rewrite <- base_inverted.
    symmetry. apply base_of_plain. rewrite inverted_toggles. auto.
  - rewrite Hside; [|by apply inverted_toggles|by rewrite policy_exists_inverted].
    by rewrite base_inverted, base_of_plain.
Qed.

Lemma authorized_composite s policy_id account :
  wf s -> ~ is_inverted policy_id -> is_composite policy_id = true ->
  authorized s policy_id account =
    if decide (policy_id_type policy_id = as_discriminant UNION)
    then existsb (fun child => authorized s child account) (read_children policy_id s)
    else forallb (fun child => authorized s child account) (read_children policy_id s).
Proof.
  intros Hwf Hp Hc. pose proof (authorized_at 5 s policy_id account Hwf ltac:(unfold AUTHORIZATION_DEPTH; lia)) as E.
  remember 4%nat as fuel eqn:Ef. cbn [is_authorized] in E. unfold is_inverted in Hp.
  assert (Hb : is_builtin policy_id = false).
  { destruct (is_builtin policy_id) eqn:Eb; [|done].
    by destruct (builtin_counters _ Eb) as [->| ->]. }
  apply orb_false_iff in Hb as [Ha Hb]. rewrite bool_decide_eq_false in Ha, Hb.
  rewrite !decide_False in E by done. unfold is_composite in Hc. apply orb_true_iff in Hc.
  rewrite !bool_decide_eq_true in Hc.
  assert (Hw : is_well_formed policy_id = true).
  { unfold is_well_formed. apply bool_decide_eq_true. destruct Hc as [-> | ->]; done. }
  rewrite Hw in E. cbn [negb] in E.
  rewrite !(find_child_all _ _ (fun child => authorized s child account)) in E
    by (intros child _; apply authorized_at; [done|subst; unfold AUTHORIZATION_DEPTH; lia]).
  case_decide; [by injection E as <-|]. destruct Hc; [done|]. rewrite decide_True in E by done. by injection E as <-.
Qed.

(** ** The registry as a state machine *)

Definition counter_of (s : PolicyStorage.t) : Z := Z.max BUILTIN_POLICY_COUNT (next_counter s).

Definition policies_of (s : PolicyStorage.t) : gmap Z Z :=
  if decide (BUILTIN_POLICY_COUNT <= next_counter s) then policies s
  else <[ALWAYS_BLOCK_ID := PackedPolicy.new Address_ZERO]>
         (<[ALWAYS_ALLOW_ID := PackedPolicy.new Address_ZERO]> (policies s)).

Definition entries (policy_id : Z) (accounts : list Address) : gset (Z * Address) :=
  list_to_set (map (pair policy_id) accounts).

(** A call of [caller] that succeeds does one of these. *)
Inductive step (caller : Address) (s s' : PolicyStorage.t) : Prop :=
| step_create ty admin accounts kids :
    counter_of s < COUNTER_MASK -> admin <> Address_ZERO ->
    Forall (child_ok s) kids ->
    policies s' = <[make_id (as_discriminant ty) (counter_of s) := PackedPolicy.new admin]> (policies_of s) ->
    members s' = entries (make_id (as_discriminant ty) (counter_of s)) accounts ∪ members s ->
    pending_admins s' = pending_admins s -> next_counter s' = counter_of s + 1 ->
    (children s' = children s /\ kids = [] \/
     children s' = <[make_id (as_discriminant ty) (counter_of s) := kids]> (children s)) ->
    step caller s s'
| step_members policy_id accounts :
    exists_at s policy_id = true -> PackedPolicy.admin (read_policy_word policy_id s) = caller ->
    policies s' = policies s ->
    (members s' = entries policy_id accounts ∪ members s \/ members s' = members s ∖ entries policy_id accounts) ->
    pending_admins s' = pending_admins s -> next_counter s' = next_counter s -> children s' = children s ->
    step caller s s'
| step_children policy_id kids :
    exists_at s policy_id = true -> PackedPolicy.admin (read_policy_word policy_id s) = caller ->
    Forall (child_ok s) kids ->
    policies s' = policies s -> members s' = members s -> pending_admins s' = pending_admins s ->
    next_counter s' = next_counter s -> children s' = <[policy_id := kids]> (children s) ->
    step caller s s'
| step_pending policy_id :
    exists_at s policy_id = true -> PackedPolicy.admin (read_policy_word policy_id s) = caller ->
    policies s' = policies s -> members s' = members s ->
    (forall other, other <> policy_id -> pending_admins s' !! other = pending_admins s !! other) ->
    next_counter s' = next_counter s -> children s' = children s ->
    step caller s s'
| step_admin policy_id new_admin :
    exists_at s policy_id = true ->
    (PackedPolicy.admin (read_policy_word policy_id s) = caller /\ new_admin = Address_ZERO \/
     read_pending_admin policy_id s = caller /\ caller <> Address_ZERO /\ new_admin = caller) ->
    policies s' = <[policy_id := PackedPolicy.new new_admin]> (policies s) ->
    members s' = members s -> pending_admins s' = delete policy_id (pending_admins s) ->
    next_counter s' = next_counter s -> children s' = children s ->
    step caller s s'.

(** *** Running a call *)

Lemma bind_ok {E S A B} (m : eff E S A) (k : A -> eff E S B) s b s' :
  (m ≫= k) s = (Ok b, s') -> exists a s1, m s = (Ok a, s1) /\ k a s1 = (Ok b, s').
Proof. rewrite bind_run. destruct (m s) as [[a| |] s1]; [by eauto|done|done]. Qed.

Lemma ensure_ok {E S} c (e : E) (s : S) u s' : ensure c e s = (Ok u, s') -> c = true /\ s' = s.
Proof. unfold ensure. destruct c; [|done]. by intros [= _ <-]. Qed.

Lemma gets_ok {E S A} (f : S -> A) s a s' : (gets f : eff E S A) s = (Ok a, s') -> a = f s /\ s' = s.
Proof. by intros [= <- <-]. Qed.

Lemma modify_ok {E S} (f : S -> S) s u s' : (modify f : eff E S ()) s = (Ok u, s') -> s' = f s.
Proof. by intros [= _ <-]. Qed.

Lemma mret_ok {E S A} (a : A) s b s' : (mret a : eff E S A) s = (Ok b, s') -> b = a /\ s' = s.
Proof. by intros [= <- <-]. Qed.

(** Takes a successful run apart into those of its steps. *)
Ltac inv_run :=
  repeat match goal with
  | H : (_ ≫= _) _ = (Ok _, _) |- _ =>
      let a := fresh "x" in let s1 := fresh "st" in let H1 := fresh "Hr" in
      apply bind_ok in H as (a & s1 & H1 & H); try match type of a with unit => destruct a end
  | H : ensure _ _ _ = (Ok _, _) |- _ =>
      let Hc := fresh "Hc" in apply ensure_ok in H as [Hc ->]
  | H : gets _ _ = (Ok _, _) |- _ => apply gets_ok in H as [-> ->]
  | H : modify _ _ = (Ok _, _) |- _ => apply modify_ok in H as ->
  | H : mret _ _ = (Ok _, _) |- _ => first [apply mret_ok in H as [-> ->] | apply mret_ok in H as [_ ->]]
  | H : fail _ _ = (Ok _, _) |- _ => discriminate H
  end.

Lemma for_each_modify {E S A} (f : A -> S -> S) l (s : S) u s' :
  (for_each (fun a => modify (f a)) l : eff E S ()) s = (Ok u, s') -> s' = fold_left (fun s a => f a s) l s.
Proof.
  revert s. induction l as [|a l IH]; intros s Hr; cbn [for_each] in Hr; inv_run; [done|]. by apply IH.
Qed.

Lemma for_each_check {E S A} (f : A -> eff E S ()) (P : A -> Prop) l (s : S) u s' :
  (forall a s u s', f a s = (Ok u, s') -> s' = s) ->
  (forall a u s', f a s = (Ok u, s') -> P a) ->
  for_each f l s = (Ok u, s') -> s' = s /\ Forall P l.
Proof.
  intros Hs HP. induction l as [|a l IH]; cbn [for_each]; intros Hr; inv_run; [done|].
  pose proof (HP _ _ _ Hr0) as Ha. apply Hs in Hr0 as ->. destruct (IH Hr) as [-> Hl]. auto.
Qed.

Lemma require_existing_ok policy_id s packed s' :
  require_existing_policy policy_id s = (Ok packed, s') ->
  packed = read_policy_word policy_id s /\ s' = s /\ exists_at s policy_id = true.
Proof. unfold require_existing_policy. intros Hr. inv_run. done. Qed.

Lemma require_admin_ok caller policy_id s packed s' :
  require_admin caller policy_id s = (Ok packed, s') ->
  s' = s /\ exists_at s policy_id = true /\ PackedPolicy.admin (read_policy_word policy_id s) = caller.
Proof.
  unfold require_admin. intros Hr. inv_run. apply require_existing_ok in Hr0 as (-> & -> & He).
  by apply bool_decide_eq_true in Hc.
Qed.

Lemma validate_children_ok kids s u s' :
  validate_composite_child_policies kids s = (Ok u, s') -> s' = s /\ Forall (child_ok s) kids.
Proof.
  unfold validate_composite_child_policies. intros Hr. inv_run.
  apply (for_each_check _ (fun child => exists_at s (base_policy_id child) = true)) in Hr0 as [-> H1].
  - apply (for_each_check _ (fun child => is_builtin (base_policy_id child) || is_composite (base_policy_id child) = false))
      in Hr as [-> H2].
    + split; [done|]. rewrite Forall_forall in *. intros child Hch. specialize (H2 child Hch).
      apply orb_false_iff in H2. split; [by apply H1|done].
    + intros child t v t' H. by inv_run.
    + intros child v t' H. inv_run. by apply negb_true_iff.
  - intros child t v t' H. inv_run. by apply require_existing_ok in Hr1 as (_ & -> & _).
  - intros child v t' H. inv_run. by apply require_existing_ok in Hr1 as (_ & _ & He).
Qed.

Lemma fold_set_member policy_id accounts s :
  let s' := fold_left (fun s account => set_member policy_id account s) accounts s in
  policies s' = policies s /\ members s' = entries policy_id accounts ∪ members s /\
  pending_admins s' = pending_admins s /\ next_counter s' = next_counter s /\ children s' = children s.
Proof.
  cbn. revert s. induction accounts as [|a accounts IH]; intros s; cbn [fold_left].
  - unfold entries. cbn. rewrite union_empty_l_L. done.
  - destruct (IH (set_member policy_id a s)) as (-> & -> & -> & -> & ->). cbn. unfold entries. cbn. set_solver.
Qed.

Lemma fold_delete_member policy_id accounts s :
  let s' := fold_left (fun s account => delete_member policy_id account s) accounts s in
  policies s' = policies s /\ members s' = members s ∖ entries policy_id accounts /\
  pending_admins s' = pending_admins s /\ next_counter s' = next_counter s /\ children s' = children s.
Proof.
  cbn. revert s. induction accounts as [|a accounts IH]; intros s; cbn [fold_left].
  - unfold entries. cbn. rewrite difference_empty_L. done.
  - destruct (IH (delete_member policy_id a s)) as (-> & -> & -> & -> & ->). cbn. unfold entries. cbn. set_solver.
Qed.

Lemma create_inner_ok caller admin ty s policy_id s' :
  create_policy_inner caller admin ty (as_discriminant ty) s = (Ok policy_id, s') ->
  policy_id = make_id (as_discriminant ty) (counter_of s) /\ counter_of s < COUNTER_MASK /\
  policies s' = <[policy_id := PackedPolicy.new admin]> (policies_of s) /\
  members s' = members s /\ pending_admins s' = pending_admins s /\
  next_counter s' = counter_of s + 1 /\ children s' = children s.
Proof.
  unfold create_policy_inner, ensure_initialized_and_get_counter, counter_of, policies_of.
  intros Hr. apply bind_ok in Hr as (counter & s1 & Hi & Hr). inv_run.
  apply negb_true_iff, bool_decide_eq_false in Hc. case_decide; inv_run; cbn; repeat split; try done; try lia.
  all: rewrite ?Z.max_r, ?Z.max_l by (unfold BUILTIN_POLICY_COUNT in *; lia); done || lia.
Qed.

Lemma update_membership_ok caller policy_id ty add accounts s u s' :
  update_membership caller policy_id ty add accounts s = (Ok u, s') ->
  exists_at s policy_id = true /\ PackedPolicy.admin (read_policy_word policy_id s) = caller /\
  policies s' = policies s /\
  (members s' = entries policy_id accounts ∪ members s \/ members s' = members s ∖ entries policy_id accounts) /\
  pending_admins s' = pending_admins s /\ next_counter s' = next_counter s /\ children s' = children s.
Proof.
  unfold update_membership, require_account_batch_size. intros Hr. inv_run.
  apply require_existing_ok in Hr0 as (-> & -> & He). apply bool_decide_eq_true in Hc0.
  destruct add; apply for_each_modify in Hr as ->.
  - destruct (fold_set_member policy_id accounts s) as (-> & -> & -> & -> & ->). auto 10.
  - destruct (fold_delete_member policy_id accounts s) as (-> & -> & -> & -> & ->). auto 10.
Qed.

Lemma validate_inputs_ok admin ty s u8 s' :
  validate_create_policy_inputs admin ty s = (Ok u8, s') ->
  s' = s /\ admin <> Address_ZERO /\ u8 = as_discriminant ty.
Proof.
  unfold validate_create_policy_inputs. intros Hr. inv_run. apply negb_true_iff, bool_decide_eq_false in Hc.
  destruct ty; inv_run; done.
Qed.

(** Takes the guards of a call apart as well. *)
Ltac inv_guards :=
  repeat (inv_run;
    match goal with
    | H : require_existing_policy _ _ = (Ok _, _) |- _ => apply require_existing_ok in H as (-> & -> & ?)
    | H : require_admin _ _ _ = (Ok _, _) |- _ => apply require_admin_ok in H as (-> & ? & ?)
    | H : validate_composite_child_policies _ _ = (Ok _, _) |- _ => apply validate_children_ok in H as [-> ?]
    | H : validate_create_policy_inputs _ _ _ = (Ok _, _) |- _ => apply validate_inputs_ok in H as (-> & ? & ->)
    | H : update_membership _ _ _ _ _ _ = (Ok _, _) |- _ =>
        apply update_membership_ok in H as (? & ? & ? & ? & ? & ? & ?)
    | H : create_policy_inner _ _ _ _ _ = (Ok _, _) |- _ =>
        apply create_inner_ok in H as (-> & ? & ? & ? & ? & ? & ?)
    | H : require_account_batch_size _ _ = (Ok _, _) |- _ => unfold require_account_batch_size in H
    | H : require_child_policy_in_range _ _ = (Ok _, _) |- _ => unfold require_child_policy_in_range in H
    | H : negb (bool_decide _) = true |- _ => apply negb_true_iff, bool_decide_eq_false in H
    | H : bool_decide _ = true |- _ => apply bool_decide_eq_true in H
    end).

Lemma entries_nil (policy_id : Z) (X : gset (Z * Address)) : entries policy_id [] ∪ X = X.
Proof. unfold entries. cbn. apply union_empty_l_L. Qed.

Lemma create_policy_step caller admin ty s policy_id s' :
  create_policy caller admin ty s = (Ok policy_id, s') -> step caller s s'.
Proof.
  unfold create_policy. intros Hr. inv_guards.
  apply (step_create _ _ _ ty admin [] []); try done; [by rewrite entries_nil|by left].
Qed.

Lemma create_with_accounts_step caller admin ty accounts s policy_id s' :
  create_policy_with_accounts caller admin ty accounts s = (Ok policy_id, s') -> step caller s s'.
Proof.
  unfold create_policy_with_accounts. intros Hr. inv_guards.
  match goal with H : for_each _ _ ?s1 = (_, ?s2), H' : policies ?s1 = _ |- _ =>
    rename s1 into s_created, s2 into s_filled; apply for_each_modify in H end.
  match goal with |- step _ _ ?x => rename x into s' end.
  destruct (fold_set_member (make_id (as_discriminant ty) (counter_of s)) accounts s_created) as (E1 & E2 & E3 & E4 & E5).
  assert (HS : policies s' = policies s_filled /\ members s' = members s_filled /\
    pending_admins s' = pending_admins s_filled /\ next_counter s' = next_counter s_filled /\
    children s' = children s_filled) by (destruct ty; inv_run; done).
  subst s_filled. destruct HS as (? & ? & ? & ? & ?).
  apply (step_create _ _ _ ty admin accounts []); try done; try (left; split); congruence.
Qed.

Lemma create_composite_step caller admin ty kids s policy_id s' :
  create_composite_policy caller admin ty kids s = (Ok policy_id, s') -> step caller s s'.
Proof.
  unfold create_composite_policy. intros Hr. 
  destruct ty; inv_guards; try done.
  - apply (step_create _ _ _ UNION admin [] kids); try done; [by rewrite entries_nil|right; cbn in *; congruence].
  - apply (step_create _ _ _ INTERSECT admin [] kids); try done; [by rewrite entries_nil|right; cbn in *; congruence].
Qed.

(** A successful call is a step. *)
Lemma route_step caller call s r s' : route caller call s = (Ok r, s') -> step caller s s'.
Proof.
  destruct call; unfold route; intros Hr; inv_run.
  - by eapply create_policy_step.
  - by eapply create_with_accounts_step.
  - by eapply create_composite_step.
  - unfold update_composite in Hr0. inv_guards. by apply (step_children _ _ _ policy_id child_policy_ids).
  - unfold stage_update_admin in Hr0. inv_guards.
    apply (step_pending _ _ _ policy_id); try done; case_decide; try done; cbn; intros other Ho;
      [by apply lookup_delete_ne|by apply lookup_insert_ne].
  - unfold finalize_update_admin in Hr0. inv_guards.
    apply (step_admin _ _ _ policy_id caller); try done. right. split; [done|]. split; [congruence|done].
  - unfold renounce_admin in Hr0. inv_guards.
    apply (step_admin _ _ _ policy_id Address_ZERO); try done. by left.
  - unfold update_allowlist in Hr0. inv_guards. by apply (step_members _ _ _ policy_id accounts).
  - unfold update_blocklist in Hr0. inv_guards. by apply (step_members _ _ _ policy_id accounts).
Qed.

(** *** The invariant is kept *)

Definition exists_in (m : gmap Z Z) (policy_id : Z) : bool := PackedPolicy.exists_ (default 0 (m !! policy_id)).

Lemma exists_in_insert m k admin policy_id :
  exists_in (<[k := PackedPolicy.new admin]> m) policy_id = true <-> k = policy_id \/ exists_in m policy_id = true.
Proof.
  unfold exists_in. destruct (decide (k = policy_id)) as [->|Hn].
  - rewrite lookup_insert_eq. cbn -[PackedPolicy.exists_ PackedPolicy.new]. rewrite packed_exists. tauto.
  - rewrite lookup_insert_ne by done. tauto.
Qed.

Lemma policies_of_exists s policy_id :
  wf s -> exists_in (policies_of s) policy_id = true <-> is_builtin policy_id = true \/ exists_at s policy_id = true.
Proof.
  intros Hwf. unfold policies_of, is_builtin. rewrite orb_true_iff, !bool_decide_eq_true.
  change (exists_at s policy_id) with (exists_in (policies s) policy_id). case_decide as Hn.
  - destruct (wf_builtins s Hwf) as [Ha Hb]; [unfold BUILTIN_POLICY_COUNT in Hn; lia|]. split; [tauto|].
    by intros [[->| ->]|]; [exact Ha|exact Hb|].
  - rewrite !exists_in_insert. naive_solver.
Qed.

Lemma step_exists caller s s' policy_id :
  wf s -> step caller s s' -> exists_at s policy_id = true -> exists_at s' policy_id = true.
Proof.
  intros Hwf Hs He. change (exists_in (policies s') policy_id = true).
  destruct Hs as [ty admin accounts kids _ _ _ Hp|id accounts _ _ Hp|id kids _ _ _ Hp|id _ _ Hp|id admin _ _ Hp];
    rewrite Hp; [|exact He..|].
  - apply exists_in_insert. right. apply policies_of_exists; auto.
  - apply exists_in_insert. by right.
Qed.

Lemma step_child_ok caller s s' child : wf s -> step caller s s' -> child_ok s child -> child_ok s' child.
Proof. intros Hwf Hs (He & Hb & Hc). split; [|done]. by eapply step_exists. Qed.

Lemma read_children_insert s s' k kids policy_id :
  children s' = <[k := kids]> (children s) ->
  read_children policy_id s' = if decide (k = policy_id) then kids else read_children policy_id s.
Proof.
  intros E. unfold read_children. rewrite E. case_decide as Hk.
  - subst. by rewrite lookup_insert_eq.
  - by rewrite lookup_insert_ne.
Qed.

Lemma step_children_ok caller s s' policy_id :
  wf s -> step caller s s' -> Forall (child_ok s') (read_children policy_id s').
Proof.
  intros Hwf Hs. assert (HF : forall l, Forall (child_ok s) l -> Forall (child_ok s') l).
  { intros l Hl. eapply List.Forall_impl; [|exact Hl]. intros child. by eapply step_child_ok. }
  assert (HE : children s' = children s -> Forall (child_ok s') (read_children policy_id s')).
  { intros E. unfold read_children. rewrite E. apply HF, (wf_children s Hwf). }
  assert (HK : forall k kids, Forall (child_ok s) kids -> children s' = <[k := kids]> (children s) ->
    Forall (child_ok s') (read_children policy_id s')).
  { intros k kids Hk E. rewrite (read_children_insert s s' k kids) by done.
    case_decide; apply HF; [done|apply (wf_children s Hwf)]. }
  destruct Hs as [ty admin accounts kids _ _ Hk _ _ _ _ [[E _]|E]| |id kids _ _ Hk _ _ _ _ E| |]; eauto.
Qed.

Lemma elem_of_entries policy_id accounts (x : Z * Address) :
  x ∈ entries policy_id accounts <-> x.1 = policy_id /\ x.2 ∈ accounts.
Proof.
  unfold entries. rewrite elem_of_list_to_set. change (map (pair policy_id) accounts) with (pair policy_id <$> accounts).
  rewrite list_elem_of_fmap. destruct x as [id a]. cbn. naive_solver.
Qed.

Lemma step_members_ok caller s s' policy_id account :
  wf s -> step caller s s' -> (policy_id, account) ∈ members s' -> exists_at s' policy_id = true.
Proof.
  intros Hwf Hs Hm. destruct (decide ((policy_id, account) ∈ members s)) as [Ho|Ho].
  { eapply step_exists; [done..|]. by apply (wf_members s Hwf _ _ Ho). }
  assert (HE : forall id accounts, (policy_id, account) ∈ entries id accounts ∪ members s -> policy_id = id).
  { intros id accounts [Hi|Hi]%elem_of_union; [|done]. apply elem_of_entries in Hi as [E _]. exact E. }
  destruct Hs as [ty admin accounts kids _ _ _ Hp Hm' _ _ _|id accounts He _ Hp [Hm'|Hm'] _ _ _| | |]; rewrite ?Hm' in Hm.
  - apply HE in Hm as ->. change (exists_in (policies s') (make_id (as_discriminant ty) (counter_of s)) = true).
    rewrite Hp, exists_in_insert. by left.
  - apply HE in Hm as ->. change (exists_in (policies s') id = true). by rewrite Hp.
  - set_solver.
  - congruence.
  - congruence.
  - congruence.
Qed.

Lemma counter_of_bound s : wf s -> next_counter s <= counter_of s /\ BUILTIN_POLICY_COUNT <= counter_of s.
Proof. unfold counter_of. lia. Qed.

Lemma step_wf caller s s' : wf s -> step caller s s' -> wf s'.
Proof.
  intros Hwf Hs. pose proof (counter_of_bound s Hwf) as Hb. unfold BUILTIN_POLICY_COUNT in Hb.
  assert (HN : next_counter s' = next_counter s \/ next_counter s' = counter_of s + 1 /\ counter_of s < COUNTER_MASK).
  { destruct Hs; auto. }
  split.
  - destruct HN as [-> |[-> Hlt]]; [apply (wf_counter s Hwf)|]. right. unfold BUILTIN_POLICY_COUNT. lia.
  - assert (Hold : forall policy_id, exists_at s policy_id = true -> exists ty counter,
      0 <= counter < next_counter s' /\ policy_id = make_id (as_discriminant ty) counter).
    { intros policy_id He. destruct (wf_ids s Hwf _ He) as (ty & c & Hc & ->). exists ty, c. split; [lia|done]. }
    intros policy_id He. change (exists_in (policies s') policy_id = true) in He.
    destruct Hs as [ty admin accounts kids Hlt _ _ Hp _ _ Hn _|id accounts _ _ Hp|id kids _ _ _ Hp|id _ _ Hp|id admin Hid _ Hp];
      rewrite Hp in He; [|by apply Hold..|].
    + apply exists_in_insert in He as [<-|He]; [exists ty, (counter_of s); split; [lia|done]|].
      apply policies_of_exists in He as [He|He]; [|by apply Hold|done].
      destruct (builtin_counters _ He) as [->| ->]; eexists _, _; (split; [|reflexivity]); lia.
    + apply exists_in_insert in He as [<-|He]; by apply Hold.
  - intros Hn. destruct HN as [E|[E Hlt]].
    + destruct (wf_builtins s Hwf) as [Ha Hbk]; [congruence|]. split; by eapply step_exists.
    + destruct Hs as [ty admin accounts kids _ _ _ Hp| | | |]; try (exfalso; lia).
      split; [change (exists_in (policies s') ALWAYS_ALLOW_ID = true)|change (exists_in (policies s') ALWAYS_BLOCK_ID = true)];
        rewrite Hp, exists_in_insert; right; apply policies_of_exists; auto.
  - intros policy_id. by eapply step_children_ok.
  - intros policy_id account. by eapply step_members_ok.
Qed.

Lemma run_calls_wf calls s : wf s -> wf (run_calls calls s).
Proof.
  revert s. induction calls as [|[caller call] calls IH]; intros s Hwf; [done|].
  unfold run_calls. cbn [fold_left]. apply IH. unfold frame. cbn [fst snd].
  destruct (route caller call s) as [[r| |] s'] eqn:Hr; [|done|done]. cbn. eapply step_wf; [done|].
  by eapply route_step.
Qed.

(** ** Who can change a policy *)

Record same_record (s s' : PolicyStorage.t) (policy_id : Z) : Prop := {
  sr_word : read_policy_word policy_id s' = read_policy_word policy_id s;
  sr_pending : read_pending_admin policy_id s' = read_pending_admin policy_id s;
  sr_children : read_children policy_id s' = read_children policy_id s;
  sr_members : forall account, read_member policy_id account s' = read_member policy_id account s
}.

Lemma same_record_refl s policy_id : same_record s s policy_id.
Proof. by split. Qed.

Lemma same_record_trans s1 s2 s3 policy_id :
  same_record s1 s2 policy_id -> same_record s2 s3 policy_id -> same_record s1 s3 policy_id.
Proof. intros [W P C M] [W' P' C' M']. split; [congruence..|]. intros a. by rewrite M', M. Qed.

Lemma read_member_entries s s' policy_id other accounts account :
  other <> policy_id ->
  members s' = entries other accounts ∪ members s \/ members s' = members s ∖ entries other accounts ->
  read_member policy_id account s' = read_member policy_id account s.
Proof.
  intros Hn Hm. unfold read_member. apply bool_decide_ext.
  assert (~ (policy_id, account) ∈ entries other accounts) by (rewrite elem_of_entries; cbn; naive_solver).
  destruct Hm as [-> | ->]; set_solver.
Qed.

Lemma fresh_id s ty policy_id :
  wf s -> counter_of s < COUNTER_MASK -> exists_at s policy_id = true ->
  make_id (as_discriminant ty) (counter_of s) <> policy_id.
Proof.
  intros Hwf Hlt He E. destruct (wf_ids s Hwf _ He) as (ty' & c & Hc & ->).
  pose proof (counter_of_bound s Hwf) as Hb. unfold BUILTIN_POLICY_COUNT in Hb.
  apply make_id_inj in E; lia.
Qed.

Lemma policies_of_known s policy_id :
  wf s -> exists_at s policy_id = true -> policies_of s !! policy_id = policies s !! policy_id.
Proof.
  intros Hwf He. destruct (wf_ids s Hwf _ He) as (ty & c & Hc & _). unfold policies_of.
  rewrite decide_True; [done|]. destruct (wf_counter s Hwf); lia.
Qed.

(** A step leaves a policy alone unless it is that of the admin, or of the
    pending admin who takes over. *)
Lemma step_same_record caller s s' policy_id :
  wf s -> step caller s s' -> exists_at s policy_id = true ->
  PackedPolicy.admin (read_policy_word policy_id s) <> caller ->
  (caller <> Address_ZERO -> read_pending_admin policy_id s <> caller) ->
  same_record s s' policy_id.
Proof.
  intros Hwf Hs He Ha Hp.
  destruct Hs as [ty admin accounts kids Hlt _ _ Ep Em Epend _ Ech|id accounts _ Ha' Ep Em Epend _ Ech
    |id kids _ Ha' _ Ep Em Epend _ Ech|id _ Ha' Ep Em Epend _ Ech|id admin _ Hc Ep Em Epend _ Ech].
  - pose proof (fresh_id s ty policy_id Hwf Hlt He) as Hf. split.
    + unfold read_policy_word. rewrite Ep, lookup_insert_ne by done. by rewrite policies_of_known.
    + unfold read_pending_admin. by rewrite Epend.
    + destruct Ech as [[E _]|E]; [unfold read_children; by rewrite E|].
      rewrite (read_children_insert s s' _ _ policy_id E). by rewrite decide_False.
    + intros account. eapply read_member_entries; eauto.
  - assert (id <> policy_id) by congruence. split; unfold read_policy_word, read_pending_admin, read_children; [congruence..|].
    intros account. by apply (read_member_entries s s' policy_id id accounts).
  - assert (id <> policy_id) by congruence. split; unfold read_policy_word, read_pending_admin, read_member; [congruence..| |].
    + rewrite (read_children_insert s s' _ _ policy_id Ech). by rewrite decide_False.
    + intros account. by rewrite Em.
  - assert (Hne : policy_id <> id) by congruence. split; unfold read_policy_word, read_pending_admin, read_member, read_children.
    + congruence.
    + by rewrite Epend.
    + congruence.
    + intros account. by rewrite Em.
  - assert (Hne : id <> policy_id) by (destruct Hc as [[Hc _]|(Hc & Hz & _)]; [congruence|specialize (Hp Hz); congruence]).
    split; unfold read_policy_word, read_pending_admin, read_member, read_children.
    + by rewrite Ep, lookup_insert_ne.
    + by rewrite Epend, lookup_delete_ne.
    + congruence.
    + intros account. by rewrite Em.
Qed.

Lemma ownerless_frozen calls s policy_id :
  wf s -> exists_at s policy_id = true ->
  PackedPolicy.admin (read_policy_word policy_id s) = Address_ZERO ->
  read_pending_admin policy_id s = Address_ZERO ->
  Forall (fun c => c.1 <> Address_ZERO) calls ->
  same_record s (run_calls calls s) policy_id.
Proof.
  revert s. induction calls as [|[caller call] calls IH]; intros s Hwf He Ha Hp Hc; [apply same_record_refl|].
  apply Forall_cons in Hc as [Hz Hc]. cbn in Hz. unfold run_calls. cbn [fold_left]. fold (run_calls calls).
  unfold frame. cbn [fst snd]. destruct (route caller call s) as [[r| |] s'] eqn:Hr; [|by apply IH..]. cbn [snd].
  apply route_step in Hr. assert (Hsame : same_record s s' policy_id).
  { apply (step_same_record caller); [done|done|done|rewrite Ha; auto|]. intros _. rewrite Hp. auto. }
  apply (same_record_trans _ s'); [done|]. destruct Hsame as [W P _ _].
  apply IH; [by eapply step_wf|by eapply step_exists|congruence|congruence|done].
Qed.

(** Once its admin renounces it, a policy is frozen: no calls change its
    members, its children or its admin.  The zero address makes no calls. *)
Theorem renounced_policy_frozen history caller policy_id r s calls :
  frame (route caller (renounceAdmin policy_id)) (run_calls history empty) = (Ok r, s) ->
  Forall (fun c => c.1 <> Address_ZERO) calls ->
  same_record s (run_calls calls s) policy_id.
Proof.
  intros Hr Hc. pose proof (run_calls_wf history empty wf_empty) as Hwf. set (s0 := run_calls history empty) in *.
  unfold frame in Hr. destruct (route caller (renounceAdmin policy_id) s0) as [[r'| |] s'] eqn:E; [|done|done].
  injection Hr as -> ->. pose proof (route_step _ _ _ _ _ E) as Hs.
  assert (Hd : exists_at s policy_id = true /\ PackedPolicy.admin (read_policy_word policy_id s) = Address_ZERO /\
    read_pending_admin policy_id s = Address_ZERO).
  { unfold route, renounce_admin in E. inv_guards. unfold exists_at, read_policy_word, read_pending_admin.
    cbn -[PackedPolicy.new PackedPolicy.exists_ PackedPolicy.admin PackedPolicy.with_admin].
    rewrite lookup_insert_eq, lookup_delete_eq. cbn -[PackedPolicy.new PackedPolicy.exists_ PackedPolicy.admin PackedPolicy.with_admin].
    unfold PackedPolicy.with_admin. by rewrite packed_exists, packed_admin. }
  destruct Hd as (He & Ha & Hp). apply ownerless_frozen; [by eapply step_wf|done..].
Qed.

(** C40: in every registry that calls build, the recursion of an authorization ends
    within four calls and never fails; negating the identifier of a policy negates
    it; a union authorizes who a child authorizes, an intersection who all
    children authorize. *)
Theorem authorization_meaning history account :
  let s := run_calls history empty in
  (forall fuel policy_id, (AUTHORIZATION_DEPTH <= fuel)%nat ->
     is_authorized fuel s policy_id account = Ok (authorized s policy_id account)) /\
  (forall policy_id, policy_exists s policy_id = true ->
     authorized s (inverted_policy_id policy_id) account = negb (authorized s policy_id account)) /\
  (forall policy_id, ~ is_inverted policy_id -> is_composite policy_id = true ->
     authorized s policy_id account =
       if decide (policy_id_type policy_id = as_discriminant UNION)
       then existsb (fun child => authorized s child account) (read_children policy_id s)
       else forallb (fun child => authorized s child account) (read_children policy_id s)).
Proof.
  intros s. pose proof (run_calls_wf history empty wf_empty) as Hwf. split; [|split].
  - intros fuel policy_id Hf. by apply authorized_at.
  - intros policy_id He. by apply authorized_inverted.
  - intros policy_id Hp Hc. by apply authorized_composite.
Qed.

Definition on_list (ty : PolicyType) (member : bool) : bool :=
  match ty with ALLOWLIST => member | _ => negb member end.

Lemma authorized_of_list s ty counter account :
  wf s -> BUILTIN_POLICY_COUNT <= counter <= COUNTER_MASK -> ty = ALLOWLIST \/ ty = BLOCKLIST ->
  authorized s (make_id (as_discriminant ty) counter) account =
    on_list ty (read_member (make_id (as_discriminant ty) counter) account s).
Proof.
  intros Hwf Hc Hty. set (policy_id := make_id (as_discriminant ty) counter).
  pose proof (authorized_at 5 s policy_id account Hwf ltac:(unfold AUTHORIZATION_DEPTH; lia)) as E.
  remember 4%nat as fuel eqn:Ef. cbn [is_authorized] in E.
  assert (Hb : is_builtin policy_id = false).
  { unfold BUILTIN_POLICY_COUNT in Hc. destruct (is_builtin policy_id) eqn:Eb; [|done]. apply builtin_counters in Eb.
    destruct Eb as [Eb|Eb]; apply make_id_inj in Eb; try lia; split; done || lia. }
  apply orb_false_iff in Hb as [Ha Hb]. rewrite bool_decide_eq_false in Ha, Hb.
  rewrite (decide_False (P := _ = ALWAYS_ALLOW_ID)), (decide_False (P := _ = ALWAYS_BLOCK_ID)) in E by done.
  unfold BUILTIN_POLICY_COUNT in Hc. rewrite (decide_False (P := _ <> 0)) in E by (apply make_id_plain; lia).
  unfold is_well_formed in E.
  assert (Ht : policy_id_type policy_id = as_discriminant ty) by (apply policy_id_type_make; lia).
  rewrite !Ht in E.
  destruct Hty as [-> | ->]; cbn in E; by injection E as <-.
Qed.

Lemma create_with_accounts_made caller admin ty accounts s policy_id s' :
  create_policy_with_accounts caller admin ty accounts s = (Ok policy_id, s') ->
  policy_id = make_id (as_discriminant ty) (counter_of s) /\ counter_of s < COUNTER_MASK /\
  (ty = ALLOWLIST \/ ty = BLOCKLIST) /\
  read_policy_word policy_id s' = PackedPolicy.new admin /\
  members s' = entries policy_id accounts ∪ members s.
Proof.
  unfold create_policy_with_accounts. intros Hr. inv_guards.
  match goal with H : for_each _ _ ?s1 = (_, ?s2), H' : policies ?s1 = _ |- _ =>
    rename s1 into s_created, s2 into s_filled, H' into Hpol; apply for_each_modify in H; subst s_filled end.
  destruct (fold_set_member (make_id (as_discriminant ty) (counter_of s)) accounts s_created) as (E1 & E2 & _).
  unfold read_policy_word. destruct ty; inv_run; cbn [policies members emit_event] in *;
    rewrite E1, E2, Hpol, lookup_insert_eq; split_and!; auto; congruence.
Qed.

(** A policy created with accounts has an identifier that no policy had and the
    admin that was given; it authorizes exactly the accounts, or all but the
    accounts for a block list, and leaves every policy as it was that the caller
    does not administrate. *)
Theorem created_list_policy history caller admin ty accounts policy_id s' :
  let s := run_calls history empty in
  frame (route caller (createPolicyWithAccounts admin ty accounts)) s = (Ok (Some policy_id), s') ->
  len admin = 20 ->
  exists_at s policy_id = false /\ get_policy_admin s' policy_id = admin /\
  (forall account, authorized s' policy_id account = on_list ty (bool_decide (account ∈ accounts))) /\
  (forall other, exists_at s other = true -> read_pending_admin other s <> caller ->
     PackedPolicy.admin (read_policy_word other s) <> caller -> same_record s s' other).
Proof.
  intros s Hr Hl. pose proof (run_calls_wf history empty wf_empty) as Hwf. fold s in Hwf.
  unfold frame in Hr. destruct (route _ _ s) as [[r| |] s''] eqn:E; [|done|done]. injection Hr as -> ->.
  pose proof (route_step _ _ _ _ _ E) as Hs. pose proof (step_wf _ _ _ Hwf Hs) as Hwf'.
  unfold route in E. apply bind_ok in E as (id & s1 & E & Er). apply mret_ok in Er as [Er ->]. injection Er as <-.
  apply create_with_accounts_made in E as (Eid & Hlt & Hty & Hw & Hm).
  pose proof (counter_of_bound s Hwf) as Hb.
  assert (Hfresh : exists_at s policy_id = false).
  { destruct (exists_at s policy_id) eqn:He; [|done]. by destruct (fresh_id s ty policy_id Hwf Hlt He). }
  split; [done|]. split; [|split].
  - unfold get_policy_admin. unfold BUILTIN_POLICY_COUNT in Hb.
    rewrite base_of_plain by (subst policy_id; apply make_id_plain; lia).
    unfold is_well_formed. rewrite Hw, packed_exists, packed_admin by done. subst policy_id.
    rewrite policy_id_type_make by lia. by destruct Hty as [-> | ->].
  - intros account. subst policy_id. rewrite authorized_of_list by (done || lia). f_equal. unfold read_member.
    apply bool_decide_ext. rewrite Hm, elem_of_union, elem_of_entries. cbn. split; [|naive_solver].
    intros [[_ H]|H]; [done|]. apply (wf_members s Hwf) in H. congruence.
  - intros other He Hp Ha. by eapply step_same_record.
Qed.

(** ** A small registry *)

Module SampleRegistry.

Definition account (n : Z) : Address := zeros 19 ++ [byte.of_Z n].

Definition history : list (Address * PolicyCall) :=
  [(account 1, createPolicyWithAccounts (account 1) ALLOWLIST [account 5; account 6]);
   (account 1, createPolicyWithAccounts (account 1) BLOCKLIST [account 6]);
   (account 2, createCompositePolicy (account 2) INTERSECT
      [make_id 1 2; inverted_policy_id (make_id 0 3)]);
   (account 3, updateAllowlist (make_id 1 2) true [account 3])].

Definition later : list (Address * PolicyCall) :=
  [(account 1, updateAllowlist (make_id 1 2) true [account 9]);
   (account 1, stageUpdateAdmin (make_id 1 2) (account 4));
   (account 4, finalizeUpdateAdmin (make_id 1 2));
   (account 2, updateComposite (make_id 3 4) [make_id 1 2; make_id 0 3])].

Lemma renounced_policy_frozen_witness :
  let s := (frame (route (account 1) (renounceAdmin (make_id 1 2))) (run_calls history empty)).2 in
  same_record s (run_calls later s) (make_id 1 2).
Proof.
  intros s. apply (renounced_policy_frozen history (account 1) (make_id 1 2) None s later).
  - vm_compute. reflexivity.
  - repeat constructor; vm_compute; discriminate.
Defined.

Lemma created_list_policy_witness :
  let s := run_calls history empty in
  let s' := (frame (route (account 7) (createPolicyWithAccounts (account 7) BLOCKLIST [account 8])) s).2 in
  authorized s' (make_id 0 5) (account 8) = false /\ authorized s' (make_id 0 5) (account 9) = true /\
  same_record s s' (make_id 3 4).
Proof.
  intros s s'.
  destruct (created_list_policy history (account 7) (account 7) BLOCKLIST [account 8] (make_id 0 5) s')
    as (_ & _ & Hauth & Hsame).
  - vm_compute. reflexivity.
  - vm_compute. reflexivity.
  - split; [|split].
    + rewrite Hauth. vm_compute. reflexivity.
    + rewrite Hauth. vm_compute. reflexivity.
    + apply Hsame; vm_compute; [reflexivity|discriminate|discriminate].
Defined.

Lemma authorization_meaning_witness :
  let s := run_calls history empty in
  authorized s (inverted_policy_id (make_id 3 4)) (account 5) = negb (authorized s (make_id 3 4) (account 5)) /\
  authorized s (make_id 3 4) (account 6) = true.
Proof.
  intros s. split.
  - destruct (authorization_meaning history (account 5)) as (_ & Hinv & _). apply Hinv. vm_compute. reflexivity.
  - vm_compute. reflexivity.
Defined.

End SampleRegistry.
