(* ===== verification/Stablecoins.v ===== *)
(** * The B-20 stablecoin

    [common/precompiles/src/b20_stablecoin] and the shared parts of [common/]: the
    token contract that the node executes natively, in its third version
    ([logic/v3.rs]), with its guards ([common/ops]), its storage
    ([common/core_storage.rs]), the routing of calls ([dispatch.rs]) and its
    creation by the factory ([b20_factory/logic/v1.rs]).  Gas is left out: a call
    may in addition stop for want of gas, which undoes it like every other error. *)

From S2P Require Import Prelude Effects Primitives SpanTxData Tries Policies.

Definition u256_max : Z := 2 ^ 256 - 1.

Definition u256_checked_add (a b : Z) : option Z := if decide (a + b <= u256_max) then Some (a + b) else None.
Definition u256_checked_sub (a b : Z) : option Z := if decide (b <= a) then Some (a - b) else None.

(** ** Roles, policy slots and features *)

Module B20TokenRole.

Inductive t : Type := DefaultAdmin | Mint | Burn | BurnBlocked | Seize | Pause | Unpause | Metadata.

Definition id (self : t) : B256 :=
  match self with
  | DefaultAdmin => B256_ZERO
  | Mint => to_be_bytes 32 0x154c00819833dac601ee5ddded6fda79d9d8b506b911b3dbd54cdb95fe6c3686
  | Burn => to_be_bytes 32 0xe97b137254058bd94f28d2f3eb79e2d34074ffb488d042e3bc958e0a57d2fa22
  | BurnBlocked => to_be_bytes 32 0x7408fdc0d31c7bcb349eab611f5d1168acd4303574993f8cdc98b1cd18c41cae
  | Seize => to_be_bytes 32 0x3469b8b0d89e9604f8510ed143f74a8336d22955d4f83e23bf53d9414e27f432
  | Pause => to_be_bytes 32 0x139c2898040ef16910dc9f44dc697df79363da767d8bc92f2e310312b816e46d
  | Unpause => to_be_bytes 32 0x265b220c5a8891efdd9e1b1b7fa72f257bd5169f8d87e319cf3dad6ff52b94ae
  | Metadata => to_be_bytes 32 0x6bd6b5318a46e5fff572d5e4258a20774aab40cc35ac7680654b9081fcc82f80
  end.

End B20TokenRole.

Module B20PolicyType.

Inductive t : Type :=
| TransferSender | TransferReceiver | TransferExecutor | MintReceiver | SeizeExempt | SeizeReceiver.

Definition id (self : t) : B256 :=
  match self with
  | TransferSender => to_be_bytes 32 0xb81736c875ab819dd97f59f2a6542cfb731ad52b4ae15a6f24df2fb02b0327f5
  | TransferReceiver => to_be_bytes 32 0x8a4b3fa2d8b921852bc0089c6ef0958aa6961897be36fd731330fe2cd23f8363
  | TransferExecutor => to_be_bytes 32 0x10be5173aff2a44e748bd9acd8b19fe34689581398a9db7ba2fb671e786ff7d8
  | MintReceiver => to_be_bytes 32 0xa0d5ae037e66a09119acf080a1d807abb9b6d03b6b9130eb19f7c1e6bdb8ffc8
  | SeizeExempt => to_be_bytes 32 0xedb5da348cfb67af08746d3afd1be81034b50d5c8576f31aff688f39dfd540ed
  | SeizeReceiver => to_be_bytes 32 0xbf15b19caf5c77422c038bc25f26b8b815c3a14f6d04c6616076b81bcfe07b3d
  end.

Definition from_id (scope : B256) : option t :=
  if decide (scope = id TransferSender) then Some TransferSender
  else if decide (scope = id TransferReceiver) then Some TransferReceiver
  else if decide (scope = id TransferExecutor) then Some TransferExecutor
  else if decide (scope = id MintReceiver) then Some MintReceiver
  else if decide (scope = id SeizeExempt) then Some SeizeExempt
  else if decide (scope = id SeizeReceiver) then Some SeizeReceiver
  else None.

End B20PolicyType.

Module B20PausableFeature.

Inductive t : Type := TRANSFER | MINT | BURN | SEIZE.

Definition mask (self : t) : Z :=
  Z.shiftl 1 (match self with TRANSFER => 0 | MINT => 1 | BURN => 2 | SEIZE => 3 end).

End B20PausableFeature.

(** The errors and the events of [IB20], and those of [IB20Factory] for a stablecoin. *)
Inductive B20Revert : Type :=
| AccessControlUnauthorizedAccount (account : Address) (needed_role : B256)
| ContractPaused (feature : B20PausableFeature.t)
| InsufficientAllowance (spender : Address) (allowance needed : Z)
| InsufficientBalance (sender : Address) (balance needed : Z)
| InvalidSender (sender : Address)
| InvalidReceiver (receiver : Address)
| InvalidApprover (approver : Address)
| InvalidSpender (spender : Address)
| EmptyFeatureSet
| InvalidSupplyCap (current_supply proposed_cap : Z)
| SupplyCapExceeded (cap attempted : Z)
| PolicyForbids (policy_scope : B256) (policy_id : Z)
| B20PolicyNotFound (policy_id : Z)
| UnsupportedPolicyType (policy_scope : B256)
| AccountNotBlocked (account : Address)
| AccountNotSeizable (account : Address)
| ExpiredSignature (deadline : Z)
| InvalidSigner (signer owner : Address)
| LastAdminCannotRenounce
| NotSoleAdmin
| AccessControlBadConfirmation
| MissingRequiredField (field : string)
| InvalidCurrency (code : bytes)
| RegistryError (e : PrecompileError PolicyRevert).

Inductive B20Event : Type :=
| Transfer (from to : Address) (amount : Z)
| Approval (owner spender : Address) (amount : Z)
| Memo (caller : Address) (memo : B256)
| BurnedBlocked (caller from : Address) (amount : Z)
| Seized (caller from to : Address) (amount : Z)
| RoleGranted (role : B256) (account sender : Address)
| RoleRevoked (role : B256) (account sender : Address)
| RoleAdminChanged (role previous_admin_role new_admin_role : B256)
| LastAdminRenounced (previous_admin : Address)
| Paused (updater : Address) (features : list B20PausableFeature.t)
| Unpaused (updater : Address) (features : list B20PausableFeature.t)
| PolicyUpdated (policy_scope : B256) (old_policy_id new_policy_id : Z)
| SupplyCapUpdated (updater : Address) (old_supply_cap new_supply_cap : Z)
| ContractURIUpdated
| NameUpdated (updater : Address) (new_name : bytes)
| SymbolUpdated (updater : Address) (new_symbol : bytes)
| EIP712DomainChanged
| B20Created (token : Address) (name symbol : bytes) (decimals : Z) (currency : bytes).

Definition B20_MAX_SUPPLY_CAP : Z := 2 ^ 128 - 1.

(** ** The storage of a token *)

Module TokenStorage.

(** The text fields, and the policy of each slot. *)
Record texts : Type := mk_texts { name : bytes; symbol : bytes; contract_uri : bytes; currency : bytes }.

Record t : Type := mk {
  metadata : texts;
  total_supply : Z;
  balances : gmap Address Z;
  allowances : gmap (Address * Address) Z;
  roles : gset (B256 * Address);
  role_admins : gmap B256 B256;
  admin_count : Z;
  policy_ids : B20PolicyType.t -> Z;
  paused : Z;
  supply_cap : Z;
  nonces : gmap Address Z;
  logs : list B20Event
}.

Definition empty : t := mk (mk_texts [] [] [] []) 0 ∅ ∅ ∅ ∅ 0 (fun _ => 0) 0 0 ∅ [].

Definition balance_of (account : Address) (s : t) : Z := default 0 (balances s !! account).
Definition allowance (owner spender : Address) (s : t) : Z := default 0 (allowances s !! (owner, spender)).
Definition has_role (role : B256) (account : Address) (s : t) : bool := bool_decide ((role, account) ∈ roles s).
Definition role_admin (role : B256) (s : t) : B256 := default B256_ZERO (role_admins s !! role).
Definition nonce (owner : Address) (s : t) : Z := default 0 (nonces s !! owner).

Definition set_metadata (m : texts) (s : t) : t :=
  mk m (total_supply s) (balances s) (allowances s) (roles s) (role_admins s) (admin_count s) (policy_ids s)
    (paused s) (supply_cap s) (nonces s) (logs s).
Definition set_name (x : bytes) (s : t) : t :=
  set_metadata (mk_texts x (symbol (metadata s)) (contract_uri (metadata s)) (currency (metadata s))) s.
Definition set_symbol (x : bytes) (s : t) : t :=
  set_metadata (mk_texts (name (metadata s)) x (contract_uri (metadata s)) (currency (metadata s))) s.
Definition set_contract_uri (x : bytes) (s : t) : t :=
  set_metadata (mk_texts (name (metadata s)) (symbol (metadata s)) x (currency (metadata s))) s.
Definition set_currency (x : bytes) (s : t) : t :=
  set_metadata (mk_texts (name (metadata s)) (symbol (metadata s)) (contract_uri (metadata s)) x) s.
Definition set_total_supply (x : Z) (s : t) : t :=
  mk (metadata s) x (balances s) (allowances s) (roles s) (role_admins s) (admin_count s) (policy_ids s)
    (paused s) (supply_cap s) (nonces s) (logs s).
Definition set_balance (account : Address) (x : Z) (s : t) : t :=
  mk (metadata s) (total_supply s) (<[account := x]> (balances s)) (allowances s) (roles s) (role_admins s)
    (admin_count s) (policy_ids s) (paused s) (supply_cap s) (nonces s) (logs s).
Definition set_allowance (owner spender : Address) (x : Z) (s : t) : t :=
  mk (metadata s) (total_supply s) (balances s) (<[(owner, spender) := x]> (allowances s)) (roles s)
    (role_admins s) (admin_count s) (policy_ids s) (paused s) (supply_cap s) (nonces s) (logs s).
Definition set_role (role : B256) (account : Address) (enabled : bool) (s : t) : t :=
  mk (metadata s) (total_supply s) (balances s) (allowances s)
    (if enabled then {[(role, account)]} ∪ roles s else roles s ∖ {[(role, account)]})
    (role_admins s) (admin_count s) (policy_ids s) (paused s) (supply_cap s) (nonces s) (logs s).
Definition set_role_admin (role admin_role : B256) (s : t) : t :=
  mk (metadata s) (total_supply s) (balances s) (allowances s) (roles s)
    (<[role := admin_role]> (role_admins s)) (admin_count s) (policy_ids s) (paused s) (supply_cap s)
    (nonces s) (logs s).
Definition set_admin_count (x : Z) (s : t) : t :=
  mk (metadata s) (total_supply s) (balances s) (allowances s) (roles s) (role_admins s) x (policy_ids s)
    (paused s) (supply_cap s) (nonces s) (logs s).
Definition set_policy (f : B20PolicyType.t -> Z) (s : t) : t :=
  mk (metadata s) (total_supply s) (balances s) (allowances s) (roles s) (role_admins s) (admin_count s) f
    (paused s) (supply_cap s) (nonces s) (logs s).
Definition set_paused (x : Z) (s : t) : t :=
  mk (metadata s) (total_supply s) (balances s) (allowances s) (roles s) (role_admins s) (admin_count s)
    (policy_ids s) x (supply_cap s) (nonces s) (logs s).
Definition set_supply_cap (x : Z) (s : t) : t :=
  mk (metadata s) (total_supply s) (balances s) (allowances s) (roles s) (role_admins s) (admin_count s)
    (policy_ids s) (paused s) x (nonces s) (logs s).
Definition set_nonce (owner : Address) (x : Z) (s : t) : t :=
  mk (metadata s) (total_supply s) (balances s) (allowances s) (roles s) (role_admins s) (admin_count s)
    (policy_ids s) (paused s) (supply_cap s) (<[owner := x]> (nonces s)) (logs s).
Definition emit_event (log : B20Event) (s : t) : t :=
  mk (metadata s) (total_supply s) (balances s) (allowances s) (roles s) (role_admins s) (admin_count s)
    (policy_ids s) (paused s) (supply_cap s) (nonces s) (logs s ++ [log]).

End TokenStorage.

Import TokenStorage.

#[global] Instance policy_type_eq_dec : EqDecision B20PolicyType.t.
Proof. solve_decision. Defined.

(** What a token asks of the policy registry ([PolicyRegistryLogic]). *)
Class PolicyLogic : Type := {
  logic_authorizes : Z -> Address -> result (PrecompileError B20Revert) bool;
  logic_exists : Z -> bool
}.

(** The registry as it is at the time of the call. *)
Definition registry_logic (registry : PolicyStorage.t) : PolicyLogic := {|
  logic_authorizes policy_id account :=
    map_err (fun e => Revert (RegistryError e))
      (PolicyRegistryV3.is_authorized PolicyRegistryV3.AUTHORIZATION_DEPTH registry policy_id account);
  logic_exists policy_id := PolicyRegistryV3.policy_exists registry policy_id
|}.

(** [Signature::recover_address_from_prehash]. *)
Class SignatureRecovery : Type := recover_address : B256 -> B256 -> bool -> B256 -> option Address.

Module PermitArgs.

Record t : Type := mk {
  owner : Address; spender : Address; value : Z; deadline : Z; v : Z; r : B256; s : B256
}.

Definition TYPEHASH : B256 := to_be_bytes 32 0x6e71edae12b1b97f4d1f60370fef10105fa2faae0126114a169c64845d6126c9.
Definition RECOVERY_ID_EVEN_Y : Z := 27.
Definition RECOVERY_ID_ODD_Y : Z := 28.

(** The ABI words of an address and of an integer. *)
Definition address_word (a : Address) : bytes := zeros 12 ++ a.
Definition uint_word (n : Z) : bytes := to_be_bytes 32 n.

Definition struct_hash `{Keccak} (self : t) (nonce : Z) : B256 :=
  keccak256 (TYPEHASH ++ address_word (owner self) ++ address_word (spender self) ++ uint_word (value self) ++
             uint_word nonce ++ uint_word (deadline self)).

Definition signing_hash `{Keccak} (self : t) (domain_separator : B256) (nonce : Z) : B256 :=
  keccak256 ([Byte.x19; Byte.x01] ++ domain_separator ++ struct_hash self nonce).

Definition recover_signer `{SignatureRecovery} (self : t) (signing_hash : B256)
    : result (PrecompileError B20Revert) Address :=
  let invalid := Revert (InvalidSigner Address_ZERO (owner self)) in
  odd_y_parity ← (if decide (v self = RECOVERY_ID_EVEN_Y) then Ok false
                  else if decide (v self = RECOVERY_ID_ODD_Y) then Ok true
                  else Err invalid);
  ok_or invalid (recover_address (r self) (s self) odd_y_parity signing_hash).

Definition validate_recovered_address (recovered owner : Address) : result (PrecompileError B20Revert) () :=
  if decide (recovered = Address_ZERO \/ recovered <> owner) then Err (Revert (InvalidSigner recovered owner))
  else Ok ().

End PermitArgs.

(** ** The third version of the logic *)

Module StablecoinV3.

Abbreviation Error := (PrecompileError B20Revert).
Abbreviation op := (eff Error TokenStorage.t).

Definition DOMAIN_TYPEHASH : B256 :=
  to_be_bytes 32 0x8b73c3c69bb8fe3d512ecc4cf759cc79239f7b179b0ffacaa9a75d522b39400f.

(** The accessors that the [TokenAccounting] derive writes. *)
Definition policy_id (policy_scope : B256) : op Z :=
  match B20PolicyType.from_id policy_scope with
  | Some ty => gets (fun s => policy_ids s ty)
  | None => fail (Revert (UnsupportedPolicyType policy_scope))
  end.

Definition set_policy_id (policy_scope : B256) (policy_id : Z) : op () :=
  match B20PolicyType.from_id policy_scope with
  | Some ty => modify (fun s => set_policy (fun ty' => if decide (ty' = ty) then policy_id else policy_ids s ty') s)
  | None => fail (Revert (UnsupportedPolicyType policy_scope))
  end.

Definition role_member_count (role : B256) (s : TokenStorage.t) : Z :=
  if decide (role = B20TokenRole.id B20TokenRole.DefaultAdmin) then admin_count s else 0.

Definition set_role_member_count (role : B256) (count : Z) (s : TokenStorage.t) : TokenStorage.t :=
  if decide (role = B20TokenRole.id B20TokenRole.DefaultAdmin) then set_admin_count count s else s.

Definition increment_nonce (owner : Address) : op () :=
  current ← gets (nonce owner);
  next ← lift (ok_or UnderOverflow (u256_checked_add current 1));
  modify (set_nonce owner next).

Section Logic.
Context `{PolicyLogic} (token_address : Address).

(** *** Guards: [B20Guards], [B20CreditRecipientStrategy] and [NonZeroAddress] *)

Definition ensure_role (caller : Address) (role : B256) : op () :=
  granted ← gets (has_role role caller);
  ensure granted (Revert (AccessControlUnauthorizedAccount caller role)).

Definition ensure_token_role (caller : Address) (role : B20TokenRole.t) : op () :=
  ensure_role caller (B20TokenRole.id role).

Definition ensure_not_paused (feature : B20PausableFeature.t) : op () :=
  vectors ← gets paused;
  ensure (bool_decide (Z.land vectors (B20PausableFeature.mask feature) = 0)) (Revert (ContractPaused feature)).

Definition ensure_authorized_by_id (policy_scope : B256) (policy_id : Z) (account : Address) : op () :=
  authorized ← lift (logic_authorizes policy_id account);
  ensure authorized (Revert (PolicyForbids policy_scope policy_id)).

Definition ensure_policy_type (ty : B20PolicyType.t) (account : Address) : op () :=
  id ← policy_id (B20PolicyType.id ty);
  ensure_authorized_by_id (B20PolicyType.id ty) id account.

Definition ensure_blocked (account : Address) : op () :=
  id ← policy_id (B20PolicyType.id B20PolicyType.TransferSender);
  authorized ← lift (logic_authorizes id account);
  ensure (negb authorized) (Revert (AccountNotBlocked account)).

Definition ensure_seizable (account : Address) : op () :=
  id ← policy_id (B20PolicyType.id B20PolicyType.SeizeExempt);
  authorized ← lift (logic_authorizes id account);
  ensure (negb authorized) (Revert (AccountNotSeizable account)).

(** [ExcludingZeroAndSelf], with the error of the callers. *)
Definition ensure_recipient (to : Address) : op () :=
  ensure (negb (bool_decide (to = Address_ZERO \/ to = token_address))) (Revert (InvalidReceiver to)).

Definition ensure_sender (from : Address) : op () :=
  ensure (negb (bool_decide (from = Address_ZERO))) (Revert (InvalidSender from)).

(** [if !privileged { guard? }] *)
Definition unless (privileged : bool) (guard : op ()) : op () := if privileged then mret () else guard.

(** *** Balances *)

Definition move_balance (from to : Address) (amount : Z) : op () :=
  from_balance ← gets (balance_of from);
  _ ← ensure (negb (bool_decide (from_balance < amount))) (Revert (InsufficientBalance from from_balance amount));
  new_from_balance ← lift (ok_or UnderOverflow (u256_checked_sub from_balance amount));
  _ ← modify (set_balance from new_from_balance);
  to_balance ← gets (balance_of to);
  new_to_balance ← lift (ok_or UnderOverflow (u256_checked_add to_balance amount));
  _ ← modify (set_balance to new_to_balance);
  modify (emit_event (Transfer from to amount)).

(** The check of the three policies, read together, of a transfer. *)
Definition transfer_policies (caller from to : Address) : op () :=
  ids ← gets policy_ids;
  let executor := ids B20PolicyType.TransferExecutor in
  let sender := ids B20PolicyType.TransferSender in
  let receiver := ids B20PolicyType.TransferReceiver in
  _ ← ensure_authorized_by_id (B20PolicyType.id B20PolicyType.TransferExecutor) executor caller;
  _ ← (if decide (caller <> from \/ executor <> sender)
       then ensure_authorized_by_id (B20PolicyType.id B20PolicyType.TransferSender) sender from
       else mret ());
  ensure_authorized_by_id (B20PolicyType.id B20PolicyType.TransferReceiver) receiver to.

Definition transfer_inner (caller from to : Address) (amount : Z) (privileged : bool) : op () :=
  _ ← unless privileged (transfer_policies caller from to);
  move_balance from to amount.

Definition burn_inner (from : Address) (amount : Z) : op () :=
  balance ← gets (balance_of from);
  _ ← ensure (negb (bool_decide (balance < amount))) (Revert (InsufficientBalance from balance amount));
  _ ← modify (set_balance from (balance - amount));
  supply ← gets total_supply;
  new_supply ← lift (ok_or UnderOverflow (u256_checked_sub supply amount));
  _ ← modify (set_total_supply new_supply);
  modify (emit_event (Transfer from Address_ZERO amount)).

Definition transfer (caller to : Address) (amount : Z) (privileged : bool) : op () :=
  _ ← ensure_not_paused B20PausableFeature.TRANSFER;
  _ ← ensure_recipient to;
  _ ← ensure_sender caller;
  transfer_inner caller caller to amount privileged.

Definition transfer_from (caller from to : Address) (amount : Z) (privileged : bool) : op () :=
  _ ← ensure_not_paused B20PausableFeature.TRANSFER;
  _ ← ensure_recipient to;
  _ ← ensure_sender from;
  allowance ← gets (TokenStorage.allowance from caller);
  let is_infinite := bool_decide (allowance = u256_max) in
  _ ← ensure (is_infinite || negb (bool_decide (allowance < amount)))
        (Revert (InsufficientAllowance caller allowance amount));
  _ ← transfer_inner caller from to amount privileged;
  if is_infinite then mret () else modify (set_allowance from caller (allowance - amount)).

Definition approve (caller spender : Address) (amount : Z) : op () :=
  _ ← ensure (negb (bool_decide (caller = Address_ZERO))) (Revert (InvalidApprover caller));
  _ ← ensure (negb (bool_decide (spender = Address_ZERO))) (Revert (InvalidSpender spender));
  _ ← modify (set_allowance caller spender amount);
  modify (emit_event (Approval caller spender amount)).

Definition emit_memo (caller : Address) (memo : B256) : op () := modify (emit_event (Memo caller memo)).

Definition mint (caller to : Address) (amount : Z) (privileged : bool) : op () :=
  _ ← ensure_not_paused B20PausableFeature.MINT;
  _ ← unless privileged (ensure_token_role caller B20TokenRole.Mint);
  _ ← ensure_recipient to;
  _ ← ensure_policy_type B20PolicyType.MintReceiver to;
  supply ← gets total_supply;
  cap ← gets supply_cap;
  new_supply ← lift (ok_or UnderOverflow (u256_checked_add supply amount));
  _ ← ensure (negb (bool_decide (cap < new_supply))) (Revert (SupplyCapExceeded cap new_supply));
  _ ← modify (set_total_supply new_supply);
  to_balance ← gets (balance_of to);
  new_balance ← lift (ok_or UnderOverflow (u256_checked_add to_balance amount));
  _ ← modify (set_balance to new_balance);
  modify (emit_event (Transfer Address_ZERO to amount)).

Definition burn (caller : Address) (amount : Z) : op () :=
  _ ← ensure_not_paused B20PausableFeature.BURN;
  _ ← ensure_token_role caller B20TokenRole.Burn;
  burn_inner caller amount.

Definition burn_blocked (caller from : Address) (amount : Z) (privileged : bool) : op () :=
  _ ← ensure_not_paused B20PausableFeature.BURN;
  _ ← unless privileged (ensure_token_role caller B20TokenRole.BurnBlocked);
  _ ← ensure_blocked from;
  _ ← burn_inner from amount;
  modify (emit_event (BurnedBlocked caller from amount)).

Definition seize_with_memo (caller from to : Address) (amount : Z) (memo : B256) : op () :=
  _ ← ensure_not_paused B20PausableFeature.SEIZE;
  _ ← ensure_token_role caller B20TokenRole.Seize;
  _ ← ensure_recipient to;
  _ ← ensure_sender from;
  _ ← ensure (negb (bool_decide (from = to))) (Revert (InvalidReceiver to));
  _ ← ensure_seizable from;
  _ ← ensure_policy_type B20PolicyType.SeizeReceiver to;
  _ ← move_balance from to amount;
  _ ← emit_memo caller memo;
  modify (emit_event (Seized caller from to amount)).

(** *** Administration *)

(** [ensure_one_of] holds of every feature of the third version. *)
Definition pause (caller : Address) (features : list B20PausableFeature.t) (privileged : bool) : op () :=
  _ ← unless privileged (ensure_token_role caller B20TokenRole.Pause);
  _ ← ensure (negb (bool_decide (features = []))) (Revert EmptyFeatureSet);
  vectors ← gets paused;
  _ ← modify (set_paused (fold_left (fun next feature => Z.lor next (B20PausableFeature.mask feature)) features vectors));
  modify (emit_event (Paused caller features)).

Definition unpause (caller : Address) (features : list B20PausableFeature.t) (privileged : bool) : op () :=
  _ ← unless privileged (ensure_token_role caller B20TokenRole.Unpause);
  _ ← ensure (negb (bool_decide (features = []))) (Revert EmptyFeatureSet);
  vectors ← gets paused;
  _ ← modify (set_paused
        (fold_left (fun next feature => Z.land next (Z.lnot (B20PausableFeature.mask feature))) features vectors));
  modify (emit_event (Unpaused caller features)).

Definition update_supply_cap (caller : Address) (new_cap : Z) (privileged : bool) : op () :=
  _ ← unless privileged (ensure_token_role caller B20TokenRole.DefaultAdmin);
  supply ← gets total_supply;
  _ ← ensure (negb (bool_decide (new_cap < supply \/ B20_MAX_SUPPLY_CAP < new_cap)))
        (Revert (InvalidSupplyCap supply new_cap));
  old ← gets supply_cap;
  _ ← modify (set_supply_cap new_cap);
  modify (emit_event (SupplyCapUpdated caller old new_cap)).

Definition update_name (caller : Address) (new_name : bytes) (privileged : bool) : op () :=
  _ ← unless privileged (ensure_token_role caller B20TokenRole.Metadata);
  _ ← modify (set_name new_name);
  _ ← modify (emit_event (NameUpdated caller new_name));
  modify (emit_event EIP712DomainChanged).

Definition update_symbol (caller : Address) (new_symbol : bytes) (privileged : bool) : op () :=
  _ ← unless privileged (ensure_token_role caller B20TokenRole.Metadata);
  _ ← modify (set_symbol new_symbol);
  modify (emit_event (SymbolUpdated caller new_symbol)).

Definition update_contract_uri (caller : Address) (uri : bytes) (privileged : bool) : op () :=
  _ ← unless privileged (ensure_token_role caller B20TokenRole.Metadata);
  _ ← modify (set_contract_uri uri);
  modify (emit_event ContractURIUpdated).

Definition ensure_role_admin_mutations_available (caller : Address) : op () :=
  let admin_role := B20TokenRole.id B20TokenRole.DefaultAdmin in
  count ← gets (role_member_count admin_role);
  ensure (negb (bool_decide (count = 0))) (Revert (AccessControlUnauthorizedAccount caller admin_role)).

Definition grant_role_unchecked (role : B256) (account sender : Address) : op () :=
  granted ← gets (has_role role account);
  if granted : bool then mret ()
  else
    _ ← modify (set_role role account true);
    _ ← (if decide (role = B20TokenRole.id B20TokenRole.DefaultAdmin) then
           current ← gets (role_member_count role);
           next ← lift (ok_or UnderOverflow (u256_checked_add current 1));
           modify (set_role_member_count role next)
         else mret ());
    modify (emit_event (RoleGranted role account sender)).

Definition revoke_role_unchecked (role : B256) (account sender : Address) : op () :=
  granted ← gets (has_role role account);
  if negb granted then mret ()
  else
    _ ← modify (set_role role account false);
    _ ← (if decide (role = B20TokenRole.id B20TokenRole.DefaultAdmin) then
           current ← gets (role_member_count role);
           next ← lift (ok_or UnderOverflow (u256_checked_sub current 1));
           modify (set_role_member_count role next)
         else mret ());
    modify (emit_event (RoleRevoked role account sender)).

Definition grant_role (caller : Address) (role : B256) (account : Address) (privileged : bool) : op () :=
  _ ← (if decide (role = B20TokenRole.id B20TokenRole.DefaultAdmin \/ privileged = false)
       then ensure_role_admin_mutations_available caller else mret ());
  _ ← unless privileged (admin ← gets (role_admin role); ensure_role caller admin);
  grant_role_unchecked role account caller.

(** The admin role is not taken from its last holder. *)
Definition ensure_not_last_admin (role : B256) (account : Address) : op () :=
  granted ← gets (has_role role account);
  count ← gets (role_member_count role);
  ensure (negb (bool_decide (role = B20TokenRole.id B20TokenRole.DefaultAdmin) && granted && bool_decide (count = 1)))
    (Revert LastAdminCannotRenounce).

Definition revoke_role (caller : Address) (role : B256) (account : Address) (privileged : bool) : op () :=
  _ ← unless privileged
        (_ ← ensure_role_admin_mutations_available caller;
         admin ← gets (role_admin role); ensure_role caller admin);
  _ ← ensure_not_last_admin role account;
  revoke_role_unchecked role account caller.

Definition renounce_role (caller : Address) (role : B256) (confirmation : Address) : op () :=
  _ ← ensure (bool_decide (confirmation = caller)) (Revert AccessControlBadConfirmation);
  _ ← ensure_not_last_admin role caller;
  revoke_role_unchecked role caller caller.

Definition renounce_last_admin (caller : Address) : op () :=
  let admin_role := B20TokenRole.id B20TokenRole.DefaultAdmin in
  _ ← ensure_role caller admin_role;
  count ← gets (role_member_count admin_role);
  _ ← ensure (bool_decide (count = 1)) (Revert NotSoleAdmin);
  _ ← revoke_role_unchecked admin_role caller caller;
  modify (emit_event (LastAdminRenounced caller)).

Definition set_role_admin (caller : Address) (role new_admin_role : B256) (privileged : bool) : op () :=
  previous_admin_role ← gets (role_admin role);
  _ ← unless privileged
        (_ ← ensure_role_admin_mutations_available caller; ensure_role caller previous_admin_role);
  _ ← modify (TokenStorage.set_role_admin role new_admin_role);
  modify (emit_event (RoleAdminChanged role previous_admin_role new_admin_role)).

Definition ensure_supported_policy_type (policy_scope : B256) : op () :=
  match B20PolicyType.from_id policy_scope with
  | Some _ => mret ()
  | None => fail (Revert (UnsupportedPolicyType policy_scope))
  end.

Definition update_policy (caller : Address) (policy_scope : B256) (new_policy_id : Z) (privileged : bool) : op () :=
  _ ← unless privileged (ensure_token_role caller B20TokenRole.DefaultAdmin);
  _ ← ensure_supported_policy_type policy_scope;
  _ ← ensure (logic_exists new_policy_id) (Revert (B20PolicyNotFound new_policy_id));
  old_policy_id ← policy_id policy_scope;
  _ ← set_policy_id policy_scope new_policy_id;
  modify (emit_event (PolicyUpdated policy_scope old_policy_id new_policy_id)).

(** *** Permits *)

Definition domain_separator `{Keccak} (chain_id : Z) (s : TokenStorage.t) : B256 :=
  keccak256 (DOMAIN_TYPEHASH ++ keccak256 (name (metadata s)) ++ keccak256 [Byte.x31] ++
             PermitArgs.uint_word chain_id ++ PermitArgs.address_word token_address).

Definition permit `{Keccak} `{SignatureRecovery} (chain_id now : Z) (args : PermitArgs.t) : op () :=
  _ ← ensure (negb (bool_decide (PermitArgs.deadline args < now)))
        (Revert (ExpiredSignature (PermitArgs.deadline args)));
  domain_sep ← gets (domain_separator chain_id);
  nonce ← gets (TokenStorage.nonce (PermitArgs.owner args));
  let signing_hash := PermitArgs.signing_hash args domain_sep nonce in
  recovered ← lift (PermitArgs.recover_signer args signing_hash);
  _ ← lift (PermitArgs.validate_recovered_address recovered (PermitArgs.owner args));
  _ ← increment_nonce (PermitArgs.owner args);
  approve (PermitArgs.owner args) (PermitArgs.spender args) (PermitArgs.value args).

End Logic.

End StablecoinV3.

(** ** Calls *)

(** The calls of [IB20] that change a token. *)
Inductive B20Call : Type :=
| transfer (to : Address) (amount : Z)
| transferFrom (from to : Address) (amount : Z)
| approve (spender : Address) (amount : Z)
| transferWithMemo (to : Address) (amount : Z) (memo : B256)
| transferFromWithMemo (from to : Address) (amount : Z) (memo : B256)
| mint (to : Address) (amount : Z)
| mintWithMemo (to : Address) (amount : Z) (memo : B256)
| burn (amount : Z)
| burnWithMemo (amount : Z) (memo : B256)
| burnBlocked (from : Address) (amount : Z)
| seizeWithMemo (from to : Address) (amount : Z) (memo : B256)
| pause (features : list B20PausableFeature.t)
| unpause (features : list B20PausableFeature.t)
| updateSupplyCap (new_supply_cap : Z)
| updateName (new_name : bytes)
| updateSymbol (new_symbol : bytes)
| updateContractURI (new_uri : bytes)
| grantRole (role : B256) (account : Address)
| revokeRole (role : B256) (account : Address)
| renounceRole (role : B256) (caller_confirmation : Address)
| renounceLastAdmin
| setRoleAdmin (role new_admin_role : B256)
| updatePolicy (policy_scope : B256) (new_policy_id : Z)
| permit (args : PermitArgs.t).

(** What a call sees of its context: the caller, the chain and the time. *)
Module CallContext.

Record t : Type := mk { caller : Address; chain_id : Z; timestamp : Z }.

End CallContext.

Module B20StablecoinToken.

Section Token.
Context `{PolicyLogic} `{Keccak} `{SignatureRecovery} (token_address : Address).

Definition route (ctx : CallContext.t) (privileged : bool) (call : B20Call) : StablecoinV3.op () :=
  let caller := CallContext.caller ctx in
  match call with
  | transfer to amount => StablecoinV3.transfer token_address caller to amount privileged
  | transferFrom from to amount => StablecoinV3.transfer_from token_address caller from to amount privileged
  | approve spender amount => StablecoinV3.approve caller spender amount
  | transferWithMemo to amount memo =>
      _ ← StablecoinV3.transfer token_address caller to amount privileged; StablecoinV3.emit_memo caller memo
  | transferFromWithMemo from to amount memo =>
      _ ← StablecoinV3.transfer_from token_address caller from to amount privileged;
      StablecoinV3.emit_memo caller memo
  | mint to amount => StablecoinV3.mint token_address caller to amount privileged
  | mintWithMemo to amount memo =>
      _ ← StablecoinV3.mint token_address caller to amount privileged; StablecoinV3.emit_memo caller memo
  | burn amount => StablecoinV3.burn caller amount
  | burnWithMemo amount memo => _ ← StablecoinV3.burn caller amount; StablecoinV3.emit_memo caller memo
  | burnBlocked from amount => StablecoinV3.burn_blocked caller from amount privileged
  | seizeWithMemo from to amount memo =>
      StablecoinV3.seize_with_memo token_address caller from to amount memo
  | pause features => StablecoinV3.pause caller features privileged
  | unpause features => StablecoinV3.unpause caller features privileged
  | updateSupplyCap new_supply_cap => StablecoinV3.update_supply_cap caller new_supply_cap privileged
  | updateName new_name => StablecoinV3.update_name caller new_name privileged
  | updateSymbol new_symbol => StablecoinV3.update_symbol caller new_symbol privileged
  | updateContractURI new_uri => StablecoinV3.update_contract_uri caller new_uri privileged
  | grantRole role account => StablecoinV3.grant_role caller role account privileged
  | revokeRole role account => StablecoinV3.revoke_role caller role account privileged
  | renounceRole role caller_confirmation => StablecoinV3.renounce_role caller role caller_confirmation
  | renounceLastAdmin => StablecoinV3.renounce_last_admin caller
  | setRoleAdmin role new_admin_role => StablecoinV3.set_role_admin caller role new_admin_role privileged
  | updatePolicy policy_scope new_policy_id =>
      StablecoinV3.update_policy caller policy_scope new_policy_id privileged
  | permit args => StablecoinV3.permit token_address (CallContext.chain_id ctx) (CallContext.timestamp ctx) args
  end.

End Token.

End B20StablecoinToken.

(** ** Creation by the factory *)

Module B20StablecoinInit.

Record t : Type := mk { name : bytes; symbol : bytes; supply_cap : Z; currency : bytes }.

End B20StablecoinInit.

Module B20Factory.

Definition ADDRESS : Address := to_be_bytes 20 0xB20F000000000000000000000000000000000000.

Definition DEFAULT_SUPPLY_CAP : Z := B20_MAX_SUPPLY_CAP.
Definition STABLECOIN_DECIMALS : Z := 6.

(** [B20StablecoinStorage::initialize]. *)
Definition initialize (init : B20StablecoinInit.t) : StablecoinV3.op () :=
  _ ← ensure (negb (bool_decide (B20StablecoinInit.currency init = []))) (Revert (MissingRequiredField "currency"));
  _ ← ensure (forallb (fun b => bool_decide (65 <= byte.unsigned b <= 90)) (B20StablecoinInit.currency init))
        (Revert (InvalidCurrency (B20StablecoinInit.currency init)));
  _ ← modify (set_name (B20StablecoinInit.name init));
  _ ← modify (set_symbol (B20StablecoinInit.symbol init));
  _ ← modify (set_supply_cap (B20StablecoinInit.supply_cap init));
  modify (set_currency (B20StablecoinInit.currency init)).

Section Factory.
Context `{PolicyLogic} `{Keccak} `{SignatureRecovery} (token_address : Address).

(** [FactoryV1::init_stablecoin] on the storage of the token: the supply cap is the
    default one, and the initial calls are made by the factory, privileged.
    [map_init_call_error] keeps the errors of a decoded call: they are panics and
    reverts with data. *)
Definition init_stablecoin (ctx : CallContext.t) (name symbol currency : bytes) (initial_admin : Address)
    (init_calls : list B20Call) : StablecoinV3.op () :=
  _ ← initialize (B20StablecoinInit.mk name symbol DEFAULT_SUPPLY_CAP currency);
  _ ← modify (emit_event (B20Created token_address name symbol STABLECOIN_DECIMALS currency));
  _ ← (if decide (initial_admin = Address_ZERO) then mret ()
       else StablecoinV3.grant_role_unchecked (B20TokenRole.id B20TokenRole.DefaultAdmin) initial_admin ADDRESS);
  PolicyRegistryV3.for_each
    (B20StablecoinToken.route token_address
       (CallContext.mk ADDRESS (CallContext.chain_id ctx) (CallContext.timestamp ctx)) true) init_calls.

End Factory.

End B20Factory.
