(* ===== verification/StablecoinProofs.v ===== *)
(** * The stablecoin keeps its books

    The balances always sum to the supply, which stays within its cap; a balance
    goes down only for one of five reasons; a token whose last admin has gone never
    grants a role again; and the arithmetic of a call does not overflow. *)

From S2P Require Import Prelude Effects Primitives SpanTxData Tries Policies PolicyProofs Stablecoins.

Import TokenStorage StablecoinV3.

(** ** Sums of balances *)

Definition total (m : gmap Address Z) : Z := map_fold (fun _ v acc => v + acc) 0 m.

Lemma total_insert_new m a v : m !! a = None -> total (<[a := v]> m) = v + total m.
Proof. intros Hm. unfold total. rewrite map_fold_insert_L; [done| |done]. intros. lia. Qed.

Lemma total_delete m a : total m = default 0 (m !! a) + total (delete a m).
Proof.
  destruct (m !! a) as [v|] eqn:E; cbn.
  - rewrite <- (insert_delete_id m a v E) at 1. apply total_insert_new, lookup_delete_eq.
  - by rewrite delete_id.
Qed.

Lemma total_insert m a v : total (<[a := v]> m) = total m - default 0 (m !! a) + v.
Proof.
  rewrite (total_delete (<[a := v]> m) a), (total_delete m a), lookup_insert_eq, delete_insert_eq.
  cbn. lia.
Qed.

Lemma total_nonneg m : map_Forall (fun _ v => 0 <= v) m -> 0 <= total m.
Proof.
  induction m as [|a v m Hm IH] using map_ind; intros HF; [done|].
  apply map_Forall_insert in HF as [Hv HF]; [|done]. rewrite total_insert_new by done. specialize (IH HF). lia.
Qed.

Lemma balance_le_total m a : map_Forall (fun _ v => 0 <= v) m -> 0 <= default 0 (m !! a) <= total m.
Proof.
  intros HF. rewrite (total_delete m a). pose proof (total_nonneg (delete a m) (map_Forall_delete _ _ _ HF)).
  destruct (m !! a) as [v|] eqn:E; cbn; [|lia]. pose proof (HF a v E). cbn in *. lia.
Qed.

(** ** The invariant *)

Definition admin_role : B256 := B20TokenRole.id B20TokenRole.DefaultAdmin.

Definition admins (s : TokenStorage.t) : gset (B256 * Address) := filter (fun x => x.1 = admin_role) (roles s).

Record sound (token_address : Address) (s : TokenStorage.t) : Prop := {
  so_supply : total_supply s = total (balances s);
  so_nonneg : map_Forall (fun _ v => 0 <= v) (balances s);
  so_cap : total_supply s <= supply_cap s <= B20_MAX_SUPPLY_CAP;
  so_zero : balance_of Address_ZERO s = 0;
  so_self : balance_of token_address s = 0;
  so_admins : admin_count s = Z.of_nat (size (admins s))
}.

(** What a call does to the balances, the supply and the roles. *)
Record rest_same (s s' : TokenStorage.t) : Prop := {
  rs_cap : supply_cap s' = supply_cap s;
  rs_roles : roles s' = roles s;
  rs_count : admin_count s' = admin_count s
}.

Inductive effect (token_address : Address) (s s' : TokenStorage.t) : Prop :=
| effect_move from to amount :
    0 <= amount <= balance_of from s -> to <> Address_ZERO -> to <> token_address ->
    balances s' =
      <[to := default 0 (<[from := balance_of from s - amount]> (balances s) !! to) + amount]>
        (<[from := balance_of from s - amount]> (balances s)) ->
    total_supply s' = total_supply s -> rest_same s s' -> effect token_address s s'
| effect_mint to amount :
    0 <= amount -> to <> Address_ZERO -> to <> token_address ->
    total_supply s + amount <= supply_cap s ->
    balances s' = <[to := balance_of to s + amount]> (balances s) ->
    total_supply s' = total_supply s + amount -> rest_same s s' -> effect token_address s s'
| effect_burn from amount :
    0 <= amount <= balance_of from s ->
    balances s' = <[from := balance_of from s - amount]> (balances s) ->
    total_supply s' = total_supply s - amount -> rest_same s s' -> effect token_address s s'
| effect_cap :
    total_supply s <= supply_cap s' <= B20_MAX_SUPPLY_CAP ->
    balances s' = balances s -> total_supply s' = total_supply s -> roles s' = roles s ->
    admin_count s' = admin_count s -> effect token_address s s'
| effect_grant role account :
    (role, account) ∉ roles s -> roles s' = {[(role, account)]} ∪ roles s ->
    admin_count s' = admin_count s + (if decide (role = admin_role) then 1 else 0) ->
    balances s' = balances s -> total_supply s' = total_supply s -> supply_cap s' = supply_cap s ->
    effect token_address s s'
| effect_revoke role account :
    (role, account) ∈ roles s -> roles s' = roles s ∖ {[(role, account)]} ->
    admin_count s' = admin_count s - (if decide (role = admin_role) then 1 else 0) ->
    balances s' = balances s -> total_supply s' = total_supply s -> supply_cap s' = supply_cap s ->
    effect token_address s s'
| effect_other :
    balances s' = balances s -> total_supply s' = total_supply s -> rest_same s s' ->
    effect token_address s s'.

(** Every effect keeps the invariant. *)
Lemma balance_insert m a v b :
  default 0 (<[a := v]> m !! b) = if decide (a = b) then v else default (0 : Z) ((m : gmap Address Z) !! b).
Proof. case_decide as E; [subst; by rewrite lookup_insert_eq|by rewrite lookup_insert_ne]. Qed.

Lemma admins_same s s' : roles s' = roles s -> admins s' = admins s.
Proof. unfold admins. by intros ->. Qed.

Lemma size_grant (role : B256) (account : Address) (X : gset (B256 * Address)) :
  (role, account) ∉ X ->
  Z.of_nat (size (filter (fun x => x.1 = admin_role) ({[(role, account)]} ∪ X))) =
    Z.of_nat (size (filter (fun x => x.1 = admin_role) X)) + (if decide (role = admin_role) then 1 else 0).
Proof.
  intros Hn. destruct (decide (role = admin_role)) as [E|E].
  - assert (filter (fun x => x.1 = admin_role) ({[(role, account)]} ∪ X) =
      {[(role, account)]} ∪ filter (fun x => x.1 = admin_role) X) as -> by set_solver.
    rewrite size_union by set_solver. rewrite size_singleton. lia.
  - assert (filter (fun x => x.1 = admin_role) ({[(role, account)]} ∪ X) =
      filter (fun x => x.1 = admin_role) X) as -> by set_solver. lia.
Qed.

Lemma size_revoke (role : B256) (account : Address) (X : gset (B256 * Address)) :
  (role, account) ∈ X ->
  Z.of_nat (size (filter (fun x => x.1 = admin_role) (X ∖ {[(role, account)]}))) =
    Z.of_nat (size (filter (fun x => x.1 = admin_role) X)) - (if decide (role = admin_role) then 1 else 0).
Proof.
  intros Hi. assert (HX : X = {[(role, account)]} ∪ X ∖ {[(role, account)]}).
  { apply set_eq. intros x. destruct (decide (x = (role, account))); set_solver. }
  pose proof (size_grant role account (X ∖ {[(role, account)]})) as Hs. rewrite <- HX in Hs.
  rewrite Hs by set_solver. case_decide; lia.
Qed.

Lemma effect_sound token_address s s' : sound token_address s -> effect token_address s s' -> sound token_address s'.
Proof.
  intros [S N C Z0 Zs A] He. pose proof (fun a => balance_le_total (balances s) a N) as Hb.
  destruct He as [from to amount Ha Hz Ht Eb Es [Ec Er En]|to amount Ha Hz Ht Hcap Eb Es [Ec Er En]
    |from amount Ha Eb Es [Ec Er En]|Hc Eb Es Er En|role account Hn Er En Eb Es Ec
    |role account Hi Er En Eb Es Ec|Eb Es [Ec Er En]]; unfold balance_of in *.
  - assert (HN : map_Forall (fun _ v => 0 <= v) (<[from := default 0 (balances s !! from) - amount]> (balances s)))
      by (apply map_Forall_insert_2; [lia|done]).
    split; unfold balance_of; rewrite ?Ec, ?(admins_same _ _ Er); try lia.
    + rewrite Es, S, Eb, !total_insert. lia.
    + rewrite Eb. apply map_Forall_insert_2; [|done]. pose proof (balance_le_total _ to HN). lia.
    + rewrite Eb, balance_insert, decide_False by done. rewrite balance_insert. case_decide; [subst; lia|done].
    + rewrite Eb, balance_insert, decide_False by done. rewrite balance_insert. case_decide; [subst; lia|done].
  - split; unfold balance_of; rewrite ?Ec, ?(admins_same _ _ Er); try lia.
    + rewrite Es, S, Eb, total_insert. lia.
    + rewrite Eb. apply map_Forall_insert_2; [|done]. specialize (Hb to). lia.
    + rewrite Eb, balance_insert, decide_False by done. done.
    + rewrite Eb, balance_insert, decide_False by done. done.
  - split; unfold balance_of; rewrite ?Ec, ?(admins_same _ _ Er); try lia.
    + rewrite Es, S, Eb, total_insert. lia.
    + rewrite Eb. apply map_Forall_insert_2; [lia|done].
    + rewrite Eb, balance_insert. case_decide; [subst; lia|done].
    + rewrite Eb, balance_insert. case_decide; [subst; lia|done].
  - split; unfold balance_of; rewrite ?Eb, ?Es, ?(admins_same _ _ Er); try done; lia.
  - split; unfold balance_of; rewrite ?Eb, ?Es, ?Ec; try done. unfold admins in *. rewrite Er, size_grant by done. lia.
  - split; unfold balance_of; rewrite ?Eb, ?Es, ?Ec; try done. unfold admins in *. rewrite Er, size_revoke by done. lia.
  - split; unfold balance_of; rewrite ?Eb, ?Es, ?Ec, ?(admins_same _ _ Er); try done; lia.
Qed.

(** ** Running a call *)

Lemma lift_ok {E S A} (r : result E A) (s : S) a s' : lift r s = (Ok a, s') -> r = Ok a /\ s' = s.
Proof. by intros [= -> ->]. Qed.

Lemma checked_add_ok {E S} (e : E) a b (s : S) c s' :
  lift (ok_or e (u256_checked_add a b)) s = (Ok c, s') -> c = a + b /\ s' = s.
Proof. unfold u256_checked_add. case_decide; [|done]. by intros [= <- <-]. Qed.

Lemma checked_sub_ok {E S} (e : E) a b (s : S) c s' :
  lift (ok_or e (u256_checked_sub a b)) s = (Ok c, s') -> c = a - b /\ b <= a /\ s' = s.
Proof. unfold u256_checked_sub. case_decide; [|done]. by intros [= <- <-]. Qed.

Lemma from_id_id ty : B20PolicyType.from_id (B20PolicyType.id ty) = Some ty.
Proof. by destruct ty. Qed.

(** Takes the checks of a successful run apart. *)
Ltac inv_checks :=
  inv_run; repeat (
    match goal with
    | H : lift (ok_or _ (u256_checked_add _ _)) _ = (Ok _, _) |- _ => apply checked_add_ok in H as [-> ->]
    | H : lift (ok_or _ (u256_checked_sub _ _)) _ = (Ok _, _) |- _ => apply checked_sub_ok in H as (-> & ? & ->)
    | H : lift _ _ = (Ok _, _) |- _ => apply lift_ok in H as [? ->]
    | H : negb (bool_decide _) = true |- _ => apply negb_true_iff, bool_decide_eq_false in H
    | H : bool_decide _ = true |- _ => apply bool_decide_eq_true in H
    end; inv_run).

Definition authorizes `{PolicyLogic} (s : TokenStorage.t) (ty : B20PolicyType.t) (account : Address) : Prop :=
  logic_authorizes (policy_ids s ty) account = Ok true.

Definition rejects `{PolicyLogic} (s : TokenStorage.t) (ty : B20PolicyType.t) (account : Address) : Prop :=
  logic_authorizes (policy_ids s ty) account = Ok false.

Definition running (s : TokenStorage.t) (feature : B20PausableFeature.t) : Prop :=
  Z.land (paused s) (B20PausableFeature.mask feature) = 0.

Lemma ensure_role_ok caller role s u s' :
  ensure_role caller role s = (Ok u, s') -> s' = s /\ has_role role caller s = true.
Proof. unfold ensure_role. intros Hr. inv_checks. done. Qed.

Lemma ensure_not_paused_ok feature s u s' :
  ensure_not_paused feature s = (Ok u, s') -> s' = s /\ running s feature.
Proof. unfold ensure_not_paused. intros Hr. by inv_checks. Qed.

Lemma ensure_authorized_ok `{PolicyLogic} scope id account s u s' :
  ensure_authorized_by_id scope id account s = (Ok u, s') -> s' = s /\ logic_authorizes id account = Ok true.
Proof. unfold ensure_authorized_by_id. intros Hr. inv_checks. by subst. Qed.

Lemma policy_id_ok ty s id s' :
  policy_id (B20PolicyType.id ty) s = (Ok id, s') -> s' = s /\ id = policy_ids s ty.
Proof. unfold policy_id. rewrite from_id_id. intros Hr. by inv_checks. Qed.

Lemma ensure_policy_type_ok `{PolicyLogic} ty account s u s' :
  ensure_policy_type ty account s = (Ok u, s') -> s' = s /\ authorizes s ty account.
Proof.
  unfold ensure_policy_type. intros Hr. apply bind_ok in Hr as (id & s1 & Hi & Hr).
  apply policy_id_ok in Hi as [-> ->]. by apply ensure_authorized_ok in Hr.
Qed.

Lemma ensure_blocked_ok `{PolicyLogic} account s u s' :
  ensure_blocked account s = (Ok u, s') -> s' = s /\ rejects s B20PolicyType.TransferSender account.
Proof.
  unfold ensure_blocked. intros Hr. apply bind_ok in Hr as (id & s1 & Hi & Hr).
  apply policy_id_ok in Hi as [-> ->]. inv_checks. by apply negb_true_iff in Hc as ->.
Qed.

Lemma ensure_seizable_ok `{PolicyLogic} account s u s' :
  ensure_seizable account s = (Ok u, s') -> s' = s /\ rejects s B20PolicyType.SeizeExempt account.
Proof.
  unfold ensure_seizable. intros Hr. apply bind_ok in Hr as (id & s1 & Hi & Hr).
  apply policy_id_ok in Hi as [-> ->]. inv_checks. by apply negb_true_iff in Hc as ->.
Qed.

Lemma ensure_recipient_ok tok to s u s' :
  ensure_recipient tok to s = (Ok u, s') -> s' = s /\ to <> Address_ZERO /\ to <> tok.
Proof. unfold ensure_recipient. intros Hr. inv_checks. tauto. Qed.

Lemma ensure_sender_ok from s u s' : ensure_sender from s = (Ok u, s') -> s' = s /\ from <> Address_ZERO.
Proof. unfold ensure_sender. intros Hr. by inv_checks. Qed.

(** The check of the sender is left out only where it is that of the executor. *)
Lemma transfer_policies_ok `{PolicyLogic} caller from to s u s' :
  transfer_policies caller from to s = (Ok u, s') ->
  s' = s /\ authorizes s B20PolicyType.TransferExecutor caller /\
  authorizes s B20PolicyType.TransferSender from /\ authorizes s B20PolicyType.TransferReceiver to.
Proof.
  unfold transfer_policies. intros Hr. apply bind_ok in Hr as (ids & s1 & Hi & Hr). inv_run.
  apply ensure_authorized_ok in Hr0 as [-> He]. apply ensure_authorized_ok in Hr as [-> Hrec]. case_decide as Hd.
  - by apply ensure_authorized_ok in Hr1 as [-> Hs].
  - inv_run. assert (caller = from /\ policy_ids s B20PolicyType.TransferExecutor = policy_ids s B20PolicyType.TransferSender)
      as [-> E] by (destruct (decide (caller = from)); [|tauto]; split; [done|]; apply dec_stable; tauto).
    unfold authorizes in *. by rewrite <- E.
Qed.

Lemma unless_ok privileged (g : op ()) (P : Prop) s u s' :
  (forall u s', g s = (Ok u, s') -> s' = s /\ P) ->
  unless privileged g s = (Ok u, s') -> s' = s /\ (privileged = false -> P).
Proof.
  intros Hg. unfold unless. destruct privileged; intros Hr; [by inv_checks|]. apply Hg in Hr as [-> HP]. auto.
Qed.

Lemma unless_role_ok privileged caller role s u s' :
  unless privileged (ensure_token_role caller role) s = (Ok u, s') ->
  s' = s /\ (privileged = false -> has_role (B20TokenRole.id role) caller s = true).
Proof. apply unless_ok. intros v t. apply ensure_role_ok. Qed.

Lemma ensure_mutations_ok caller s u s' :
  ensure_role_admin_mutations_available caller s = (Ok u, s') -> s' = s /\ admin_count s <> 0.
Proof.
  unfold ensure_role_admin_mutations_available, role_member_count. intros Hr. inv_checks.
  by rewrite decide_True in Hc.
Qed.

Lemma ensure_not_last_ok role account s u s' : ensure_not_last_admin role account s = (Ok u, s') -> s' = s.
Proof. unfold ensure_not_last_admin. intros Hr. by inv_checks. Qed.

Lemma move_balance_ok from to amount s u s' :
  move_balance from to amount s = (Ok u, s') ->
  amount <= balance_of from s /\
  let s1 := set_balance from (balance_of from s - amount) s in
  s' = emit_event (Transfer from to amount) (set_balance to (balance_of to s1 + amount) s1).
Proof. unfold move_balance. intros Hr. by inv_checks. Qed.

Lemma burn_inner_ok from amount s u s' :
  burn_inner from amount s = (Ok u, s') ->
  amount <= balance_of from s /\
  s' = emit_event (Transfer from Address_ZERO amount)
         (set_total_supply (total_supply s - amount) (set_balance from (balance_of from s - amount) s)).
Proof. unfold burn_inner. intros Hr. inv_checks. split; [lia|done]. Qed.

Lemma transfer_inner_ok `{PolicyLogic} caller from to amount privileged s u s' :
  transfer_inner caller from to amount privileged s = (Ok u, s') ->
  (privileged = false -> authorizes s B20PolicyType.TransferExecutor caller /\
     authorizes s B20PolicyType.TransferSender from /\ authorizes s B20PolicyType.TransferReceiver to) /\
  move_balance from to amount s = (Ok u, s').
Proof.
  unfold transfer_inner. intros Hr. apply bind_ok in Hr as ([] & s1 & Hi & Hr).
  apply (unless_ok _ _ _ _ _ _ (fun u s' => transfer_policies_ok caller from to s u s')) in Hi as [-> HP]. done.
Qed.

(** The guards of the role operations. *)
Lemma unless_keeps privileged (g : op ()) s u s' :
  (forall u s', g s = (Ok u, s') -> s' = s) -> unless privileged g s = (Ok u, s') -> s' = s.
Proof. intros Hg. unfold unless. destruct privileged; intros Hr; [by inv_checks|]. by apply Hg in Hr. Qed.

Lemma grant_guard_ok caller role s u s' :
  (admin ← gets (role_admin role); ensure_role caller admin : op ()) s = (Ok u, s') -> s' = s.
Proof. intros Hr. inv_checks. by apply ensure_role_ok in Hr as [-> _]. Qed.

Lemma revoke_guard_ok caller (admin : TokenStorage.t -> B256) s u s' :
  (_ ← ensure_role_admin_mutations_available caller; a ← gets admin; ensure_role caller a : op ()) s = (Ok u, s') ->
  s' = s.
Proof.
  intros Hr. inv_checks. apply ensure_mutations_ok in Hr0 as [-> _]. inv_checks. by apply ensure_role_ok in Hr as [-> _].
Qed.

Lemma set_admin_guard_ok caller admin s u s' :
  (_ ← ensure_role_admin_mutations_available caller; ensure_role caller admin : op ()) s = (Ok u, s') -> s' = s.
Proof.
  intros Hr. inv_checks. apply ensure_mutations_ok in Hr0 as [-> _]. by apply ensure_role_ok in Hr as [-> _].
Qed.

(** Takes the guards of a successful call apart. *)
Ltac inv_token :=
  inv_checks; repeat (
    match goal with
    | H : ensure_role _ _ _ = (Ok _, _) |- _ => apply ensure_role_ok in H as [-> ?]
    | H : ensure_token_role _ _ _ = (Ok _, _) |- _ => apply ensure_role_ok in H as [-> ?]
    | H : ensure_not_paused _ _ = (Ok _, _) |- _ => apply ensure_not_paused_ok in H as [-> ?]
    | H : ensure_policy_type _ _ _ = (Ok _, _) |- _ => apply ensure_policy_type_ok in H as [-> ?]
    | H : ensure_blocked _ _ = (Ok _, _) |- _ => apply ensure_blocked_ok in H as [-> ?]
    | H : ensure_seizable _ _ = (Ok _, _) |- _ => apply ensure_seizable_ok in H as [-> ?]
    | H : ensure_recipient _ _ _ = (Ok _, _) |- _ => apply ensure_recipient_ok in H as (-> & ? & ?)
    | H : ensure_sender _ _ = (Ok _, _) |- _ => apply ensure_sender_ok in H as [-> ?]
    | H : unless _ (ensure_token_role _ _) _ = (Ok _, _) |- _ => apply unless_role_ok in H as [-> ?]
    | H : unless _ _ _ = (Ok _, _) |- _ => apply unless_keeps in H as ->;
        [|first [apply grant_guard_ok|apply revoke_guard_ok|apply set_admin_guard_ok]]
    | H : ensure_role_admin_mutations_available _ _ = (Ok _, _) |- _ => apply ensure_mutations_ok in H as [-> ?]
    | H : ensure_not_last_admin _ _ _ = (Ok _, _) |- _ => apply ensure_not_last_ok in H as ->
    | H : transfer_inner _ _ _ _ _ _ = (Ok _, _) |- _ => apply transfer_inner_ok in H as [? H]
    | H : move_balance _ _ _ _ = (Ok _, _) |- _ => apply move_balance_ok in H as [? ->]
    | H : burn_inner _ _ _ = (Ok _, _) |- _ => apply burn_inner_ok in H as [? ->]
    | H : emit_memo _ _ _ = (Ok _, _) |- _ => apply modify_ok in H as ->
    end; inv_checks).

(** *** What each operation does *)

Lemma effect_emit tok s s' e : effect tok s s' -> effect tok s (emit_event e s').
Proof.
  destruct 1 as [from to amount Ha Hz Ht Eb Es [Ec Er En]|to amount Ha Hz Ht Hcap Eb Es [Ec Er En]
    |from amount Ha Eb Es [Ec Er En]|Hc Eb Es Er En|role account Hn Er En Eb Es Ec
    |role account Hi Er En Eb Es Ec|Eb Es [Ec Er En]].
  - by apply (effect_move _ _ _ from to amount).
  - by apply (effect_mint _ _ _ to amount).
  - by apply (effect_burn _ _ _ from amount).
  - by apply effect_cap.
  - by apply (effect_grant _ _ _ role account).
  - by apply (effect_revoke _ _ _ role account).
  - by apply effect_other.
Qed.

Lemma effect_allowance tok s s' owner spender x : effect tok s s' -> effect tok s (set_allowance owner spender x s').
Proof.
  destruct 1 as [from to amount Ha Hz Ht Eb Es [Ec Er En]|to amount Ha Hz Ht Hcap Eb Es [Ec Er En]
    |from amount Ha Eb Es [Ec Er En]|Hc Eb Es Er En|role account Hn Er En Eb Es Ec
    |role account Hi Er En Eb Es Ec|Eb Es [Ec Er En]].
  - by apply (effect_move _ _ _ from to amount).
  - by apply (effect_mint _ _ _ to amount).
  - by apply (effect_burn _ _ _ from amount).
  - by apply effect_cap.
  - by apply (effect_grant _ _ _ role account).
  - by apply (effect_revoke _ _ _ role account).
  - by apply effect_other.
Qed.

Lemma effect_of_move tok from to amount s :
  0 <= amount <= balance_of from s -> to <> Address_ZERO -> to <> tok ->
  let s1 := set_balance from (balance_of from s - amount) s in
  effect tok s (emit_event (Transfer from to amount) (set_balance to (balance_of to s1 + amount) s1)).
Proof. intros Ha Hz Ht. by apply (effect_move _ _ _ from to amount). Qed.

Section Effects.
Context `{PolicyLogic} (token_address : Address).

Lemma transfer_effect caller to amount privileged s u s' :
  0 <= amount -> transfer token_address caller to amount privileged s = (Ok u, s') -> effect token_address s s'.
Proof. unfold transfer. intros Ha Hr. inv_token. by apply effect_of_move. Qed.

Lemma transfer_from_effect caller from to amount privileged s u s' :
  0 <= amount -> transfer_from token_address caller from to amount privileged s = (Ok u, s') ->
  effect token_address s s'.
Proof.
  unfold transfer_from. intros Ha Hr. inv_token.
  match goal with H : (if ?c then _ else _) _ = (Ok _, _) |- _ => destruct c end; inv_token;
    [|apply effect_allowance]; by apply effect_of_move.
Qed.

Lemma mint_effect caller to amount privileged s u s' :
  0 <= amount -> mint token_address caller to amount privileged s = (Ok u, s') -> effect token_address s s'.
Proof. unfold mint. intros Ha Hr. inv_token. apply (effect_mint _ _ _ to amount); done || lia. Qed.

Lemma burn_effect caller amount s u s' :
  0 <= amount -> burn caller amount s = (Ok u, s') -> effect token_address s s'.
Proof. unfold burn. intros Ha Hr. inv_token. by apply (effect_burn _ _ _ caller amount). Qed.

Lemma burn_blocked_effect caller from amount privileged s u s' :
  0 <= amount -> burn_blocked caller from amount privileged s = (Ok u, s') -> effect token_address s s'.
Proof. unfold burn_blocked. intros Ha Hr. inv_token. by apply (effect_burn _ _ _ from amount). Qed.

Lemma seize_effect caller from to amount memo s u s' :
  0 <= amount -> seize_with_memo token_address caller from to amount memo s = (Ok u, s') ->
  effect token_address s s'.
Proof. unfold seize_with_memo. intros Ha Hr. inv_token. do 2 apply effect_emit. by apply effect_of_move. Qed.

Lemma set_admin_count_id s : set_admin_count (admin_count s) s = s.
Proof. by destruct s. Qed.

Lemma grant_unchecked_ok role account sender s u s' :
  grant_role_unchecked role account sender s = (Ok u, s') ->
  (((role, account) ∈ roles s) /\ s' = s) \/
  (((role, account) ∉ roles s) /\
   s' = emit_event (RoleGranted role account sender)
          (set_admin_count (admin_count s + (if decide (role = admin_role) then 1 else 0)) (set_role role account true s))).
Proof.
  unfold grant_role_unchecked, has_role. intros Hr. inv_checks.
  destruct (decide ((role, account) ∈ roles s)) as [Hi|Hi]; [left|right]; (split; [done|]).
  - rewrite bool_decide_eq_true_2 in Hr by done. by inv_checks.
  - rewrite bool_decide_eq_false_2 in Hr by done. inv_checks. f_equal. fold admin_role in *. case_decide as E; inv_checks.
    + unfold set_role_member_count, role_member_count. by rewrite !decide_True.
    + rewrite Z.add_0_r. symmetry. apply (set_admin_count_id (set_role role account true s)).
Qed.

Lemma revoke_unchecked_ok role account sender s u s' :
  revoke_role_unchecked role account sender s = (Ok u, s') ->
  (((role, account) ∉ roles s) /\ s' = s) \/
  (((role, account) ∈ roles s) /\
   s' = emit_event (RoleRevoked role account sender)
          (set_admin_count (admin_count s - (if decide (role = admin_role) then 1 else 0)) (set_role role account false s))).
Proof.
  unfold revoke_role_unchecked, has_role. intros Hr. inv_checks.
  destruct (decide ((role, account) ∈ roles s)) as [Hi|Hi]; [right|left]; (split; [done|]).
  - rewrite bool_decide_eq_true_2 in Hr by done. cbn [negb] in Hr. inv_checks. f_equal. fold admin_role in *.
    case_decide as E; inv_checks.
    + unfold set_role_member_count, role_member_count. by rewrite !decide_True.
    + rewrite Z.sub_0_r. symmetry. apply (set_admin_count_id (set_role role account false s)).
  - rewrite bool_decide_eq_false_2 in Hr by done. cbn [negb] in Hr. by inv_checks.
Qed.

Lemma grant_unchecked_effect role account sender s u s' :
  grant_role_unchecked role account sender s = (Ok u, s') -> effect token_address s s'.
Proof.
  intros [[_ ->]|[Hn ->]]%grant_unchecked_ok; [by apply effect_other|]. by apply (effect_grant _ _ _ role account).
Qed.

Lemma revoke_unchecked_effect role account sender s u s' :
  revoke_role_unchecked role account sender s = (Ok u, s') -> effect token_address s s'.
Proof.
  intros [[_ ->]|[Hn ->]]%revoke_unchecked_ok; [by apply effect_other|]. by apply (effect_revoke _ _ _ role account).
Qed.

End Effects.

(** The amounts of a call are unsigned. *)
Definition call_ok (call : B20Call) : Prop :=
  match call with
  | Stablecoins.transfer _ amount | transferFrom _ _ amount | transferWithMemo _ amount _
  | transferFromWithMemo _ _ amount _ | Stablecoins.mint _ amount | mintWithMemo _ amount _
  | Stablecoins.burn amount | burnWithMemo amount _ | burnBlocked _ amount | seizeWithMemo _ _ amount _ =>
      0 <= amount <= u256_max
  | _ => True
  end.

Section Tokens.
Context `{PolicyLogic} `{Keccak} `{SignatureRecovery} (token_address : Address).

Abbreviation route := (B20StablecoinToken.route token_address).

Lemma permit_ok chain_id now args s u s' :
  StablecoinV3.permit token_address chain_id now args s = (Ok u, s') ->
  let owner := PermitArgs.owner args in
  now <= PermitArgs.deadline args /\ owner <> Address_ZERO /\
  PermitArgs.recover_signer args
    (PermitArgs.signing_hash args (domain_separator token_address chain_id s) (nonce owner s)) = Ok owner /\
  s' = emit_event (Approval owner (PermitArgs.spender args) (PermitArgs.value args))
         (set_allowance owner (PermitArgs.spender args) (PermitArgs.value args)
            (set_nonce owner (nonce owner s + 1) s)).
Proof.
  unfold StablecoinV3.permit, increment_nonce, StablecoinV3.approve. intros Hr. inv_checks.
  unfold PermitArgs.validate_recovered_address in *. repeat case_decide; try done.
  match goal with Hs : _ = Ok ?x, Hn : ~ (?x = _ \/ ?x <> _) |- _ =>
    assert (x = PermitArgs.owner args) by (apply dec_stable; tauto); subst x end.
  split_and!; done || lia.
Qed.

Lemma route_effect ctx privileged call s u s' :
  call_ok call -> route ctx privileged call s = (Ok u, s') -> effect token_address s s'.
Proof.
  destruct call; unfold B20StablecoinToken.route; cbn [call_ok]; intros Hk Hr.
  - eapply transfer_effect; [apply Hk|eassumption].
  - eapply transfer_from_effect; [apply Hk|eassumption].
  - unfold StablecoinV3.approve in Hr. inv_token. by apply effect_other.
  - inv_token. apply effect_emit. eapply transfer_effect; [apply Hk|eassumption].
  - inv_token. apply effect_emit. eapply transfer_from_effect; [apply Hk|eassumption].
  - eapply mint_effect; [apply Hk|eassumption].
  - inv_token. apply effect_emit. eapply mint_effect; [apply Hk|eassumption].
  - eapply burn_effect; [apply Hk|eassumption].
  - inv_token. apply effect_emit. eapply burn_effect; [apply Hk|eassumption].
  - eapply burn_blocked_effect; [apply Hk|eassumption].
  - eapply seize_effect; [apply Hk|eassumption].
  - unfold StablecoinV3.pause in Hr. inv_token. by apply effect_other.
  - unfold StablecoinV3.unpause in Hr. inv_token. by apply effect_other.
  - unfold update_supply_cap in Hr. inv_token. apply effect_cap; try done. cbn. lia.
  - unfold update_name in Hr. inv_token. by apply effect_other.
  - unfold update_symbol in Hr. inv_token. by apply effect_other.
  - unfold update_contract_uri in Hr. inv_token. by apply effect_other.
  - unfold grant_role in Hr. apply bind_ok in Hr as ([] & s1 & Hg & Hr).
    assert (s1 = s) as -> by (case_decide; inv_token; done). inv_token. by eapply grant_unchecked_effect.
  - unfold revoke_role in Hr. inv_token. by eapply revoke_unchecked_effect.
  - unfold renounce_role in Hr. inv_token. by eapply revoke_unchecked_effect.
  - unfold renounce_last_admin in Hr. inv_token. apply effect_emit. by eapply revoke_unchecked_effect.
  - unfold StablecoinV3.set_role_admin in Hr. inv_token. by apply effect_other.
  - unfold update_policy, ensure_supported_policy_type, policy_id, set_policy_id in Hr.
    destruct (B20PolicyType.from_id policy_scope); inv_token; by apply effect_other.
  - apply permit_ok in Hr as (_ & _ & _ & ->). by apply effect_other.
Qed.

Lemma sound_empty : sound token_address TokenStorage.empty.
Proof. split; done. Qed.

Lemma emit_sound s e : sound token_address s -> sound token_address (emit_event e s).
Proof. by destruct 1. Qed.

Lemma for_each_sound ctx privileged calls s u s' :
  Forall call_ok calls -> sound token_address s ->
  PolicyRegistryV3.for_each (route ctx privileged) calls s = (Ok u, s') -> sound token_address s'.
Proof.
  intros Hk. revert s. induction Hk as [|call calls Hc Hk IH]; intros s Hs; cbn [PolicyRegistryV3.for_each];
    intros Hr; inv_checks; [done|].
  eapply IH; [|exact Hr]. eapply effect_sound; [exact Hs|]. by eapply route_effect.
Qed.

Lemma init_sound ctx name symbol currency initial_admin init_calls u s :
  Forall call_ok init_calls ->
  B20Factory.init_stablecoin token_address ctx name symbol currency initial_admin init_calls TokenStorage.empty = (Ok u, s) ->
  sound token_address s.
Proof.
  intros Hk Hr. unfold B20Factory.init_stablecoin in Hr.
  apply bind_ok in Hr as ([] & s1 & Hi & Hr). apply bind_ok in Hr as ([] & s0 & He & Hr).
  apply bind_ok in Hr as ([] & s2 & Hg & Hr). apply modify_ok in He as ->.
  eapply for_each_sound; [exact Hk| |exact Hr].
  assert (Hi1 : sound token_address s1).
  { unfold B20Factory.initialize in Hi. inv_checks. eapply effect_sound; [apply sound_empty|]. by apply effect_cap. }
  apply (emit_sound _ (B20Created token_address name symbol B20Factory.STABLECOIN_DECIMALS currency)) in Hi1.
  case_decide; inv_checks; [done|]. eapply effect_sound; [exact Hi1|]. by eapply grant_unchecked_effect.
Qed.

End Tokens.

(** A call with the registry as it is then. *)
Module TokenCall.

Record t : Type := mk { logic : PolicyLogic; ctx : CallContext.t; call : B20Call }.

End TokenCall.

Section TokenRuns.
Context `{Keccak} `{SignatureRecovery} (token_address : Address).

(** A call of anyone to a token that exists, in a frame of its own. *)
Definition token_call (c : TokenCall.t) : op () :=
  frame (@B20StablecoinToken.route (TokenCall.logic c) _ _ token_address (TokenCall.ctx c) false (TokenCall.call c)).

Definition run_token (calls : list TokenCall.t) (s : TokenStorage.t) : TokenStorage.t :=
  fold_left (fun s c => (token_call c s).2) calls s.

Lemma token_call_cases c s :
  (exists u s', @B20StablecoinToken.route (TokenCall.logic c) _ _ token_address (TokenCall.ctx c) false (TokenCall.call c) s =
     (Ok u, s') /\ (token_call c s).2 = s') \/ (token_call c s).2 = s.
Proof. unfold token_call, frame. destruct (B20StablecoinToken.route _ _ _ _ _) as [[u| |] s']; eauto 10. Qed.

Lemma run_token_sound calls s :
  Forall (fun c => call_ok (TokenCall.call c)) calls -> sound token_address s -> sound token_address (run_token calls s).
Proof.
  intros Hk. revert s. induction Hk as [|c calls Hc Hk IH]; intros s Hs; [done|].
  unfold run_token. cbn [fold_left]. apply IH.
  destruct (token_call_cases c s) as [(u & s' & Hr & ->)| ->]; [|done].
  eapply effect_sound; [exact Hs|]. by eapply route_effect.
Qed.

(** C37: from its creation on, whatever calls are made and whatever the policies say,
    the balances of a token sum to its supply, the supply is within the cap and the
    cap within the maximum, the zero address and the token itself hold nothing,
    and the count of admins is that of the accounts with the admin role.  The
    amounts of the calls are 256-bit words, as the ABI decodes them. *)
Theorem token_books logic ctx name symbol currency initial_admin init_calls u s calls :
  @B20Factory.init_stablecoin logic _ _ token_address ctx name symbol currency initial_admin init_calls
    TokenStorage.empty = (Ok u, s) ->
  Forall call_ok init_calls -> Forall (fun c => call_ok (TokenCall.call c)) calls ->
  sound token_address (run_token calls s).
Proof. intros Hr Hi Hc. apply run_token_sound; [done|]. by eapply init_sound. Qed.

End TokenRuns.

(** ** Who can lower a balance *)

Section Debits.
Context `{PolicyLogic} `{Keccak} `{SignatureRecovery} (token_address : Address).

(** The three policies of a transfer, and its feature. *)
Definition may_transfer (s : TokenStorage.t) (caller from to : Address) : Prop :=
  running s B20PausableFeature.TRANSFER /\
  authorizes s B20PolicyType.TransferExecutor caller /\
  authorizes s B20PolicyType.TransferSender from /\
  authorizes s B20PolicyType.TransferReceiver to.

(** The call of [caller] takes [amount] from the account by right. *)
Definition may_debit (caller : Address) (call : B20Call) (s s' : TokenStorage.t) (account : Address) (amount : Z) : Prop :=
  match call with
  | Stablecoins.transfer to x | transferWithMemo to x _ =>
      account = caller /\ amount = x /\ may_transfer s caller caller to
  | transferFrom from to x | transferFromWithMemo from to x _ =>
      account = from /\ amount = x /\ may_transfer s caller from to /\
      let a := allowance from caller s in
      if decide (a = u256_max) then allowance from caller s' = a
      else x <= a /\ allowance from caller s' = a - x
  | Stablecoins.burn x | burnWithMemo x _ =>
      account = caller /\ amount = x /\ running s B20PausableFeature.BURN /\
      has_role (B20TokenRole.id B20TokenRole.Burn) caller s = true
  | burnBlocked from x =>
      account = from /\ amount = x /\ running s B20PausableFeature.BURN /\
      has_role (B20TokenRole.id B20TokenRole.BurnBlocked) caller s = true /\
      rejects s B20PolicyType.TransferSender from
  | seizeWithMemo from to x _ =>
      account = from /\ amount = x /\ running s B20PausableFeature.SEIZE /\
      has_role (B20TokenRole.id B20TokenRole.Seize) caller s = true /\
      rejects s B20PolicyType.SeizeExempt from /\ authorizes s B20PolicyType.SeizeReceiver to
  | _ => False
  end.

(** The only account a move lowers is the one it takes from. *)
Lemma move_debits (from to : Address) (amount : Z) (account : Address) (m : gmap Address Z) :
  0 <= amount ->
  let m1 := <[from := default 0 (m !! from) - amount]> m in
  default 0 (<[to := default 0 (m1 !! to) + amount]> m1 !! account) < default 0 (m !! account) ->
  account = from /\ default 0 (<[to := default 0 (m1 !! to) + amount]> m1 !! account) = default 0 (m !! account) - amount.
Proof. intros Ha m1. subst m1. rewrite !balance_insert. repeat case_decide; subst; intros; first [exfalso; lia|split; [done|lia]]. Qed.

Lemma burn_debits (from : Address) (amount : Z) (account : Address) (m : gmap Address Z) :
  let m1 := <[from := default 0 (m !! from) - amount]> m in
  default 0 (m1 !! account) < default 0 (m !! account) ->
  account = from /\ default 0 (m1 !! account) = default 0 (m !! account) - amount.
Proof. intros m1. subst m1. rewrite !balance_insert. repeat case_decide; subst; intros; first [exfalso; lia|split; [done|lia]]. Qed.

Lemma transfer_debits caller to x s u s' account :
  0 <= x -> transfer token_address caller to x false s = (Ok u, s') ->
  balance_of account s' < balance_of account s ->
  balance_of account s' = balance_of account s - x /\ may_debit caller (Stablecoins.transfer to x) s s' account x.
Proof.
  unfold transfer. intros Ha Hr Hl. inv_token. apply move_debits in Hl as [-> Hb]; [|done].
  unfold may_debit, may_transfer. intuition.
Qed.

Lemma transfer_from_debits caller from to x s u s' account :
  0 <= x -> transfer_from token_address caller from to x false s = (Ok u, s') ->
  balance_of account s' < balance_of account s ->
  balance_of account s' = balance_of account s - x /\ may_debit caller (transferFrom from to x) s s' account x.
Proof.
  unfold transfer_from. intros Ha Hr Hl. inv_token. unfold may_debit, may_transfer.
  case_bool_decide as E; inv_token; (apply move_debits in Hl as [-> Hb]; [|done]); (split; [exact Hb|]);
    (split_and!; [tauto..|]).
  - by rewrite decide_True.
  - rewrite decide_False by done. cbn in Hc. rewrite negb_true_iff, bool_decide_eq_false in Hc.
    unfold allowance at 2. cbn. rewrite lookup_insert_eq. cbn. split; [lia|done].
Qed.

Lemma burn_call_debits caller x s u s' account :
  burn caller x s = (Ok u, s') -> balance_of account s' < balance_of account s ->
  balance_of account s' = balance_of account s - x /\ may_debit caller (Stablecoins.burn x) s s' account x.
Proof. unfold burn, may_debit. intros Hr Hl. inv_token. apply burn_debits in Hl as [-> Hb]. by split_and!. Qed.

Lemma mint_debits caller to x privileged s u s' account :
  0 <= x -> mint token_address caller to x privileged s = (Ok u, s') -> balance_of account s <= balance_of account s'.
Proof.
  unfold mint. intros Ha Hr. inv_token. unfold balance_of. cbn. rewrite balance_insert. case_decide; subst; lia.
Qed.

(** The calls that do not touch the balances. *)
Definition moves_nothing (call : B20Call) : bool :=
  match call with
  | Stablecoins.transfer _ _ | transferFrom _ _ _ | transferWithMemo _ _ _ | transferFromWithMemo _ _ _ _
  | Stablecoins.mint _ _ | mintWithMemo _ _ _ | Stablecoins.burn _ | burnWithMemo _ _ | burnBlocked _ _
  | seizeWithMemo _ _ _ _ => false
  | _ => true
  end.

Lemma grant_keeps_balances role account sender s u s' :
  grant_role_unchecked role account sender s = (Ok u, s') -> balances s' = balances s.
Proof. by intros [[_ ->]|[_ ->]]%grant_unchecked_ok. Qed.

Lemma revoke_keeps_balances role account sender s u s' :
  revoke_role_unchecked role account sender s = (Ok u, s') -> balances s' = balances s.
Proof. by intros [[_ ->]|[_ ->]]%revoke_unchecked_ok. Qed.

Lemma route_keeps_balances ctx privileged call s u s' :
  moves_nothing call = true -> B20StablecoinToken.route token_address ctx privileged call s = (Ok u, s') ->
  balances s' = balances s.
Proof.
  destruct call; try done; intros _ Hr; unfold B20StablecoinToken.route in Hr;
    try (unfold StablecoinV3.approve, StablecoinV3.pause, StablecoinV3.unpause, update_supply_cap, update_name,
      update_symbol, update_contract_uri, StablecoinV3.set_role_admin in Hr; inv_token; done).
  - unfold grant_role in Hr. apply bind_ok in Hr as ([] & s1 & Hg & Hr).
    assert (s1 = s) as -> by (case_decide; inv_token; done). inv_token. by eapply grant_keeps_balances.
  - unfold revoke_role in Hr. inv_token. by eapply revoke_keeps_balances.
  - unfold renounce_role in Hr. inv_token. by eapply revoke_keeps_balances.
  - unfold renounce_last_admin in Hr. inv_token. cbn. by eapply revoke_keeps_balances.
  - unfold update_policy, ensure_supported_policy_type, policy_id, set_policy_id in Hr.
    destruct (B20PolicyType.from_id policy_scope); by inv_token.
  - by apply permit_ok in Hr as (_ & _ & _ & ->).
Qed.

(** C38: a successful call that is not one of the factory lowers a balance only by
    the amount it names, and only by right: it is a transfer of the owner or of a
    spender within the allowance, which it uses up, that the three policies
    authorize; a burn of the caller's own balance; a burn of a balance whose owner
    the sender policy rejects; or the seizure of a balance that is not exempt; with
    the role each needs, and the feature not paused.  The amount of the call is a
    256-bit word. *)
Theorem balance_debits ctx call s u s' account :
  call_ok call -> B20StablecoinToken.route token_address ctx false call s = (Ok u, s') ->
  balance_of account s' < balance_of account s ->
  exists amount, balance_of account s' = balance_of account s - amount /\
    may_debit (CallContext.caller ctx) call s s' account amount.
Proof.
  destruct (moves_nothing call) eqn:Em.
  { intros _ Hr%route_keeps_balances Hl; [|done]. unfold balance_of in Hl. rewrite Hr in Hl. lia. }
  destruct call; try done; unfold B20StablecoinToken.route; cbn [call_ok]; intros Hk Hr Hl;
    try (apply bind_ok in Hr as ([] & s1 & Hr & He); unfold emit_memo in He; apply modify_ok in He as ->).
  - exists amount. exact (transfer_debits _ _ _ _ _ _ account (proj1 Hk) Hr Hl).
  - exists amount. exact (transfer_from_debits _ _ _ _ _ _ _ account (proj1 Hk) Hr Hl).
  - exists amount. exact (transfer_debits _ _ _ _ _ _ account (proj1 Hk) Hr Hl).
  - exists amount. exact (transfer_from_debits _ _ _ _ _ _ _ account (proj1 Hk) Hr Hl).
  - eapply (mint_debits _ _ _ _ _ _ _ account) in Hr; [lia|lia].
  - eapply (mint_debits _ _ _ _ _ _ _ account) in Hr; [|lia]. change (balance_of account s1 < balance_of account s) in Hl. lia.
  - exists amount. exact (burn_call_debits _ _ _ _ _ account Hr Hl).
  - exists amount. exact (burn_call_debits _ _ _ _ _ account Hr Hl).
  - unfold burn_blocked in Hr. inv_token. apply burn_debits in Hl as [-> Hb]. eexists. split; [exact Hb|]. cbn. auto 10.
  - unfold seize_with_memo in Hr. inv_token. apply move_debits in Hl as [-> Hb]; [|lia].
    eexists. split; [exact Hb|]. cbn. auto 10.
Qed.

End Debits.

(** ** A token without admins *)

(** What nobody can change any more: roles only go away. *)
Record frozen_by (s s' : TokenStorage.t) : Prop := {
  fb_roles : roles s' ⊆ roles s;
  fb_admins : role_admins s' = role_admins s;
  fb_policies : policy_ids s' = policy_ids s;
  fb_cap : supply_cap s' = supply_cap s;
  fb_count : admin_count s' = 0
}.

Lemma no_admin tok s (account : Address) : sound tok s -> admin_count s = 0 -> (admin_role, account) ∉ roles s.
Proof.
  intros Hs Hc Hi. pose proof (so_admins _ _ Hs) as Ha. rewrite Hc in Ha.
  assert (He : admins s ≡ ∅) by (apply size_empty_inv; lia).
  apply (not_elem_of_empty (C := gset (B256 * Address)) (admin_role, account)). rewrite <- He.
  unfold admins. by rewrite elem_of_filter.
Qed.

Lemma no_admin_role tok s account : sound tok s -> admin_count s = 0 -> has_role admin_role account s <> true.
Proof. intros Hs Hc Hr. apply bool_decide_eq_true in Hr. by eapply no_admin. Qed.

Section Adminless.
Context `{PolicyLogic} `{Keccak} `{SignatureRecovery} (token_address : Address).

Lemma revoke_frozen role account sender s u s' :
  sound token_address s -> admin_count s = 0 ->
  revoke_role_unchecked role account sender s = (Ok u, s') -> frozen_by s s'.
Proof.
  intros Hs Hc [[_ ->]|[Hi ->]]%revoke_unchecked_ok; [by split|]. split; try done; cbn; [set_solver|].
  case_decide as E; [|lia]. subst. by edestruct no_admin.
Qed.

Lemma route_frozen ctx call s u s' :
  sound token_address s -> admin_count s = 0 ->
  B20StablecoinToken.route token_address ctx false call s = (Ok u, s') -> frozen_by s s'.
Proof.
  intros Hs Hc Hr. pose proof (no_admin_role token_address s (CallContext.caller ctx) Hs Hc) as Hn.
  destruct call; unfold B20StablecoinToken.route in Hr.
  all: try (unfold StablecoinV3.transfer, transfer_from, StablecoinV3.approve, StablecoinV3.mint, StablecoinV3.burn,
    burn_blocked, seize_with_memo, StablecoinV3.pause, StablecoinV3.unpause, update_name,
      update_symbol, update_contract_uri in Hr; inv_token; by split).
  1-2: unfold transfer_from in Hr; inv_token;
    match goal with H : (if ?c then _ else _) _ = _ |- _ => destruct c end; inv_token; by split.
  - unfold update_supply_cap in Hr. inv_token. match goal with H : _ -> has_role _ _ _ = true |- _ => by destruct (Hn (H eq_refl)) end.
  - unfold grant_role in Hr. apply bind_ok in Hr as ([] & s1 & Hg & Hr). rewrite decide_True in Hg by auto. by inv_token.
  - unfold revoke_role in Hr. apply bind_ok in Hr as ([] & s1 & Hg & Hr). cbn [unless] in Hg. by inv_token.
  - unfold renounce_role in Hr. inv_token. by eapply revoke_frozen.
  - unfold renounce_last_admin in Hr. by inv_token.
  - unfold StablecoinV3.set_role_admin in Hr. cbn [unless] in Hr. by inv_token.
  - unfold update_policy in Hr. inv_token. match goal with H : _ -> has_role _ _ _ = true |- _ => by destruct (Hn (H eq_refl)) end.
  - by apply permit_ok in Hr as (_ & _ & _ & ->).
Qed.

End Adminless.

Section AdminlessRuns.
Context `{Keccak} `{SignatureRecovery} (token_address : Address).

(** Once a token has no admin, whatever calls are made and whatever the
    registry says then, no account gains a role, and the supply cap, the policies
    and the admins of the roles stay what they are. *)
Theorem adminless_frozen calls s :
  sound token_address s -> admin_count s = 0 -> Forall (fun c => call_ok (TokenCall.call c)) calls ->
  frozen_by s (run_token token_address calls s).
Proof.
  intros Hs Hc Hk. revert s Hs Hc. induction Hk as [|c calls Hck Hk IH]; intros s Hs Hc; [by split|].
  unfold run_token. cbn [fold_left].
  destruct (token_call_cases token_address c s) as [(u & s' & Hr & ->)| ->]; [|by apply IH].
  pose proof (route_frozen _ _ _ _ _ _ Hs Hc Hr) as [R A P C N].
  assert (Hs' : sound token_address s') by (eapply effect_sound; [exact Hs|]; by eapply route_effect).
  destruct (IH s' Hs' N) as [R2 A2 P2 C2 N2]. unfold run_token in *. split; congruence || set_solver.
Qed.

End AdminlessRuns.

(** ** The transfer in full *)

Section Transfers.
Context `{PolicyLogic} (token_address : Address).

(** When a transfer by a spender goes through, and what it leaves. *)
Definition transferable (caller from to : Address) (amount : Z) (s : TokenStorage.t) : Prop :=
  to <> Address_ZERO /\ to <> token_address /\ from <> Address_ZERO /\
  (allowance from caller s = u256_max \/ amount <= allowance from caller s) /\
  may_transfer s caller from to /\ amount <= balance_of from s.

Definition transferred (caller from to : Address) (amount : Z) (s : TokenStorage.t) : TokenStorage.t :=
  let s1 := set_balance from (balance_of from s - amount) s in
  let s2 := emit_event (Transfer from to amount) (set_balance to (balance_of to s1 + amount) s1) in
  if decide (allowance from caller s = u256_max) then s2
  else set_allowance from caller (allowance from caller s - amount) s2.

Lemma ensure_run {E S} c (e : E) (s : S) : c = true -> ensure c e s = (Ok (), s).
Proof. by intros ->. Qed.

Lemma authorized_run scope id account s :
  logic_authorizes id account = Ok true -> ensure_authorized_by_id scope id account s = (Ok (), s).
Proof. unfold ensure_authorized_by_id. intros Ha. rewrite bind_run. cbn. by rewrite Ha. Qed.

Lemma transfer_policies_run caller from to s : may_transfer s caller from to -> transfer_policies caller from to s = (Ok (), s).
Proof.
  intros (_ & He & Hs & Hr). unfold transfer_policies. rewrite bind_run. cbn [gets]. rewrite bind_run.
  rewrite (authorized_run _ _ _ _ He), bind_run. case_decide; [rewrite (authorized_run _ _ _ _ Hs)|]; by apply authorized_run.
Qed.

(** The receiver has room: no balance exceeds the supply. *)
Lemma move_balance_run from to amount s :
  sound token_address s -> 0 <= amount <= balance_of from s ->
  let s1 := set_balance from (balance_of from s - amount) s in
  move_balance from to amount s =
    (Ok (), emit_event (Transfer from to amount) (set_balance to (balance_of to s1 + amount) s1)).
Proof.
  intros Hs Ha s1. unfold move_balance, u256_checked_sub, u256_checked_add.
  rewrite bind_run. cbn [gets]. rewrite bind_run, ensure_run by (apply negb_true_iff, bool_decide_eq_false; lia).
  rewrite decide_True by lia. cbn [ok_or]. rewrite bind_run. cbn [lift]. rewrite bind_run. cbn [modify].
  rewrite bind_run. cbn [gets]. fold s1. rewrite decide_True; [done|].
  subst s1. unfold balance_of in *. cbn [set_balance balances]. rewrite balance_insert.
  pose proof (balance_le_total (balances s) to (so_nonneg _ _ Hs)).
  pose proof (balance_le_total (balances s) from (so_nonneg _ _ Hs)).
  destruct Hs as [S _ C _ _ _]. unfold B20_MAX_SUPPLY_CAP, u256_max in *. case_decide; lia.
Qed.

(** C39: in a token with sound books, which every token has, a transfer of an
    unsigned amount by a spender goes through exactly
    when the feature runs, the three policies authorize the parties, the addresses
    are none of the refused ones and the allowance and the balance suffice; what it
    leaves is the two balances moved by the amount, the event, and the allowance
    used up unless it is the infinite one. *)
Theorem transfer_from_exact caller from to amount s s' :
  sound token_address s -> 0 <= amount ->
  transfer_from token_address caller from to amount false s = (Ok (), s') <->
  transferable caller from to amount s /\ s' = transferred caller from to amount s.
Proof.
  intros Hs Ha. unfold transferable, transferred, may_transfer. split.
  - unfold transfer_from. intros Hr. inv_token. case_bool_decide as E; cbn in Hc; inv_token.
    + rewrite decide_True by done. tauto.
    + rewrite decide_False by done.
      split; [|done]. split_and!; try tauto. right. lia.
  - intros [(Hz & Ht & Hf & Hal & Hm & Hb) ->]. unfold transfer_from, transfer_inner, ensure_not_paused, ensure_recipient, ensure_sender.
    rewrite bind_run. cbn [gets]. rewrite (bind_run (gets paused)). cbn [gets].
    rewrite ensure_run by (apply bool_decide_eq_true; apply Hm).
    rewrite bind_run, ensure_run by (apply negb_true_iff, bool_decide_eq_false; tauto).
    rewrite bind_run, ensure_run by (by apply negb_true_iff, bool_decide_eq_false).
    rewrite bind_run. cbn [gets]. rewrite bind_run, ensure_run
      by (apply orb_true_iff; destruct Hal; [left; by apply bool_decide_eq_true|right; apply negb_true_iff, bool_decide_eq_false; lia]).
    rewrite bind_run, (bind_run (unless _ _)). cbn [unless]. rewrite (transfer_policies_run _ _ _ _ Hm), move_balance_run by done.
    case_bool_decide; [by rewrite decide_True|by rewrite decide_False].
Qed.

End Transfers.
