(* ===== verification/StablecoinModels.v ===== *)
(** * A sample token

    A token made by the factory over a sample registry, with a sample hash and a
    sample recovery of signers, on which the theorems of the stablecoin apply. *)

From S2P Require Import Prelude Effects Primitives SpanTxData Tries Policies PolicyProofs Stablecoins StablecoinProofs.

Import TokenStorage StablecoinV3.

Module SampleToken.

Import SampleRegistry.

(** The hash pads its input, and the signer is the head of [r]. *)
Definition sample_keccak : Keccak := fun b => take 32 (b ++ zeros 32).
Definition sample_recovery : SignatureRecovery := fun r s odd_y_parity hash => Some (take 20 r).

Definition registry : PolicyStorage.t := run_calls history PolicyStorage.empty.
Definition logic : PolicyLogic := registry_logic registry.

Definition token : Address := account 200.
Definition role (r : B20TokenRole.t) : B256 := B20TokenRole.id r.
Definition by_ (n : Z) (call : B20Call) : TokenCall.t := TokenCall.mk logic (CallContext.mk (account n) 8453 100) call.

(** The admin is account 1, and account 5 starts with 100. *)
Definition created : StablecoinV3.op () :=
  @B20Factory.init_stablecoin logic sample_keccak sample_recovery token (CallContext.mk (account 1) 8453 90)
    [Byte.x61] [Byte.x62] [Byte.x55; Byte.x53; Byte.x44] (account 1)
    [Stablecoins.mint (account 5) 100; grantRole (role B20TokenRole.Seize) (account 2)].

Definition start : TokenStorage.t := (created TokenStorage.empty).2.

(** Account 6 is not on the list that exempts from seizure: it loses what it got. *)
Definition life : list TokenCall.t :=
  [by_ 1 (updatePolicy (B20PolicyType.id B20PolicyType.SeizeExempt) (PolicyRegistryV3.inverted_policy_id (PolicyRegistryV3.make_id 1 2)));
   by_ 5 (Stablecoins.approve (account 7) 60);
   by_ 7 (transferFrom (account 5) (account 6) 40);
   by_ 7 (transferFrom (account 5) (account 6) 40);
   by_ 2 (seizeWithMemo (account 6) (account 9) 15 (zeros 32));
   by_ 3 (Stablecoins.permit (PermitArgs.mk (account 9) (account 3) 4 120 27 (account 9 ++ zeros 12) (zeros 32)));
   by_ 3 (transferFrom (account 9) (account 8) 4);
   by_ 1 renounceLastAdmin].

Definition finish : TokenStorage.t := @run_token sample_keccak sample_recovery token life start.

Lemma ran {A} (m : StablecoinV3.op A) s a : (m s).1 = Ok a -> m s = (Ok a, (m s).2).
Proof. destruct (m s) as [r s']. cbn. by intros ->. Qed.

Lemma life_ok : Forall (fun c => call_ok (TokenCall.call c)) life.
Proof. repeat constructor; done. Qed.

Lemma created_ok : created TokenStorage.empty = (Ok (), start).
Proof. apply (ran created TokenStorage.empty ()). vm_compute. reflexivity. Qed.

Lemma start_sound : sound token start.
Proof.
  apply (@init_sound logic sample_keccak sample_recovery token (CallContext.mk (account 1) 8453 90)
    [Byte.x61] [Byte.x62] [Byte.x55; Byte.x53; Byte.x44] (account 1)
    [Stablecoins.mint (account 5) 100; grantRole (role B20TokenRole.Seize) (account 2)] ()).
  - repeat constructor; done.
  - exact created_ok.
Qed.

Lemma finish_sound : sound token finish.
Proof. apply run_token_sound; [apply life_ok|apply start_sound]. Qed.

Lemma token_books_witness :
  sound token finish /\ total_supply finish = 100 /\ balance_of (account 5) finish = 60 /\
  balance_of (account 6) finish = 25 /\ balance_of (account 9) finish = 11 /\ balance_of (account 8) finish = 4.
Proof.
  split; [|vm_compute; auto].
  apply (@token_books sample_keccak sample_recovery token logic (CallContext.mk (account 1) 8453 90)
    [Byte.x61] [Byte.x62] [Byte.x55; Byte.x53; Byte.x44] (account 1)
    [Stablecoins.mint (account 5) 100; grantRole (role B20TokenRole.Seize) (account 2)] () start life).
  - exact created_ok.
  - repeat constructor; done.
  - apply life_ok.
Defined.

(** The spender of account 5 takes 40 within its allowance. *)
Definition approved : TokenStorage.t := @run_token sample_keccak sample_recovery token (take 2 life) start.

Definition spend : StablecoinV3.op () :=
  @B20StablecoinToken.route logic sample_keccak sample_recovery token (CallContext.mk (account 7) 8453 100) false
    (transferFrom (account 5) (account 6) 40).

Definition spent : TokenStorage.t := (spend approved).2.

Lemma spend_ok : spend approved = (Ok (), spent).
Proof. apply (ran spend approved ()). vm_compute. reflexivity. Qed.

Lemma balance_debits_witness :
  allowance (account 5) (account 7) spent = 20 /\
  exists amount, balance_of (account 5) spent = balance_of (account 5) approved - amount /\
    @may_debit logic (account 7) (transferFrom (account 5) (account 6) 40) approved spent (account 5) amount.
Proof.
  split; [vm_compute; reflexivity|].
  assert (Hl : balance_of (account 5) spent < balance_of (account 5) approved) by (vm_compute; reflexivity).
  assert (Hk : call_ok (transferFrom (account 5) (account 6) 40)) by (unfold call_ok, u256_max; lia).
  exact (@balance_debits logic sample_keccak sample_recovery token (CallContext.mk (account 7) 8453 100)
    (transferFrom (account 5) (account 6) 40) approved () spent (account 5) Hk spend_ok Hl).
Defined.

(** After the last admin has gone, neither a grant nor a new cap goes through. *)
Definition attempts : list TokenCall.t :=
  [by_ 1 (grantRole (role B20TokenRole.Mint) (account 1)); by_ 1 (updateSupplyCap 1000);
   by_ 2 (renounceRole (role B20TokenRole.Seize) (account 2))].

Lemma adminless_frozen_witness :
  frozen_by finish (@run_token sample_keccak sample_recovery token attempts finish) /\
  roles (@run_token sample_keccak sample_recovery token attempts finish) = ∅.
Proof.
  split; [|vm_compute; reflexivity].
  apply (@adminless_frozen sample_keccak sample_recovery token attempts finish).
  - apply finish_sound.
  - vm_compute. reflexivity.
  - repeat constructor; done.
Defined.

Lemma approved_sound : sound token approved.
Proof. apply run_token_sound; [repeat constructor; done|apply start_sound]. Qed.

Lemma transfer_from_exact_witness :
  @transferable logic token (account 7) (account 5) (account 6) 40 approved /\
  spent = transferred (account 7) (account 5) (account 6) 40 approved.
Proof.
  exact (proj1 (@transfer_from_exact logic token (account 7) (account 5) (account 6) 40 approved spent
    approved_sound ltac:(lia)) spend_ok).
Defined.

End SampleToken.
